(* ===== verification/_CoqProject ===== *)
-Q . S2P
Prelude.v
GoStrings.v
Bytes.v
NetIP.v
NetText.v
NetCIDR.v
IPRange.v
IPAllocator.v
Pool.v
Capacity.v
Errors.v
Types.v
Webhook.v
ServiceFilter.v
Metrics.v
Cluster.v
Server.v
IPManager.v
Reconciler.v
Admission.v
Outcome.v
Controller.v
Refinement.v
Confined.v
Progress.v
Turnover.v
LoadBalancer.v
Lifecycle.v
Scheme.v
Main.v
DeepCopy.v
