(* ===== verification/Prelude.v ===== *)
(** * helios-lb: a verification library

    helios-lb is a Kubernetes controller that hands out load balancer
    addresses.  A [HeliosConfig] names ranges of addresses; the controller
    gives each eligible service of type LoadBalancer an address of such a
    range, writes it to the ingress of the service and to the status of the
    configuration, and takes the addresses back when the configuration is
    deleted.  An admission webhook checks configurations; a library beside the
    controller balances requests over backends and checks their health.

    ** The program and the files

    Package network (src/internal/network):
    - [GoStrings], [Bytes], [NetIP], [NetText], [NetCIDR] model what the
      package uses of Go's strings, bytes and net: trimming and splitting of
      strings as bytes, addresses as byte lists, their parsers and printers,
      prefixes and masks;
    - [IPRange] is parse.go: a range of addresses from text, comparison,
      increment and decrement of addresses;
    - [IPAllocator] is ip_allocator.go and network.go: the map of addresses in
      use and the scan for a free one.  Each method holds the mutex for all
      its accesses, so a method is one transition of the state record;
    - [Pool] is the contract of the allocator: an abstract set of addresses in
      use, the class [AddressPool] with its laws, and the refinement of it by
      the network manager.  The controller's theorems use the class only;
    - [Capacity] says how much a range can still hand out: the class
      [PoolCapacity] and the free addresses of a range.

    Package v1 (src/api/v1):
    - [Types] is heliosconfig_types.go and the fields of a service the
      controller reads or writes;
    - [Webhook] is heliosconfig_webhook.go: the validators of the fields, the
      check of overlaps with the other configurations, the handlers;
    - [DeepCopy] is zz_generated.deepcopy.go, over a store in which slices,
      maps and pointers are references.

    Package controller (src/internal/controller):
    - [Errors] is errors.go: retryable and permanent errors and their chains;
    - [ServiceFilter] is service_filter.go;
    - [Cluster] is what the controller uses of the Kubernetes client, of the
      clock and of map iteration: the class [Environment] with its laws, and
      an API server in memory that satisfies them and runs the examples.
      Every call may fail and the objects may change at every call;
    - [Server] is the class of a server that answers and has no other writer,
      for the theorems on what the controller achieves; the server in memory
      is one;
    - [IPManager] is ip_manager.go and [Reconciler] is
      heliosconfig_controller.go, in a state monad over the record [ctl]: the
      pool, the world behind the client, the metrics, the events;
    - [Outcome] has what a reconciliation reports with each of its results;
    - [Admission] joins the webhook, the allocator and the controller: the
      class [RangedPool] of a pool that stays within ranges, and conflicts
      between admitted configurations;
    - [Controller] is the composition: histories of reconciliations with
      arbitrary changes of the cluster in between;
    - [Refinement] is the protocol of a reconciliation as a machine of its own,
      over the same pool and environment, with a logic of triples that follows
      the code along it; [Confined] has what the machine, and so the code,
      leaves alone on the server in memory;
    - [Progress] and [Turnover] are the composition on a server that answers:
      from the event of a service to its ingress, and from there to the
      deletion of the configuration.

    Package metrics (src/internal/metrics) is [Metrics]; package loadbalancer
    (src/internal/loadbalancer) is [LoadBalancer], its sequential operations
    over a store of shared backends, and [Lifecycle], the running balancer:
    the goroutines of the health checks, the ticker, the channel and wait
    groups of [Stop], and the callers, as one transition system.  [Main] is
    src/cmd/main.go: the command line, the options of the servers, and the
    setup with its exits; [Scheme] is groupversion_info.go with the
    initialisers of packages v1 and main, which fill the scheme of the client.

    This file has the shared parts: results of fallible functions, the state
    monad and its notation, machine integers, and the relation [moves] with
    its tactic for code that moves its state along a preorder.

    ** What the theorems show

    Allocation: the scan computes first fit on integers up to its limit; a
    granted address was free and lies in the range; every free address within
    the limit is found; a requested address is granted exactly or refused; no
    run of the network manager grants an address twice without a release; the
    manager refines the abstract pool.

    Controller: an assignment grants free addresses, gives everything back on
    every error and ends with the ingress written, the address of a range of
    one excepted, which is shared; a reconciliation keeps
    every address of the status in use and within the ranges, respects the
    quota, stops on a conflict, reports its outcome with the right delay,
    reason and conditions, is counted once and never panics in the metrics; a
    deletion releases exactly the addresses of the status; over a whole history
    two grants of one address have a deletion in between, unless a range of
    this one address shares it.  Every reconciliation refines the protocol: it
    allocates from its own ranges only, marks and releases only what it may,
    writes no address it was not granted, and leaves other configurations as
    they are.

    Progress: a range hands out exactly its free addresses; on a server that
    answers and with room in the ranges and the quota ([serviceable]), a
    service event enqueues the configuration, one reconciliation gives every
    waiting service an ingress, with the address it requests or a free one,
    the next one changes nothing, and a deletion afterwards restores the pool
    and the services.

    Ranges and admission: parsing inverts printing, a CIDR range is its block,
    a range is accepted exactly if it parses to ordered bounds of one family,
    and an admitted configuration shares no allocatable address with another
    in the same field, so admitted configurations do not stop each other with
    conflicts.

    Balancer: round robin and weighted round robin are fair, every algorithm
    picks what it may pick and never panics (indices, remainders and random
    numbers are checked operations whose failure is a value); in the running
    balancer machine integers stay in range, no connection is lost, the metrics
    show the backends as they are, a round of checks computes its sequential
    function, and [Stop] leaves nothing running, terminates and does not panic
    unless two callers race.

    Program: flags round trip, the setup fails stop, the servers get the
    options of the flags, the scheme knows every kind the client is used with,
    and deep copies are independent of their originals.

    Several theorems state where the code departs from its intent (for
    instance [allocation_gaps], [controller_gaps], [overlap_check_gaps],
    [mapped_cidr_collapses], [admitted_yet_conflicting], [concurrent_stops],
    [method_is_round_robin], [one_request_blocks]); they are universal or
    computed on concrete runs, and the correctness theorems say where these
    cases are excluded, such as [shares_address] for the address of a range of
    one and [room] for requests that do not compete.

    ** Bounds and fuel

    [IPAllocator.scan] recurses on the addresses left of the limit, which is
    the loop's own bound: the source counts scanned addresses up to maxScan
    and fails beyond it, so the fuel is exact and not an approximation.
    [NetIP] runs the loop of the IPv6 printer for eight fields, the number an
    address has.  The in-memory server retries five times, as
    retry.DefaultRetry does; the theorems only use that a retried function
    returns the result of its last attempt.  Every other recursion is
    structural.  In [Lifecycle] nothing is bounded: termination of [Stop] is a
    measure, [work], that every step of a goroutine decreases and a tick
    raises by at most [snapshot_size + 5], and only while the loop has not
    received from the channel.  While both the channel and the ticker are
    ready the select picks one at random, so the theorem bounds the run by
    the number of ticks instead of excluding them.

    Integers are [Z] with the wrap-around of their width written out: bytes,
    the uint32 counters of the algorithms, int32 connections, the int of the
    weights, the int32 conversion in the quota.

    ** Not modelled

    Log messages and log keys, the registration of the controller and of the
    webhook with the manager (the watch on services, its predicate and its
    mapping function are modelled, the queue behind them is not), the text of
    error values beyond what the code inspects, and the helpers of the
    end-to-end tests (src/test/utils), which run kubectl and kind.  Reconciliations are
    sequential, as with controller-runtime's default of one worker.  A
    selection of the balancer reads the health of its copied backends in one
    step of [Lifecycle]. *)
From Stdlib Require Export ZArith Lia.
From stdpp Require Export ssreflect base list gmap strings numbers.

(** ** Results of fallible Go functions *)

(** A Go function returning [(T, error)] returns [Ok v] when its error is nil
    and [Err e] when it is not (every function modelled here returns the zero
    value of [T] next to a non-nil error, and no caller reads it). *)
Inductive result (E A : Type) : Type :=
| Ok (a : A)
| Err (e : E).
Arguments Ok {E A} a.
Arguments Err {E A} e.

Declare Scope go_scope.
Delimit Scope go_scope with go.

(** [if err != nil { return err }] *)
Notation "'let?' x := c 'in' k" :=
  (match c with Ok x => k | Err e => Err e end)
  (at level 10, x pattern, c at level 100, k at level 200) : go_scope.

(** Code that reads and writes a state of type [S] returns its value with the
    state it leaves. *)
Definition M (S A : Type) : Type := S -> A * S.
Definition ret {S A} (a : A) : M S A := fun s => (a, s).
Definition bind {S A B} (c : M S A) (k : A -> M S B) : M S B :=
  fun s => let '(a, s') := c s in k a s'.

(** [x := c; k] and [c; k] *)
Notation "'let!' x := c 'in' k" := (bind c (fun x => k))
  (at level 10, x pattern, c at level 100, k at level 200) : go_scope.
Notation "c ';;' k" := (bind c (fun _ => k))
  (at level 100, k at level 200, right associativity) : go_scope.

(** [for _, x := range l { body }] *)
Fixpoint for_each {S A} (body : A -> M S unit) (l : list A) : M S unit :=
  match l with
  | [] => ret tt
  | x :: r => bind (body x) (fun _ => for_each body r)
  end.

Definition is_ok {E A} (r : result E A) : bool :=
  match r with Ok _ => true | Err _ => false end.

(** ** Machine integers *)

(** An integer of width [w] is a [Z]; arithmetic that can leave the range is
    followed by the wrap-around of its type. *)
Definition wrap_u (w z : Z) : Z := z mod 2 ^ w.
Definition wrap_s (w z : Z) : Z := (z + 2 ^ (w - 1)) mod 2 ^ w - 2 ^ (w - 1).

Definition byte_ok (b : Z) : Prop := (0 <= b < 256)%Z.
Definition bytes_ok (l : list Z) : Prop := Forall byte_ok l.

#[export] Instance byte_ok_dec b : Decision (byte_ok b).
Proof. unfold byte_ok. apply _. Defined.
#[export] Instance bytes_ok_dec l : Decision (bytes_ok l).
Proof. unfold bytes_ok. apply _. Defined.

Create HintDb helios.
Create Rewrite HintDb helios.

Lemma bytes_ok_cons b l : bytes_ok (b :: l) <-> byte_ok b /\ bytes_ok l.
Proof. apply Forall_cons_iff. Qed.

Lemma bytes_ok_app l1 l2 : bytes_ok (l1 ++ l2) <-> bytes_ok l1 /\ bytes_ok l2.
Proof. apply Forall_app. Qed.

Lemma bytes_ok_take n l : bytes_ok l -> bytes_ok (take n l).
Proof. apply Forall_take. Qed.

Lemma bytes_ok_drop n l : bytes_ok l -> bytes_ok (drop n l).
Proof. apply Forall_drop. Qed.
#[export] Hint Resolve bytes_ok_take bytes_ok_drop : helios.

(** [lia] that knows division and remainder. *)
Ltac divlia := Z.to_euclidean_division_equations; lia.

Lemma find_app {A} (f : A -> bool) l1 l2 :
  find f (l1 ++ l2) = match find f l1 with Some x => Some x | None => find f l2 end.
Proof. induction l1 as [|x l1 IH]; simpl; [done|]. by destruct (f x). Qed.

(** Bounded quantifiers over a list, one element at a time. *)
Lemma exists_nil {A} (Q : A -> Prop) : (exists y, y ∈ [] /\ Q y) <-> False.
Proof. split; [|done]. by intros (y & ?%elem_of_nil & _). Qed.

Lemma exists_cons {A} (Q : A -> Prop) x l :
  (exists y, y ∈ x :: l /\ Q y) <-> Q x \/ exists y, y ∈ l /\ Q y.
Proof.
  split.
  - intros (y & [->|?]%elem_of_cons & ?); eauto.
  - intros [?|(y & ? & ?)]; [exists x|exists y]; (split; [|done]); apply elem_of_cons; auto.
Qed.

(** ** Code that moves its state along a preorder *)

Definition moves {S A} (R : relation S) (c : M S A) : Prop :=
  forall s a s', c s = (a, s') -> R s s'.

Section moves.
Context {S : Type} (R : relation S) `{!PreOrder R}.

Lemma moves_ret {A} (a : A) : moves R (ret a).
Proof. intros s a' s' [= _ <-]. reflexivity. Qed.

Lemma moves_bind {A B} (c : M S A) (k : A -> M S B) :
  moves R c -> (forall a, moves R (k a)) -> moves R (bind c k).
Proof.
  intros Hc Hk s b s'. unfold bind. destruct (c s) as [a s1] eqn:E. intros E2.
  transitivity s1; [by eapply Hc|by eapply Hk].
Qed.

Lemma moves_for_each {A} (body : A -> M S unit) l :
  (forall a, moves R (body a)) -> moves R (for_each body l).
Proof. intros Hb. induction l as [|x l IH]; simpl; [apply moves_ret|by apply moves_bind]. Qed.

End moves.

(** Follows the structure of the code down to the calls known to the hints. *)
Ltac moves :=
  repeat first
    [ solve [eauto with helios]
    | apply moves_ret; apply _
    | apply moves_bind; [apply _| |intros ?]
    | apply moves_for_each; [apply _|intros ?]
    | match goal with |- moves _ (match ?x with _ => _ end) => destruct x end ].
