(* ===== verification/GoStrings.v ===== *)
(** * Go strings

    The part of Go's [strings] package the repository uses, on strings as byte
    sequences.  A Go string is a [string]; the functions work on its bytes
    ([go_bytes]), because Go indexes strings by byte.  [TrimSpace] is Go's:
    it removes the white space runes of [unicode.IsSpace], the ones outside
    ASCII in their UTF-8 encoding, from both ends. *)
From Stdlib Require Import Ascii.
From S2P Require Import Prelude.

Abbreviation chars := (list ascii).

Definition go_bytes (s : string) : chars := String.list_ascii_of_string s.
Definition of_bytes (l : chars) : string := String.string_of_list_ascii l.

Lemma go_bytes_of_bytes l : go_bytes (of_bytes l) = l.
Proof. apply String.list_ascii_of_string_of_list_ascii. Qed.

Lemma of_bytes_go_bytes s : of_bytes (go_bytes s) = s.
Proof. apply String.string_of_list_ascii_of_string. Qed.

#[export] Instance of_bytes_inj : Inj (=) (=) of_bytes.
Proof. intros l1 l2 H. by rw -(go_bytes_of_bytes l1) H go_bytes_of_bytes. Qed.

Lemma of_bytes_app l1 l2 : of_bytes l1 +:+ of_bytes l2 = of_bytes (l1 ++ l2).
Proof. induction l1 as [|c l1 IH]; simpl; [done|]. by rw -IH. Qed.

#[export] Hint Rewrite go_bytes_of_bytes of_bytes_go_bytes : helios.

(** The code of a byte, as an integer. *)
Definition code (c : ascii) : Z := Z.of_N (N_of_ascii c).

Lemma code_range c : byte_ok (code c).
Proof. unfold byte_ok, code. pose proof (N_ascii_bounded c). lia. Qed.

(** [unicode.IsSpace], by the length of the UTF-8 encoding of the rune. *)
Definition space1 (c : ascii) : bool :=
  ((9 <=? code c) && (code c <=? 13) || (code c =? 32))%Z.

(** U+0085, U+00A0 *)
Definition space2 (c d : ascii) : bool :=
  ((code c =? 0xC2) && ((code d =? 0x85) || (code d =? 0xA0)))%Z.

(** U+1680, U+2000..U+200A, U+2028, U+2029, U+202F, U+205F, U+3000 *)
Definition space3 (c d e : ascii) : bool :=
  ((code c =? 0xE1) && (code d =? 0x9A) && (code e =? 0x80)
   || (code c =? 0xE2) && (code d =? 0x80)
        && ((0x80 <=? code e) && (code e <=? 0x8A) || (code e =? 0xA8)
            || (code e =? 0xA9) || (code e =? 0xAF))
   || (code c =? 0xE2) && (code d =? 0x81) && (code e =? 0x9F)
   || (code c =? 0xE3) && (code d =? 0x80) && (code e =? 0x80))%Z.

(** Drops the leading white space runes. *)
Fixpoint trim_left (s : chars) : chars :=
  match s with
  | c :: r =>
      if space1 c then trim_left r
      else match r with
           | d :: r2 =>
               if space2 c d then trim_left r2
               else match r2 with
                    | e :: r3 => if space3 c d e then trim_left r3 else s
                    | [] => s
                    end
           | [] => s
           end
  | [] => []
  end.

(** The same on a reversed string, for the white space runes at the end. *)
Fixpoint trim_left_rev (s : chars) : chars :=
  match s with
  | c :: r =>
      if space1 c then trim_left_rev r
      else match r with
           | d :: r2 =>
               if space2 d c then trim_left_rev r2
               else match r2 with
                    | e :: r3 => if space3 e d c then trim_left_rev r3 else s
                    | [] => s
                    end
           | [] => s
           end
  | [] => []
  end.

Definition trim_space (s : chars) : chars :=
  rev (trim_left_rev (rev (trim_left s))).

(** [strings.TrimSpace] *)
Definition TrimSpace (s : string) : string := of_bytes (trim_space (go_bytes s)).

(** [strings.Contains(s, sep)] for a separator of one byte. *)
Definition contains (sep : ascii) (s : chars) : bool :=
  existsb (Ascii.eqb sep) s.

(** [strings.Split(s, sep)] for a separator of one byte: the maximal pieces
    between the occurrences of [sep], one more than there are occurrences. *)
Fixpoint split_on (sep : ascii) (s : chars) : list chars :=
  match s with
  | [] => [[]]
  | c :: r =>
      if Ascii.eqb sep c then [] :: split_on sep r
      else match split_on sep r with
           | p :: ps => (c :: p) :: ps
           | [] => [[c]]
           end
  end.

(** [strings.Cut(s, sep)] for a separator of one byte. *)
Fixpoint cut (sep : ascii) (s : chars) : option (chars * chars) :=
  match s with
  | [] => None
  | c :: r =>
      if Ascii.eqb sep c then Some ([], r)
      else match cut sep r with
           | Some (b, a) => Some (c :: b, a)
           | None => None
           end
  end.

(** ** Lemmas *)

(** Bytes that are not part of the encoding of a white space rune: every byte
    of the textual form of an address is one. *)
Definition solid (c : ascii) : bool := ((33 <=? code c) && (code c <? 128))%Z.

Lemma solid_not_space1 c : solid c = true -> space1 c = false.
Proof. unfold solid, space1. lia. Qed.

Lemma solid_not_space2 c d : solid c = true \/ solid d = true -> space2 c d = false.
Proof. unfold solid, space2. lia. Qed.

Lemma solid_not_space3 c d e :
  solid c = true \/ solid d = true \/ solid e = true -> space3 c d e = false.
Proof. unfold solid, space3. lia. Qed.

Lemma trim_left_solid c s : solid c = true -> trim_left (c :: s) = c :: s.
Proof.
  intros H. simpl. rw (solid_not_space1 _ H).
  destruct s as [|d [|e s]]; [done| |];
    rw solid_not_space2; auto. by rw solid_not_space3; auto.
Qed.

Lemma trim_left_rev_solid c s : solid c = true -> trim_left_rev (c :: s) = c :: s.
Proof.
  intros H. simpl. rw (solid_not_space1 _ H).
  destruct s as [|d [|e s]]; [done| |];
    rw solid_not_space2; auto. by rw solid_not_space3; auto.
Qed.

(** Text whose bytes are all solid is its own trimming. *)
Lemma trim_space_solid s : forallb solid s = true -> trim_space s = s.
Proof.
  intros H. unfold trim_space.
  assert (Hl : trim_left s = s).
  { destruct s as [|c s]; [done|]. apply trim_left_solid.
    simpl in H. by apply andb_prop in H as [? _]. }
  rw Hl.
  assert (Hr : trim_left_rev (rev s) = rev s).
  { destruct (rev s) as [|c r] eqn:E; [done|]. apply trim_left_rev_solid.
    rw forallb_forall in H. apply H.
    apply in_rev. rw E. by left. }
  by rw Hr rev_involutive.
Qed.

Lemma contains_false sep s : contains sep s = false <-> sep ∉ s.
Proof.
  unfold contains. induction s as [|c s IH]; simpl.
  - split; [|done]. intros _ H. by apply elem_of_nil in H.
  - rw orb_false_iff IH not_elem_of_cons.
    destruct (Ascii.eqb_spec sep c); naive_solver.
Qed.

Lemma split_on_notin sep s : sep ∉ s -> split_on sep s = [s].
Proof.
  induction s as [|c s IH]; [done|]. intros [? ?]%not_elem_of_cons. simpl.
  destruct (Ascii.eqb_spec sep c); [done|]. by rw IH.
Qed.

Lemma split_on_app sep s t :
  sep ∉ s -> split_on sep (s ++ sep :: t) = s :: split_on sep t.
Proof.
  induction s as [|c s IH]; simpl.
  - intros _. by rw Ascii.eqb_refl.
  - intros [? ?]%not_elem_of_cons.
    destruct (Ascii.eqb_spec sep c); [done|]. by rw IH.
Qed.
