(* ===== verification/Bytes.v ===== *)
(** * Byte strings

    Go's [bytes.Compare] and the theory of byte strings as big-endian numbers:
    on strings of one length the lexicographic order is the order of the
    numbers they denote. *)
From S2P Require Import Prelude.

Local Open Scope Z_scope.

(** [bytes.Compare]: lexicographic, a proper prefix first. *)
Fixpoint Compare (a b : list Z) : Z :=
  match a, b with
  | [], [] => 0
  | [], _ :: _ => -1
  | _ :: _, [] => 1
  | x :: a', y :: b' => if x <? y then -1 else if y <? x then 1 else Compare a' b'
  end.

(** The order the callers test with [Compare a b <= 0]. *)
Definition bytes_le (a b : list Z) : Prop := Compare a b <= 0.

#[export] Instance bytes_le_dec : RelDecision bytes_le.
Proof. intros a b. unfold bytes_le. apply _. Defined.

(** The number a byte string denotes, most significant byte first. *)
Fixpoint be_val (l : list Z) : Z :=
  match l with
  | [] => 0
  | b :: r => b * 256 ^ Z.of_nat (length r) + be_val r
  end.

(** ** [Compare] is a total order *)

Lemma Compare_range a b : Compare a b = -1 \/ Compare a b = 0 \/ Compare a b = 1.
Proof.
  revert b. induction a as [|x a IH]; intros [|y b]; simpl; auto.
  repeat case_match; auto.
Qed.

Lemma Compare_refl a : Compare a a = 0.
Proof. induction a as [|x a IH]; simpl; [done|]. by rw Z.ltb_irrefl. Qed.

Lemma Compare_swap a b : Compare b a = - Compare a b.
Proof.
  revert b. induction a as [|x a IH]; intros [|y b]; simpl; try done.
  destruct (Z.ltb_spec x y), (Z.ltb_spec y x); try done; lia.
Qed.

Lemma Compare_eq a b : Compare a b = 0 -> a = b.
Proof.
  revert b. induction a as [|x a IH]; intros [|y b]; simpl; try done.
  destruct (Z.ltb_spec x y), (Z.ltb_spec y x); try done.
  intros Heq%IH. f_equal; [lia|done].
Qed.

Lemma bytes_le_ge a b : 0 <= Compare a b <-> bytes_le b a.
Proof. unfold bytes_le. rw (Compare_swap a b). lia. Qed.

#[export] Instance bytes_le_trans : Transitive bytes_le.
Proof.
  unfold bytes_le. intros a. induction a as [|x a IH]; intros [|y b] [|z c]; simpl; try lia.
  intros H1 H2. specialize (IH b c).
  destruct (Z.ltb_spec x y), (Z.ltb_spec y x), (Z.ltb_spec y z), (Z.ltb_spec z y),
    (Z.ltb_spec x z), (Z.ltb_spec z x); lia.
Qed.

#[export] Instance bytes_le_refl : Reflexive bytes_le.
Proof. intros a. unfold bytes_le. rw Compare_refl. lia. Qed.

#[export] Instance bytes_le_antisymm : AntiSymm (=) bytes_le.
Proof.
  intros a b H1 H2. apply Compare_eq. unfold bytes_le in *.
  rw (Compare_swap a b) in H2. lia.
Qed.

#[export] Instance bytes_le_total : Total bytes_le.
Proof.
  intros a b. unfold bytes_le. rw (Compare_swap a b).
  destruct (Compare_range a b) as [|[|]]; lia.
Qed.

Lemma not_bytes_le a b : ~ bytes_le a b -> bytes_le b a.
Proof. destruct (total bytes_le a b); tauto. Qed.

(** ** Big-endian values *)

Lemma pow256_pos n : 0 < 256 ^ Z.of_nat n.
Proof. apply Z.pow_pos_nonneg; lia. Qed.
#[export] Hint Resolve pow256_pos : helios.

Lemma pow256_succ n : 256 ^ Z.of_nat (S n) = 256 * 256 ^ Z.of_nat n.
Proof. rw Nat2Z.inj_succ. apply Z.pow_succ_r. lia. Qed.

Lemma be_val_range l : bytes_ok l -> 0 <= be_val l < 256 ^ Z.of_nat (length l).
Proof.
  induction 1 as [|b l Hb Hl IH]; simpl be_val; simpl length; [done|].
  rw pow256_succ. unfold byte_ok in Hb. nia.
Qed.

Lemma be_val_inj a b :
  bytes_ok a -> bytes_ok b -> length a = length b -> be_val a = be_val b -> a = b.
Proof.
  intros Ha. revert b. induction Ha as [|x a Hx Ha IH]; intros [|y b] Hb Hlen Hv; try done.
  apply bytes_ok_cons in Hb as [Hy Hb]. simpl in *. injection Hlen as Hlen.
  rw Hlen in Hv.
  pose proof (be_val_range a Ha) as Ra. pose proof (be_val_range b Hb) as Rb.
  rw Hlen in Ra. assert (x = y) as -> by nia.
  f_equal. apply IH; [done|done|lia].
Qed.

(** On byte strings of one length, [Compare] compares the values. *)
Lemma Compare_be_val a b :
  bytes_ok a -> bytes_ok b -> length a = length b ->
  Compare a b = Z.sgn (be_val a - be_val b).
Proof.
  intros Ha. revert b. induction Ha as [|x a Hx Ha IH]; intros [|y b] Hb Hlen; try done.
  apply bytes_ok_cons in Hb as [Hy Hb]. simpl in *. injection Hlen as Hlen.
  pose proof (be_val_range a Ha) as Ra. pose proof (be_val_range b Hb) as Rb.
  rw Hlen in Ra. rw Hlen. specialize (IH b Hb Hlen).
  destruct (Z.ltb_spec x y); [symmetry; apply Z.sgn_neg; nia|].
  destruct (Z.ltb_spec y x); [symmetry; apply Z.sgn_pos; nia|].
  rw IH. f_equal. assert (x = y) by lia. nia.
Qed.

Lemma bytes_le_be_val a b :
  bytes_ok a -> bytes_ok b -> length a = length b ->
  bytes_le a b <-> be_val a <= be_val b.
Proof.
  intros. unfold bytes_le. rw Compare_be_val; try done.
  destruct (Z.sgn_spec (be_val a - be_val b)) as [[? ->]|[[? ->]|[? ->]]]; lia.
Qed.

Lemma be_val_app a b :
  be_val (a ++ b) = be_val a * 256 ^ Z.of_nat (length b) + be_val b.
Proof.
  induction a as [|x a IH]; simpl; [done|].
  rw IH length_app Nat2Z.inj_add Z.pow_add_r; [lia|lia|]. lia.
Qed.

(** The byte string of length [n] that denotes [v]. *)
Fixpoint be_bytes (n : nat) (v : Z) : list Z :=
  match n with
  | O => []
  | S n' => (v / 256 ^ Z.of_nat n') mod 256 :: be_bytes n' v
  end.

Lemma length_be_bytes n v : length (be_bytes n v) = n.
Proof. induction n; simpl; auto. Qed.

Lemma be_bytes_ok n v : bytes_ok (be_bytes n v).
Proof.
  induction n as [|n IH]; simpl; constructor; [|done].
  apply Z.mod_pos_bound. lia.
Qed.

Lemma be_val_be_bytes n v : be_val (be_bytes n v) = v mod 256 ^ Z.of_nat n.
Proof.
  induction n as [|n IH]; [simpl; by rw Z.mod_1_r|].
  simpl be_bytes. simpl be_val. rw length_be_bytes IH pow256_succ.
  rw (Z.mul_comm 256) Z.rem_mul_r; [lia| |lia].
  pose proof (pow256_pos n). lia.
Qed.

Lemma be_bytes_be_val l : bytes_ok l -> be_bytes (length l) (be_val l) = l.
Proof.
  intros H. apply be_val_inj; [apply be_bytes_ok|done|apply length_be_bytes|].
  rw be_val_be_bytes Z.mod_small; [done|]. by apply be_val_range.
Qed.
#[export] Hint Resolve be_bytes_ok : helios.
