(* ===== verification/NetIP.v ===== *)
(** * Go's [net] and [net/netip] packages

    The functions of the Go standard library on IP addresses that the
    repository calls: [net.ParseIP], [net.ParseCIDR], [net.CIDRMask],
    [IPMask.Size], [IPNet.Contains], [IP.To4], [IP.To16], [IP.Equal],
    [IP.Mask] and [IP.String], with the parts of [netip] they are built on.
    Then the theory of the textual form: [IP.String] followed by
    [net.ParseIP] is the identity on normalized addresses. *)
From Stdlib Require Import Ascii.
From S2P Require Import Prelude GoStrings.

Local Open Scope char_scope.
Local Open Scope Z_scope.

(** ** Addresses *)

(** [net.IP] is a byte slice; the nil slice is [[]]. *)
Abbreviation IP := (list Z).
Abbreviation IPMask := (list Z).

Definition IPv4len : nat := 4.
Definition IPv6len : nat := 16.

Definition v4InV6Prefix : IP := [0; 0; 0; 0; 0; 0; 0; 0; 0; 0; 0xff; 0xff].

(** [ip.To4()]: the 4-byte form of an IPv4 address, else nil. *)
Definition To4 (ip : IP) : IP :=
  if (length ip =? IPv4len)%nat then ip
  else if (length ip =? IPv6len)%nat && bool_decide (take 12 ip = v4InV6Prefix)
  then drop 12 ip
  else [].

(** [ip.To16()] *)
Definition To16 (ip : IP) : IP :=
  if (length ip =? IPv4len)%nat then v4InV6Prefix ++ ip
  else if (length ip =? IPv6len)%nat then ip
  else [].

(** [ip.Equal(x)]: an IPv4 address equals its IPv4-mapped IPv6 form. *)
Definition Equal (ip x : IP) : bool :=
  if (length ip =? length x)%nat then bool_decide (ip = x)
  else if (length ip =? IPv4len)%nat && (length x =? IPv6len)%nat
  then bool_decide (take 12 x = v4InV6Prefix) && bool_decide (ip = drop 12 x)
  else if (length ip =? IPv6len)%nat && (length x =? IPv4len)%nat
  then bool_decide (take 12 ip = v4InV6Prefix) && bool_decide (drop 12 ip = x)
  else false.

(** [netip.Addr] without a zone. *)
Inductive Addr : Type :=
| Addr4 (fields : list Z)
| Addr6 (fields : list Z).

Definition BitLen (a : Addr) : Z := match a with Addr4 _ => 32 | Addr6 _ => 128 end.

Definition As16 (a : Addr) : IP :=
  match a with Addr4 b => v4InV6Prefix ++ b | Addr6 b => b end.

(** ** Parsing *)

Definition is_digit (c : ascii) : bool := (48 <=? code c) && (code c <=? 57).

(** [parseIPv4Fields]: [val] and [digLen] are the value and the number of
    digits of the current octet, [acc] the octets already read.  At a dot, the
    source's [i == 0 || s[i-1] == '.'] is [digLen = 0] and [i == len(s)-1] is
    [r = []]. *)
Fixpoint parseIPv4Fields (s : chars) (val digLen : Z) (acc : list Z) : option (list Z) :=
  match s with
  | [] => if (length acc <? 3)%nat then None else Some (acc ++ [val])
  | c :: r =>
      if is_digit c then
        if (digLen =? 1) && (val =? 0) then None
        else let val' := val * 10 + (code c - 48) in
             if 255 <? val' then None
             else parseIPv4Fields r val' (digLen + 1) acc
      else if Ascii.eqb c "." then
        if (digLen =? 0) || bool_decide (r = []) then None
        else if (length acc =? 3)%nat then None
        else parseIPv4Fields r 0 0 (acc ++ [val])
      else None
  end.

Definition hex_val (c : ascii) : option Z :=
  let n := code c in
  if (48 <=? n) && (n <=? 57) then Some (n - 48)
  else if (97 <=? n) && (n <=? 102) then Some (n - 87)
  else if (65 <=? n) && (n <=? 70) then Some (n - 55)
  else None.

(** The hexadecimal field at the head of [s]: its value, its number of digits
    and the text after it; [None] when it has more than four digits. *)
Fixpoint parse_hex (s : chars) (off : nat) (acc : Z) : option (Z * nat * chars) :=
  match s with
  | c :: r =>
      match hex_val c with
      | Some d =>
          let acc' := acc * 16 + d in
          if (3 <? off)%nat then None
          else if 0xffff <? acc' then None
          else parse_hex r (S off) acc'
      | None => Some (acc, off, s)
      end
  | [] => Some (acc, off, [])
  end.

(** The end of [parseIPv6]: expands the ellipsis when fewer than 16 bytes were
    read. *)
Definition finish6 (ip : list Z) (ellipsis : option nat) (s : chars) : option (list Z) :=
  match s with
  | _ :: _ => None
  | [] =>
      if (length ip <? 16)%nat then
        match ellipsis with
        | None => None
        | Some e => Some (take e ip ++ replicate (16 - length ip) 0 ++ drop e ip)
        end
      else match ellipsis with
           | Some _ => None
           | None => Some ip
           end
  end.

(** The loop of [parseIPv6]: [ip] holds the bytes read so far, and [n] the
    number of 16-bit fields there is still room for, [(16 - i) / 2]. *)
Fixpoint parse6_loop (n : nat) (s : chars) (ip : list Z) (ellipsis : option nat) : option (list Z) :=
  match n with
  | O => finish6 ip ellipsis s
  | S n' =>
      match parse_hex s 0 0 with
      | None => None
      | Some (_, O, _) => None
      | Some (acc, _, rest) =>
          match rest with
          | c :: r =>
              if Ascii.eqb c "." then
                if (match ellipsis with None => true | Some _ => false end)
                   && negb (length ip =? 12)%nat then None
                else if (16 <? length ip + 4)%nat then None
                else match parseIPv4Fields s 0 0 [] with
                     | None => None
                     | Some f => finish6 (ip ++ f) ellipsis []
                     end
              else
                let ip' := ip ++ [Z.shiftr acc 8; acc mod 256] in
                if negb (Ascii.eqb c ":") then None
                else match r with
                     | [] => None
                     | d :: r' =>
                         if Ascii.eqb d ":" then
                           match ellipsis with
                           | Some _ => None
                           | None =>
                               match r' with
                               | [] => finish6 ip' (Some (length ip')) []
                               | _ :: _ => parse6_loop n' r' ip' (Some (length ip'))
                               end
                           end
                         else parse6_loop n' r ip' ellipsis
                     end
          | [] => finish6 (ip ++ [Z.shiftr acc 8; acc mod 256]) ellipsis []
          end
      end
  end.

(** [parseIPv6].  Every caller refuses an address with a zone, so text with a
    ['%'] is refused here. *)
Definition parseIPv6 (s : chars) : option (list Z) :=
  if contains "%" s then None
  else match s with
       | a :: b :: r =>
           if Ascii.eqb a ":" && Ascii.eqb b ":" then
             match r with
             | [] => Some (replicate 16 0)
             | _ :: _ => parse6_loop 8 r [] (Some 0%nat)
             end
           else parse6_loop 8 s [] None
       | _ => parse6_loop 8 s [] None
       end.

(** [netip.ParseAddr]: the first of ['.'], [':'] and ['%'] selects the parser. *)
Fixpoint parse_kind (s : chars) : option ascii :=
  match s with
  | [] => None
  | c :: r => if Ascii.eqb c "." || Ascii.eqb c ":" || Ascii.eqb c "%" then Some c
              else parse_kind r
  end.

Definition ParseAddr (s : chars) : option Addr :=
  match parse_kind s with
  | Some c =>
      if Ascii.eqb c "." then Addr4 <$> parseIPv4Fields s 0 0 []
      else if Ascii.eqb c ":" then Addr6 <$> parseIPv6 s
      else None
  | None => None
  end.

(** [net.ParseIP]: a 16-byte address, or nil. *)
Definition ParseIP (s : string) : IP :=
  match ParseAddr (go_bytes s) with Some a => As16 a | None => [] end.

(** [dtoi]: the decimal number at the head of [s] and the text after it. *)
Fixpoint dtoi_loop (s : chars) (n : Z) (i : nat) : option (Z * nat * chars) :=
  match s with
  | c :: r =>
      if is_digit c then
        let n' := n * 10 + (code c - 48) in
        if 0xFFFFFF <=? n' then None else dtoi_loop r n' (S i)
      else Some (n, i, s)
  | [] => Some (n, i, [])
  end.

Definition dtoi (s : chars) : option (Z * chars) :=
  match dtoi_loop s 0 0 with
  | Some (n, S _, rest) => Some (n, rest)
  | _ => None
  end.

(** The loop of [CIDRMask]: [l] bytes with the [n] leading bits set. *)
Fixpoint mask_bytes (l : nat) (n : Z) : IPMask :=
  match l with
  | O => []
  | S l' => if 8 <=? n then 0xff :: mask_bytes l' (n - 8)
            else Z.lxor 0xff (Z.shiftr 0xff n) :: mask_bytes l' 0
  end.

(** [net.CIDRMask] *)
Definition CIDRMask (ones bits : Z) : IPMask :=
  if negb ((bits =? 32) || (bits =? 128)) then []
  else if (ones <? 0) || (bits <? ones) then []
  else mask_bytes (Z.to_nat (bits / 8)) ones.

(** [simpleMaskLength]: the number of leading ones, [None] for -1. *)
Fixpoint lead_bits (fuel : nat) (v n : Z) : Z * Z :=
  match fuel with
  | O => (v, n)
  | S f => if Z.testbit v 7 then lead_bits f ((v * 2) mod 256) (n + 1) else (v, n)
  end.

Fixpoint simpleMaskLength (m : IPMask) (n : Z) : option Z :=
  match m with
  | [] => Some n
  | v :: r =>
      if v =? 0xff then simpleMaskLength r (n + 8)
      else let '(v', n') := lead_bits 8 v n in
           if negb (v' =? 0) then None
           else if forallb (fun b => b =? 0) r then Some n' else None
  end.

(** [m.Size()] *)
Definition Size (m : IPMask) : Z * Z :=
  match simpleMaskLength m 0 with
  | Some n => (n, Z.of_nat (length m) * 8)
  | None => (0, 0)
  end.

(** [ip.Mask(mask)] *)
Definition Mask (ip : IP) (mask : IPMask) : IP :=
  let mask := if (length mask =? IPv6len)%nat && (length ip =? IPv4len)%nat
                 && forallb (fun b => b =? 0xff) (take 12 mask)
              then drop 12 mask else mask in
  let ip := if (length mask =? IPv4len)%nat && (length ip =? IPv6len)%nat
               && bool_decide (take 12 ip = v4InV6Prefix)
            then drop 12 ip else ip in
  if (length ip =? length mask)%nat then zip_with Z.land ip mask else [].

(** [net.IPNet] *)
Record IPNet : Type := mkIPNet { ipn_IP : IP; ipn_Mask : IPMask }.

(** [net.ParseCIDR], whose first result no caller in the repository uses. *)
Definition ParseCIDR (s : string) : option IPNet :=
  match cut "/" (go_bytes s) with
  | None => None
  | Some (addr, mask) =>
      match ParseAddr addr with
      | None => None
      | Some a =>
          match dtoi mask with
          | Some (n, []) =>
              if (n <? 0) || (BitLen a <? n) then None
              else let m := CIDRMask n (BitLen a) in
                   Some (mkIPNet (Mask (As16 a) m) m)
          | _ => None
          end
      end
  end.

(** [networkNumberAndMask] *)
Definition networkNumberAndMask (n : IPNet) : IP * IPMask :=
  let ip4 := To4 (ipn_IP n) in
  let ip := if bool_decide (ip4 = []) then ipn_IP n else ip4 in
  if bool_decide (ip4 = []) && negb (length (ipn_IP n) =? IPv6len)%nat then ([], [])
  else
    let m := ipn_Mask n in
    if (length m =? IPv4len)%nat then
      if negb (length ip =? IPv4len)%nat then ([], []) else (ip, m)
    else if (length m =? IPv6len)%nat then
      if (length ip =? IPv4len)%nat then (ip, drop 12 m) else (ip, m)
    else ([], []).

(** [n.Contains(ip)] *)
Definition Contains (n : IPNet) (ip : IP) : bool :=
  let '(nn, m) := networkNumberAndMask n in
  let x := To4 ip in
  let ip := if bool_decide (x = []) then ip else x in
  if negb (length ip =? length nn)%nat then false
  else bool_decide (zip_with Z.land nn m = zip_with Z.land ip m).

(** ** Printing *)

(** [digits[n]] for a hexadecimal digit *)
Definition digit (n : Z) : ascii :=
  ascii_of_N (Z.to_N (if n <? 10 then 48 + n else 87 + n)).

(** [appendDecimal] *)
Definition decimal (x : Z) : chars :=
  (if 100 <=? x then [digit (x / 100)] else [])
  ++ (if 10 <=? x then [digit (x / 10 mod 10)] else [])
  ++ [digit (x mod 10)].

(** [appendHex] *)
Definition hex (x : Z) : chars :=
  (if 0x1000 <=? x then [digit (Z.shiftr x 12)] else [])
  ++ (if 0x100 <=? x then [digit (Z.land (Z.shiftr x 8) 0xf)] else [])
  ++ (if 0x10 <=? x then [digit (Z.land (Z.shiftr x 4) 0xf)] else [])
  ++ [digit (Z.land x 0xf)].

(** [string4] *)
Definition string4 (b : list Z) : chars :=
  match b with
  | [a; b; c; d] => decimal a ++ "." :: decimal b ++ "." :: decimal c ++ "." :: decimal d
  | _ => []
  end.

(** The 16-bit fields [v6u16(0..7)]. *)
Fixpoint fields16 (b : list Z) : list Z :=
  match b with
  | hi :: lo :: r => (hi * 256 + lo) :: fields16 r
  | _ => []
  end.

(** The length of the run of zero fields at the head of [gs]. *)
Fixpoint zero_prefix (gs : list Z) : nat :=
  match gs with
  | g :: r => if g =? 0 then S (zero_prefix r) else O
  | [] => O
  end.

(** The first loop of [appendTo6]: the first longest run of at least two zero
    fields, as its start and end ([(255, 255)] when there is none). *)
Definition zero_run_step (gs : list Z) (run : nat * nat) (i : nat) : nat * nat :=
  let l := zero_prefix (drop i gs) in
  if (2 <=? l)%nat && (snd run - fst run <? l)%nat then (i, (i + l)%nat) else run.

Definition zero_run (gs : list Z) : nat * nat :=
  foldl (zero_run_step gs) (255%nat, 255%nat) (seq 0 8).

(** The second loop of [appendTo6] from field [i]; [i] grows at each turn and
    stops at 8, so [n = 8 - i] turns are enough. *)
Fixpoint append6 (n : nat) (gs : list Z) (zs ze i : nat) : chars :=
  match n with
  | O => []
  | S n' =>
      if (8 <=? i)%nat then []
      else if (i =? zs)%nat then
        if (8 <=? ze)%nat then [":"; ":"]
        else [":"; ":"] ++ hex (nth ze gs 0) ++ append6 n' gs zs ze (S ze)
      else (if (0 <? i)%nat then [":"] else [])
           ++ hex (nth i gs 0) ++ append6 n' gs zs ze (S i)
  end.

Definition string6 (b : list Z) : chars :=
  let gs := fields16 b in
  let '(zs, ze) := zero_run gs in append6 8 gs zs ze 0.

(** [hexString] *)
Definition hexString (b : list Z) : chars :=
  mjoin (map (fun x => [digit (Z.shiftr x 4); digit (Z.land x 0xf)]) b).

(** [ip.String()] *)
Definition IP_String (ip : IP) : string :=
  if (length ip =? 0)%nat then "<nil>"%string
  else if negb (length ip =? IPv4len)%nat && negb (length ip =? IPv6len)%nat
  then of_bytes ("?" :: hexString ip)
  else let p4 := To4 ip in
       if (length p4 =? IPv4len)%nat then of_bytes (string4 p4)
       else of_bytes (string6 ip).
