(* ===== verification/NetText.v ===== *)
(** * The textual form of addresses

    [IP.String] and [net.ParseIP] are inverse to each other on normalized
    addresses: 4-byte addresses and 16-byte addresses that are not
    IPv4-mapped.  The allocator keys its map of used addresses by this text,
    so that two addresses share an entry only if they are equal. *)
From Stdlib Require Import Ascii.
From S2P Require Import Prelude GoStrings Bytes NetIP.

Local Open Scope char_scope.
Local Open Scope Z_scope.

(** ** Digits *)

Lemma nibble_cases (P : Z -> Prop) :
  Forall P [0; 1; 2; 3; 4; 5; 6; 7; 8; 9; 10; 11; 12; 13; 14; 15] ->
  forall n, 0 <= n < 16 -> P n.
Proof.
  rw List.Forall_forall. intros H n Hn. apply H. cbn. lia.
Qed.

(** The characters of the textual form. *)
Definition ip_char (c : ascii) : bool :=
  match hex_val c with Some _ => true | None => Ascii.eqb c "." || Ascii.eqb c ":" end.

Lemma hex_val_digit n : 0 <= n < 16 -> hex_val (digit n) = Some n.
Proof. revert n. apply nibble_cases. repeat constructor. Qed.

Lemma digit_colon n : 0 <= n < 16 -> Ascii.eqb (digit n) ":" = false.
Proof. revert n. apply nibble_cases. repeat constructor. Qed.

Lemma digit_kind n :
  0 <= n < 16 ->
  Ascii.eqb (digit n) "." || Ascii.eqb (digit n) ":" || Ascii.eqb (digit n) "%" = false.
Proof. revert n. apply nibble_cases. repeat constructor. Qed.

Lemma ip_char_digit n : 0 <= n < 16 -> ip_char (digit n) = true.
Proof. intros. unfold ip_char. by rw hex_val_digit. Qed.

Lemma decimal_digit n : 0 <= n < 10 -> is_digit (digit n) = true /\ code (digit n) - 48 = n.
Proof.
  intros H. cut (0 <= n < 16); [|lia]. intros H'. revert n H' H.
  apply (nibble_cases (fun n => 0 <= n < 10 -> _)).
  repeat (constructor; [intros ?; first [by vm_compute | lia]|]). constructor.
Qed.

Lemma ip_char_solid c : ip_char c = true -> solid c = true.
Proof. destruct c as [[] [] [] [] [] [] [] []]; vm_compute; congruence. Qed.

Lemma ip_char_not c : ip_char c = true -> c <> "/" /\ c <> "-" /\ c <> "%".
Proof. intros H. split_and!; intros ->; done. Qed.

(** ** Decimal fields *)

Lemma parse_digit d r val digLen acc :
  0 <= d < 10 -> (digLen =? 1) && (val =? 0) = false -> val * 10 + d <= 255 ->
  parseIPv4Fields (digit d :: r) val digLen acc =
  parseIPv4Fields r (val * 10 + d) (digLen + 1) acc.
Proof.
  intros Hd Hz Hle. simpl. destruct (decimal_digit d Hd) as [-> ->]. rw Hz.
  by destruct (Z.ltb_spec 255 (val * 10 + d)); [lia|].
Qed.

Lemma parse_decimal b r acc :
  byte_ok b -> exists k, 1 <= k /\
  parseIPv4Fields (decimal b ++ r) 0 0 acc = parseIPv4Fields r b k acc.
Proof.
  intros Hb. unfold byte_ok in Hb. unfold decimal.
  destruct (Z.leb_spec 100 b); [|destruct (Z.leb_spec 10 b)].
  - exists 3. split; [lia|]. destruct (Z.leb_spec 10 b); [|lia]. cbn [app].
    rw !parse_digit; try divlia; f_equal; divlia.
  - exists 2. split; [lia|]. cbn [app]. rw !parse_digit; try divlia; f_equal; divlia.
  - exists 1. split; [lia|]. cbn [app]. rw !parse_digit; try divlia; f_equal; divlia.
Qed.

Lemma parse_octet b r acc :
  byte_ok b -> r <> [] -> (length acc < 3)%nat ->
  parseIPv4Fields (decimal b ++ "." :: r) 0 0 acc = parseIPv4Fields r 0 0 (acc ++ [b]).
Proof.
  intros Hb Hr Ha. destruct (parse_decimal b ("." :: r) acc Hb) as (k & Hk & ->).
  simpl. destruct (Z.eqb_spec k 0); [lia|]. rw bool_decide_eq_false_2 //=.
  by destruct (Nat.eqb_spec (length acc) 3); [lia|].
Qed.

Lemma decimal_nonnil b r : decimal b ++ r <> [].
Proof. unfold decimal. repeat case_match; done. Qed.

Lemma parse_string4 b :
  bytes_ok b -> length b = 4%nat -> parseIPv4Fields (string4 b) 0 0 [] = Some b.
Proof.
  intros Hb Hl. destruct b as [|b0 [|b1 [|b2 [|b3 [|]]]]]; try done.
  rw !bytes_ok_cons in Hb. destruct Hb as (? & ? & ? & ? & _). unfold string4.
  rw !parse_octet; auto using decimal_nonnil; try (simpl; lia).
  - destruct (parse_decimal b3 [] [b0; b1; b2]) as (k & _ & E); [done|].
    rw app_nil_r in E. simpl. by rw E.
  - rw -(app_nil_r (decimal b3)). apply decimal_nonnil.
Qed.

(** ** Hexadecimal fields *)

Definition u16_ok (g : Z) : Prop := 0 <= g < 0x10000.

Lemma parse_hex_digit d r off acc :
  0 <= d < 16 -> (off <= 3)%nat -> acc * 16 + d <= 0xffff ->
  parse_hex (digit d :: r) off acc = parse_hex r (S off) (acc * 16 + d).
Proof.
  intros Hd Ho Ha. cbn [parse_hex]. rw hex_val_digit //.
  destruct (Nat.ltb_spec 3 off); [lia|].
  by destruct (Z.ltb_spec 0xffff (acc * 16 + d)); [lia|].
Qed.

(** Text after a field: its end, or a character that is not a digit. *)
Definition field_end (r : chars) : Prop :=
  match r with [] => True | c :: _ => hex_val c = None end.

Lemma parse_hex_stop r off acc : field_end r -> parse_hex r off acc = Some (acc, off, r).
Proof. destruct r as [|c r]; simpl; [done|]. by intros ->. Qed.

Lemma land15 x : Z.land x 0xf = x mod 16.
Proof. apply (Z.land_ones x 4). lia. Qed.

Lemma parse_hex_field g r :
  u16_ok g -> field_end r ->
  exists k, parse_hex (hex g ++ r) 0 0 = Some (g, S k, r).
Proof.
  intros Hg Hr. unfold u16_ok in Hg. unfold hex.
  rw !land15 !Z.shiftr_div_pow2; [|lia..].
  change (2 ^ 12) with 4096. change (2 ^ 8) with 256. change (2 ^ 4) with 16.
  destruct (Z.leb_spec 0x1000 g); [exists 3%nat|destruct (Z.leb_spec 0x100 g);
    [exists 2%nat|destruct (Z.leb_spec 0x10 g); [exists 1%nat|exists 0%nat]]].
  all: try (destruct (Z.leb_spec 0x100 g); [|lia]).
  all: try (destruct (Z.leb_spec 0x10 g); [|lia]).
  all: cbn [app]; rw !parse_hex_digit; try divlia.
  all: rw parse_hex_stop //; repeat f_equal; divlia.
Qed.

Lemma hex_cons g r : u16_ok g -> exists d t, 0 <= d < 16 /\ hex g ++ r = digit d :: t.
Proof.
  intros Hg. unfold u16_ok in Hg. unfold hex.
  rw !land15 !Z.shiftr_div_pow2; [|lia..].
  change (2 ^ 12) with 4096. change (2 ^ 8) with 256. change (2 ^ 4) with 16.
  repeat case_match; cbn [app]; do 2 eexists; (split; [|reflexivity]); divlia.
Qed.

Lemma hex_ip_char g : u16_ok g -> forallb ip_char (hex g) = true.
Proof.
  intros Hg. unfold u16_ok in Hg. unfold hex.
  rw !land15 !Z.shiftr_div_pow2; [|lia..].
  change (2 ^ 12) with 4096. change (2 ^ 8) with 256. change (2 ^ 4) with 16.
  repeat case_match; cbn [app forallb]; rw !ip_char_digit; try done; divlia.
Qed.

Lemma decimal_ip_char b : byte_ok b -> forallb ip_char (decimal b) = true.
Proof.
  intros Hb. unfold byte_ok in Hb. unfold decimal.
  repeat case_match; cbn [app forallb]; rw !ip_char_digit; try done; divlia.
Qed.

(** ** Sequences of fields *)

Definition group_bytes (g : Z) : list Z := [Z.shiftr g 8; g mod 256].
Definition groups_bytes (gs : list Z) : list Z := mjoin (map group_bytes gs).

Lemma length_groups_bytes gs : length (groups_bytes gs) = (2 * length gs)%nat.
Proof. unfold groups_bytes. induction gs as [|g gs IH]; simpl in *; lia. Qed.

Lemma groups_bytes_app gs hs : groups_bytes (gs ++ hs) = groups_bytes gs ++ groups_bytes hs.
Proof. unfold groups_bytes. induction gs as [|g gs IH]; simpl; [done|]. by rw IH. Qed.

Lemma groups_bytes_zeros n : groups_bytes (replicate n 0) = replicate (2 * n) 0.
Proof.
  unfold groups_bytes. induction n as [|n IH]; [done|]. simpl in *.
  by replace (n + S (n + 0))%nat with (S (n + (n + 0))) by lia; rw IH.
Qed.

Lemma length_fields16 b n : length b = (2 * n)%nat -> length (fields16 b) = n.
Proof.
  revert b. induction n as [|n IH]; intros b H.
  - by destruct b.
  - destruct b as [|x [|y b]]; simpl in *; try lia. f_equal. apply IH. lia.
Qed.

Lemma fields16_ok b n :
  bytes_ok b -> length b = (2 * n)%nat ->
  Forall u16_ok (fields16 b) /\ groups_bytes (fields16 b) = b.
Proof.
  revert b. induction n as [|n IH]; intros b Hb H.
  - by destruct b.
  - destruct b as [|x [|y b]]; simpl in H; try lia.
    rw !bytes_ok_cons in Hb. destruct Hb as (Hx & Hy & Hb).
    destruct (IH b Hb) as [IH1 IH2]; [lia|]. unfold byte_ok in *. simpl. split.
    + constructor; [unfold u16_ok; lia|done].
    + unfold groups_bytes in *. simpl. rw IH2. unfold group_bytes.
      rw Z.shiftr_div_pow2; [|lia]. change (2 ^ 8) with 256.
      f_equal; [divlia|]. f_equal. divlia.
Qed.

(** Fields separated by colons. *)
Definition colon_tail (gs : list Z) : chars := mjoin (map (fun g => ":" :: hex g) gs).
Definition colon_join (gs : list Z) : chars :=
  match gs with [] => [] | g :: r => hex g ++ colon_tail r end.

Lemma colon_tail_end gs r : field_end r -> field_end (colon_tail gs ++ r).
Proof. by destruct gs. Qed.

Lemma colon_join_tail g gs : colon_tail (g :: gs) = ":" :: colon_join (g :: gs).
Proof. done. Qed.

(** One turn of the parser's loop on a field followed by a colon and another
    field. *)
Lemma parse6_step n g c r ip e :
  u16_ok g -> Ascii.eqb c ":" = false ->
  parse6_loop (S n) (hex g ++ ":" :: c :: r) ip e =
  parse6_loop n (c :: r) (ip ++ group_bytes g) e.
Proof.
  intros Hg Hc. cbn [parse6_loop].
  destruct (parse_hex_field g (":" :: c :: r) Hg) as [k ->]; [done|].
  simpl. by rw Hc.
Qed.

Lemma parse6_join n gs ip e :
  Forall u16_ok gs -> gs <> [] -> (length gs <= n)%nat ->
  parse6_loop n (colon_join gs) ip e = finish6 (ip ++ groups_bytes gs) e [].
Proof.
  revert n ip. induction gs as [|g gs IH]; [done|]. intros n ip Hgs _ Hn.
  apply Forall_cons_iff in Hgs as [Hg Hgs].
  destruct n as [|n]; simpl in Hn; [lia|]. destruct gs as [|g2 gs].
  - cbn [parse6_loop colon_join colon_tail map mjoin].
    destruct (parse_hex_field g [] Hg) as [k Hk]; [done|].
    change (mjoin []) with (@nil ascii). by rw Hk.
  - cbn [colon_join]. rw colon_join_tail.
    destruct (hex_cons g2 (colon_tail gs)) as (d & t & Hd & Et).
    { by apply Forall_cons_iff in Hgs as [? _]. }
    cbn [colon_join]. rw Et parse6_step //; [|by apply digit_colon].
    rw -Et. change (hex g2 ++ colon_tail gs) with (colon_join (g2 :: gs)).
    rw IH //; [|simpl in *; lia]. by rw -(assoc_L (++)).
Qed.

(** The loop on fields followed by an ellipsis. *)
Lemma parse6_ellipsis n gs t ip :
  Forall u16_ok gs -> gs <> [] -> (length gs <= n)%nat ->
  parse6_loop n (colon_join gs ++ ":" :: ":" :: t) ip None =
  let ip' := ip ++ groups_bytes gs in
  match t with
  | [] => finish6 ip' (Some (length ip')) []
  | _ :: _ => parse6_loop (n - length gs) t ip' (Some (length ip'))
  end.
Proof.
  revert n ip. induction gs as [|g gs IH]; [done|]. intros n ip Hgs _ Hn.
  apply Forall_cons_iff in Hgs as [Hg Hgs].
  destruct n as [|n]; simpl in Hn; [lia|]. destruct gs as [|g2 gs].
  - cbn [parse6_loop colon_join]. unfold colon_tail. cbn [map].
    change (mjoin []) with (@nil ascii). rw app_nil_r.
    destruct (parse_hex_field g (":" :: ":" :: t) Hg) as [k ->]; [done|].
    simpl. rw Nat.sub_0_r. by destruct t.
  - cbn [colon_join]. rw colon_join_tail -(assoc_L (++)) -app_comm_cons.
    destruct (hex_cons g2 (colon_tail gs ++ ":" :: ":" :: t)) as (d & u & Hd & Eu).
    { by apply Forall_cons_iff in Hgs as [? _]. }
    cbn [colon_join]. rw -(assoc_L (++)) Eu parse6_step //; [|by apply digit_colon].
    rw -Eu (assoc_L (++)). change (hex g2 ++ colon_tail gs) with (colon_join (g2 :: gs)).
    rw IH //; [|simpl in *; lia]. by rw -(assoc_L (++)).
Qed.

(** ** The run of zeros [appendTo6] elides *)

Lemma zero_prefix_spec gs :
  (zero_prefix gs <= length gs)%nat /\
  take (zero_prefix gs) gs = replicate (zero_prefix gs) 0.
Proof.
  induction gs as [|g gs [IH1 IH2]]; simpl; [done|].
  destruct (Z.eqb_spec g 0) as [->|]; simpl; [|split; [lia|done]].
  split; [lia|]. by rw IH2.
Qed.

(** What the first loop of [appendTo6] establishes. *)
Definition run_ok (gs : list Z) (run : nat * nat) : Prop :=
  run = (255, 255)%nat \/
  (fst run < snd run <= 8)%nat /\
  take (snd run - fst run) (drop (fst run) gs) = replicate (snd run - fst run) 0.

Lemma foldl_invariant {A B} (P : A -> Prop) (f : A -> B -> A) a l :
  P a -> (forall a b, P a -> b ∈ l -> P (f a b)) -> P (foldl f a l).
Proof.
  revert a. induction l as [|b l IH]; intros a Ha Hf; simpl; [done|].
  apply IH; [apply Hf; [done|set_solver]|]. intros. apply Hf; [done|set_solver].
Qed.

Lemma zero_run_ok gs : length gs = 8%nat -> run_ok gs (zero_run gs).
Proof.
  intros Hl. unfold zero_run. apply foldl_invariant; [by left|].
  intros [zs ze] i IH Hi. unfold zero_run_step.
  destruct (zero_prefix_spec (drop i gs)) as [H1 H2]. rw length_drop Hl in H1.
  case_match eqn:E; [|done]. apply andb_prop in E as [E1%Nat.leb_le _].
  right. simpl. split; [lia|]. by replace (i + _ - i)%nat with (zero_prefix (drop i gs)) by lia.
Qed.

(** ** The second loop of [appendTo6] *)

Lemma drop_cons (gs : list Z) i : (i < length gs)%nat -> drop i gs = nth i gs 0 :: drop (S i) gs.
Proof.
  revert i. induction gs as [|g gs IH]; intros [|i] H; simpl in *; try lia; [done|].
  apply IH. lia.
Qed.

Lemma append6_tail n gs zs ze i :
  length gs = 8%nat -> (0 < i)%nat -> (zs < i \/ 8 <= zs)%nat -> (8 - i <= n)%nat ->
  append6 n gs zs ze i = colon_tail (drop i gs).
Proof.
  intros Hl. revert i. induction n as [|n IH]; intros i Hi Hz Hn; cbn [append6].
  - by rw drop_ge; [|lia].
  - destruct (Nat.leb_spec 8 i); [by rw drop_ge; [|lia]|].
    destruct (Nat.eqb_spec i zs); [lia|]. destruct (Nat.ltb_spec 0 i); [|lia].
    rw (drop_cons gs i); [|lia]. rw IH; [done|lia..].
Qed.

Lemma append6_run n gs zs ze i :
  length gs = 8%nat -> (0 < i <= zs)%nat -> (zs < ze <= 8)%nat -> (8 - i <= n)%nat ->
  append6 n gs zs ze i =
  colon_tail (take (zs - i) (drop i gs)) ++ ":" :: ":" :: colon_join (drop ze gs).
Proof.
  intros Hl. revert i. induction n as [|n IH]; intros i Hi Hz Hn; [lia|]. cbn [append6].
  destruct (Nat.leb_spec 8 i); [lia|]. destruct (Nat.eqb_spec i zs) as [->|].
  - rw Nat.sub_diag. destruct (Nat.leb_spec 8 ze); [by rw (drop_ge gs ze); [|lia]|].
    rw (drop_cons gs ze); [|lia]. rw append6_tail //; lia.
  - destruct (Nat.ltb_spec 0 i); [|lia]. rw (drop_cons gs i); [|lia].
    rw IH; [|lia..]. destruct (zs - i)%nat as [|k] eqn:E; [lia|].
    replace (zs - S i)%nat with k by lia. cbn [take].
    rw colon_join_tail. cbn [colon_join app]. by rw -app_assoc.
Qed.

Lemma append6_S n gs zs ze i :
  append6 (S n) gs zs ze i =
  if (8 <=? i)%nat then []
  else if (i =? zs)%nat then
    if (8 <=? ze)%nat then [":"; ":"]
    else [":"; ":"] ++ hex (nth ze gs 0) ++ append6 n gs zs ze (S ze)
  else (if (0 <? i)%nat then [":"] else [])
       ++ hex (nth i gs 0) ++ append6 n gs zs ze (S i).
Proof. done. Qed.

#[local] Arguments append6 : simpl never.

Lemma string6_shape b :
  length b = 16%nat ->
  string6 b = colon_join (fields16 b) \/
  exists zs ze, (zs < ze <= 8)%nat /\
    take (ze - zs) (drop zs (fields16 b)) = replicate (ze - zs) 0 /\
    string6 b = colon_join (take zs (fields16 b)) ++ ":" :: ":" :: colon_join (drop ze (fields16 b)).
Proof.
  intros Hb. unfold string6. pose proof (length_fields16 b 8 Hb) as Hl.
  pose proof (zero_run_ok _ Hl) as Hrun. destruct (zero_run (fields16 b)) as [zs ze].
  revert Hl Hrun. generalize (fields16 b). intros gs Hl Hrun.
  destruct gs as [|g gs]; [done|]. destruct Hrun as [[= -> ->]|[Hr Hz]].
  - left. rw (append6_S 7) (append6_tail _ _ _ _ 1) //; lia.
  - right. exists zs, ze. simpl in Hr, Hz. split; [lia|]. split; [done|].
    rw (append6_S 7). change (8 <=? 0)%nat with false. cbv iota.
    destruct zs as [|zs].
    + change (0 =? 0)%nat with true. cbv iota. destruct (Nat.leb_spec 8 ze) as [?|?].
      * by rw (drop_ge (g :: gs) ze); [|lia].
      * rw (drop_cons (g :: gs) ze); [|lia]. rw append6_tail //; lia.
    + change (0 =? S zs)%nat with false. cbv iota.
      rw append6_run //; [|lia..].
      replace (S zs - 1)%nat with zs by lia. cbn [take]. by rw -!app_assoc.
Qed.

(** ** Round trip *)

Lemma parse_kind_digits g c r :
  u16_ok g -> c = "." \/ c = ":" -> parse_kind (hex g ++ c :: r) = Some c.
Proof.
  intros Hg Hc. unfold u16_ok in Hg. unfold hex.
  rw !land15 !Z.shiftr_div_pow2; [|lia..].
  change (2 ^ 12) with 4096. change (2 ^ 8) with 256. change (2 ^ 4) with 16.
  repeat case_match; cbn [app parse_kind]; rw !digit_kind; try divlia;
    destruct Hc as [-> | ->]; done.
Qed.

Lemma parse_kind_decimal b r : byte_ok b -> parse_kind (decimal b ++ "." :: r) = Some ".".
Proof.
  intros Hb. unfold byte_ok in Hb. unfold decimal.
  repeat case_match; cbn [app parse_kind]; rw !digit_kind; try divlia; done.
Qed.

Lemma forallb_colon_join gs : Forall u16_ok gs -> forallb ip_char (colon_join gs) = true.
Proof.
  destruct gs as [|g gs]; [done|]. intros [Hg Hgs]%Forall_cons_iff. simpl.
  rw forallb_app hex_ip_char //=. induction Hgs as [|h gs Hh Hgs IH]; [done|].
  rw colon_join_tail /=. by rw forallb_app hex_ip_char.
Qed.

Lemma string4_ip_char b : bytes_ok b -> forallb ip_char (string4 b) = true.
Proof.
  intros Hb. destruct b as [|b0 [|b1 [|b2 [|b3 [|]]]]]; try done.
  rw !bytes_ok_cons in Hb. destruct Hb as (? & ? & ? & ? & _). unfold string4.
  by rw !(forallb_app, decimal_ip_char); simpl; rw ?(forallb_app, decimal_ip_char);
    simpl; rw ?(forallb_app, decimal_ip_char); simpl; rw ?decimal_ip_char.
Qed.

Lemma string6_ip_char b :
  bytes_ok b -> length b = 16%nat -> forallb ip_char (string6 b) = true.
Proof.
  intros Hb Hl. destruct (fields16_ok b 8 Hb Hl) as [Hu _].
  destruct (string6_shape b Hl) as [-> | (zs & ze & _ & _ & ->)].
  - by apply forallb_colon_join.
  - rw forallb_app /= !forallb_colon_join //; [by apply Forall_drop|by apply Forall_take].
Qed.

Lemma ip_char_no_percent s : forallb ip_char s = true -> contains "%" s = false.
Proof.
  intros H. apply contains_false. intros Hin%list_elem_of_In.
  rw forallb_forall in H. by apply H, ip_char_not in Hin as (_ & _ & ?).
Qed.

(** The parser's answer on the fields around an ellipsis. *)
Lemma finish6_run gs zs ze :
  length gs = 8%nat -> (zs < ze <= 8)%nat ->
  take (ze - zs) (drop zs gs) = replicate (ze - zs) 0 ->
  finish6 (groups_bytes (take zs gs) ++ groups_bytes (drop ze gs))
          (Some (length (groups_bytes (take zs gs)))) [] = Some (groups_bytes gs).
Proof.
  intros Hl Hz Hrun. unfold finish6.
  assert (Hpre : length (groups_bytes (take zs gs)) = (2 * zs)%nat)
    by (rw length_groups_bytes length_take; lia).
  assert (Hsuf : length (groups_bytes (drop ze gs)) = (2 * (8 - ze))%nat)
    by (rw length_groups_bytes length_drop; lia).
  rw length_app. destruct (Nat.ltb_spec (length (groups_bytes (take zs gs))
    + length (groups_bytes (drop ze gs))) 16) as [?|?]; [|lia].
  rw take_app_length drop_app_length. f_equal.
  replace (16 - _)%nat with (2 * (ze - zs))%nat by lia.
  rw -groups_bytes_zeros -Hrun -!groups_bytes_app. f_equal.
  transitivity (take zs gs ++ drop zs gs); [|apply take_drop]. f_equal.
  transitivity (take (ze - zs) (drop zs gs) ++ drop (ze - zs) (drop zs gs));
    [|apply take_drop].
  rw drop_drop. by replace (zs + (ze - zs))%nat with ze by lia.
Qed.

#[local] Arguments parse6_loop : simpl never.

Lemma parse_kind_join g gs r :
  u16_ok g -> gs <> [] \/ (exists t, r = ":" :: t) ->
  parse_kind (colon_join (g :: gs) ++ r) = Some ":".
Proof.
  intros Hg H. cbn [colon_join]. rw -app_assoc. destruct gs as [|h gs].
  - destruct H as [?|[t ->]]; [done|]. by apply parse_kind_digits; auto.
  - rw colon_join_tail -app_comm_cons. by apply parse_kind_digits; auto.
Qed.

(** Text that starts with a digit has no leading ellipsis. *)
Lemma parseIPv6_join g gs r :
  u16_ok g -> contains "%" (colon_join (g :: gs) ++ r) = false ->
  parseIPv6 (colon_join (g :: gs) ++ r) = parse6_loop 8 (colon_join (g :: gs) ++ r) [] None.
Proof.
  intros Hg Hpc. unfold parseIPv6. rw Hpc. cbn [colon_join]. rw -app_assoc.
  destruct (hex_cons g (colon_tail gs ++ r) Hg) as (d & t & Hd & ->).
  destruct t as [|c t]; [done|]. by rw digit_colon.
Qed.

Lemma ParseAddr_colon s : parse_kind s = Some ":" -> ParseAddr s = Addr6 <$> parseIPv6 s.
Proof. intros H. unfold ParseAddr. by rw H. Qed.

Lemma parseIPv6_fields gs :
  Forall u16_ok gs -> length gs = 8%nat -> contains "%" (colon_join gs) = false ->
  ParseAddr (colon_join gs) = Some (Addr6 (groups_bytes gs)).
Proof.
  intros Hu Hl Hpc. destruct gs as [|g gs]; [done|].
  pose proof Hu as [Hg _]%Forall_cons_iff.
  rw -(app_nil_r (colon_join _)) in Hpc. rw -(app_nil_r (colon_join _)).
  rw ParseAddr_colon; [|apply parse_kind_join; [done|left; by destruct gs]].
  rw parseIPv6_join // app_nil_r parse6_join //; [|lia].
  rw app_nil_l. unfold finish6. by rw length_groups_bytes Hl.
Qed.

Lemma parseIPv6_lead gs ze :
  Forall u16_ok gs -> length gs = 8%nat -> (0 < ze <= 8)%nat ->
  take ze gs = replicate ze 0 ->
  contains "%" (":" :: ":" :: colon_join (drop ze gs)) = false ->
  ParseAddr (":" :: ":" :: colon_join (drop ze gs)) = Some (Addr6 (groups_bytes gs)).
Proof.
  intros Hu Hl Hz Hrun Hpc. rw ParseAddr_colon //. unfold parseIPv6. rw Hpc. simpl.
  destruct (drop ze gs) as [|h hs] eqn:Ed.
  - simpl. rw -(take_drop ze gs) Ed app_nil_r Hrun groups_bytes_zeros.
    assert (ze = 8%nat) as -> by (apply (f_equal length) in Ed; rw length_drop /= in Ed; lia).
    done.
  - assert (Hh : Forall u16_ok (h :: hs)) by (rw -Ed; by apply Forall_drop).
    destruct (hex_cons h (colon_tail hs)) as (d & t & _ & Et).
    { by apply Forall_cons_iff in Hh as [? _]. }
    cbn [colon_join] in *. rw Et. cbv iota beta. rw -Et.
    change (hex h ++ colon_tail hs) with (colon_join (h :: hs)).
    rw parse6_join //; [|apply (f_equal length) in Ed; rw length_drop in Ed; lia].
    rw -Ed. pose proof (finish6_run gs 0 ze Hl Hz) as Hf. rw Nat.sub_0_r drop_0 in Hf.
    simpl in Hf. change (groups_bytes []) with (@nil Z) in Hf. simpl in *. by rw Hf.
Qed.

Lemma parseIPv6_mid gs zs ze :
  Forall u16_ok gs -> length gs = 8%nat -> (0 < zs < ze)%nat -> (ze <= 8)%nat ->
  take (ze - zs) (drop zs gs) = replicate (ze - zs) 0 ->
  contains "%" (colon_join (take zs gs) ++ ":" :: ":" :: colon_join (drop ze gs)) = false ->
  ParseAddr (colon_join (take zs gs) ++ ":" :: ":" :: colon_join (drop ze gs)) =
  Some (Addr6 (groups_bytes gs)).
Proof.
  intros Hu Hl Hz Hz8 Hrun Hpc.
  pose proof (finish6_run gs zs ze Hl ltac:(lia) Hrun) as Hf.
  assert (Hlz : length (take zs gs) = zs) by (rw length_take; lia).
  assert (Huz : Forall u16_ok (take zs gs)) by by apply Forall_take.
  destruct (take zs gs) as [|g hs]; [simpl in Hlz; lia|].
  pose proof Huz as [Hg _]%Forall_cons_iff.
  rw ParseAddr_colon; [|apply parse_kind_join; eauto].
  rw parseIPv6_join // parse6_ellipsis //; [|lia]. cbv zeta. rw Hlz app_nil_l.
  destruct (drop ze gs) as [|h gs'] eqn:Ed.
  - change (groups_bytes []) with (@nil Z) in Hf. rw app_nil_r in Hf.
    cbn [colon_join]. by rw Hf.
  - assert (Hh : Forall u16_ok (h :: gs')) by (rw -Ed; by apply Forall_drop).
    destruct (hex_cons h (colon_tail gs')) as (d & t & _ & Et).
    { by apply Forall_cons_iff in Hh as [? _]. }
    cbn [colon_join]. rw Et. cbv iota beta. rw -Et.
    change (hex h ++ colon_tail gs') with (colon_join (h :: gs')).
    rw parse6_join //; [|apply (f_equal length) in Ed; rw length_drop in Ed; lia].
    by rw Hf.
Qed.

Lemma parse_string6 b :
  bytes_ok b -> length b = 16%nat -> ParseAddr (string6 b) = Some (Addr6 b).
Proof.
  intros Hb Hl. destruct (fields16_ok b 8 Hb Hl) as [Hu Hbytes].
  pose proof (length_fields16 b 8 Hl) as Hl8.
  pose proof (ip_char_no_percent _ (string6_ip_char b Hb Hl)) as Hpc.
  rw -{2}Hbytes.
  destruct (string6_shape b Hl) as [E | (zs & ze & Hz & Hrun & E)]; rw E in Hpc; rw E.
  - by apply parseIPv6_fields.
  - destruct zs as [|zs]; [|apply parseIPv6_mid; auto; lia].
    rw Nat.sub_0_r drop_0 in Hrun. by apply parseIPv6_lead.
Qed.

(** A normalized address: the form [NormalizeIP] produces. *)
Definition norm_ip (ip : IP) : Prop :=
  bytes_ok ip /\ (length ip = 4%nat \/ length ip = 16%nat /\ take 12 ip <> v4InV6Prefix).

#[export] Instance norm_ip_dec ip : Decision (norm_ip ip).
Proof. unfold norm_ip. apply _. Defined.

Lemma norm_ip_bytes ip : norm_ip ip -> bytes_ok ip.
Proof. by intros [? _]. Qed.
#[export] Hint Resolve norm_ip_bytes : helios.

(** The text of a normalized address, as characters. *)
Definition ip_text (ip : IP) : chars :=
  if (length ip =? 4)%nat then string4 ip else string6 ip.

Lemma To4_v4 ip : length ip = 4%nat -> To4 ip = ip.
Proof. intros H. unfold To4, IPv4len. by rw H. Qed.

Lemma To4_v6 ip : length ip = 16%nat -> take 12 ip <> v4InV6Prefix -> To4 ip = [].
Proof. intros H Hp. unfold To4, IPv4len, IPv6len. rw H /=. by rw bool_decide_eq_false_2. Qed.

Lemma To4_mapped ip : length ip = 4%nat -> To4 (v4InV6Prefix ++ ip) = ip.
Proof.
  intros H. unfold To4, IPv4len, IPv6len. by rw length_app H.
Qed.

Lemma IP_String_text ip : norm_ip ip -> IP_String ip = of_bytes (ip_text ip).
Proof.
  intros [Hb [H|[H Hp]]]; unfold IP_String, ip_text, IPv4len, IPv6len.
  - rw H /= To4_v4 //. by rw H.
  - rw H /= To4_v6 //.
Qed.

Lemma ip_text_ip_char ip : norm_ip ip -> forallb ip_char (ip_text ip) = true.
Proof.
  intros [Hb [H|[H Hp]]]; unfold ip_text; rw H; simpl;
    auto using string4_ip_char, string6_ip_char.
Qed.

Lemma ParseAddr_text ip :
  norm_ip ip ->
  ParseAddr (ip_text ip) = Some (if (length ip =? 4)%nat then Addr4 ip else Addr6 ip).
Proof.
  intros [Hb [H|[H Hp]]]; unfold ip_text; rw H; simpl; [|by apply parse_string6].
  unfold ParseAddr. pose proof (parse_string4 ip Hb H) as Hs.
  destruct ip as [|b0 [|b1 [|b2 [|b3 [|]]]]]; try done.
  apply bytes_ok_cons in Hb as [Hb0 _].
  unfold string4 in *. rw parse_kind_decimal //=. by rw Hs.
Qed.

(** [ParseIP] reads back the text [IP.String] prints, in 16-byte form. *)
Lemma ParseIP_text ip :
  norm_ip ip -> ParseIP (of_bytes (ip_text ip)) = To16 ip.
Proof.
  intros H. unfold ParseIP. rw go_bytes_of_bytes ParseAddr_text //.
  destruct H as [_ [H|[H _]]]; unfold To16, IPv4len, IPv6len; by rw H.
Qed.

Lemma trim_ip_text ip : norm_ip ip -> trim_space (ip_text ip) = ip_text ip.
Proof.
  intros H. apply trim_space_solid. apply ip_text_ip_char in H.
  apply forallb_forall. intros c Hc. rw forallb_forall in H. by apply ip_char_solid, H.
Qed.

Lemma ip_text_notin ip c : norm_ip ip -> ip_char c = false -> c ∉ ip_text ip.
Proof.
  intros H Hc Hin%list_elem_of_In. apply ip_text_ip_char in H.
  rw forallb_forall in H. by rw H in Hc.
Qed.

(** ** Texts are not empty *)

Lemma of_bytes_nonempty c l : of_bytes (c :: l) <> ""%string.
Proof. intros E. apply (f_equal go_bytes) in E. by rw go_bytes_of_bytes in E. Qed.

Lemma hex_start x : exists c l, hex x = c :: l.
Proof. unfold hex. do 3 (case_match; simpl; eauto). Qed.

Lemma decimal_start x : exists c l, decimal x = c :: l.
Proof. unfold decimal. do 2 (case_match; simpl; eauto). Qed.

Lemma IP_String_nonempty ip : IP_String ip <> ""%string.
Proof.
  unfold IP_String. case_match; [done|]. case_match; [apply of_bytes_nonempty|].
  cbv zeta. case_match.
  - destruct (To4 ip) as [|a [|b [|c [|d [|]]]]]; try done. cbn [string4].
    destruct (decimal_start a) as (x & l & ->). apply of_bytes_nonempty.
  - unfold string6. destruct (zero_run _) as [zs ze].
    assert (Hne : exists c l, append6 8 (fields16 ip) zs ze 0 = c :: l).
    { change (append6 8 (fields16 ip) zs ze 0) with
        (if (0 =? zs)%nat then
           if (8 <=? ze)%nat then [":"; ":"]
           else [":"; ":"] ++ hex (nth ze (fields16 ip) 0) ++ append6 7 (fields16 ip) zs ze (S ze)
         else hex (nth 0 (fields16 ip) 0) ++ append6 7 (fields16 ip) zs ze 1).
      destruct (hex_start (nth 0 (fields16 ip) 0)) as (c & l & ->).
      destruct (0 =? zs)%nat; [destruct (8 <=? ze)%nat|]; rw ?app_comm_cons -?app_comm_cons; eauto. }
    destruct Hne as (? & ? & ->). apply of_bytes_nonempty.
Qed.
