(* ===== verification/NetCIDR.v ===== *)
(** * Results of the parsers, and the arithmetic of CIDR blocks

    Whatever the text, [ParseIP] returns nil or sixteen bytes, and [ParseCIDR]
    a masked address with the mask of its prefix length.  A mask of [ones]
    bits rounds the value of an address down to a multiple of the block size,
    and the complement of the mask adds the block size minus one. *)
From Stdlib Require Import Ascii.
From S2P Require Import Prelude GoStrings Bytes NetIP NetText.

Local Open Scope char_scope.
Local Open Scope Z_scope.

(** ** Well-formed results *)

Definition addr_ok (a : Addr) : Prop :=
  match a with
  | Addr4 b => bytes_ok b /\ length b = 4%nat
  | Addr6 b => bytes_ok b /\ length b = 16%nat
  end.

Lemma parseIPv4Fields_ok s val digLen acc f :
  byte_ok val -> bytes_ok acc -> (length acc <= 3)%nat ->
  parseIPv4Fields s val digLen acc = Some f -> bytes_ok f /\ length f = 4%nat.
Proof.
  revert val digLen acc. induction s as [|c s IH]; intros val digLen acc Hv Ha Hl; simpl.
  - destruct (Nat.ltb_spec (length acc) 3); [done|]. intros [= <-].
    rw bytes_ok_app bytes_ok_cons length_app /=. split_and!; try done; [constructor|lia].
  - pose proof (code_range c). unfold byte_ok in *. unfold is_digit.
    destruct ((48 <=? code c) && (code c <=? 57)) eqn:Ed.
    + case_match; [done|]. destruct (Z.ltb_spec 255 (val * 10 + (code c - 48))); [done|].
      apply IH; [lia|done..].
    + repeat (case_match; [done|]). case_match; [|done].
      destruct ((digLen =? 0) || bool_decide (s = [])); [done|].
      destruct (Nat.eqb_spec (length acc) 3); [done|].
      apply IH; [lia| |rw length_app /=; lia].
      rw bytes_ok_app bytes_ok_cons. split_and!; try done. constructor.
Qed.

Lemma hex_val_range c d : hex_val c = Some d -> 0 <= d < 16.
Proof. unfold hex_val. repeat case_match; intros [= <-]; lia. Qed.

Lemma parse_hex_range s off acc v k r :
  0 <= acc <= 0xffff -> parse_hex s off acc = Some (v, k, r) -> 0 <= v <= 0xffff.
Proof.
  revert off acc. induction s as [|c s IH]; intros off acc Ha; simpl; [by intros [= <- _ _]|].
  destruct (hex_val c) as [d|] eqn:Ed; [|by intros [= <- _ _]].
  apply hex_val_range in Ed. case_match; [done|].
  destruct (Z.ltb_spec 0xffff (acc * 16 + d)); [done|]. apply IH. lia.
Qed.

Lemma finish6_ok ip e s f :
  bytes_ok ip -> (length ip <= 16)%nat -> finish6 ip e s = Some f ->
  bytes_ok f /\ length f = 16%nat.
Proof.
  intros Hb Hl. unfold finish6. destruct s; [|done].
  destruct (Nat.ltb_spec (length ip) 16); destruct e as [e|]; try done; intros [= <-].
  - rw !bytes_ok_app !length_app length_replicate length_take length_drop.
    split; [|lia]. split_and!; auto with helios.
    apply Forall_replicate. unfold byte_ok. lia.
  - split; [done|lia].
Qed.

Lemma group_bytes_ok g : 0 <= g <= 0xffff -> bytes_ok (group_bytes g).
Proof.
  intros H. unfold group_bytes. rw Z.shiftr_div_pow2; [|lia]. change (2 ^ 8) with 256.
  repeat constructor; divlia.
Qed.

Lemma parse6_loop_ok n s ip e f :
  bytes_ok ip -> length ip = (16 - 2 * n)%nat -> (n <= 8)%nat ->
  parse6_loop n s ip e = Some f -> bytes_ok f /\ length f = 16%nat.
Proof.
  revert s ip e. induction n as [|n IH]; intros s ip e Hb Hl Hn; cbn [parse6_loop].
  { apply finish6_ok; [done|lia]. }
  destruct (parse_hex s 0 0) as [[[v [|k]] rest]|] eqn:Eh; try done.
  apply parse_hex_range in Eh; [|lia].
  change [Z.shiftr v 8; v mod 256] with (group_bytes v).
  assert (Hb' : bytes_ok (ip ++ group_bytes v)) by (apply bytes_ok_app; auto using group_bytes_ok).
  assert (Hl' : length (ip ++ group_bytes v) = (16 - 2 * n)%nat) by (rw length_app /=; lia).
  destruct rest as [|c r]; [apply finish6_ok; [done|lia]|].
  destruct (Ascii.eqb c ".").
  - case_match; [done|]. destruct (Nat.ltb_spec 16 (length ip + 4)); [done|].
    destruct (parseIPv4Fields s 0 0 []) as [g|] eqn:E4; [|done].
    apply parseIPv4Fields_ok in E4 as [? ?]; [|by vm_compute|constructor|simpl; lia].
    apply finish6_ok; [by apply bytes_ok_app|rw length_app; lia].
  - cbv zeta. case_match; [done|]. destruct r as [|d r]; [done|].
    destruct (Ascii.eqb d ":"); [|apply IH; [done|lia..]].
    destruct e; [done|]. destruct r; [apply finish6_ok; [done|lia]|apply IH; [done|lia..]].
Qed.

Lemma ParseAddr_ok s a : ParseAddr s = Some a -> addr_ok a.
Proof.
  unfold ParseAddr. destruct (parse_kind s) as [c|]; [|done].
  case_match; [|case_match; [|done]]; intros (f & Hf & ->)%fmap_Some.
  - apply parseIPv4Fields_ok in Hf; [done|by vm_compute|constructor|simpl; lia].
  - unfold parseIPv6 in Hf. case_match; [done|].
    assert (Hnil : bytes_ok []) by constructor.
    repeat case_match; simplify_eq; try (by eapply parse6_loop_ok in Hf).
    split; [|done]. apply Forall_replicate. unfold byte_ok. lia.
Qed.

Lemma As16_ok a : addr_ok a -> bytes_ok (As16 a) /\ length (As16 a) = 16%nat.
Proof.
  destruct a as [b|b]; simpl; [|done]. intros [Hb Hl]. rw /v4InV6Prefix /= Hl.
  split; [|done]. repeat (constructor; [unfold byte_ok; lia|]). done.
Qed.

Lemma ParseIP_ok s : ParseIP s = [] \/ bytes_ok (ParseIP s) /\ length (ParseIP s) = 16%nat.
Proof.
  unfold ParseIP. destruct (ParseAddr _) as [a|] eqn:E; [|by left].
  right. by apply As16_ok, (ParseAddr_ok _ _ E).
Qed.

(** ** Masks *)

(** The complement of a mask byte, Go's [^m]. *)
Definition inv_byte (m : Z) : Z := Z.lxor 0xff m.

(** The first and last addresses of the block of [ip] for a mask. *)
Definition net_lo (ip mask : list Z) : list Z := zip_with Z.land ip mask.
Definition net_hi (ip mask : list Z) : list Z :=
  zip_with (fun b m => Z.lor b (inv_byte m)) ip mask.

Definition part_mask (n : Z) : Z := inv_byte (Z.shiftr 0xff n).

Definition byte_mask_check (b n : Z) : bool :=
  let m := part_mask n in
  let lo := Z.land b m in
  (lo =? b / 2 ^ (8 - n) * 2 ^ (8 - n))
  && (Z.lor lo (inv_byte m) =? lo + (2 ^ (8 - n) - 1)).

Lemma byte_mask_checked :
  forallb (fun b => forallb (byte_mask_check b) (seqZ 0 8)) (seqZ 0 256) = true.
Proof. vm_compute. reflexivity. Qed.

Lemma byte_mask b n :
  byte_ok b -> 0 <= n < 8 ->
  Z.land b (part_mask n) = b / 2 ^ (8 - n) * 2 ^ (8 - n) /\
  Z.lor (Z.land b (part_mask n)) (inv_byte (part_mask n))
    = Z.land b (part_mask n) + (2 ^ (8 - n) - 1).
Proof.
  intros Hb Hn. unfold byte_ok in Hb.
  pose proof byte_mask_checked as H. rw forallb_forall in H.
  specialize (H b). rw -list_elem_of_In elem_of_seqZ in H. specialize (H ltac:(lia)).
  rw forallb_forall in H. specialize (H n).
  rw -list_elem_of_In elem_of_seqZ in H. specialize (H ltac:(lia)).
  unfold byte_mask_check in H. lia.
Qed.

Lemma mask_bytes_S l n :
  mask_bytes (S l) n =
  if 8 <=? n then 0xff :: mask_bytes l (n - 8) else part_mask n :: mask_bytes l 0.
Proof. done. Qed.

#[global] Arguments mask_bytes : simpl never.

Lemma length_mask_bytes l n : length (mask_bytes l n) = l.
Proof.
  revert n. induction l as [|l IH]; intros n; [done|].
  rw mask_bytes_S. case_match; simpl; by rw IH.
Qed.

Lemma land_255 b : byte_ok b -> Z.land b 0xff = b.
Proof. intros H. rw (Z.land_ones b 8); [|lia]. by apply Z.mod_small. Qed.

Lemma mask_zero b l :
  bytes_ok b -> length b = l ->
  be_val (net_lo b (mask_bytes l 0)) = 0 /\
  be_val (net_hi (net_lo b (mask_bytes l 0)) (mask_bytes l 0)) = 256 ^ Z.of_nat l - 1.
Proof.
  intros Hb <-. induction Hb as [|x b Hx Hb [IH1 IH2]]; [done|].
  simpl length. rw mask_bytes_S. change (8 <=? 0) with false. cbv iota.
  change (part_mask 0) with 0. cbn [net_lo net_hi zip_with be_val] in *.
  unfold net_lo, net_hi in *. rw Z.land_0_r. change (Z.lor 0 (inv_byte 0)) with 255.
  rw IH1 IH2 pow256_succ !length_zip_with !length_mask_bytes !Nat.min_id. lia.
Qed.

Lemma pow256_pow2 l : 256 ^ Z.of_nat l = 2 ^ (8 * Z.of_nat l).
Proof. rw (Z.pow_mul_r 2 8); [done|lia..]. Qed.

(** Rounding a number down to a multiple of [2 ^ e]. *)
Definition floor2 (v e : Z) : Z := v / 2 ^ e * 2 ^ e.

Lemma floor2_high h v e k :
  0 <= e <= k -> floor2 (h * 2 ^ k + v) e = h * 2 ^ k + floor2 v e.
Proof.
  intros He. unfold floor2. pose proof (Z.pow_pos_nonneg 2 e).
  assert (2 ^ k = 2 ^ (k - e) * 2 ^ e) as ->.
  { rw -Z.pow_add_r; [|lia..]. f_equal. lia. }
  rw Z.mul_assoc (Z.add_comm _ v) Z.div_add; lia.
Qed.

Lemma floor2_low h v e k :
  0 <= k -> 0 <= e -> 0 <= v < 2 ^ k -> floor2 (h * 2 ^ k + v) (k + e) = floor2 h e * 2 ^ k.
Proof.
  intros Hk He Hv. unfold floor2. pose proof (Z.pow_pos_nonneg 2 k).
  pose proof (Z.pow_pos_nonneg 2 e).
  rw Z.pow_add_r; [|lia..]. rw -Z.div_div; [|lia..].
  rw Z.div_add_l; [|lia]. rw (Z.div_small v); [|done]. rw Z.add_0_r. lia.
Qed.

(** Masking with [n] bits rounds the value down to a multiple of the size of
    the block, and the last address of the block is the size minus one above. *)
Lemma mask_value l n b :
  bytes_ok b -> length b = l -> 0 <= n <= 8 * Z.of_nat l ->
  be_val (net_lo b (mask_bytes l n)) = floor2 (be_val b) (8 * Z.of_nat l - n) /\
  be_val (net_hi (net_lo b (mask_bytes l n)) (mask_bytes l n))
    = be_val (net_lo b (mask_bytes l n)) + (2 ^ (8 * Z.of_nat l - n) - 1).
Proof.
  intros Hb. revert l n. induction Hb as [|x b Hx Hb IH]; intros l n Hl Hn; simpl in Hl; subst l.
  { simpl in *. assert (n = 0) as -> by lia. done. }
  rw mask_bytes_S. destruct (Z.leb_spec 8 n).
  - destruct (IH (length b) (n - 8)) as [IH1 IH2]; [done|lia|].
    unfold net_lo, net_hi in *. cbn [zip_with be_val].
    rw !length_zip_with !length_mask_bytes !Nat.min_id IH2 IH1 land_255 //.
    change (inv_byte 0xff) with 0. rw Z.lor_0_r pow256_pow2.
    replace (8 * Z.of_nat (S (length b)) - n) with (8 * Z.of_nat (length b) - (n - 8)) by lia.
    rw floor2_high; lia.
  - destruct (mask_zero b (length b) Hb eq_refl) as [Z1 Z2].
    destruct (byte_mask x n Hx ltac:(lia)) as [B1 B2].
    unfold net_lo, net_hi in *. cbn [zip_with be_val].
    rw !length_zip_with !length_mask_bytes !Nat.min_id Z2 Z1 B2 B1.
    pose proof (be_val_range b Hb) as Hr. rw !pow256_pow2 in Hr |- *.
    replace (8 * Z.of_nat (S (length b)) - n) with (8 * Z.of_nat (length b) + (8 - n)) by lia.
    rw floor2_low; [|lia..]. rw (Z.pow_add_r 2 (8 * _)); [|lia..]. unfold floor2. lia.
Qed.

(** [Size] recovers the prefix length. *)
Lemma Size_mask_checked :
  forallb (fun n => bool_decide (Size (mask_bytes 4 n) = (n, 32))) (seqZ 0 33)
  && forallb (fun n => bool_decide (Size (mask_bytes 16 n) = (n, 128))) (seqZ 0 129) = true.
Proof. vm_compute. reflexivity. Qed.

Lemma CIDRMask_eq a ones :
  0 <= ones <= BitLen a ->
  CIDRMask ones (BitLen a) = mask_bytes (Z.to_nat (BitLen a / 8)) ones.
Proof.
  intros H. unfold CIDRMask.
  assert ((ones <? 0) || (BitLen a <? ones) = false) as -> by lia. by destruct a.
Qed.

Lemma Size_CIDRMask a ones :
  0 <= ones <= BitLen a -> Size (CIDRMask ones (BitLen a)) = (ones, BitLen a).
Proof.
  intros H. rw CIDRMask_eq //. pose proof Size_mask_checked as [H1 H2]%andb_prop.
  destruct a; simpl in H; [rw forallb_forall in H1; specialize (H1 ones)|
    rw forallb_forall in H2; specialize (H2 ones)];
    rw -list_elem_of_In elem_of_seqZ in H1, H2; eapply bool_decide_eq_true_1; auto with lia.
Qed.

(** ** Inversion of [ParseCIDR] *)

Lemma ParseCIDR_inv s n :
  ParseCIDR s = Some n ->
  exists a ones, addr_ok a /\ 0 <= ones <= BitLen a /\
    ipn_Mask n = CIDRMask ones (BitLen a) /\ ipn_IP n = Mask (As16 a) (ipn_Mask n).
Proof.
  unfold ParseCIDR. destruct (cut "/" _) as [[addr mask]|]; [|done].
  destruct (ParseAddr addr) as [a|] eqn:Ea; [|done].
  destruct (dtoi mask) as [[ones [|]]|]; try done.
  destruct ((ones <? 0) || (BitLen a <? ones)) eqn:Er; [done|]. intros [= <-].
  exists a, ones. apply ParseAddr_ok in Ea. split_and!; simpl; try done; lia.
Qed.

Lemma Mask_v4 b m :
  length b = 4%nat -> length m = 4%nat -> Mask (As16 (Addr4 b)) m = zip_with Z.land b m.
Proof.
  intros Hb Hm. unfold Mask, As16, IPv4len, IPv6len. by rw !length_app Hb Hm /= Hm /= drop_0 Hb.
Qed.

Lemma Mask_v6 b m :
  length b = 16%nat -> length m = 16%nat -> Mask (As16 (Addr6 b)) m = zip_with Z.land b m.
Proof. intros Hb Hm. unfold Mask, As16, IPv4len, IPv6len. by rw Hb Hm /= Hm /= Hb. Qed.

(** ** Only the characters of addresses parse *)

Lemma is_digit_ip_char c : is_digit c = true -> ip_char c = true.
Proof. destruct c as [[] [] [] [] [] [] [] []]; vm_compute; congruence. Qed.

Lemma eqb_ip_char c : Ascii.eqb c "." = true \/ Ascii.eqb c ":" = true -> ip_char c = true.
Proof. by intros [->%Ascii.eqb_eq| ->%Ascii.eqb_eq]. Qed.

Lemma parseIPv4Fields_chars s val digLen acc f :
  parseIPv4Fields s val digLen acc = Some f -> forallb ip_char s = true.
Proof.
  revert val digLen acc. induction s as [|c s IH]; intros val digLen acc; simpl; [done|].
  destruct (is_digit c) eqn:Ed.
  - repeat (case_match; [done|]). intros Hs%IH. by rw is_digit_ip_char.
  - destruct (Ascii.eqb c ".") eqn:Ec; [|done].
    repeat (case_match; [done|]). intros H'%IH. by rw eqb_ip_char; auto.
Qed.

Lemma parse_hex_chars s off acc v k r :
  parse_hex s off acc = Some (v, k, r) -> exists p, s = p ++ r /\ forallb ip_char p = true.
Proof.
  revert off acc. induction s as [|c s IH]; intros off acc; simpl.
  - intros [= _ _ <-]. by exists [].
  - destruct (hex_val c) as [d|] eqn:Ed; [|by intros [= _ _ <-]; exists []].
    repeat (case_match; [done|]). intros (p & -> & Hp)%IH. exists (c :: p).
    split; [done|]. simpl. unfold ip_char at 1. by rw Ed.
Qed.

Lemma parse6_loop_chars n s ip e f :
  parse6_loop n s ip e = Some f -> forallb ip_char s = true.
Proof.
  revert s ip e. induction n as [|n IH]; intros s ip e; cbn [parse6_loop].
  { unfold finish6. by destruct s. }
  destruct (parse_hex s 0 0) as [[[v [|k]] rest]|] eqn:Eh; try done.
  pose proof Eh as (p & -> & Hp)%parse_hex_chars. rw forallb_app Hp /=.
  destruct rest as [|c r]; [done|].
  destruct (Ascii.eqb c ".") eqn:Edot.
  - destruct ((match e with None => true | Some _ => false end)
      && negb (length ip =? 12)%nat); [done|].
    destruct (16 <? length ip + 4)%nat; [done|].
    destruct (parseIPv4Fields (p ++ c :: r) 0 0 []) eqn:E4; [|done].
    apply parseIPv4Fields_chars in E4. by rw forallb_app Hp in E4.
  - cbv zeta. destruct (Ascii.eqb c ":") eqn:Ec; [|done]. simpl. rw eqb_ip_char; [|auto].
    destruct r as [|d r]; [done|]. destruct (Ascii.eqb d ":") eqn:Ed; [|apply IH].
    destruct e; [done|]. simpl. rw eqb_ip_char; [|auto].
    destruct r; [done|]. apply IH.
Qed.

Lemma ParseAddr_chars s a : ParseAddr s = Some a -> forallb ip_char s = true.
Proof.
  unfold ParseAddr. destruct (parse_kind s) as [c|]; [|done].
  case_match; [|case_match; [|done]]; intros (f & Hf & _)%fmap_Some.
  - by eapply parseIPv4Fields_chars.
  - unfold parseIPv6 in Hf. case_match; [done|].
    destruct s as [|x [|y r]]; try by eapply parse6_loop_chars.
    destruct (Ascii.eqb x ":" && Ascii.eqb y ":") eqn:E; [|by eapply parse6_loop_chars].
    apply andb_prop in E as [E1 E2]. simpl. rw !eqb_ip_char; [|auto..]. simpl.
    destruct r; [done|]. by eapply parse6_loop_chars.
Qed.

Lemma ParseIP_not s c : c ∈ go_bytes s -> ip_char c = false -> ParseIP s = [].
Proof.
  intros Hin%list_elem_of_In Hc. unfold ParseIP.
  destruct (ParseAddr (go_bytes s)) as [a|] eqn:E; [|done].
  apply ParseAddr_chars in E. rw forallb_forall in E. by rw E in Hc.
Qed.

(** [dtoi] reads back a decimal of up to three digits. *)
Lemma dtoi_decimal_checked :
  forallb (fun n => bool_decide (dtoi (decimal n) = Some (n, []))) (seqZ 0 256) = true.
Proof. vm_compute. reflexivity. Qed.

Lemma dtoi_decimal n : byte_ok n -> dtoi (decimal n) = Some (n, []).
Proof.
  intros Hn. unfold byte_ok in Hn. pose proof dtoi_decimal_checked as H.
  rw forallb_forall in H. specialize (H n).
  rw -list_elem_of_In elem_of_seqZ in H. apply bool_decide_eq_true_1 in H; [done|lia].
Qed.

Lemma cut_app sep s t : sep ∉ s -> cut sep (s ++ sep :: t) = Some (s, t).
Proof.
  induction s as [|c s IH]; simpl; [by rw Ascii.eqb_refl|].
  intros [? ?]%not_elem_of_cons. destruct (Ascii.eqb_spec sep c); [done|]. by rw IH.
Qed.
