(* ===== verification/IPRange.v ===== *)
(** * IP ranges: internal/network/parse.go

    [NormalizeIP], [ParseIPRange], [CompareIPs], [IncrementIP] and
    [DecrementIP], with the arithmetic they implement and the meaning of the
    three syntaxes of a range. *)
From Stdlib Require Import Ascii.
From S2P Require Import Prelude GoStrings Bytes NetIP NetText NetCIDR.

Local Open Scope char_scope.
Local Open Scope Z_scope.

(** ** Operations *)

Definition NormalizeIP (ip : IP) : IP :=
  let v4 := To4 ip in
  if bool_decide (v4 <> []) then v4 else To16 ip.

Definition CompareIPs (a b : IP) : Z := Compare (NormalizeIP a) (NormalizeIP b).

(** The loops of [IncrementIP] and [DecrementIP] run from the last byte to the
    first: they are written on the reversed address. *)
Fixpoint inc_bytes (l : list Z) : list Z :=
  match l with
  | [] => []
  | b :: r => let b' := wrap_u 8 (b + 1) in
              if negb (b' =? 0) then b' :: r else b' :: inc_bytes r
  end.

Fixpoint dec_bytes (l : list Z) : list Z :=
  match l with
  | [] => []
  | b :: r => let b' := wrap_u 8 (b - 1) in
              if negb (b' =? 0xff) then b' :: r else b' :: dec_bytes r
  end.

Definition IncrementIP (ip : IP) : IP := rev (inc_bytes (rev ip)).
Definition DecrementIP (ip : IP) : IP := rev (dec_bytes (rev ip)).

(** The three errors of [ParseIPRange]; each carries the text it reports. *)
Inductive range_error : Type :=
| InvalidCIDR (ipRange : string)
| InvalidRangeFormat (ipRange : string)
| InvalidRangeAddresses (ipRange : string).

(** The CIDR branch of [ParseIPRange], once the block is parsed. *)
Definition cidr_bounds (ipNet : IPNet) : IP * IP :=
  let start := NormalizeIP (ipn_IP ipNet) in
  let end_ := zip_with (fun s m => Z.lor s (inv_byte m)) start (ipn_Mask ipNet) in
  let '(ones, bits) := Size (ipn_Mask ipNet) in
  if (bits =? 32) && (1 <? bits - ones)
  then (IncrementIP start, DecrementIP end_)
  else (start, end_).

Definition ParseIPRange (ipRange : string) : result range_error (IP * IP) :=
  let trimmed := TrimSpace ipRange in
  if contains "/" (go_bytes trimmed) then
    match ParseCIDR trimmed with
    | None => Err (InvalidCIDR ipRange)
    | Some ipNet => Ok (cidr_bounds ipNet)
    end
  else
    let ip := ParseIP trimmed in
    if bool_decide (ip <> []) then
      let normalized := NormalizeIP ip in Ok (normalized, normalized)
    else
      match split_on "-" (go_bytes trimmed) with
      | [p0; p1] =>
          let start := ParseIP (TrimSpace (of_bytes p0)) in
          let end_ := ParseIP (TrimSpace (of_bytes p1)) in
          if bool_decide (start = []) || bool_decide (end_ = [])
          then Err (InvalidRangeAddresses ipRange)
          else Ok (NormalizeIP start, NormalizeIP end_)
      | _ => Err (InvalidRangeFormat ipRange)
      end.

(** ** Increment and decrement *)

(** Little-endian value, for the reversed loops. *)
Lemma be_val_rev_cons b r :
  be_val (rev (b :: r)) = be_val (rev r) * 256 + b.
Proof. simpl. rw be_val_app. simpl. lia. Qed.

Lemma inc_bytes_spec l :
  bytes_ok l ->
  bytes_ok (inc_bytes l) /\ length (inc_bytes l) = length l /\
  be_val (rev (inc_bytes l)) = (be_val (rev l) + 1) mod 256 ^ Z.of_nat (length l).
Proof.
  induction 1 as [|b l Hb Hl (IH1 & IH2 & IH3)]; [by split_and!; [constructor|..]|].
  cbn [inc_bytes]. pose proof (be_val_range (rev l) ltac:(by apply Forall_rev)) as Hr.
  rw length_rev in Hr. pose proof (pow256_pos (length l)).
  unfold byte_ok in Hb. unfold wrap_u. change (2 ^ 8) with 256.
  destruct (Z.eqb_spec ((b + 1) mod 256) 0) as [E|E]; simpl negb; cbv iota.
  - assert (b = 255) as -> by divlia. split_and!.
    + constructor; [unfold byte_ok; lia|done].
    + simpl. by rw IH2.
    + simpl length. rw !be_val_rev_cons IH3 pow256_succ E.
      replace (be_val (rev l) * 256 + 255 + 1) with (256 * (be_val (rev l) + 1)) by lia.
      rw Z.mul_mod_distr_l; [ring|lia..].
  - assert (b < 255) by divlia. rw (Z.mod_small (b + 1)); [|lia]. split_and!; [|done|].
    + constructor; [unfold byte_ok; lia|done].
    + simpl length. rw !be_val_rev_cons pow256_succ Z.mod_small; lia.
Qed.

Lemma dec_bytes_spec l :
  bytes_ok l ->
  bytes_ok (dec_bytes l) /\ length (dec_bytes l) = length l /\
  be_val (rev (dec_bytes l)) = (be_val (rev l) - 1) mod 256 ^ Z.of_nat (length l).
Proof.
  induction 1 as [|b l Hb Hl (IH1 & IH2 & IH3)]; [by split_and!; [constructor|..]|].
  cbn [dec_bytes]. pose proof (be_val_range (rev l) ltac:(by apply Forall_rev)) as Hr.
  rw length_rev in Hr. pose proof (pow256_pos (length l)).
  unfold byte_ok in Hb. unfold wrap_u. change (2 ^ 8) with 256.
  destruct (Z.eqb_spec ((b - 1) mod 256) 0xff) as [E|E]; simpl negb; cbv iota.
  - assert (b = 0) as -> by divlia. rw E. split_and!.
    + constructor; [unfold byte_ok; lia|done].
    + simpl. by rw IH2.
    + simpl length. rw !be_val_rev_cons IH3 pow256_succ.
      replace (be_val (rev l) * 256 + 0 - 1) with (256 * (be_val (rev l) - 1) + 255) by lia.
      set (P := 256 ^ Z.of_nat (length l)) in *.
      rw (Z.mul_comm 256 P). set (v := be_val (rev l) - 1).
      apply (Z.mod_unique_pos _ _ (v / P)); [|pose proof (Z.div_mod v P); lia].
      pose proof (Z.mod_pos_bound v P). lia.
  - assert (0 < b) by divlia. rw (Z.mod_small (b - 1)); [|lia]. split_and!; [|done|].
    + constructor; [unfold byte_ok; lia|done].
    + simpl length. rw !be_val_rev_cons pow256_succ Z.mod_small; lia.
Qed.

Lemma IncrementIP_val ip :
  bytes_ok ip ->
  bytes_ok (IncrementIP ip) /\ length (IncrementIP ip) = length ip /\
  be_val (IncrementIP ip) = (be_val ip + 1) mod 256 ^ Z.of_nat (length ip).
Proof.
  intros H. destruct (inc_bytes_spec (rev ip)) as (H1 & H2 & H3); [by apply Forall_rev|].
  unfold IncrementIP. rw rev_involutive in H3. rw length_rev in H2, H3. rw length_rev H2 H3.
  split_and!; try done. by apply Forall_rev.
Qed.

Lemma DecrementIP_val ip :
  bytes_ok ip ->
  bytes_ok (DecrementIP ip) /\ length (DecrementIP ip) = length ip /\
  be_val (DecrementIP ip) = (be_val ip - 1) mod 256 ^ Z.of_nat (length ip).
Proof.
  intros H. destruct (dec_bytes_spec (rev ip)) as (H1 & H2 & H3); [by apply Forall_rev|].
  unfold DecrementIP. rw rev_involutive in H3. rw length_rev in H2, H3. rw length_rev H2 H3.
  split_and!; try done. by apply Forall_rev.
Qed.

(** ** Normalization *)

Lemma NormalizeIP_v4 ip : length ip = 4%nat -> NormalizeIP ip = ip.
Proof.
  intros H. unfold NormalizeIP. rw To4_v4 //. by rw bool_decide_eq_true_2; [|by destruct ip].
Qed.

Lemma NormalizeIP_v6 ip :
  length ip = 16%nat -> take 12 ip <> v4InV6Prefix -> NormalizeIP ip = ip.
Proof.
  intros H Hp. unfold NormalizeIP, To16, IPv4len, IPv6len. rw To4_v6 // H.
  by rw bool_decide_eq_false_2; [|naive_solver].
Qed.

Lemma NormalizeIP_mapped ip : length ip = 4%nat -> NormalizeIP (v4InV6Prefix ++ ip) = ip.
Proof.
  intros H. unfold NormalizeIP. rw To4_mapped //.
  by rw bool_decide_eq_true_2; [|by destruct ip].
Qed.

Lemma NormalizeIP_id ip : norm_ip ip -> NormalizeIP ip = ip.
Proof. intros [_ [H|[H Hp]]]; auto using NormalizeIP_v4, NormalizeIP_v6. Qed.

Lemma NormalizeIP_To16 ip : norm_ip ip -> NormalizeIP (To16 ip) = ip.
Proof.
  intros [_ [H|[H Hp]]]; unfold To16, IPv4len, IPv6len; rw H; simpl;
    [by apply NormalizeIP_mapped|by apply NormalizeIP_v6].
Qed.

Lemma NormalizeIP_norm ip : bytes_ok ip -> length ip = 16%nat -> norm_ip (NormalizeIP ip).
Proof.
  intros Hb H. destruct (decide (take 12 ip = v4InV6Prefix)) as [E|E].
  - rw -(take_drop 12 ip) E NormalizeIP_mapped; [|rw length_drop; lia].
    split; [auto with helios|]. left. rw length_drop; lia.
  - rw NormalizeIP_v6 //. split; auto.
Qed.

(** A parsed address is nil or normalizes to a normalized address. *)
Lemma ParseIP_norm s : ParseIP s <> [] -> norm_ip (NormalizeIP (ParseIP s)).
Proof. intros H. destruct (ParseIP_ok s) as [?|[? ?]]; [done|]. by apply NormalizeIP_norm. Qed.

Lemma ParseIP_String ip : norm_ip ip -> ParseIP (IP_String ip) = To16 ip.
Proof. intros H. by rw IP_String_text // ParseIP_text. Qed.

Lemma To16_nonnil ip : norm_ip ip -> To16 ip <> [].
Proof.
  intros [_ [H|[H _]]]; unfold To16, IPv4len, IPv6len; rw H; simpl; [done|].
  by destruct ip.
Qed.
#[export] Hint Resolve To16_nonnil ParseIP_norm : helios.

Lemma TrimSpace_String ip : norm_ip ip -> TrimSpace (IP_String ip) = IP_String ip.
Proof. intros H. unfold TrimSpace. by rw IP_String_text // go_bytes_of_bytes trim_ip_text. Qed.

(** The text of addresses determines them. *)
Lemma IP_String_inj a b : norm_ip a -> norm_ip b -> IP_String a = IP_String b -> a = b.
Proof.
  intros Ha Hb E. rw -(NormalizeIP_To16 a Ha) -(NormalizeIP_To16 b Hb).
  by rw -ParseIP_String // -ParseIP_String // E.
Qed.

(** ** Well-formed ranges *)

(** What every successful [ParseIPRange] returns. *)
Definition bound_ok (ip : IP) : Prop :=
  bytes_ok ip /\ (length ip = 4%nat \/ length ip = 16%nat).

Lemma norm_bound ip : norm_ip ip -> bound_ok ip.
Proof. intros [? [?|[? _]]]; split; auto. Qed.
#[export] Hint Resolve norm_bound : helios.

(** The parsed block in each of the two families. *)
Lemma ParseCIDR_cases s n :
  ParseCIDR s = Some n ->
  exists b ones, bytes_ok b /\
    ((length b = 4%nat /\ 0 <= ones <= 32 /\
      n = mkIPNet (net_lo b (mask_bytes 4 ones)) (mask_bytes 4 ones)) \/
     (length b = 16%nat /\ 0 <= ones <= 128 /\
      n = mkIPNet (net_lo b (mask_bytes 16 ones)) (mask_bytes 16 ones))).
Proof.
  intros (a & ones & Ha & Ho & Hm & Hi)%ParseCIDR_inv. destruct n as [i m]; simpl in *.
  subst m. rw CIDRMask_eq // in Hi |- *. subst i.
  destruct a as [b|b]; destruct Ha as [Hb Hl]; exists b, ones; (split; [done|]);
    [left|right]; (split; [done|]); (split; [done|]); f_equal.
  - apply Mask_v4; [done|apply length_mask_bytes].
  - apply Mask_v6; [done|apply length_mask_bytes].
Qed.

Lemma net_lo_ok b m l :
  bytes_ok b -> length b = l -> length m = l -> bytes_ok m ->
  bytes_ok (net_lo b m) /\ length (net_lo b m) = l.
Proof.
  intros Hb Hl Hm Hok. unfold net_lo. rw length_zip_with Hl Hm Nat.min_id. split; [|done].
  clear Hl Hm. revert m Hok. induction Hb as [|x b Hx Hb IH]; intros [|y m] Hok; try constructor.
  - apply bytes_ok_cons in Hok as [Hy _].
    rw -(land_255 y Hy) Z.land_assoc (Z.land_ones _ 8); [|lia]. by apply Z.mod_pos_bound.
  - apply bytes_ok_cons in Hok as [_ Hok]. by apply IH.
Qed.

Lemma mask_bytes_ok l n : 0 <= n -> bytes_ok (mask_bytes l n).
Proof.
  revert n. induction l as [|l IH]; intros n Hn; [constructor|]. rw mask_bytes_S.
  destruct (Z.leb_spec 8 n); constructor; try (apply IH; lia); [unfold byte_ok; lia|].
  unfold byte_ok, part_mask, inv_byte.
  assert (n = 0 \/ n = 1 \/ n = 2 \/ n = 3 \/ n = 4 \/ n = 5 \/ n = 6 \/ n = 7)
    as [->|[->|[->|[->|[->|[->|[->| ->]]]]]]] by lia; vm_compute; intuition congruence.
Qed.

Lemma lor_byte_ok x m : byte_ok x -> byte_ok m -> byte_ok (Z.lor x (inv_byte m)).
Proof.
  intros Hx Hm. unfold byte_ok in *. unfold inv_byte.
  assert (0 <= Z.lor x (Z.lxor 255 m)).
  { apply Z.lor_nonneg. split; [lia|]. apply Z.lxor_nonneg. lia. }
  split; [done|]. destruct (Z.eq_dec (Z.lor x (Z.lxor 255 m)) 0) as [->|]; [lia|].
  apply (Z.log2_lt_pow2 _ 8); [lia|]. rw Z.log2_lor; [|lia|apply Z.lxor_nonneg; lia].
  assert (Hlog : forall z, 0 <= z < 256 -> Z.log2 z < 8).
  { intros z Hz. destruct (Z.eq_dec z 0) as [->|]; [done|]. apply Z.log2_lt_pow2; lia. }
  apply Z.max_lub_lt; [auto|]. apply (Z.le_lt_trans _ (Z.max (Z.log2 255) (Z.log2 m))).
  - apply Z.log2_lxor; lia.
  - apply Z.max_lub_lt; [done|auto].
Qed.

Lemma net_hi_ok b m :
  bytes_ok b -> bytes_ok m -> (length b <= length m)%nat ->
  bytes_ok (net_hi b m) /\ length (net_hi b m) = length b.
Proof.
  intros Hb Hm Hl. unfold net_hi. rw length_zip_with Nat.min_l //. split; [|done].
  clear Hl. revert m Hm. induction Hb as [|x b Hx Hb IH]; intros [|y m] Hm; try constructor.
  - apply bytes_ok_cons in Hm as [Hy _]. by apply lor_byte_ok.
  - apply bytes_ok_cons in Hm as [_ Hm]. by apply IH.
Qed.

(** ** The bounds of a block *)

Lemma Size_mask4 n : 0 <= n <= 32 -> Size (mask_bytes 4 n) = (n, 32).
Proof. intros H. apply (Size_CIDRMask (Addr4 [])) in H as E. by rw CIDRMask_eq in E. Qed.

Lemma Size_mask16 n : 0 <= n <= 128 -> Size (mask_bytes 16 n) = (n, 128).
Proof. intros H. apply (Size_CIDRMask (Addr6 [])) in H as E. by rw CIDRMask_eq in E. Qed.

Definition block_lo (l : nat) (b : IP) (ones : Z) : IP := net_lo b (mask_bytes l ones).
Definition block_hi (l : nat) (b : IP) (ones : Z) : IP :=
  net_hi (block_lo l b ones) (mask_bytes l ones).

Lemma block_lo_ok l b ones :
  bytes_ok b -> length b = l -> 0 <= ones ->
  bytes_ok (block_lo l b ones) /\ length (block_lo l b ones) = l.
Proof.
  intros. apply net_lo_ok; auto using length_mask_bytes, mask_bytes_ok.
Qed.

Lemma block_hi_ok l b ones :
  bytes_ok b -> length b = l -> 0 <= ones ->
  bytes_ok (block_hi l b ones) /\ length (block_hi l b ones) = l.
Proof.
  intros Hb Hl Ho. destruct (block_lo_ok l b ones) as [H1 H2]; try done.
  destruct (net_hi_ok (block_lo l b ones) (mask_bytes l ones)) as [H3 H4];
    auto using mask_bytes_ok; [rw length_mask_bytes; lia|].
  unfold block_hi. by rw H4.
Qed.

Lemma block_value l b ones :
  bytes_ok b -> length b = l -> 0 <= ones <= 8 * Z.of_nat l ->
  be_val (block_lo l b ones) = floor2 (be_val b) (8 * Z.of_nat l - ones) /\
  be_val (block_hi l b ones)
    = floor2 (be_val b) (8 * Z.of_nat l - ones) + (2 ^ (8 * Z.of_nat l - ones) - 1).
Proof.
  intros Hb Hl Ho. destruct (mask_value l ones b Hb Hl Ho) as [H1 H2].
  unfold block_hi, block_lo. by rw H2 H1.
Qed.

(** An IPv4 block: without its first and last address when it has more than
    two. *)
Lemma cidr_bounds_v4 b ones :
  bytes_ok b -> length b = 4%nat -> 0 <= ones <= 32 ->
  cidr_bounds (mkIPNet (block_lo 4 b ones) (mask_bytes 4 ones)) =
  if ones <=? 30 then (IncrementIP (block_lo 4 b ones), DecrementIP (block_hi 4 b ones))
  else (block_lo 4 b ones, block_hi 4 b ones).
Proof.
  intros Hb Hl Ho. unfold cidr_bounds. cbn [ipn_IP ipn_Mask]. rw Size_mask4 //.
  destruct (block_lo_ok 4 b ones) as [_ H]; [done|done|lia|]. rw NormalizeIP_v4 //.
  destruct (Z.ltb_spec 1 (32 - ones)), (Z.leb_spec ones 30); simpl; try lia; done.
Qed.

Lemma cidr_bounds_v6 b ones :
  bytes_ok b -> length b = 16%nat -> 0 <= ones <= 128 ->
  take 12 (block_lo 16 b ones) <> v4InV6Prefix ->
  cidr_bounds (mkIPNet (block_lo 16 b ones) (mask_bytes 16 ones)) =
  (block_lo 16 b ones, block_hi 16 b ones).
Proof.
  intros Hb Hl Ho Hp. unfold cidr_bounds. cbn [ipn_IP ipn_Mask]. rw Size_mask16 //.
  destruct (block_lo_ok 16 b ones) as [_ H]; [done|done|lia|]. by rw NormalizeIP_v6.
Qed.

(** An IPv4-mapped block: its address is normalized to four bytes, which are
    then paired with the first four bytes of the sixteen-byte mask. *)
Lemma cidr_bounds_mapped_raw b ones x :
  0 <= ones <= 128 -> block_lo 16 b ones = v4InV6Prefix ++ x -> length x = 4%nat ->
  cidr_bounds (mkIPNet (block_lo 16 b ones) (mask_bytes 16 ones)) =
  (x, net_hi x (mask_bytes 16 ones)).
Proof.
  intros Ho E Hx. unfold cidr_bounds. cbn [ipn_IP ipn_Mask].
  by rw Size_mask16 // E NormalizeIP_mapped.
Qed.

Lemma mask16_split ones :
  96 <= ones -> mask_bytes 16 ones = replicate 12 0xff ++ mask_bytes 4 (ones - 96).
Proof.
  intros H. do 12 (rw mask_bytes_S;
    match goal with |- context [8 <=? ?k] => destruct (Z.leb_spec 8 k); [|lia] end).
  cbn [replicate app]. do 12 f_equal. f_equal. lia.
Qed.

Lemma net_hi_all_ones x m :
  bytes_ok x -> (length x <= 4)%nat -> net_hi x (replicate 12 0xff ++ m) = x.
Proof.
  intros Hx Hl. destruct x as [|x0 [|x1 [|x2 [|x3 [|]]]]]; simpl in Hl; try lia;
    unfold net_hi; cbn [zip_with replicate app]; change (inv_byte 255) with 0;
    by rw ?Z.lor_0_r.
Qed.

(** ** The end of a range that is not normalized *)

(** The end of an IPv6 block that reaches into the IPv4-mapped addresses
    without starting there. *)
Definition mapped_last : IP := v4InV6Prefix ++ [255; 255; 255; 255].

Lemma mask16_low_checked :
  forallb (fun n => bool_decide (drop 12 (mask_bytes 16 n) = [0; 0; 0; 0])) (seqZ 0 96) = true.
Proof. vm_compute. reflexivity. Qed.

Lemma mask16_low n : 0 <= n < 96 -> drop 12 (mask_bytes 16 n) = [0; 0; 0; 0].
Proof.
  intros Hn. pose proof mask16_low_checked as H. rw forallb_forall in H. specialize (H n).
  rw -list_elem_of_In elem_of_seqZ in H. apply bool_decide_eq_true_1 in H; [done|lia].
Qed.

Lemma zip_with_take {A B C} (f : A -> B -> C) n l k :
  take n (zip_with f l k) = zip_with f (take n l) (take n k).
Proof. revert l k. induction n; intros [|x l] [|y k]; simpl; f_equal; auto. Qed.

Lemma zip_with_drop {A B C} (f : A -> B -> C) n l k :
  length l = length k -> drop n (zip_with f l k) = zip_with f (drop n l) (drop n k).
Proof.
  revert l k. induction n as [|n IH]; intros [|x l] [|y k]; simpl; try done; intros ?; apply IH; lia.
Qed.

Lemma lor_255 x : byte_ok x -> Z.lor x 0xff = 0xff.
Proof.
  intros Hx. apply Z.bits_inj'. intros i Hi. rw Z.lor_spec.
  change 0xff with (Z.ones 8). rw Z.testbit_ones_nonneg; [|lia..].
  destruct (Z.ltb_spec i 8); [by rw orb_true_r|]. rw orb_false_r.
  unfold byte_ok in Hx. destruct (Z.eq_dec x 0) as [->|]; [by rw Z.testbit_0_l|].
  apply Z.bits_above_log2; [lia|]. apply (Z.lt_le_trans _ 8); [|done].
  apply Z.log2_lt_pow2; lia.
Qed.

Lemma block_hi_mapped b ones :
  bytes_ok b -> length b = 16%nat -> 0 <= ones <= 128 ->
  take 12 (block_lo 16 b ones) <> v4InV6Prefix ->
  take 12 (block_hi 16 b ones) = v4InV6Prefix -> block_hi 16 b ones = mapped_last.
Proof.
  intros Hb Hl Ho Hlo Hhi. destruct (block_lo_ok 16 b ones) as [L1 L2]; [done|done|lia|].
  destruct (Z.le_gt_cases 96 ones) as [H|H].
  - contradict Hlo. rw -Hhi. unfold block_hi, net_hi. rw zip_with_take mask16_split; [|lia].
    change (take 12 (replicate 12 0xff ++ ?m)) with (replicate 12 0xff).
    assert (T : length (take 12 (block_lo 16 b ones)) = 12%nat) by (rw length_take; lia).
    revert T. generalize (take 12 (block_lo 16 b ones)). intros l T.
    do 12 (destruct l as [|? l]; [done|]). destruct l; [|done].
    cbn [replicate zip_with]. change (inv_byte 255) with 0. by rw !Z.lor_0_r.
  - rw -(take_drop 12 (block_hi 16 b ones)) Hhi. unfold mapped_last. f_equal.
    unfold block_hi, net_hi. rw zip_with_drop; [|by rw length_mask_bytes].
    rw mask16_low; [|lia].
    assert (T : length (drop 12 (block_lo 16 b ones)) = 4%nat) by (rw length_drop; lia).
    pose proof (bytes_ok_drop 12 _ L1) as Hd.
    revert T Hd. generalize (drop 12 (block_lo 16 b ones)). intros l T Hd.
    do 4 (destruct l as [|? l]; [done|]). destruct l; [|done].
    rw !bytes_ok_cons in Hd. destruct Hd as (? & ? & ? & ? & _).
    cbn [zip_with]. change (inv_byte 0) with 255. by rw !lor_255.
Qed.

Lemma bytes_le_net_hi x m : (length x <= length m)%nat -> bytes_ok x -> bytes_ok m -> bytes_le x (net_hi x m).
Proof.
  intros Hl Hx. revert m Hl. unfold bytes_le, net_hi.
  induction Hx as [|b x Hb Hx IH]; intros [|y m] Hl Hm; simpl in *; try lia.
  apply bytes_ok_cons in Hm as [Hy Hm].
  assert (b <= Z.lor b (inv_byte y)).
  { pose proof (lor_byte_ok b y Hb Hy) as Ho. unfold byte_ok in Ho.
    apply Z.ldiff_le; [lia|]. apply Z.bits_inj'. intros i Hi.
    rw Z.ldiff_spec Z.lor_spec Z.bits_0. by destruct (Z.testbit b i). }
  destruct (Z.ltb_spec b (Z.lor b (inv_byte y))); [lia|].
  destruct (Z.ltb_spec (Z.lor b (inv_byte y)) b); [lia|]. apply IH; [lia|done].
Qed.

(** The bounds of an IPv4 block, by values. *)
Lemma block4_values a ones :
  bytes_ok a -> length a = 4%nat -> 0 <= ones <= 32 ->
  exists s e, cidr_bounds (mkIPNet (block_lo 4 a ones) (mask_bytes 4 ones)) = (s, e) /\
    bytes_ok s /\ bytes_ok e /\ length s = 4%nat /\ length e = 4%nat /\
    let network := floor2 (be_val a) (32 - ones) in
    let broadcast := network + (2 ^ (32 - ones) - 1) in
    let skip := if ones <=? 30 then 1 else 0 in
    be_val s = network + skip /\ be_val e = broadcast - skip /\ be_val s <= be_val e.
Proof.
  intros Hb Hl Ho. rw cidr_bounds_v4 //.
  destruct (block_value 4 a ones) as [V1 V2]; [done|done|lia|].
  change (8 * Z.of_nat 4) with 32 in V1, V2.
  destruct (block_lo_ok 4 a ones) as [L1 L2]; [done|done|lia|].
  destruct (block_hi_ok 4 a ones) as [H1 H2]; [done|done|lia|].
  pose proof (be_val_range _ L1) as Rl. pose proof (be_val_range _ H1) as Rh.
  rw L2 in Rl. rw H2 in Rh. cbv zeta. destruct (Z.leb_spec ones 30) as [Hs|Hs].
  - destruct (IncrementIP_val _ L1) as (I1 & I2 & I3).
    destruct (DecrementIP_val _ H1) as (D1 & D2 & D3).
    assert (2 ^ 2 <= 2 ^ (32 - ones)) by (apply Z.pow_le_mono_r; lia).
    do 2 eexists. split; [done|]. rw I2 D2 I3 D3 L2 H2 !Z.mod_small; [by split_and!; (done || lia)|lia..].
  - assert (0 < 2 ^ (32 - ones)) by (apply Z.pow_pos_nonneg; lia).
    do 2 eexists. split; [done|]. split_and!; done || lia.
Qed.

(** ** Every result is well formed *)

(** The end of a range is normalized or the last IPv4-mapped address. *)
Definition end_ok (e : IP) : Prop := norm_ip e \/ e = mapped_last.

Lemma end_bound e : end_ok e -> bound_ok e.
Proof. intros [?| ->]; [auto with helios|]. by apply (bool_decide_unpack _); vm_compute. Qed.

Lemma cidr_bounds_ok s n :
  ParseCIDR s = Some n ->
  norm_ip (fst (cidr_bounds n)) /\ end_ok (snd (cidr_bounds n)) /\
  bytes_le (fst (cidr_bounds n)) (snd (cidr_bounds n)) /\
  length (fst (cidr_bounds n)) = length (snd (cidr_bounds n)).
Proof.
  intros (b & ones & Hb & H)%ParseCIDR_cases.
  destruct H as [(Hl & Ho & ->)|(Hl & Ho & ->)].
  - destruct (block4_values b ones) as (lo & hi & E & ? & ? & ? & ? & _ & _ & ?); [done..|].
    unfold block_lo in E. rw E /=. split; [split; auto|]. split; [left; split; auto|].
    rw bytes_le_be_val //; [split; congruence|congruence].
  - destruct (block_lo_ok 16 b ones) as [L1 L2]; [done|done|lia|].
    destruct (block_hi_ok 16 b ones) as [H1 H2]; [done|done|lia|].
    change (net_lo b (mask_bytes 16 ones)) with (block_lo 16 b ones).
    destruct (decide (take 12 (block_lo 16 b ones) = v4InV6Prefix)) as [E|E].
    + rw (cidr_bounds_mapped_raw b ones (drop 12 (block_lo 16 b ones))) //;
        [|by rw -{1}(take_drop 12 (block_lo 16 b ones)) E|rw length_drop; lia]. simpl.
      assert (D4 : length (drop 12 (block_lo 16 b ones)) = 4%nat) by (rw length_drop; lia).
      assert (Dk : bytes_ok (drop 12 (block_lo 16 b ones))) by auto with helios.
      destruct (net_hi_ok (drop 12 (block_lo 16 b ones)) (mask_bytes 16 ones)) as [N1 N2];
        [done|apply mask_bytes_ok; lia|rw length_mask_bytes; lia|].
      split; [split; auto|]. split; [left; split; [done|left; lia]|]. split; [|congruence].
      apply bytes_le_net_hi; [rw length_mask_bytes; lia|done|apply mask_bytes_ok; lia].
    + rw cidr_bounds_v6 //. simpl. split; [split; auto|]. split; [|split; [|congruence]].
      * destruct (decide (take 12 (block_hi 16 b ones) = v4InV6Prefix)) as [Eh|Eh].
        -- right. by apply block_hi_mapped.
        -- left. split; auto.
      * apply bytes_le_net_hi; [rw length_mask_bytes; lia|done|apply mask_bytes_ok; lia].
Qed.

Lemma ParseIPRange_end r s e :
  ParseIPRange r = Ok (s, e) -> norm_ip s /\ end_ok e.
Proof.
  unfold ParseIPRange. case_match.
  - destruct (ParseCIDR _) as [n|] eqn:En; [|done]. intros [= E].
    pose proof (cidr_bounds_ok _ _ En) as (H1 & H2 & _). rw E in H1, H2. done.
  - case_bool_decide as Hp.
    + intros [= <- <-]. split; [|left]; auto with helios.
    + destruct (split_on "-" _) as [|p0 [|p1 [|]]]; try done.
      case_match eqn:E; [done|]. intros [= <- <-].
      apply orb_false_iff in E as [E1%bool_decide_eq_false_1 E2%bool_decide_eq_false_1].
      split; [|left]; auto with helios.
Qed.

Lemma ParseIPRange_ok r s e :
  ParseIPRange r = Ok (s, e) -> norm_ip s /\ bound_ok e.
Proof. intros [??]%ParseIPRange_end. auto using end_bound. Qed.

(** Normalizing the end of a range only moves it up. *)
Lemma NormalizeIP_end e : end_ok e -> bytes_le e (NormalizeIP e).
Proof. intros [H| ->]; [by rw NormalizeIP_id|]. by vm_compute. Qed.

(** ** Properties *)

Lemma ParseIP_text_string ip : norm_ip ip -> ParseIP (TrimSpace (of_bytes (ip_text ip))) = To16 ip.
Proof. intros H. rw -IP_String_text // TrimSpace_String // ParseIP_String //. Qed.

(** Text made of solid bytes reaches the parsers unchanged. *)
Lemma TrimSpace_solid l : forallb solid l = true -> TrimSpace (of_bytes l) = of_bytes l.
Proof. intros H. unfold TrimSpace. by rw go_bytes_of_bytes trim_space_solid. Qed.

Lemma ip_text_solid ip : norm_ip ip -> forallb solid (ip_text ip) = true.
Proof.
  intros H%ip_text_ip_char. apply forallb_forall. intros c Hc.
  rw forallb_forall in H. by apply ip_char_solid, H.
Qed.

Lemma decimal_solid n : byte_ok n -> forallb solid (decimal n) = true.
Proof.
  intros H%decimal_ip_char. apply forallb_forall. intros c Hc.
  rw forallb_forall in H. by apply ip_char_solid, H.
Qed.

Lemma ParseIPRange_single a : norm_ip a -> ParseIPRange (IP_String a) = Ok (a, a).
Proof.
  intros Ha. unfold ParseIPRange. rw TrimSpace_String // ParseIP_String //.
  rw IP_String_text // go_bytes_of_bytes.
  rw (proj2 (contains_false "/" (ip_text a))); [|by apply ip_text_notin].
  by rw bool_decide_eq_true_2; [rw NormalizeIP_To16|auto with helios].
Qed.

Lemma ParseIPRange_pair a b :
  norm_ip a -> norm_ip b ->
  ParseIPRange (IP_String a +:+ "-" +:+ IP_String b) = Ok (a, b).
Proof.
  intros Ha Hb. rw !IP_String_text // (of_bytes_app ["-"]) of_bytes_app.
  assert (Hs : forallb solid (ip_text a ++ ["-"] ++ ip_text b) = true).
  { by rw !forallb_app !ip_text_solid. }
  assert (Hn : "-" ∉ ip_text a) by by apply ip_text_notin.
  unfold ParseIPRange. rw TrimSpace_solid // go_bytes_of_bytes.
  rw (proj2 (contains_false "/" _)).
  2:{ rw !not_elem_of_app. split_and!; [by apply ip_text_notin| |by apply ip_text_notin].
      by intros ?%list_elem_of_singleton. }
  rw (ParseIP_not _ "-"); [|rw go_bytes_of_bytes; set_solver|done].
  rw split_on_app // split_on_notin; [|by apply ip_text_notin].
  rw !ParseIP_text_string //. simpl.
  rw !bool_decide_eq_false_2; [|auto with helios..]. by rw !NormalizeIP_To16.
Qed.

Lemma ParseIPRange_cidr a n :
  norm_ip a -> byte_ok n ->
  ParseIPRange (of_bytes (ip_text a ++ "/" :: decimal n)) =
  let addr := if (length a =? 4)%nat then Addr4 a else Addr6 a in
  if BitLen addr <? n then Err (InvalidCIDR (of_bytes (ip_text a ++ "/" :: decimal n)))
  else let m := CIDRMask n (BitLen addr) in
       Ok (cidr_bounds (mkIPNet (Mask (As16 addr) m) m)).
Proof.
  intros Ha Hn. unfold ParseIPRange.
  rw TrimSpace_solid; [|rw forallb_app ip_text_solid //=; by apply decimal_solid].
  rw go_bytes_of_bytes. destruct (contains "/" _) eqn:Ec.
  2:{ apply contains_false in Ec. set_solver. }
  unfold ParseCIDR. rw go_bytes_of_bytes cut_app; [|by apply ip_text_notin].
  rw ParseAddr_text // dtoi_decimal //. cbv zeta. unfold byte_ok in Hn.
  destruct (Z.ltb_spec n 0); [lia|].
  cbn [orb]. by destruct (BitLen _ <? n).
Qed.

(** On an address of [n] bytes, read as a big-endian number,
    [IncrementIP] adds one and [DecrementIP] subtracts one modulo [256 ^ n],
    and each undoes the other. *)
Theorem increment_decrement_wrap (ip : IP) :
  bytes_ok ip ->
  be_val (IncrementIP ip) = (be_val ip + 1) mod 256 ^ Z.of_nat (length ip) /\
  be_val (DecrementIP ip) = (be_val ip - 1) mod 256 ^ Z.of_nat (length ip) /\
  DecrementIP (IncrementIP ip) = ip /\ IncrementIP (DecrementIP ip) = ip.
Proof.
  intros Hb. destruct (IncrementIP_val ip Hb) as (I1 & I2 & I3).
  destruct (DecrementIP_val ip Hb) as (D1 & D2 & D3).
  destruct (DecrementIP_val _ I1) as (ID1 & ID2 & ID3).
  destruct (IncrementIP_val _ D1) as (DI1 & DI2 & DI3).
  pose proof (be_val_range ip Hb) as Hr.
  split_and!; try done; (apply be_val_inj; [done|done|congruence|]).
  - rw ID3 I2 I3 Zminus_mod_idemp_l Z.add_simpl_r. by apply Z.mod_small.
  - rw DI3 D2 D3 Zplus_mod_idemp_l Z.sub_add. by apply Z.mod_small.
Qed.

Lemma increment_decrement_wrap_witness :
  be_val (IncrementIP [10; 0; 255; 255]) = be_val [10; 1; 0; 0] /\
  DecrementIP (IncrementIP [255; 255; 255; 255]) = [255; 255; 255; 255].
Proof.
  split.
  - destruct (increment_decrement_wrap [10; 0; 255; 255]) as [E _];
      [by repeat constructor; vm_compute|]. rw E. reflexivity.
  - apply increment_decrement_wrap. by repeat constructor; vm_compute.
Defined.

(** [CompareIPs] is a total order on normalized addresses: it is zero only
    on equal addresses, antisymmetric and transitive; within one family it is
    the order of the numbers the addresses denote. *)
Theorem CompareIPs_order (a b c : IP) :
  norm_ip a -> norm_ip b -> norm_ip c ->
  (CompareIPs a b = 0 <-> a = b) /\
  CompareIPs b a = - CompareIPs a b /\
  (CompareIPs a b <= 0 -> CompareIPs b c <= 0 -> CompareIPs a c <= 0) /\
  (length a = length b -> CompareIPs a b = Z.sgn (be_val a - be_val b)).
Proof.
  intros Ha Hb Hc. unfold CompareIPs. rw !NormalizeIP_id //. split_and!.
  - split; [apply Compare_eq|]. intros ->. apply Compare_refl.
  - apply Compare_swap.
  - apply bytes_le_trans.
  - intros Hl. apply Compare_be_val; auto with helios.
Qed.

Lemma CompareIPs_order_witness :
  CompareIPs [10; 0; 0; 9] [10; 0; 1; 0] = -1.
Proof.
  destruct (CompareIPs_order [10; 0; 0; 9] [10; 0; 1; 0] [10; 0; 1; 0]) as (_ & _ & _ & E);
    [by apply (bool_decide_unpack _); vm_compute..|].
  rw E; reflexivity.
Defined.

(** C32. Printing addresses and parsing the text as a range gives the addresses
    back: the single form yields the address twice, the form with a dash its
    two addresses, for every pair of normalized IPv4 or IPv6 addresses. *)
Theorem ParseIPRange_roundtrip (a b : IP) :
  norm_ip a -> norm_ip b ->
  ParseIPRange (IP_String a) = Ok (a, a) /\
  ParseIPRange (IP_String a +:+ "-" +:+ IP_String b) = Ok (a, b).
Proof. auto using ParseIPRange_single, ParseIPRange_pair. Qed.

Lemma ParseIPRange_roundtrip_witness :
  ParseIPRange "192.0.2.10-192.0.2.20" = Ok ([192; 0; 2; 10], [192; 0; 2; 20]).
Proof.
  apply (ParseIPRange_roundtrip [192; 0; 2; 10] [192; 0; 2; 20]);
    by apply (bool_decide_unpack _); vm_compute.
Defined.

(** The text of an address, a slash and a prefix length. *)
Definition cidr_text (a : IP) (ones : Z) : string :=
  of_bytes (ip_text a ++ "/" :: decimal ones).

Lemma ParseIPRange_cidr_v4 b ones :
  bytes_ok b -> length b = 4%nat -> 0 <= ones <= 32 ->
  ParseIPRange (cidr_text b ones) =
  Ok (if ones <=? 30 then (IncrementIP (block_lo 4 b ones), DecrementIP (block_hi 4 b ones))
      else (block_lo 4 b ones, block_hi 4 b ones)).
Proof.
  intros Hb Hl Ho. unfold cidr_text. rw ParseIPRange_cidr; [|split; auto|unfold byte_ok; lia].
  rw Hl. cbv zeta. cbn [Nat.eqb]. destruct (Z.ltb_spec (BitLen (Addr4 b)) ones); [simpl in *; lia|].
  rw CIDRMask_eq; [|done]. rw Mask_v4 //; [|apply length_mask_bytes]. f_equal. by apply cidr_bounds_v4.
Qed.

Lemma ParseIPRange_cidr_v6 b ones :
  norm_ip b -> length b = 16%nat -> 0 <= ones <= 128 ->
  ParseIPRange (cidr_text b ones) =
  Ok (cidr_bounds (mkIPNet (block_lo 16 b ones) (mask_bytes 16 ones))).
Proof.
  intros Hb Hl Ho. unfold cidr_text. rw ParseIPRange_cidr //; [|unfold byte_ok; lia].
  rw Hl. cbv zeta. cbn [Nat.eqb]. destruct (Z.ltb_spec (BitLen (Addr6 b)) ones); [simpl in *; lia|].
  rw CIDRMask_eq; [|done]. by rw Mask_v6; [|done|apply length_mask_bytes].
Qed.

(** An IPv4 CIDR range [a/ones] stands for the block of [2 ^ (32 - ones)]
    addresses around [a], without its network and broadcast addresses when the
    prefix is at most 30 bits, and with both for /31 and /32. *)
Theorem ParseIPRange_cidr4_block (a : IP) (ones : Z) :
  bytes_ok a -> length a = 4%nat -> 0 <= ones <= 32 ->
  exists s e, ParseIPRange (cidr_text a ones) = Ok (s, e) /\
    length s = 4%nat /\ length e = 4%nat /\
    let network := floor2 (be_val a) (32 - ones) in
    let broadcast := network + (2 ^ (32 - ones) - 1) in
    let skip := if ones <=? 30 then 1 else 0 in
    be_val s = network + skip /\ be_val e = broadcast - skip.
Proof.
  intros Hb Hl Ho. rw ParseIPRange_cidr_v4 // -cidr_bounds_v4 //.
  destruct (block4_values a ones) as (s & e & E & ?); [done..|]. exists s, e. rw E. naive_solver.
Qed.

Lemma ParseIPRange_cidr4_block_witness :
  exists s e, ParseIPRange "192.168.1.77/24" = Ok (s, e) /\
    be_val s = be_val [192; 168; 1; 1] /\ be_val e = be_val [192; 168; 1; 254].
Proof.
  destruct (ParseIPRange_cidr4_block [192; 168; 1; 77] 24) as (s & e & E & _ & _ & Hs & He);
    [by repeat constructor; vm_compute|done|lia|].
  exists s, e. split; [exact E|]. split; [rw Hs|rw He]; reflexivity.
Defined.

(** An IPv6 CIDR range [a/ones] stands for the whole block of
    [2 ^ (128 - ones)] addresses around [a], provided the block does not start
    in the IPv4-mapped addresses. *)
Theorem ParseIPRange_cidr6_block (a : IP) (ones : Z) :
  norm_ip a -> length a = 16%nat -> 0 <= ones <= 128 ->
  take 12 (block_lo 16 a ones) <> v4InV6Prefix ->
  exists s e, ParseIPRange (cidr_text a ones) = Ok (s, e) /\
    length s = 16%nat /\ length e = 16%nat /\
    be_val s = floor2 (be_val a) (128 - ones) /\
    be_val e = be_val s + (2 ^ (128 - ones) - 1).
Proof.
  intros Ha Hl Ho Hp. rw ParseIPRange_cidr_v6 // cidr_bounds_v6; auto with helios.
  destruct (block_value 16 a ones) as [V1 V2]; [by auto with helios|done|lia|].
  destruct (block_lo_ok 16 a ones) as [L1 L2]; auto with helios; [lia|].
  destruct (block_hi_ok 16 a ones) as [H1 H2]; auto with helios; [lia|].
  do 2 eexists. split; [done|]. change (8 * Z.of_nat 16) with 128 in V1, V2. lia.
Qed.

Lemma ParseIPRange_cidr6_block_witness :
  exists s e, ParseIPRange "fd00::7/120" = Ok (s, e) /\ be_val e = be_val s + 255.
Proof.
  destruct (ParseIPRange_cidr6_block (0xfd :: replicate 14 0 ++ [7]) 120)
    as (s & e & E & _ & _ & _ & He);
    [by apply (bool_decide_unpack _); vm_compute|done|lia|by vm_compute|].
  exists s, e. split; [exact E|exact He].
Defined.

(** A CIDR range written with an IPv4-mapped IPv6 address and a prefix of
    at least 96 bits collapses to a single address, the network address of its
    block: [ParseIPRange] pairs the four bytes of the normalized address with
    the first four bytes of the sixteen-byte mask.  The block itself, as
    [IPNet.Contains] sees it, has [2 ^ (128 - ones)] addresses. *)
Theorem mapped_cidr_collapses (b : IP) (ones : Z) :
  bytes_ok b -> length b = 4%nat -> 96 <= ones <= 128 ->
  let m := CIDRMask ones 128 in
  cidr_bounds (mkIPNet (Mask (As16 (Addr6 (v4InV6Prefix ++ b))) m) m)
  = (block_lo 4 b (ones - 96), block_lo 4 b (ones - 96)).
Proof.
  intros Hb Hl Ho. cbv zeta.
  rw (CIDRMask_eq (Addr6 [])); [|simpl; lia]. change (Z.to_nat (BitLen (Addr6 []) / 8)) with 16%nat.
  rw Mask_v6; [|by rw length_app Hl|apply length_mask_bytes].
  destruct (block_lo_ok 4 b (ones - 96)) as [L1 L2]; [done|done|lia|].
  change (zip_with Z.land ?x (mask_bytes 16 ones)) with (block_lo 16 x ones).
  assert (E : block_lo 16 (v4InV6Prefix ++ b) ones = v4InV6Prefix ++ block_lo 4 b (ones - 96)).
  { unfold block_lo, net_lo. rw mask16_split; [|lia]. by rw zip_with_app. }
  rw (cidr_bounds_mapped_raw _ ones (block_lo 4 b (ones - 96))) //; [|lia].
  rw mask16_split; [|lia]. rw net_hi_all_ones //. lia.
Qed.

Lemma mapped_cidr_collapses_witness :
  ParseIPRange "::ffff:192.0.2.0/120" = Ok ([192; 0; 2; 0], [192; 0; 2; 0]) /\
  cidr_bounds (mkIPNet (Mask (As16 (Addr6 (v4InV6Prefix ++ [192; 0; 2; 0]))) (CIDRMask 120 128))
                 (CIDRMask 120 128)) = ([192; 0; 2; 0], [192; 0; 2; 0]).
Proof.
  split; [vm_compute; reflexivity|].
  apply (mapped_cidr_collapses [192; 0; 2; 0] 120);
    [by repeat constructor; vm_compute|done|lia].
Defined.
