(* ===== verification/IPAllocator.v ===== *)
(** * The IP allocator: internal/network/ip_allocator.go and network.go

    [IPAllocator] hands out the addresses of a range and remembers the ones in
    use in a map keyed by their text.  Each method takes the mutex for all its
    accesses to that map (the range is parsed before, from the arguments
    alone), so a method is one atomic transition of the state and concurrent
    calls are a sequence of such transitions. *)
From Stdlib Require Import Ascii.
From S2P Require Import Prelude GoStrings Bytes NetIP NetText NetCIDR IPRange.

Local Open Scope char_scope.
Local Open Scope Z_scope.

(** ** State and errors *)

Definition defaultMaxScan : Z := Z.shiftl 1 16.

Record IPAllocator : Type := mkIPAllocator {
  used : gmap string bool;
  maxScan : Z;
}.

Definition NewIPAllocator : IPAllocator := mkIPAllocator ∅ defaultMaxScan.

(** The three reasons wrapped around [ErrIPUnavailable]. *)
Inductive unavailable : Type :=
| NotAnIP (requested : string)
| NotAllocatable (requested ipRange : string)
| AlreadyAllocated (ip : string).

Inductive alloc_error : Type :=
| RangeError (e : range_error)
| ScanLimit (ipRange : string) (limit : Z)
| NoAvailableIPs (ipRange : string)
| ErrIPUnavailable (why : unavailable).

(** ** Operations *)

(** [a.used[ip]]: false when the key is absent. *)
Definition is_used (a : IPAllocator) (ip : string) : bool := default false (used a !! ip).

(** [a.used[ip] = true] *)
Definition set_used (ip : string) (a : IPAllocator) : IPAllocator :=
  mkIPAllocator (<[ip := true]> (used a)) (maxScan a).

(** The loop of [AllocateIP] from [ip]: [n] is [a.maxScan - scanned], so the
    test [scanned >= a.maxScan] is [n = 0]. *)
Fixpoint scan (a : IPAllocator) (ipRange : string) (end_ : IP) (n : nat) (ip : IP)
  : result alloc_error string * IPAllocator :=
  if Compare ip end_ <=? 0 then
    match n with
    | O => (Err (ScanLimit ipRange (maxScan a)), a)
    | S n' =>
        let ipStr := IP_String ip in
        if negb (is_used a ipStr) then (Ok ipStr, set_used ipStr a)
        else scan a ipRange end_ n' (IncrementIP ip)
    end
  else (Err (NoAvailableIPs ipRange), a).

Definition AllocateIP (ipRange : string) (a : IPAllocator)
  : result alloc_error string * IPAllocator :=
  match ParseIPRange ipRange with
  | Err e => (Err (RangeError e), a)
  | Ok (start, end_) =>
      if Equal start end_ then
        let ipStr := IP_String start in (Ok ipStr, set_used ipStr a)
      else scan a ipRange end_ (Z.to_nat (maxScan a)) start
  end.

Definition IPAllocatable (ip ipRange : string) : bool :=
  let target := ParseIP (TrimSpace ip) in
  if bool_decide (target = []) then false
  else match ParseIPRange ipRange with
       | Err _ => false
       | Ok (start, end_) =>
           let normalized := NormalizeIP target in
           (Compare normalized start >=? 0) && (Compare normalized end_ <=? 0)
       end.

Definition AllocateSpecificIP (ipRange requested : string) (a : IPAllocator)
  : result alloc_error string * IPAllocator :=
  let target := ParseIP (TrimSpace requested) in
  if bool_decide (target = []) then (Err (ErrIPUnavailable (NotAnIP requested)), a)
  else if negb (IPAllocatable requested ipRange)
  then (Err (ErrIPUnavailable (NotAllocatable requested ipRange)), a)
  else
    let ipStr := IP_String (NormalizeIP target) in
    if is_used a ipStr then (Err (ErrIPUnavailable (AlreadyAllocated ipStr)), a)
    else (Ok ipStr, set_used ipStr a).

Definition IPInRange (ip ipRange : string) : bool :=
  let target := ParseIP (TrimSpace ip) in
  if bool_decide (target = []) then false
  else if contains "/" (go_bytes ipRange) then
    match ParseCIDR (TrimSpace ipRange) with
    | None => false
    | Some ipNet => Contains ipNet target
    end
  else match ParseIPRange ipRange with
       | Err _ => false
       | Ok (start, end_) =>
           let normalized := NormalizeIP target in
           (Compare normalized start >=? 0) && (Compare normalized end_ <=? 0)
       end.

Definition MarkUsed (ip : string) (a : IPAllocator) : IPAllocator := set_used ip a.

Definition ReleaseIP (ip : string) (a : IPAllocator) : IPAllocator :=
  mkIPAllocator (delete ip (used a)) (maxScan a).

(** ** network.go: the manager forwards to its allocator *)
Module NetworkManager.

Record t : Type := mk { ipAllocator : IPAllocator }.

Definition New : t := mk NewIPAllocator.

Definition AllocateIP (ipRange : string) (nm : t) : result alloc_error string * t :=
  let '(r, a) := AllocateIP ipRange (ipAllocator nm) in (r, mk a).

Definition AllocateSpecificIP (ipRange requested : string) (nm : t)
  : result alloc_error string * t :=
  let '(r, a) := AllocateSpecificIP ipRange requested (ipAllocator nm) in (r, mk a).

Definition MarkUsed (ip : string) (nm : t) : t := mk (MarkUsed ip (ipAllocator nm)).

Definition ReleaseIP (ip : string) (nm : t) : t := mk (ReleaseIP ip (ipAllocator nm)).

End NetworkManager.

(** ** Entries of the map *)

Lemma is_used_set ip a x : is_used (set_used ip a) x = bool_decide (x = ip) || is_used a x.
Proof.
  unfold is_used, set_used. simpl. rw lookup_insert.
  case_decide; case_bool_decide; simplify_eq; done.
Qed.

Lemma is_used_release ip a x :
  is_used (ReleaseIP ip a) x = negb (bool_decide (x = ip)) && is_used a x.
Proof.
  unfold is_used, ReleaseIP. simpl. rw lookup_delete.
  case_decide; case_bool_decide; simplify_eq; done.
Qed.

Lemma is_used_new x : is_used NewIPAllocator x = false.
Proof. done. Qed.

#[export] Hint Rewrite is_used_set is_used_release is_used_new : helios.

(** Allocators that agree on every entry and on the scan bound; [used] may
    still differ in entries that are present and false. *)
#[export] Instance alloc_equiv : Equiv IPAllocator := fun a b =>
  (forall x, is_used a x = is_used b x) /\ maxScan a = maxScan b.

#[export] Instance alloc_equivalence : Equivalence (≡@{IPAllocator}).
Proof.
  split.
  - by intros a.
  - intros a b [H1 H2]. split; [intros x; by rw H1|done].
  - intros a b c [H1 H2] [H3 H4]. split; [intros x; by rw H1|congruence].
Qed.

#[export] Instance is_used_proper : Proper ((≡) ==> (=) ==> (=)) is_used.
Proof. intros a b [H _] x ? <-. apply H. Qed.

#[export] Instance set_used_proper ip : Proper ((≡) ==> (≡)) (set_used ip).
Proof.
  intros a b [H1 H2]. split; [|done]. intros x. rw !is_used_set. by rw H1.
Qed.

#[export] Instance ReleaseIP_proper ip : Proper ((≡) ==> (≡)) (ReleaseIP ip).
Proof.
  intros a b [H1 H2]. split; [|done]. intros x. rw !is_used_release. by rw H1.
Qed.

(** ** The scan, by values *)

(** Addresses of [l] bytes by their value. *)
Lemma IncrementIP_be_bytes l v :
  0 <= v -> v + 1 < 256 ^ Z.of_nat l -> IncrementIP (be_bytes l v) = be_bytes l (v + 1).
Proof.
  intros H1 H2. destruct (IncrementIP_val (be_bytes l v)) as (I1 & I2 & I3); [apply be_bytes_ok|].
  apply be_val_inj; [done|apply be_bytes_ok|by rw I2 !length_be_bytes|].
  rw I3 !be_val_be_bytes length_be_bytes Zplus_mod_idemp_l //.
Qed.

Lemma Compare_be_bytes l v e :
  bytes_ok e -> length e = l -> 0 <= v < 256 ^ Z.of_nat l ->
  (Compare (be_bytes l v) e <=? 0) = (v <=? be_val e).
Proof.
  intros He Hl Hv. pose proof (bytes_le_be_val (be_bytes l v) e (be_bytes_ok l v) He) as H.
  rw length_be_bytes in H. specialize (H (eq_sym Hl)). unfold bytes_le in H.
  rw be_val_be_bytes Z.mod_small // in H.
  destruct (Z.leb_spec (Compare (be_bytes l v) e) 0), (Z.leb_spec v (be_val e)); try done; lia.
Qed.

(** The text of the address of [l] bytes with value [v]. *)
Definition addr_text (l : nat) (v : Z) : string := IP_String (be_bytes l v).

(** Reference: the first of the addresses with the values [vs] not in use. *)
Definition first_free (a : IPAllocator) (l : nat) (vs : list Z) : option Z :=
  find (fun v => negb (is_used a (addr_text l v))) vs.

Definition first_fit (a : IPAllocator) (ipRange : string) (l : nat) (lo hi : Z) (n : Z)
  : result alloc_error string * IPAllocator :=
  let count := hi - lo + 1 in
  match first_free a l (seqZ lo (Z.min n count)) with
  | Some v => (Ok (addr_text l v), set_used (addr_text l v) a)
  | None => (Err (if count <=? n then NoAvailableIPs ipRange else ScanLimit ipRange (maxScan a)), a)
  end.

Lemma scan_first_fit a r e l n v :
  bytes_ok e -> length e = l -> 0 <= v < 256 ^ Z.of_nat l ->
  be_val e < 256 ^ Z.of_nat l - 1 ->
  scan a r e n (be_bytes l v) = first_fit a r l v (be_val e) (Z.of_nat n).
Proof.
  intros He Hl Hv Hmax. revert v Hv.
  induction n as [|n IH]; intros v Hv; cbn [scan]; rw Compare_be_bytes //;
    unfold first_fit, first_free; destruct (Z.leb_spec v (be_val e)).
  - rw seqZ_nil; [|lia]. cbn [find].
    by destruct (Z.leb_spec (be_val e - v + 1) (Z.of_nat 0)); [lia|].
  - rw seqZ_nil; [|lia]. cbn [find].
    by destruct (Z.leb_spec (be_val e - v + 1) (Z.of_nat 0)); [|lia].
  - rw seqZ_cons; [|lia]. cbn [find]. fold (addr_text l v).
    destruct (negb (is_used a (addr_text l v))) eqn:Eu; [done|].
    rw IncrementIP_be_bytes; [|lia..]. rw IH; [|lia]. unfold first_fit, first_free.
    replace (Z.pred (Z.min (Z.of_nat (S n)) (be_val e - v + 1)))
      with (Z.min (Z.of_nat n) (be_val e - (v + 1) + 1)) by lia.
    destruct (find _ _); [done|].
    by destruct (Z.leb_spec (be_val e - (v + 1) + 1) (Z.of_nat n)),
      (Z.leb_spec (be_val e - v + 1) (Z.of_nat (S n))); try lia.
  - rw seqZ_nil; [|lia]. cbn [find].
    by destruct (Z.leb_spec (be_val e - v + 1) (Z.of_nat (S n))); [|lia].
Qed.

Lemma Equal_same_length a b : length a = length b -> Equal a b = bool_decide (a = b).
Proof. intros H. unfold Equal. by rw H Nat.eqb_refl. Qed.

(** ** Ranges without surprises *)

(** The values of the IPv4-mapped addresses [::ffff:0:0/96]. *)
Definition mapped_lo : Z := 0xffff00000000.
Definition mapped_hi : Z := 0xffffffffffff.

(** Both bounds in one family and in order, the last address of the family not
    in the range, and no IPv4-mapped address in an IPv6 range. *)
Definition sane_range (s e : IP) : Prop :=
  length s = length e /\ be_val s <= be_val e < 256 ^ Z.of_nat (length s) - 1 /\
  (length s = 4%nat \/ be_val e < mapped_lo \/ mapped_hi < be_val s).

#[export] Instance sane_range_dec s e : Decision (sane_range s e).
Proof. unfold sane_range. apply _. Defined.

Lemma take_be_bytes k m v : take k (be_bytes (k + m) v) = be_bytes k (v / 256 ^ Z.of_nat m).
Proof.
  induction k as [|k IH]; [done|]. simpl. rw IH. f_equal. f_equal.
  rw Nat2Z.inj_add Z.pow_add_r; [|lia..]. rw Z.mul_comm Z.div_div //.
  - pose proof (pow256_pos m). lia.
  - apply pow256_pos.
Qed.

Lemma be_bytes_norm l v :
  (l = 4%nat \/ l = 16%nat /\ (v < mapped_lo \/ mapped_hi < v)) ->
  0 <= v < 256 ^ Z.of_nat l -> norm_ip (be_bytes l v).
Proof.
  intros [->|[-> Hm]] Hv; (split; [apply be_bytes_ok|]); rw length_be_bytes; [by left|].
  right. split; [done|]. intros E. rw (take_be_bytes 12 4) in E.
  apply (f_equal be_val) in E. rw be_val_be_bytes in E.
  change (be_val v4InV6Prefix) with 0xffff in E.
  change (256 ^ Z.of_nat 4) with 0x100000000 in E.
  change (256 ^ Z.of_nat 12) with 0x1000000000000000000000000 in E.
  change (256 ^ Z.of_nat 16) with 0x100000000000000000000000000000000 in Hv.
  unfold mapped_lo, mapped_hi in Hm. divlia.
Qed.

Lemma sane_range_norm s e v :
  norm_ip s -> sane_range s e -> be_val s <= v <= be_val e ->
  0 <= v < 256 ^ Z.of_nat (length s) /\ norm_ip (be_bytes (length s) v).
Proof.
  intros Hs (Hl & Hv & Hm) H. pose proof (be_val_range s (norm_ip_bytes _ Hs)).
  assert (0 <= v < 256 ^ Z.of_nat (length s)) by lia. split; [done|].
  apply be_bytes_norm; [|done]. destruct Hs as [_ [H4|[H16 _]]]; [by left|].
  right. split; [done|]. destruct Hm as [?|?]; lia.
Qed.

(** ** Membership in a range, by values *)

Lemma IPAllocatable_norm ip r s e x :
  ParseIP (TrimSpace ip) <> [] -> NormalizeIP (ParseIP (TrimSpace ip)) = x ->
  ParseIPRange r = Ok (s, e) ->
  IPAllocatable ip r = true <-> bytes_le s x /\ bytes_le x e.
Proof.
  intros Hn Hx Hr. unfold IPAllocatable. rw bool_decide_eq_false_2 // Hr. cbv zeta. rw Hx.
  rw andb_true_iff -bytes_le_ge. unfold bytes_le. lia.
Qed.

Lemma IPAllocatable_String x r s e :
  norm_ip x -> ParseIPRange r = Ok (s, e) ->
  IPAllocatable (IP_String x) r = true <-> bytes_le s x /\ bytes_le x e.
Proof.
  intros Hx Hr. apply IPAllocatable_norm; [| |done]; rw TrimSpace_String // ParseIP_String //;
    [by auto with helios|by apply NormalizeIP_To16].
Qed.

Lemma be_bytes_of_val x : bytes_ok x -> be_bytes (length x) (be_val x) = x.
Proof. apply be_bytes_be_val. Qed.

(** The values between the bounds of a sane range are allocatable. *)
Lemma addr_text_allocatable r s e v :
  ParseIPRange r = Ok (s, e) -> sane_range s e -> be_val s <= v <= be_val e ->
  IPAllocatable (addr_text (length s) v) r = true.
Proof.
  intros Hr Hsane Hv. pose proof (ParseIPRange_ok _ _ _ Hr) as [Hs [He _]].
  destruct (sane_range_norm s e v Hs Hsane Hv) as [Hrange Hn].
  apply (IPAllocatable_String _ _ s e Hn Hr).
  destruct Hsane as (Hl & _).
  rw !bytes_le_be_val; rw ?length_be_bytes; auto with helios.
  rw be_val_be_bytes Z.mod_small //.
Qed.

Lemma first_free_Some a l vs v :
  first_free a l vs = Some v -> v ∈ vs /\ is_used a (addr_text l v) = false.
Proof.
  intros [Hin Hu]%find_some. split; [by apply list_elem_of_In|].
  by apply negb_true_iff.
Qed.

Lemma first_free_None a l vs v :
  first_free a l vs = None -> v ∈ vs -> is_used a (addr_text l v) = true.
Proof.
  intros H Hin%list_elem_of_In. apply (find_none _ _ H) in Hin. by apply negb_false_iff.
Qed.

Lemma AllocateIP_scan r a s e :
  ParseIPRange r = Ok (s, e) -> length s = length e ->
  be_val e < 256 ^ Z.of_nat (length s) - 1 -> 0 <= maxScan a ->
  AllocateIP r a =
  if bool_decide (s = e) then (Ok (IP_String s), set_used (IP_String s) a)
  else first_fit a r (length s) (be_val s) (be_val e) (maxScan a).
Proof.
  intros Hr Hl Hmax Hscan. unfold AllocateIP. rw Hr Equal_same_length //.
  case_bool_decide; [done|]. pose proof (ParseIPRange_ok _ _ _ Hr) as [Hs [He _]].
  rw -{1}(be_bytes_of_val s); [|auto with helios].
  rw scan_first_fit //; [by rw Z2Nat.id|]. apply be_val_range. auto with helios.
Qed.

(** ** Properties of allocation from the pool *)

(** C5. [AllocateIP] is first fit.  On a range of several addresses of one
    family that does not end at the family's last address, the loop with its
    increments and byte comparisons computes what the reference [first_fit]
    computes on integers: the lowest address not in use among the first
    [maxScan] addresses of the range, else the error that tells an exhausted
    range from an exhausted scan. *)
Theorem AllocateIP_is_first_fit (r : string) (a : IPAllocator) (s e : IP) :
  ParseIPRange r = Ok (s, e) -> s <> e -> length s = length e ->
  be_val e < 256 ^ Z.of_nat (length s) - 1 -> 0 <= maxScan a ->
  AllocateIP r a = first_fit a r (length s) (be_val s) (be_val e) (maxScan a).
Proof. intros Hr Hne ???. rw (AllocateIP_scan r a s e) //. by rw bool_decide_eq_false_2. Qed.

Lemma AllocateIP_is_first_fit_witness :
  AllocateIP "192.0.2.10-192.0.2.20" (MarkUsed "192.0.2.10" NewIPAllocator) =
  first_fit (MarkUsed "192.0.2.10" NewIPAllocator) "192.0.2.10-192.0.2.20" 4
    (be_val [192; 0; 2; 10]) (be_val [192; 0; 2; 20]) 65536.
Proof.
  apply (AllocateIP_is_first_fit "192.0.2.10-192.0.2.20" (MarkUsed "192.0.2.10" NewIPAllocator)
           [192; 0; 2; 10] [192; 0; 2; 20]);
    [by vm_compute|done|done|by vm_compute|by vm_compute].
Defined.

(** Every address [AllocateIP] hands out from a sane range is allocatable
    from it, was free unless the range is a single address, and is the only
    entry the call changes; a failed call changes nothing. *)
Theorem AllocateIP_sound (r : string) (a a' : IPAllocator) (s e : IP)
    (res : result alloc_error string) :
  ParseIPRange r = Ok (s, e) -> sane_range s e -> 0 <= maxScan a ->
  AllocateIP r a = (res, a') ->
  match res with
  | Ok ip => IPAllocatable ip r = true /\ (s <> e -> is_used a ip = false) /\ a' = set_used ip a
  | Err _ => s <> e /\ a' = a
  end.
Proof.
  intros Hr Hsane Hscan. pose proof Hsane as (Hl & Hv & _). rw (AllocateIP_scan r a s e) //; [|lia].
  case_bool_decide as Hse.
  - intros [= <- <-]. split_and!; [|done|done]. pose proof (ParseIPRange_ok _ _ _ Hr) as [Hs _].
    rw -(be_bytes_of_val s); [|auto with helios]. apply (addr_text_allocatable r s e); [done..|lia].
  - unfold first_fit. destruct (first_free _ _ _) as [v|] eqn:Ef; intros [= <- <-]; [|done].
    apply first_free_Some in Ef as [Hin%elem_of_seqZ Hu]. split_and!; [|done|done].
    apply (addr_text_allocatable r s e); [done..|lia].
Qed.

Lemma AllocateIP_sound_witness :
  IPAllocatable "192.0.2.1" "192.0.2.0/24" = true /\
  snd (AllocateIP "192.0.2.0/24" NewIPAllocator) = set_used "192.0.2.1" NewIPAllocator.
Proof.
  destruct (AllocateIP_sound "192.0.2.0/24" NewIPAllocator
    (snd (AllocateIP "192.0.2.0/24" NewIPAllocator)) [192; 0; 2; 1] [192; 0; 2; 254]
    (Ok "192.0.2.1"%string)) as (H1 & _ & H3);
    [by vm_compute|by apply (bool_decide_unpack _); vm_compute|by vm_compute|by vm_compute|].
  split; [exact H1|exact H3].
Defined.

(** A range is never reported exhausted while one of the addresses the
    scan covers is free: [AllocateIP] then returns an address, and it is the
    lowest free one. *)
Theorem AllocateIP_complete (r : string) (a : IPAllocator) (s e : IP) (v : Z) :
  ParseIPRange r = Ok (s, e) -> sane_range s e -> s <> e ->
  be_val s <= v <= be_val e -> v < be_val s + maxScan a ->
  is_used a (addr_text (length s) v) = false ->
  exists w, be_val s <= w <= v /\ is_used a (addr_text (length s) w) = false /\
    (forall u, be_val s <= u < w -> is_used a (addr_text (length s) u) = true) /\
    AllocateIP r a = (Ok (addr_text (length s) w), set_used (addr_text (length s) w) a).
Proof.
  intros Hr (Hl & Hv & _) Hne Hrange Hscan Hfree.
  rw (AllocateIP_scan r a s e) //; [|lia..]. rw bool_decide_eq_false_2 //.
  unfold first_fit. set (n := Z.min (maxScan a) (be_val e - be_val s + 1)).
  destruct (first_free a (length s) (seqZ (be_val s) n)) as [w|] eqn:Ef.
  - pose proof Ef as [Hin%elem_of_seqZ Hu]%first_free_Some. exists w.
    assert (Hbefore : forall u, be_val s <= u < w -> is_used a (addr_text (length s) u) = true).
    { intros u Hu'. replace n with ((w - be_val s) + (n - (w - be_val s))) in Ef by lia.
      unfold first_free in Ef. rw seqZ_app in Ef; [|lia..].
      rw find_app in Ef. destruct (find _ (seqZ (be_val s) _)) as [w'|] eqn:Ef'.
      - injection Ef as ->. apply find_some in Ef' as [Hin' _].
        apply list_elem_of_In, elem_of_seqZ in Hin'. lia.
      - apply (first_free_None _ _ _ u Ef'). apply elem_of_seqZ. lia. }
    split_and!; [lia| |done|done|done].
    destruct (Z.le_gt_cases w v); [done|]. by rw Hbefore in Hfree; [|lia].
  - exfalso. rw (first_free_None _ _ _ v Ef) // in Hfree. apply elem_of_seqZ. lia.
Qed.

Lemma AllocateIP_complete_witness :
  exists w, be_val [192; 0; 2; 10] <= w <= be_val [192; 0; 2; 12] /\
    fst (AllocateIP "192.0.2.10-192.0.2.20" NewIPAllocator) = Ok (addr_text 4 w).
Proof.
  destruct (AllocateIP_complete "192.0.2.10-192.0.2.20" NewIPAllocator
    [192; 0; 2; 10] [192; 0; 2; 20] (be_val [192; 0; 2; 12])) as (w & Hw & _ & _ & E);
    [by vm_compute|by apply (bool_decide_unpack _); vm_compute|done|by vm_compute|by vm_compute
    |by vm_compute|].
  exists w. split; [exact Hw|]. rw E. reflexivity.
Defined.

(** ** The end of a family *)

Lemma IncrementIP_last l : IncrementIP (be_bytes l (256 ^ Z.of_nat l - 1)) = be_bytes l 0.
Proof.
  destruct (IncrementIP_val (be_bytes l (256 ^ Z.of_nat l - 1))) as (I1 & I2 & I3);
    [apply be_bytes_ok|].
  apply be_val_inj; [done|apply be_bytes_ok|by rw I2 !length_be_bytes|].
  rw I3 !be_val_be_bytes length_be_bytes Zplus_mod_idemp_l Z.sub_add Z_mod_same_full.
  by rw Zmod_0_l.
Qed.

Lemma scan_wrap a r e l k n v :
  bytes_ok e -> length e = l -> be_val e = 256 ^ Z.of_nat l - 1 ->
  0 <= v -> v + Z.of_nat (S k) = 256 ^ Z.of_nat l ->
  (forall u, v <= u < 256 ^ Z.of_nat l -> is_used a (addr_text l u) = true) ->
  scan a r e (S k + n) (be_bytes l v) = scan a r e n (be_bytes l 0).
Proof.
  intros He Hl Hmax. revert v. induction k as [|k IH]; intros v Hv Hk Hu;
    cbn [Nat.add scan]; (rw Compare_be_bytes; [|done|done|lia]);
    (destruct (Z.leb_spec v (be_val e)); [|lia]); fold (addr_text l v); (rw Hu; [|lia]); cbn [negb].
  - replace v with (256 ^ Z.of_nat l - 1) by lia. by rw IncrementIP_last.
  - rw IncrementIP_be_bytes; [|lia..]. apply (IH (v + 1)); [lia|lia|].
    intros u Hr. apply Hu. lia.
Qed.

(** C39. On a range of more than one address that ends at the last address of
    its family (255.255.255.255 or ffff:...:ffff) the scan does not stop at the
    end of the range: [IncrementIP] wraps to the first address of the family,
    which still compares below the end.  Once every address of the range is in
    use, the first address of the family is free and the range is shorter than
    the limit of the scan, [AllocateIP] grants that address (0.0.0.0 or ::),
    which is not in the range, where it should report that no address is
    available. *)
Theorem AllocateIP_leaves_range (r : string) (a : IPAllocator) (s e : IP) :
  let l := length s in
  ParseIPRange r = Ok (s, e) -> length e = l -> be_val e = 256 ^ Z.of_nat l - 1 ->
  0 < be_val s < be_val e ->
  (forall v, be_val s <= v <= be_val e -> is_used a (addr_text l v) = true) ->
  is_used a (addr_text l 0) = false -> be_val e - be_val s + 1 < maxScan a ->
  AllocateIP r a = (Ok (addr_text l 0), set_used (addr_text l 0) a) /\
  IPAllocatable (addr_text l 0) r = false.
Proof.
  cbv zeta. intros Hr Hl He Hv Hu H0 Hscan.
  pose proof (ParseIPRange_ok _ _ _ Hr) as [Ns [Bs _]]. pose proof (norm_ip_bytes _ Ns) as Hs. split.
  - unfold AllocateIP. rw Hr Equal_same_length // bool_decide_eq_false_2; [|intros ->; lia].
    rw -{1}(be_bytes_of_val s Hs).
    set (k := Z.to_nat (be_val e - be_val s)).
    replace (Z.to_nat (maxScan a)) with (S k + S (Z.to_nat (maxScan a - (be_val e - be_val s + 1) - 1)))%nat
      by lia.
    rw (scan_wrap a r e (length s)) //; [|lia|lia|intros u Hr'; apply Hu; lia].
    cbn [scan]. rw Compare_be_bytes //; [|lia]. destruct (Z.leb_spec 0 (be_val e)); [|lia].
    fold (addr_text (length s) 0). by rw H0.
  - destruct (IPAllocatable (addr_text (length s) 0) r) eqn:E; [|done].
    assert (N : norm_ip (be_bytes (length s) 0)).
    { destruct Ns as [_ [-> |[-> _]]]; by apply (bool_decide_unpack _); vm_compute. }
    apply (IPAllocatable_String _ _ _ _ N Hr) in E as [E _].
    apply bytes_le_be_val in E; [|done|apply be_bytes_ok|by rw length_be_bytes].
    rw be_val_be_bytes Zmod_0_l in E. lia.
Qed.

(** Two allocations use up a range of two addresses, here the last two of each
    family. *)
Definition use_two (r : string) : IPAllocator :=
  snd (AllocateIP r (snd (AllocateIP r NewIPAllocator))).

Lemma AllocateIP_leaves_range_witness :
  fst (AllocateIP "255.255.255.254-255.255.255.255" (use_two "255.255.255.254-255.255.255.255"))
    = Ok "0.0.0.0"%string /\
  let last := "ffff:ffff:ffff:ffff:ffff:ffff:ffff:fffe-ffff:ffff:ffff:ffff:ffff:ffff:ffff:ffff"%string in
  fst (AllocateIP last (use_two last)) = Ok "::"%string.
Proof.
  split.
  - destruct (AllocateIP_leaves_range "255.255.255.254-255.255.255.255"
      (use_two "255.255.255.254-255.255.255.255") [255; 255; 255; 254] [255; 255; 255; 255]) as [E _];
      [by vm_compute|done|done|done| |by vm_compute|by vm_compute|].
    + intros v Hv. change (4294967294 <= v <= 4294967295) in Hv.
      assert (v = 4294967294 \/ v = 4294967295) as [-> | ->] by lia; by vm_compute.
    + rw E. vm_compute. reflexivity.
  - cbv zeta. set (last := "ffff:ffff:ffff:ffff:ffff:ffff:ffff:fffe-ffff:ffff:ffff:ffff:ffff:ffff:ffff:ffff"%string).
    destruct (AllocateIP_leaves_range last (use_two last) (replicate 15 255 ++ [254]) (replicate 16 255)) as [E _];
      [by vm_compute|done|by vm_compute|by vm_compute| |by vm_compute|by vm_compute|].
    + intros v Hv.
      change (340282366920938463463374607431768211454 <= v <= 340282366920938463463374607431768211455) in Hv.
      assert (v = 340282366920938463463374607431768211454 \/ v = 340282366920938463463374607431768211455)
        as [-> | ->] by lia; by vm_compute.
    + rw E. vm_compute. reflexivity.
Defined.

(** ** Specific addresses *)

(** The text under which a request is recorded. *)
Definition canonical (requested : string) : string :=
  IP_String (NormalizeIP (ParseIP (TrimSpace requested))).

Lemma IPAllocatable_parses ip r : IPAllocatable ip r = true -> ParseIP (TrimSpace ip) <> [].
Proof. unfold IPAllocatable. by case_bool_decide. Qed.

Lemma AllocateSpecificIP_cases r q a :
  AllocateSpecificIP r q a =
  if IPAllocatable q r then
    if is_used a (canonical q) then (Err (ErrIPUnavailable (AlreadyAllocated (canonical q))), a)
    else (Ok (canonical q), set_used (canonical q) a)
  else (Err (ErrIPUnavailable (if bool_decide (ParseIP (TrimSpace q) = []) then NotAnIP q
                               else NotAllocatable q r)), a).
Proof.
  unfold AllocateSpecificIP. destruct (IPAllocatable q r) eqn:E.
  - apply IPAllocatable_parses in E. by rw bool_decide_eq_false_2.
  - by case_bool_decide.
Qed.

Lemma canonical_parse q :
  ParseIP (TrimSpace q) <> [] ->
  NormalizeIP (ParseIP (canonical q)) = NormalizeIP (ParseIP (TrimSpace q)).
Proof.
  intros H. unfold canonical. rw ParseIP_String; [|by auto with helios].
  by apply NormalizeIP_To16; auto with helios.
Qed.

(** A request for a specific address is honoured or refused, never
    swapped: [AllocateSpecificIP] succeeds exactly when the address is
    allocatable from the range and free, the text it returns denotes the
    requested address, and only that entry changes.  Every failure wraps
    [ErrIPUnavailable] and leaves the allocator as it was. *)
Theorem AllocateSpecificIP_honoured (r q : string) (a : IPAllocator) :
  match AllocateSpecificIP r q a with
  | (Ok ip, a') =>
      IPAllocatable q r = true /\ is_used a ip = false /\ a' = set_used ip a /\
      NormalizeIP (ParseIP ip) = NormalizeIP (ParseIP (TrimSpace q))
  | (Err err, a') =>
      a' = a /\ (IPAllocatable q r = false \/ is_used a (canonical q) = true) /\
      exists why, err = ErrIPUnavailable why
  end.
Proof.
  rw AllocateSpecificIP_cases. destruct (IPAllocatable q r) eqn:E; [|by eauto].
  destruct (is_used a (canonical q)) eqn:Eu; [by eauto|].
  apply IPAllocatable_parses in E. by rw canonical_parse.
Qed.

(** ** Containment and allocatability *)

Lemma floor2_block x v e :
  0 <= e -> floor2 x e = floor2 v e <-> floor2 v e <= x <= floor2 v e + (2 ^ e - 1).
Proof.
  intros He. unfold floor2. pose proof (Z.pow_pos_nonneg 2 e ltac:(lia) He).
  pose proof (Z.div_mod x (2 ^ e) ltac:(lia)). pose proof (Z.mod_pos_bound x (2 ^ e) ltac:(lia)).
  split; [lia|]. intros Hr. f_equal. nia.
Qed.

Lemma floor2_idemp v e : 0 <= e -> floor2 (floor2 v e) e = floor2 v e.
Proof.
  intros He. apply floor2_block; [done|]. pose proof (Z.pow_pos_nonneg 2 e ltac:(lia) He). lia.
Qed.

(** [Contains] on an IPv4 block. *)
Lemma Contains_v4 a ones x :
  bytes_ok a -> length a = 4%nat -> bytes_ok x -> length x = 4%nat -> 0 <= ones <= 32 ->
  Contains (mkIPNet (block_lo 4 a ones) (mask_bytes 4 ones)) (To16 x) = true <->
  floor2 (be_val x) (32 - ones) = floor2 (be_val a) (32 - ones).
Proof.
  intros Ha Hla Hx Hlx Ho.
  destruct (block_lo_ok 4 a ones) as [L1 L2]; [done|done|lia|].
  destruct (block_lo_ok 4 x ones) as [X1 X2]; [done|done|lia|].
  destruct (block_lo_ok 4 (block_lo 4 a ones) ones) as [LL1 LL2]; [done|done|lia|].
  assert (N : networkNumberAndMask (mkIPNet (block_lo 4 a ones) (mask_bytes 4 ones))
              = (block_lo 4 a ones, mask_bytes 4 ones)).
  { unfold networkNumberAndMask. cbn [ipn_IP ipn_Mask]. rw To4_v4 // length_mask_bytes.
    rw bool_decide_eq_false_2; [|by destruct (block_lo 4 a ones)]. cbn. by rw L2. }
  unfold Contains. rw N. unfold To16, IPv4len. rw Hlx. simpl (4 =? 4)%nat. cbv iota zeta.
  rw To4_mapped // bool_decide_eq_false_2; [|by destruct x]. rw Hlx L2. cbn [Nat.eqb negb].
  rw bool_decide_eq_true.
  change (block_lo 4 (block_lo 4 a ones) ones = block_lo 4 x ones <->
          floor2 (be_val x) (32 - ones) = floor2 (be_val a) (32 - ones)).
  destruct (block_value 4 (block_lo 4 a ones) ones) as [V1 _]; [done|done|lia|].
  destruct (block_value 4 a ones) as [V2 _]; [done|done|lia|].
  destruct (block_value 4 x ones) as [V3 _]; [done|done|lia|].
  change (8 * Z.of_nat 4) with 32 in *. rw V2 floor2_idemp in V1; [|lia].
  split.
  - intros E. by rw -V1 -V3 E.
  - intros E. apply be_val_inj; [done..|congruence|]. by rw V1 V3.
Qed.

Lemma IPInRange_cidr4 x a ones :
  bytes_ok a -> length a = 4%nat -> bytes_ok x -> length x = 4%nat -> 0 <= ones <= 32 ->
  IPInRange (IP_String x) (cidr_text a ones) = true <->
  floor2 (be_val x) (32 - ones) = floor2 (be_val a) (32 - ones).
Proof.
  intros Ha Hla Hx Hlx Ho.
  assert (Na : norm_ip a) by (split; auto). assert (Nx : norm_ip x) by (split; auto).
  unfold IPInRange. rw TrimSpace_String // ParseIP_String //.
  rw bool_decide_eq_false_2; [|auto with helios]. unfold cidr_text.
  destruct (contains "/" _) eqn:Ec.
  2:{ apply contains_false in Ec. rw go_bytes_of_bytes in Ec. set_solver. }
  rw TrimSpace_solid; [|rw forallb_app ip_text_solid //=; apply decimal_solid; unfold byte_ok; lia].
  unfold ParseCIDR. rw go_bytes_of_bytes cut_app; [|by apply ip_text_notin].
  rw ParseAddr_text // dtoi_decimal; [|unfold byte_ok; lia]. rw Hla. cbn [Nat.eqb].
  destruct ((ones <? 0) || (BitLen (Addr4 a) <? ones)) eqn:E; [simpl BitLen in E; lia|].
  rw CIDRMask_eq; [|simpl; lia]. rw Mask_v4 //; [|apply length_mask_bytes].
  by apply Contains_v4.
Qed.

Lemma IPAllocatable_cidr4 x a ones :
  bytes_ok a -> length a = 4%nat -> bytes_ok x -> length x = 4%nat -> 0 <= ones <= 32 ->
  let network := floor2 (be_val a) (32 - ones) in
  let broadcast := network + (2 ^ (32 - ones) - 1) in
  let skip := if ones <=? 30 then 1 else 0 in
  IPAllocatable (IP_String x) (cidr_text a ones) = true <->
  network + skip <= be_val x <= broadcast - skip.
Proof.
  intros Ha Hla Hx Hlx Ho. cbv zeta. pose proof (ParseIPRange_cidr_v4 a ones Ha Hla Ho) as Hr.
  destruct (block_value 4 a ones) as [V1 V2]; [done|done|lia|].
  change (8 * Z.of_nat 4) with 32 in V1, V2.
  destruct (block_lo_ok 4 a ones) as [L1 L2]; [done|done|lia|].
  destruct (block_hi_ok 4 a ones) as [H1 H2]; [done|done|lia|].
  pose proof (be_val_range _ L1) as Rl. pose proof (be_val_range _ H1) as Rh. rw L2 in Rl. rw H2 in Rh.
  assert (Nx : norm_ip x) by (split; auto).
  destruct (Z.leb_spec ones 30); rw (IPAllocatable_String x _ _ _ Nx Hr).
  - destruct (IncrementIP_val _ L1) as (I1 & I2 & I3).
    destruct (DecrementIP_val _ H1) as (D1 & D2 & D3).
    assert (2 ^ 2 <= 2 ^ (32 - ones)) by (apply Z.pow_le_mono_r; lia).
    rw !bytes_le_be_val; [|done|done|congruence|done|done|congruence].
    rw I3 D3 L2 H2 !Z.mod_small; lia.
  - rw !bytes_le_be_val; [|done|done|congruence|done|done|congruence]. lia.
Qed.

(** [IPAllocatable] is [IPInRange] without the addresses the pool never
    hands out: an IPv4 address is allocatable from an IPv4 CIDR range exactly
    when it is contained in the block and, up to /30, is neither the network
    nor the broadcast address. *)
Theorem IPAllocatable_vs_IPInRange (x a : IP) (ones : Z) :
  bytes_ok a -> length a = 4%nat -> bytes_ok x -> length x = 4%nat -> 0 <= ones <= 32 ->
  let network := floor2 (be_val a) (32 - ones) in
  let broadcast := network + (2 ^ (32 - ones) - 1) in
  IPAllocatable (IP_String x) (cidr_text a ones) = true <->
  IPInRange (IP_String x) (cidr_text a ones) = true /\
  (ones <= 30 -> be_val x <> network /\ be_val x <> broadcast).
Proof.
  intros Ha Hla Hx Hlx Ho. cbv zeta.
  rw IPAllocatable_cidr4 // IPInRange_cidr4 // floor2_block; [|lia].
  destruct (Z.leb_spec ones 30); lia.
Qed.

Lemma IPAllocatable_vs_IPInRange_witness :
  IPAllocatable "192.0.2.255" "192.0.2.0/24" = false /\
  IPInRange "192.0.2.255" "192.0.2.0/24" = true /\
  IPAllocatable "192.0.2.254" "192.0.2.0/24" = true.
Proof.
  split_and!; [vm_compute; reflexivity|vm_compute; reflexivity|].
  apply (IPAllocatable_vs_IPInRange [192; 0; 2; 254] [192; 0; 2; 0] 24);
    [by repeat constructor; vm_compute|done|by repeat constructor; vm_compute|done|lia|].
  split; [vm_compute; reflexivity|]. intros _. split; by vm_compute.
Defined.

(** The comparison of raw bytes ignores the address family: an IPv6
    address whose leading bytes lie between the four-byte bounds of an IPv4
    range counts as allocatable from it, and [AllocateSpecificIP] hands it
    out, although [IPInRange] says it is not in the range. *)
Theorem IPAllocatable_crosses_families :
  IPAllocatable "2001:db8::10" "32.1.13.0/24" = true /\
  IPInRange "2001:db8::10" "32.1.13.0/24" = false /\
  fst (AllocateSpecificIP "32.1.13.0/24" "2001:db8::10" NewIPAllocator)
  = Ok "2001:db8::10"%string.
Proof. vm_compute. done. Qed.
