(* ===== verification/Pool.v ===== *)
(** * The allocator as an address pool

    The interface the controller uses ([AddressPool]) with the laws its
    theorems rely on ([AddressPoolLaws]), runs of pool operations, and the
    proof that the network manager of internal/network implements it.  The
    results on runs are proved from the laws alone. *)
From S2P Require Import Prelude Bytes NetIP NetText IPRange IPAllocator.

(** ** Interface *)

Class AddressPool (P : Type) : Type := {
  pool_allocate : string -> P -> result alloc_error string * P;
  pool_allocate_specific : string -> string -> P -> result alloc_error string * P;
  pool_mark : string -> P -> P;
  pool_release : string -> P -> P;
  pool_in_use : P -> string -> bool;
}.

(** A range whose two bounds are one address: the pool returns that address
    whether it is in use or not. *)
Definition single_range (r : string) : bool :=
  match ParseIPRange r with Ok (s, e) => Equal s e | Err _ => false end.

(** The address such a range shares. *)
Definition single_address (r : string) : option string :=
  match ParseIPRange r with
  | Ok (s, e) => if Equal s e then Some (IP_String s) else None
  | Err _ => None
  end.

Class AddressPoolLaws (P : Type) `{AddressPool P} : Prop := {
  in_use_mark p ip x :
    pool_in_use (pool_mark ip p) x = bool_decide (x = ip) || pool_in_use p x;
  in_use_release p ip x :
    pool_in_use (pool_release ip p) x = negb (bool_decide (x = ip)) && pool_in_use p x;
  allocate_grants r p ip p' :
    pool_allocate r p = (Ok ip, p') ->
    (single_range r = false -> pool_in_use p ip = false) /\
    (forall x, pool_in_use p' x = bool_decide (x = ip) || pool_in_use p x);
  (* an address in use is only granted by the range that shares it *)
  allocate_shares r p ip p' :
    pool_allocate r p = (Ok ip, p') -> pool_in_use p ip = true -> single_address r = Some ip;
  allocate_refuses r p e p' :
    pool_allocate r p = (Err e, p') -> single_range r = false /\ p' = p;
  specific_grants r q p ip p' :
    pool_allocate_specific r q p = (Ok ip, p') ->
    ip = canonical q /\ pool_in_use p ip = false /\
    (forall x, pool_in_use p' x = bool_decide (x = ip) || pool_in_use p x);
  specific_refuses r q p e p' :
    pool_allocate_specific r q p = (Err e, p') -> p' = p;
  grants_text r q p ip p' :
    pool_allocate r p = (Ok ip, p') \/ pool_allocate_specific r q p = (Ok ip, p') ->
    ip <> ""%string;
}.

(** ** Runs *)

Inductive op : Type :=
| OpAllocate (ipRange : string)
| OpAllocateSpecific (ipRange requested : string)
| OpMarkUsed (ip : string)
| OpRelease (ip : string).

Inductive outcome : Type :=
| Granted (ip : string)
| Refused (e : alloc_error)
| Done.

#[export] Instance op_eq_dec : EqDecision op.
Proof. solve_decision. Defined.

Section runs.
Context {P : Type} `{AddressPoolLaws P}.

Definition answer (r : result alloc_error string) : outcome :=
  match r with Ok ip => Granted ip | Err e => Refused e end.

Definition exec (o : op) (p : P) : outcome * P :=
  match o with
  | OpAllocate r => let '(res, p') := pool_allocate r p in (answer res, p')
  | OpAllocateSpecific r q => let '(res, p') := pool_allocate_specific r q p in (answer res, p')
  | OpMarkUsed ip => (Done, pool_mark ip p)
  | OpRelease ip => (Done, pool_release ip p)
  end.

(** A run: the operations in the order in which they took the mutex, with
    their outcomes. *)
Inductive run : P -> list (op * outcome) -> P -> Prop :=
| run_nil p : run p [] p
| run_cons p o out p' tr p'' :
    exec o p = (out, p') -> run p' tr p'' -> run p ((o, out) :: tr) p''.

(** Operations that return the address of a range whether or not it is free. *)
Definition shares (o : op) : bool :=
  match o with OpAllocate r => single_range r | _ => false end.

Lemma run_app p t1 t2 p'' :
  run p (t1 ++ t2) p'' <-> exists p', run p t1 p' /\ run p' t2 p''.
Proof.
  revert p. induction t1 as [|[o out] t1 IH]; intros p; simpl.
  - split; [eauto using run|]. by intros (p' & Hr & ?); inversion Hr; subst.
  - split.
    + intros Hr. inversion Hr as [|???? ? ? He Hr']; subst. apply IH in Hr' as (q & ? & ?).
      eauto using run.
    + intros (q & Hr & Hr2). inversion Hr as [|???? ? ? He Hr']; subst.
      econstructor; [done|]. apply IH. eauto.
Qed.

(** What one operation does to the set of addresses in use. *)
Lemma exec_in_use o p out p' x :
  exec o p = (out, p') ->
  pool_in_use p' x =
  match out, o with
  | Granted ip, _ => bool_decide (x = ip) || pool_in_use p x
  | _, OpMarkUsed ip => bool_decide (x = ip) || pool_in_use p x
  | _, OpRelease ip => negb (bool_decide (x = ip)) && pool_in_use p x
  | _, _ => pool_in_use p x
  end.
Proof.
  destruct o as [r|r q|ip|ip]; simpl.
  - destruct (pool_allocate r p) as [[ip|e] p1] eqn:E; intros [= <- <-].
    + by apply allocate_grants in E as [_ E].
    + by apply allocate_refuses in E as [_ ->].
  - destruct (pool_allocate_specific r q p) as [[ip|e] p1] eqn:E; intros [= <- <-].
    + by apply specific_grants in E as (_ & _ & E).
    + by apply specific_refuses in E as ->.
  - intros [= <- <-]. apply in_use_mark.
  - intros [= <- <-]. apply in_use_release.
Qed.

Lemma exec_fresh o p ip p' :
  exec o p = (Granted ip, p') -> shares o = false -> pool_in_use p ip = false.
Proof.
  destruct o as [r|r q|?|?]; simpl; try done.
  - destruct (pool_allocate r p) as [[?|?] p1] eqn:E; intros [= -> <-].
    by apply allocate_grants in E as [E _].
  - destruct (pool_allocate_specific r q p) as [[?|?] p1] eqn:E; intros [= -> <-] _.
    by apply specific_grants in E as (_ & E & _).
Qed.

Lemma run_keeps p tr p' x :
  run p tr p' -> pool_in_use p x = true -> OpRelease x ∉ tr.*1 -> pool_in_use p' x = true.
Proof.
  induction 1 as [|p o out p1 tr p' He Hr IH]; [done|]. intros Hu Hnot.
  rw fmap_cons not_elem_of_cons /= in Hnot. destruct Hnot as [Hne Hnot].
  apply IH; [|done]. rw (exec_in_use _ _ _ _ x He) Hu.
  destruct out, o; rw ?orb_true_r //; case_bool_decide; subst; done.
Qed.

(** An address newly in use was granted or marked. *)
Lemma run_new p tr p' x :
  run p tr p' -> pool_in_use p x = false -> pool_in_use p' x = true ->
  Granted x ∈ tr.*2 \/ OpMarkUsed x ∈ tr.*1.
Proof.
  induction 1 as [|p o out p1 tr p' He Hr IH]; [congruence|]. intros Hn Hu.
  rw !fmap_cons !elem_of_cons /=. destruct (pool_in_use p1 x) eqn:E1; [|naive_solver].
  rw (exec_in_use _ _ _ _ x He) Hn in E1.
  destruct out, o; rw ?orb_false_r ?andb_false_r in E1; try done; apply bool_decide_eq_true in E1 as ->; auto.
Qed.

Lemma grants_distinct p t1 o1 ip t2 o2 t3 p' :
  run p (t1 ++ (o1, Granted ip) :: t2 ++ (o2, Granted ip) :: t3) p' ->
  shares o2 = false -> OpRelease ip ∈ t2.*1.
Proof.
  intros (p1 & _ & Hr)%run_app Hs. inversion Hr as [|???? ? ? He Hr']; subst.
  apply run_app in Hr' as (p2 & Hr2 & Hr3). inversion Hr3 as [|???? ? ? He2 _]; subst.
  destruct (decide (OpRelease ip ∈ t2.*1)) as [|Hnot]; [done|]. exfalso.
  apply exec_fresh in He2; [|done]. apply (run_keeps _ _ _ ip) in Hr2; [congruence| |done].
  rw (exec_in_use _ _ _ _ ip He). by rw bool_decide_eq_true_2.
Qed.

(** ** The abstract pool: a set of addresses in use *)

Inductive pool_step : gset string -> op -> outcome -> gset string -> Prop :=
| step_grant S o ip :
    (shares o = false -> ip ∉ S) ->
    match o with OpAllocate _ | OpAllocateSpecific _ _ => True | _ => False end ->
    pool_step S o (Granted ip) ({[ip]} ∪ S)
| step_refuse S o e :
    shares o = false ->
    match o with OpAllocate _ | OpAllocateSpecific _ _ => True | _ => False end ->
    pool_step S o (Refused e) S
| step_mark S ip : pool_step S (OpMarkUsed ip) Done ({[ip]} ∪ S)
| step_release S ip : pool_step S (OpRelease ip) Done (S ∖ {[ip]}).

Inductive pool_run : gset string -> list (op * outcome) -> gset string -> Prop :=
| pool_run_nil S : pool_run S [] S
| pool_run_cons S o out S' tr S'' :
    pool_step S o out S' -> pool_run S' tr S'' -> pool_run S ((o, out) :: tr) S''.

(** The pool [p] stands for the set [S]. *)
Definition abstracts (p : P) (S : gset string) : Prop :=
  forall x, x ∈ S <-> pool_in_use p x = true.

Lemma exec_simulates o p out p' S :
  exec o p = (out, p') -> abstracts p S -> exists S', pool_step S o out S' /\ abstracts p' S'.
Proof.
  intros He HS. pose proof (fun x => exec_in_use _ _ _ _ x He) as Hu.
  destruct out as [ip|e|].
  - exists ({[ip]} ∪ S). split.
    + constructor; [|by destruct o].
      intros Hsh Hin. apply HS in Hin. by rw (exec_fresh _ _ _ _ He Hsh) in Hin.
    + intros x. rw Hu orb_true_iff bool_decide_eq_true -HS. set_solver.
  - exists S. destruct o as [r|r q|?|?]; simpl in He; try done; (split; [|intros x; by rw Hu]).
    + destruct (pool_allocate r p) as [[?|?] p1] eqn:E; simplify_eq/=.
      apply allocate_refuses in E as [E _]. by constructor.
    + by constructor.
  - destruct o as [r|r q|ip|ip].
    + simpl in He. destruct (pool_allocate r p) as [[?|?] ?]; done.
    + simpl in He. destruct (pool_allocate_specific r q p) as [[?|?] ?]; done.
    + eexists. split; [constructor|]. intros x.
      rw Hu orb_true_iff bool_decide_eq_true -HS. set_solver.
    + eexists. split; [constructor|]. intros x.
      rw Hu andb_true_iff negb_true_iff bool_decide_eq_false -HS. set_solver.
Qed.

Lemma run_simulates p tr p' S :
  run p tr p' -> abstracts p S -> exists S', pool_run S tr S' /\ abstracts p' S'.
Proof.
  intros Hr. revert S. induction Hr as [|p o out p1 tr p' He Hr IH]; intros S HS.
  - eauto using pool_run.
  - destruct (exec_simulates _ _ _ _ _ He HS) as (S1 & Hs & HS1).
    destruct (IH _ HS1) as (S2 & ? & ?). eauto using pool_run.
Qed.

End runs.

(** ** The network manager implements the interface *)

#[export] Instance NetworkManager_pool : AddressPool NetworkManager.t := {
  pool_allocate := NetworkManager.AllocateIP;
  pool_allocate_specific := NetworkManager.AllocateSpecificIP;
  pool_mark := NetworkManager.MarkUsed;
  pool_release := NetworkManager.ReleaseIP;
  pool_in_use nm ip := is_used (NetworkManager.ipAllocator nm) ip;
}.

(** The scan only grants entries that are free, whatever the range. *)
Lemma scan_result a r e n ip res a' :
  scan a r e n ip = (res, a') ->
  match res with
  | Ok x => is_used a x = false /\ a' = set_used x a
  | Err _ => a' = a
  end.
Proof.
  revert ip. induction n as [|n IH]; intros ip; simpl;
    (destruct (Compare ip e <=? 0)%Z; [|by intros [= <- <-]]).
  - by intros [= <- <-].
  - destruct (is_used a (IP_String ip)) eqn:Eu; simpl; [apply IH|]. by intros [= <- <-].
Qed.

Lemma AllocateIP_result r a res a' :
  AllocateIP r a = (res, a') ->
  match res with
  | Ok x => (single_range r = false -> is_used a x = false) /\ a' = set_used x a
  | Err _ => single_range r = false /\ a' = a
  end.
Proof.
  unfold AllocateIP, single_range. destruct (ParseIPRange r) as [[s e]|]; [|by intros [= <- <-]].
  destruct (Equal s e); [intros [= <- <-]; by split|]. intros Hs%scan_result. destruct res; naive_solver.
Qed.

(** What it grants is the text of an address. *)
Lemma scan_text a r e n ip x a' : scan a r e n ip = (Ok x, a') -> x <> ""%string.
Proof.
  revert ip. induction n as [|n IH]; intros ip; simpl; (destruct (Compare ip e <=? 0)%Z; [|done]); [done|].
  destruct (is_used a (IP_String ip)); simpl; [apply IH|]. intros [= <- <-]. apply IP_String_nonempty.
Qed.

Lemma AllocateIP_text r a x a' : AllocateIP r a = (Ok x, a') -> x <> ""%string.
Proof.
  unfold AllocateIP. destruct (ParseIPRange r) as [[s e]|]; [|done].
  destruct (Equal s e); [intros [= <- <-]; apply IP_String_nonempty|apply scan_text].
Qed.

#[export] Instance NetworkManager_pool_laws : AddressPoolLaws NetworkManager.t.
Proof.
  split.
  - intros [a] ip x. apply is_used_set.
  - intros [a] ip x. apply is_used_release.
  - intros r [a] ip p'. simpl. unfold NetworkManager.AllocateIP. simpl.
    destruct (AllocateIP r a) as [res a1] eqn:E. intros [= -> <-].
    apply AllocateIP_result in E as [E ->]. split; [done|]. intros x. apply is_used_set.
  - intros r [a] ip p'. simpl. unfold NetworkManager.AllocateIP, AllocateIP, single_address. simpl.
    destruct (ParseIPRange r) as [[s e]|]; [|done].
    destruct (Equal s e); [by intros [= <- _]|]. destruct (scan a r e _ s) as [res a1] eqn:E.
    intros [= -> _] Hu. apply scan_result in E as [E _]. congruence.
  - intros r [a] ip p'. simpl. unfold NetworkManager.AllocateIP. simpl.
    destruct (AllocateIP r a) as [res a1] eqn:E. intros [= -> <-].
    by apply AllocateIP_result in E as [E ->].
  - intros r q [a] ip p'. simpl. unfold NetworkManager.AllocateSpecificIP. simpl.
    rw AllocateSpecificIP_cases.
    destruct (IPAllocatable q r); [destruct (is_used a (canonical q)) eqn:Eu|]; intros [= <- <-].
    split_and!; [done|done|]. intros x. apply is_used_set.
  - intros r q [a] ip p'. simpl. unfold NetworkManager.AllocateSpecificIP. simpl.
    rw AllocateSpecificIP_cases.
    destruct (IPAllocatable q r); [destruct (is_used a (canonical q)) eqn:Eu|]; by intros [= <- <-].
  - intros r q [a] ip p'. simpl. unfold NetworkManager.AllocateIP, NetworkManager.AllocateSpecificIP.
    simpl. destruct (AllocateIP r a) as [res a1] eqn:E. rw AllocateSpecificIP_cases.
    destruct (IPAllocatable q r); [destruct (is_used a (canonical q))|];
      intros [[= -> <-]|[=]]; subst; eauto using AllocateIP_text. apply IP_String_nonempty.
Qed.

(** ** Properties *)

(** C1. No address is in two hands at once: in every sequence of operations
    on the network manager, from any state, an address granted twice was
    released in between, unless the second grant comes from a range that is a
    single address. *)
Theorem no_double_grant (nm nm' : NetworkManager.t) (t1 t2 t3 : list (op * outcome))
    (o1 o2 : op) (ip : string) :
  run nm (t1 ++ (o1, Granted ip) :: t2 ++ (o2, Granted ip) :: t3) nm' ->
  shares o2 = false -> OpRelease ip ∈ t2.*1.
Proof. apply grants_distinct. Qed.

Lemma no_double_grant_witness :
  exists nm', run NetworkManager.New
    [(OpAllocate "192.0.2.10-192.0.2.11", Granted "192.0.2.10");
     (OpRelease "192.0.2.10", Done);
     (OpAllocateSpecific "192.0.2.0/24" "192.0.2.10", Granted "192.0.2.10")] nm' /\
  OpRelease "192.0.2.10" ∈ [(OpRelease "192.0.2.10", Done)].*1.
Proof.
  eexists. split.
  - econstructor; [vm_compute; reflexivity|]. econstructor; [vm_compute; reflexivity|].
    econstructor; [vm_compute; reflexivity|]. constructor.
  - eapply (no_double_grant NetworkManager.New _ []
      [(OpRelease "192.0.2.10", Done)] [] (OpAllocate "192.0.2.10-192.0.2.11")
      (OpAllocateSpecific "192.0.2.0/24" "192.0.2.10") "192.0.2.10"); [|reflexivity].
    econstructor; [vm_compute; reflexivity|]. econstructor; [vm_compute; reflexivity|].
    econstructor; [vm_compute; reflexivity|]. constructor.
Defined.

(** C23. The network manager refines the abstract pool, a set of addresses in
    use: every run of it is a run of the set in which a grant adds an address
    that was not in the set (a range of one address excepted), a refusal
    changes nothing, and marks and releases add and remove their address. *)
Theorem manager_refines_pool (nm nm' : NetworkManager.t) (tr : list (op * outcome))
    (S : gset string) :
  run nm tr nm' -> abstracts nm S -> exists S', pool_run S tr S' /\ abstracts nm' S'.
Proof. apply run_simulates. Qed.

Lemma manager_refines_pool_witness :
  exists S', pool_run ∅ [(OpAllocate "192.0.2.10-192.0.2.11", Granted "192.0.2.10");
                         (OpRelease "192.0.2.10", Done)] S' /\ "192.0.2.10" ∉ S'.
Proof.
  set (tr := [(OpAllocate "192.0.2.10-192.0.2.11", Granted "192.0.2.10");
              (OpRelease "192.0.2.10", Done)]).
  assert (Hr : exists nm', run NetworkManager.New tr nm' /\ pool_in_use nm' "192.0.2.10" = false).
  { eexists. split; [|].
    - econstructor; [vm_compute; reflexivity|]. econstructor; [vm_compute; reflexivity|].
      constructor.
    - vm_compute. reflexivity. }
  destruct Hr as (nm' & Hr & Hfree).
  destruct (manager_refines_pool NetworkManager.New nm' tr ∅ Hr) as (S' & Hrun & HS).
  - intros x. split; [by intros ?%elem_of_empty|done].
  - exists S'. split; [exact Hrun|]. rw HS. by rw Hfree.
Defined.
