(* ===== verification/Capacity.v ===== *)
(** * The capacity of a range

    How much a pool can still hand out of a range: an interface that says
    which addresses the pool covers ([PoolCapacity]), the free ones among
    them, and the proof that the network manager implements it.  A client
    counts on [free_allocate]: as long as the free set of a range is not
    empty an allocation succeeds and takes exactly one address out of it. *)
From S2P Require Import Prelude Bytes NetIP NetText IPRange IPAllocator Pool.

Local Open Scope Z_scope.

(** ** Interface *)

Class PoolCapacity (P : Type) `{AddressPool P} : Type := {
  (* the addresses an allocation from the range looks at *)
  pool_covers : P -> string -> gset string;
}.

Class PoolCapacityLaws (P : Type) `{PoolCapacity P} : Prop := {
  covers_mark ip p r : pool_covers (pool_mark ip p) r = pool_covers p r;
  covers_release ip p r : pool_covers (pool_release ip p) r = pool_covers p r;
  covers_allocate r0 p res p' r :
    pool_allocate r0 p = (res, p') -> pool_covers p' r = pool_covers p r;
  covers_specific r0 q p res p' r :
    pool_allocate_specific r0 q p = (res, p') -> pool_covers p' r = pool_covers p r;
  covers_progress r p x :
    x ∈ pool_covers p r -> pool_in_use p x = false ->
    exists ip p', pool_allocate r p = (Ok ip, p');
  covers_only r p x ip p' :
    x ∈ pool_covers p r -> pool_in_use p x = false -> pool_allocate r p = (Ok ip, p') ->
    ip ∈ pool_covers p r /\ pool_in_use p ip = false;
  specific_progress r q p :
    IPAllocatable q r = true -> pool_in_use p (canonical q) = false ->
    exists p', pool_allocate_specific r q p = (Ok (canonical q), p');
}.

(** ** Free addresses *)

Section free.
Context {P : Type} `{AddressPoolLaws P} `{!PoolCapacity P} `{!PoolCapacityLaws P}.

Definition free (p : P) (r : string) : gset string :=
  filter (fun x => pool_in_use p x = false) (pool_covers p r).

Lemma elem_of_free p r x : x ∈ free p r <-> x ∈ pool_covers p r /\ pool_in_use p x = false.
Proof. unfold free. rw elem_of_filter. tauto. Qed.

(** Two pools with the same covers and the same addresses in use among them. *)
Lemma free_ext p p' r :
  pool_covers p' r = pool_covers p r ->
  (forall x, x ∈ pool_covers p r -> pool_in_use p' x = pool_in_use p x) -> free p' r = free p r.
Proof.
  intros Hc Hu. apply set_eq. intros x. rw !elem_of_free Hc. split; intros [Hx Hf]; (split; [done|]).
  - by rw -Hu.
  - by rw Hu.
Qed.

(** An allocation takes one address out of the free ones of every range. *)
Lemma free_granted r0 p ip p' r :
  pool_allocate r0 p = (Ok ip, p') -> free p' r = free p r ∖ {[ip]}.
Proof.
  intros Ha. apply set_eq. intros x. rw elem_of_difference !elem_of_free elem_of_singleton.
  rw (covers_allocate _ _ _ _ r Ha). apply allocate_grants in Ha as [_ Hu].
  rw Hu orb_false_iff bool_decide_eq_false. tauto.
Qed.

Lemma free_allocate r p :
  free p r <> ∅ -> exists ip p', pool_allocate r p = (Ok ip, p') /\ ip ∈ free p r.
Proof.
  intros [x Hx]%set_choose_L. apply elem_of_free in Hx as [Hc Hf].
  destruct (covers_progress r p x Hc Hf) as (ip & p' & Ha). exists ip, p'. split; [done|].
  apply elem_of_free. by eapply covers_only.
Qed.

Lemma size_free_granted r p ip p' :
  pool_allocate r p = (Ok ip, p') -> ip ∈ free p r -> size (free p' r) = (size (free p r) - 1)%nat.
Proof.
  intros Ha Hin. rw (free_granted _ _ _ _ r Ha). rw size_difference; [by rw size_singleton|set_solver].
Qed.

(** [n] allocations in a row from a range. *)
Fixpoint allocate_times (n : nat) (r : string) (p : P) : list (result alloc_error string) * P :=
  match n with
  | O => ([], p)
  | S n' => let '(res, p) := pool_allocate r p in
            let '(rs, p) := allocate_times n' r p in (res :: rs, p)
  end.

Lemma allocate_times_ok n r p :
  (n <= size (free p r))%nat ->
  exists ips, fst (allocate_times n r p) = Ok <$> ips /\ length ips = n /\ NoDup ips /\
    list_to_set ips ⊆ free p r /\ free (snd (allocate_times n r p)) r = free p r ∖ list_to_set ips /\
    pool_covers (snd (allocate_times n r p)) r = pool_covers p r.
Proof.
  revert p. induction n as [|n IH]; intros p Hn.
  { exists []. split_and!; [done|done|constructor|set_solver|set_solver|done]. }
  destruct (free_allocate r p) as (ip & p1 & Ha & Hin).
  { intros E. rw E size_empty in Hn. lia. }
  pose proof (size_free_granted _ _ _ _ Ha Hin) as Hsz. pose proof (free_granted _ _ _ _ r Ha) as Hf.
  destruct (IH p1) as (ips & Er & Hl & Hnd & Hs & Hfr & Hc); [lia|].
  cbn [allocate_times]. rw Ha. destruct (allocate_times n r p1) as [rs p2]. cbn [fst snd] in *.
  exists (ip :: ips). rw Er. rw Hf in Hs, Hfr. split_and!.
  - done.
  - simpl. lia.
  - apply list.NoDup_cons. split; [|done]. intros Hi.
    apply (elem_of_list_to_set (C := gset string)) in Hi. set_solver.
  - set_solver.
  - rw Hfr. set_solver.
  - by rw Hc (covers_allocate _ _ _ _ r Ha).
Qed.

End free.

(** ** The network manager *)

(** The addresses [AllocateIP] looks at in a sane range: those its scan visits,
    or the one address of a range of one. *)
Definition covered (a : IPAllocator) (r : string) : list string :=
  match ParseIPRange r with
  | Ok (s, e) =>
      if bool_decide (sane_range s e) && (0 <=? maxScan a)
      then addr_text (length s) <$> seqZ (be_val s) (Z.min (maxScan a) (be_val e - be_val s + 1))
      else []
  | Err _ => []
  end.

#[export] Instance NetworkManager_capacity : PoolCapacity NetworkManager.t := {
  pool_covers nm r := list_to_set (covered (NetworkManager.ipAllocator nm) r);
}.

Lemma elem_of_covered a r x :
  x ∈ covered a r ->
  exists s e v, ParseIPRange r = Ok (s, e) /\ sane_range s e /\ 0 <= maxScan a /\
    x = addr_text (length s) v /\ be_val s <= v <= be_val e /\ v < be_val s + maxScan a /\
    covered a r = addr_text (length s) <$> seqZ (be_val s) (Z.min (maxScan a) (be_val e - be_val s + 1)).
Proof.
  unfold covered. destruct (ParseIPRange r) as [[s e]|]; [|by intros ?%elem_of_nil].
  destruct (bool_decide_reflect (sane_range s e)) as [Hs|]; [|by intros ?%elem_of_nil].
  destruct (Z.leb_spec 0 (maxScan a)); [|by intros ?%elem_of_nil]. cbn [andb].
  intros (v & -> & Hv%elem_of_seqZ)%list_elem_of_fmap. exists s, e, v. split_and!; try done; lia.
Qed.

Lemma covered_maxScan a a' r : maxScan a' = maxScan a -> covered a' r = covered a r.
Proof. unfold covered. by intros ->. Qed.

#[export] Instance NetworkManager_capacity_laws : PoolCapacityLaws NetworkManager.t.
Proof.
  split.
  - intros ip [a] r. done.
  - intros ip [a] r. done.
  - intros r0 [a] res p' r. simpl. unfold NetworkManager.AllocateIP. simpl.
    destruct (AllocateIP r0 a) as [res' a1] eqn:E. intros [= <- <-]. simpl. f_equal.
    apply AllocateIP_result in E. apply covered_maxScan. destruct res'; [by destruct E as [_ ->]|].
    by destruct E as [_ ->].
  - intros r0 q [a] res p' r. simpl. unfold NetworkManager.AllocateSpecificIP. simpl.
    rw AllocateSpecificIP_cases.
    by destruct (IPAllocatable q r0); [destruct (is_used a (canonical q))|]; intros [= <- <-].
  - intros r [a] x Hx Hu. simpl in Hx, Hu. apply elem_of_list_to_set in Hx.
    apply elem_of_covered in Hx as (s & e & v & Hp & (Hl & Hb & _) & Hm & -> & Hv & Hlt & _).
    simpl. unfold NetworkManager.AllocateIP. simpl. rw (AllocateIP_scan r a s e) //; [|lia].
    case_bool_decide as Hse; [eauto|]. unfold first_fit.
    destruct (first_free a (length s) _) as [w|] eqn:Ef; [eauto|]. exfalso.
    rw (first_free_None _ _ _ v Ef) // in Hu. apply elem_of_seqZ. lia.
  - intros r [a] x ip p' Hx Hfree. simpl in Hx, Hfree |- *. rw !elem_of_list_to_set in Hx |- *.
    pose proof Hx as (s & e & v & Hp & Hs & Hm & -> & Hv & Hlt & Ec)%elem_of_covered.
    pose proof Hs as (Hl & Hb & _). unfold NetworkManager.AllocateIP. simpl.
    rw (AllocateIP_scan r a s e) //; [|lia]. case_bool_decide as Hse.
    + intros [= <- _]. subst e. assert (v = be_val s) as -> by lia.
      pose proof (ParseIPRange_ok _ _ _ Hp) as [Hn _]. unfold addr_text in *.
      rw be_bytes_of_val in Hx, Hfree; [done|auto with helios..].
    + rw Ec. unfold first_fit. destruct (first_free a (length s) _) as [w|] eqn:Ef; [|done].
      intros [= <- _]. apply first_free_Some in Ef as [Hin Hu]. split; [|done]. apply list_elem_of_fmap. eauto.
  - intros r q [a] Hq Hu. simpl in Hu |- *. unfold NetworkManager.AllocateSpecificIP. simpl.
    rw AllocateSpecificIP_cases Hq Hu. eauto.
Qed.

(** The free addresses of a sane range are those among its first [maxScan] that
    are not in use. *)
Lemma elem_of_free_range (nm : NetworkManager.t) r s e x :
  ParseIPRange r = Ok (s, e) -> sane_range s e -> 0 < maxScan (NetworkManager.ipAllocator nm) ->
  x ∈ free nm r <->
  is_used (NetworkManager.ipAllocator nm) x = false /\
  exists v, be_val s <= v <= be_val e /\ v < be_val s + maxScan (NetworkManager.ipAllocator nm) /\
    x = addr_text (length s) v.
Proof.
  intros Hp Hs Hm. rw elem_of_free. simpl. rw elem_of_list_to_set. unfold covered.
  rw Hp bool_decide_eq_true_2 // (proj2 (Z.leb_le _ _)); [|lia].
  cbn [andb]. rw list_elem_of_fmap. setoid_rewrite elem_of_seqZ. split.
  - intros [(v & -> & Hv) Hu]. split; [done|]. exists v. split_and!; try done; lia.
  - intros (Hu & v & H1 & H2 & ->). split; [|done]. exists v. split; [done|]. lia.
Qed.

(** A range of several addresses grants free ones only. *)
Lemma granted_free (nm nm' : NetworkManager.t) r s e ip :
  ParseIPRange r = Ok (s, e) -> sane_range s e -> s <> e -> 0 < maxScan (NetworkManager.ipAllocator nm) ->
  NetworkManager.AllocateIP r nm = (Ok ip, nm') -> ip ∈ free nm r.
Proof.
  intros Hp Hs Hne Hm. pose proof Hs as (Hl & Hb & _). rw elem_of_free_range //. destruct nm as [a].
  unfold NetworkManager.AllocateIP. simpl. rw (AllocateIP_scan r a s e) //; [|simpl in Hm; lia..].
  rw bool_decide_eq_false_2 //. unfold first_fit.
  destruct (first_free a (length s) _) as [v|] eqn:Ef; [|done]. intros [= <- _].
  apply first_free_Some in Ef as [Hin%elem_of_seqZ Hu]. split; [done|]. exists v. split_and!; [lia..|done].
Qed.

(** A range of one address hands it out every time. *)
Lemma allocate_times_single n (nm : NetworkManager.t) r s :
  ParseIPRange r = Ok (s, s) -> fst (allocate_times n r nm) = replicate n (Ok (IP_String s)).
Proof.
  intros Hp. revert nm. induction n as [|n IH]; intros [a]; [done|]. cbn [allocate_times].
  destruct (pool_allocate r _) as [res p] eqn:Ea. specialize (IH p).
  destruct (allocate_times n r p) as [rs p']. cbn [fst replicate] in *. rw IH. f_equal.
  revert Ea. simpl. unfold NetworkManager.AllocateIP, AllocateIP. simpl. rw Hp Equal_same_length //.
  rw bool_decide_eq_true_2 //. by intros [= <- _].
Qed.

Lemma allocate_times_maxScan n r (nm : NetworkManager.t) :
  maxScan (NetworkManager.ipAllocator (snd (allocate_times n r nm))) = maxScan (NetworkManager.ipAllocator nm).
Proof.
  revert nm. induction n as [|n IH]; intros [a]; [done|]. cbn [allocate_times].
  destruct (pool_allocate r _) as [res p] eqn:Ea. specialize (IH p).
  destruct (allocate_times n r p) as [rs p']. cbn [snd] in *. rw IH.
  revert Ea. simpl. unfold NetworkManager.AllocateIP. simpl.
  destruct (AllocateIP r a) as [res' a1] eqn:E. intros [= <- <-]. apply AllocateIP_result in E.
  by destruct res'; destruct E as [_ ->].
Qed.

(** As many allocations as there are free addresses succeed. *)
Lemma allocate_free (nm : NetworkManager.t) r s e :
  ParseIPRange r = Ok (s, e) -> sane_range s e -> s <> e -> 0 < maxScan (NetworkManager.ipAllocator nm) ->
  let '(rs, nm') := allocate_times (size (free nm r)) r nm in
  (exists ips, rs = Ok <$> ips /\ NoDup ips /\ list_to_set ips = free nm r) /\
  exists err, NetworkManager.AllocateIP r nm' = (Err err, nm').
Proof.
  intros Hp Hsane Hne Hm. destruct (allocate_times_ok (size (free nm r)) r nm) as
    (ips & Er & Hl & Hnd & Hs & Hf & _); [done|].
  pose proof (allocate_times_maxScan (size (free nm r)) r nm) as Hm'.
  destruct (allocate_times (size (free nm r)) r nm) as [rs nm']. cbn [fst snd] in *.
  assert (Hall : list_to_set ips = free nm r).
  { apply set_subseteq_size_eq; [done|]. rw size_list_to_set //. lia. }
  split; [by exists ips|].
  destruct (NetworkManager.AllocateIP r nm') as [[ip|err] p] eqn:Ea.
  - exfalso. apply (granted_free nm' p r s e) in Ea; [|done|done|done|by rw Hm'].
    rw Hf Hall in Ea. set_solver.
  - exists err. f_equal. by destruct (@allocate_refuses _ NetworkManager_pool _ r nm' err p Ea) as [_ ->].
Qed.

(** ** Properties *)

(** C21. What a range can hand out, for a range of one family that does not
    end at the last address of the family and has no IPv4-mapped address among
    IPv6 ones ([sane_range]).  A range of a single address hands it out on
    every allocation, in use or not.  Of a range of several addresses the free
    ones are those not in use among its first [maxScan]; as many allocations
    in a row as there are free addresses all succeed, with distinct addresses
    that are exactly the free ones, and the next one fails and changes
    nothing. *)
Theorem range_exhausted_exactly (nm : NetworkManager.t) (r : string) (s e : IP) :
  ParseIPRange r = Ok (s, e) -> sane_range s e -> 0 < maxScan (NetworkManager.ipAllocator nm) ->
  (s = e -> forall n, fst (allocate_times n r nm) = replicate n (Ok (IP_String s))) /\
  (s <> e ->
   (forall x, x ∈ free nm r <->
      is_used (NetworkManager.ipAllocator nm) x = false /\
      exists v, be_val s <= v <= be_val e /\ v < be_val s + maxScan (NetworkManager.ipAllocator nm) /\
        x = addr_text (length s) v) /\
   let '(rs, nm') := allocate_times (size (free nm r)) r nm in
   (exists ips, rs = Ok <$> ips /\ NoDup ips /\ list_to_set ips = free nm r) /\
   exists err, NetworkManager.AllocateIP r nm' = (Err err, nm')).
Proof.
  intros Hp Hs Hm. split.
  - intros -> n. by apply allocate_times_single.
  - intros Hne. split; [intros x; by apply elem_of_free_range|].
    by apply (allocate_free nm r s e).
Qed.

(** Four addresses, one of them in use; and one address, in use. *)
Lemma range_exhausted_exactly_witness :
  let nm := NetworkManager.MarkUsed "192.0.2.11" NetworkManager.New in
  (let '(rs, nm') := allocate_times 3 "192.0.2.10-192.0.2.13" nm in
   rs = [Ok "192.0.2.10"; Ok "192.0.2.12"; Ok "192.0.2.13"]%string /\
   exists e, NetworkManager.AllocateIP "192.0.2.10-192.0.2.13" nm' = (Err e, nm')) /\
  fst (allocate_times 2 "192.0.2.11" nm) = [Ok "192.0.2.11"; Ok "192.0.2.11"]%string.
Proof.
  cbv zeta. set (nm := NetworkManager.MarkUsed _ _). split.
  - destruct (range_exhausted_exactly nm "192.0.2.10-192.0.2.13" [192; 0; 2; 10] [192; 0; 2; 13])
      as [_ Hr]; [by vm_compute|apply (bool_decide_unpack _); vm_compute; exact I|by vm_compute|].
    destruct Hr as [_ Hr]; [done|].
    assert (Hn : size (free nm "192.0.2.10-192.0.2.13") = 3%nat) by (vm_compute; reflexivity).
    rw Hn in Hr.
    assert (Hf : fst (allocate_times 3 "192.0.2.10-192.0.2.13" nm) =
      [Ok "192.0.2.10"; Ok "192.0.2.12"; Ok "192.0.2.13"]%string) by (vm_compute; reflexivity).
    destruct (allocate_times 3 "192.0.2.10-192.0.2.13" nm) as [rs nm'].
    split; [exact Hf|]. apply Hr.
  - destruct (range_exhausted_exactly nm "192.0.2.11" [192; 0; 2; 11] [192; 0; 2; 11]) as [Hr _];
      [by vm_compute|apply (bool_decide_unpack _); vm_compute; exact I|by vm_compute|].
    rw (Hr eq_refl 2%nat). vm_compute. reflexivity.
Defined.
