(* ===== verification/Errors.v ===== *)
(** * Errors: internal/controller/errors.go

    The error values of the controller and their classification.  An error is
    kept as the value it is built from; [Error] renders it once the text of
    the leaves is given. *)
From S2P Require Import Prelude IPAllocator.

(** Errors of the Kubernetes API as far as the code tells them apart. *)
Inductive api_error : Type :=
| NotFound
| Conflict
| OtherAPIError (msg : string).

#[export] Instance api_error_eq_dec : EqDecision api_error.
Proof. solve_decision. Defined.

Inductive error : Type :=
| AllocError (e : alloc_error)
| APIError (e : api_error)
| Errorf (msg : string)                        (* fmt.Errorf without %w *)
| Wrapf (msg : string) (err : error)           (* fmt.Errorf("msg: %w", err) *)
| RetryableError (Err : error) (Reason : string)
| PermanentError (Err : error) (Reason : string).

Definition NewRetryableError (reason : string) (err : error) : error := RetryableError err reason.
Definition NewPermanentError (reason : string) (err : error) : error := PermanentError err reason.

(** [Unwrap]: nil for an error that wraps nothing. *)
Definition Unwrap (err : error) : option error :=
  match err with
  | Wrapf _ e | RetryableError e _ | PermanentError e _ => Some e
  | AllocError _ | APIError _ | Errorf _ => None
  end.

(** [Error()], given the text of allocation and API errors. *)
Section render.
Context (alloc_text : alloc_error -> string) (api_text : api_error -> string).

Fixpoint Error (err : error) : string :=
  match err with
  | AllocError e => alloc_text e
  | APIError e => api_text e
  | Errorf msg => msg
  | Wrapf msg e => msg +:+ ": " +:+ Error e
  | RetryableError e reason | PermanentError e reason => reason +:+ ": " +:+ Error e
  end.

End render.

(** [errors.As]: the first error of the unwrap chain that has the target
    type. *)
Fixpoint errors_As (is_target : error -> bool) (err : error) : option error :=
  if is_target err then Some err
  else match err with
       | Wrapf _ e | RetryableError e _ | PermanentError e _ => errors_As is_target e
       | AllocError _ | APIError _ | Errorf _ => None
       end.

Definition is_retryable_error (err : error) : bool :=
  match err with RetryableError _ _ => true | _ => false end.
Definition is_permanent_error (err : error) : bool :=
  match err with PermanentError _ _ => true | _ => false end.

Definition IsRetryable (err : option error) : bool :=
  match err with
  | None => false
  | Some e => match errors_As is_retryable_error e with Some _ => true | None => false end
  end.

Definition IsPermanent (err : option error) : bool :=
  match err with
  | None => false
  | Some e => match errors_As is_permanent_error e with Some _ => true | None => false end
  end.

(** ** Properties *)

(** [e] is in the unwrap chain of [err]. *)
Inductive in_chain : error -> error -> Prop :=
| chain_here err : in_chain err err
| chain_next err e e' : Unwrap err = Some e -> in_chain e e' -> in_chain err e'.

Lemma errors_As_chain f err :
  (exists e, errors_As f err = Some e) <-> exists e, in_chain err e /\ f e = true.
Proof.
  split.
  - intros (e & He). induction err; simpl in He; case_match eqn:Ef; simplify_eq;
      eauto using in_chain.
    all: destruct IHerr as (e' & Hc & Hf); [done|]; exists e'; split; [|done];
      by eapply chain_next; [reflexivity|].
  - intros (e & Hc & Hf). induction Hc as [err|err e' e Hu Hc IH].
    + exists err. destruct err; simpl in *; by rw ?Hf.
    + destruct (IH Hf) as (x & Hx). destruct err; simplify_eq/=; case_match; eauto.
Qed.

(** Classification looks through every layer of wrapping: an error is
    retryable exactly when its unwrap chain holds a [RetryableError], and
    permanent exactly when it holds a [PermanentError]; nil is neither. *)
Theorem classification_by_chain (err : option error) :
  (IsRetryable err = true <->
   exists e x, err = Some e /\ in_chain e x /\ is_retryable_error x = true) /\
  (IsPermanent err = true <->
   exists e x, err = Some e /\ in_chain e x /\ is_permanent_error x = true).
Proof.
  destruct err as [e|]; [|split; (split; [done|by intros (? & ? & ? & _)])].
  pose proof (errors_As_chain is_retryable_error e) as Hr.
  pose proof (errors_As_chain is_permanent_error e) as Hp.
  unfold IsRetryable, IsPermanent. split.
  - destruct (errors_As is_retryable_error e); naive_solver.
  - destruct (errors_As is_permanent_error e); naive_solver.
Qed.
