(* ===== verification/Types.v ===== *)
(** * API types: api/v1/heliosconfig_types.go

    The HeliosConfig resource, the part of a Kubernetes Service the controller
    reads and writes, and the constants of the API.  Of the object metadata
    only the fields the code uses are kept.  A nil map is the empty map: the
    code reads both the same way and allocates before it writes. *)
From S2P Require Import Prelude Errors.

(** ** Constants *)

Definition LoadBalancerClassHelios : string := "helios-lb".

Definition MethodRoundRobin : string := "RoundRobin".
Definition MethodLeastConnection : string := "LeastConnection".
Definition MethodWeightedRoundRobin : string := "WeightedRoundRobin".
Definition MethodIPHash : string := "IPHash".
Definition MethodRandom : string := "Random".

Definition ProtocolTCP : string := "TCP".
Definition ProtocolUDP : string := "UDP".
Definition ProtocolHTTP : string := "HTTP".

Definition StatePending : string := "Pending".
Definition StateActive : string := "Active".
Definition StateFailed : string := "Failed".

Definition ConditionTypeReady : string := "Ready".
Definition ConditionTypeAvailable : string := "Available".
Definition ConditionTypeDegraded : string := "Degraded".

Definition ReasonInitializing : string := "Initializing".
Definition ReasonNetworkConfigured : string := "NetworkConfigured".
Definition ReasonNetworkError : string := "NetworkError".
Definition ReasonIPAllocationError : string := "IPAllocationError".
Definition ReasonIPConflict : string := "IPConflict".

(** ** Spec *)

Record PortConfig : Type := mkPortConfig {
  pc_Port : Z;
  pc_Protocol : string;
}.

Record WeightConfig : Type := mkWeightConfig {
  wc_ServiceName : string;
  wc_Weight : Z;
}.

Record HealthCheckConfig : Type := mkHealthCheckConfig {
  hcc_Enabled : bool;
  hcc_IntervalSeconds : Z;
  hcc_TimeoutMs : Z;
  hcc_Protocol : string;
  hcc_HTTPPath : string;
}.

Record HeliosConfigSpec : Type := mkHeliosConfigSpec {
  IPRange : string;
  IPv6Range : string;
  Service : string;
  Protocol : string;
  Ports : list PortConfig;
  Method : string;
  Weights : list WeightConfig;
  HealthCheck : option HealthCheckConfig;
  NamespaceSelector : list string;
  MaxAllocations : Z;
}.

(** ** Status *)

(** Text in the status.  Text the code formats from a value is kept as that
    value. *)
Inductive message : Type :=
| Text (s : string)
| ErrorText (err : error)                (* err.Error() *)
| ConflictText (count : nat).            (* "IP range conflicts with %d allocated IP(s)..." *)

Inductive ConditionStatus : Type := ConditionTrue | ConditionFalse | ConditionUnknown.

Record Condition : Type := mkCondition {
  cond_Type : string;
  cond_Status : ConditionStatus;
  cond_Reason : string;
  cond_Message : message;
  cond_ObservedGeneration : Z;
}.

Record HeliosConfigStatus : Type := mkHeliosConfigStatus {
  AllocatedIPs : gmap string string;
  AllocatedIPv6s : gmap string string;
  State : string;
  Message : message;
  Conditions : list Condition;
  Phase : string;
}.

(** ** The resource *)

Record HeliosConfig : Type := mkHeliosConfig {
  hc_Name : string;
  hc_Namespace : string;
  hc_Generation : Z;
  hc_ResourceVersion : Z;
  hc_Finalizers : list string;
  hc_Deleting : bool;                    (* !DeletionTimestamp.IsZero() *)
  hc_Spec : HeliosConfigSpec;
  hc_Status : HeliosConfigStatus;
}.

(** ** Services *)

Inductive ServiceType : Type :=
| ServiceTypeClusterIP | ServiceTypeNodePort | ServiceTypeLoadBalancer | ServiceTypeExternalName.

#[export] Instance ServiceType_eq_dec : EqDecision ServiceType.
Proof. solve_decision. Defined.

(** [corev1.Service]; [svc_Ingress] lists the IPs of
    [Status.LoadBalancer.Ingress]. *)
Record Service_ : Type := mkService {
  svc_Name : string;
  svc_Namespace : string;
  svc_ResourceVersion : Z;
  svc_Annotations : gmap string string;
  svc_Type : ServiceType;
  svc_LoadBalancerClass : option string;
  svc_LoadBalancerIP : string;
  svc_Ingress : list string;
}.

(** ** Updates of one field *)

Definition with_status (st : HeliosConfigStatus) (hc : HeliosConfig) : HeliosConfig :=
  mkHeliosConfig (hc_Name hc) (hc_Namespace hc) (hc_Generation hc) (hc_ResourceVersion hc)
    (hc_Finalizers hc) (hc_Deleting hc) (hc_Spec hc) st.

Definition with_finalizers (fs : list string) (hc : HeliosConfig) : HeliosConfig :=
  mkHeliosConfig (hc_Name hc) (hc_Namespace hc) (hc_Generation hc) (hc_ResourceVersion hc)
    fs (hc_Deleting hc) (hc_Spec hc) (hc_Status hc).

Definition with_conditions (cs : list Condition) (st : HeliosConfigStatus) : HeliosConfigStatus :=
  mkHeliosConfigStatus (AllocatedIPs st) (AllocatedIPv6s st) (State st) (Message st) cs (Phase st).

Definition with_phase (p : string) (m : message) (st : HeliosConfigStatus) : HeliosConfigStatus :=
  mkHeliosConfigStatus (AllocatedIPs st) (AllocatedIPv6s st) p m (Conditions st) p.

Definition with_allocated (v4 v6 : gmap string string) (st : HeliosConfigStatus)
  : HeliosConfigStatus :=
  mkHeliosConfigStatus v4 v6 (State st) (Message st) (Conditions st) (Phase st).

Definition emptyStatus : HeliosConfigStatus :=
  mkHeliosConfigStatus ∅ ∅ "" (Text "") [] "".
