(* ===== verification/Webhook.v ===== *)
(** * The validating webhook: api/v1/heliosconfig_webhook.go

    The validators of the spec, the overlap check against the other
    configurations, and the admission handlers.  The client the overlap check
    lists configurations with is a parameter: the outcome of its [List] call,
    absent when no client is wired. *)
From Stdlib Require Import Ascii.
From S2P Require Import Prelude GoStrings Bytes NetIP NetText NetCIDR IPRange IPAllocator Errors Types.

Local Open Scope char_scope.
Local Open Scope Z_scope.
Local Open Scope go_scope.

(** ** Errors of the validators *)

Inductive validation_error : Type :=
| IPRangeRequired
| InvalidCIDRFormat (ipRange : string)
| InvalidIPRangeFormat (ipRange : string)
| InvalidStartIP (ipRange : string)
| InvalidEndIP (ipRange : string)
| MixedFamilies (ipRange : string)
| StartAfterEnd (ipRange : string)
| InField (field : string) (err : validation_error)        (* "ipRange: %w" *)
| PortOutOfRange (port : Z)
| InvalidPortProtocol (protocol : string) (port : Z)
| DuplicatePort (port : Z)
| WeightsNeedMethod (method : string)
| WeightNameRequired
| WeightOutOfRange (serviceName : string) (weight : Z)
| DuplicateWeight (serviceName : string)
| InvalidHealthCheckProtocol (protocol : string)
| HTTPPathRequired
| RangeOverlaps (newRange name exRange : string).

Abbreviation check := (result validation_error unit).

(** ** Validators *)

Definition validateIPRange (ipRange : string) : check :=
  if bool_decide (ipRange = ""%string) then Err IPRangeRequired
  else
    let trimmed := TrimSpace ipRange in
    if contains "/" (go_bytes trimmed) then
      match ParseCIDR trimmed with
      | None => Err (InvalidCIDRFormat ipRange)
      | Some _ => Ok tt
      end
    else if bool_decide (ParseIP trimmed <> []) then Ok tt
    else
      match split_on "-" (go_bytes trimmed) with
      | [p0; p1] =>
          let startIP := ParseIP (TrimSpace (of_bytes p0)) in
          let endIP := ParseIP (TrimSpace (of_bytes p1)) in
          if bool_decide (startIP = []) then Err (InvalidStartIP ipRange)
          else if bool_decide (endIP = []) then Err (InvalidEndIP ipRange)
          else
            let startNorm := NormalizeIP startIP in
            let endNorm := NormalizeIP endIP in
            if negb (length startNorm =? length endNorm)%nat then Err (MixedFamilies ipRange)
            else if CompareIPs startNorm endNorm >? 0 then Err (StartAfterEnd ipRange)
            else Ok tt
      | _ => Err (InvalidIPRangeFormat ipRange)
      end.

(** The loops keep the set of keys seen so far, as the maps of the source. *)
Fixpoint validatePorts_loop (seen : gset Z) (ports : list PortConfig) : check :=
  match ports with
  | [] => Ok tt
  | p :: rest =>
      if (pc_Port p <? 1) || (65535 <? pc_Port p) then Err (PortOutOfRange (pc_Port p))
      else if negb (bool_decide (pc_Protocol p ∈ [""%string; ProtocolTCP; ProtocolUDP]))
      then Err (InvalidPortProtocol (pc_Protocol p) (pc_Port p))
      else if bool_decide (pc_Port p ∈ seen) then Err (DuplicatePort (pc_Port p))
      else validatePorts_loop ({[pc_Port p]} ∪ seen) rest
  end.

Definition validatePorts (ports : list PortConfig) : check := validatePorts_loop ∅ ports.

Fixpoint validateWeights_loop (seen : gset string) (weights : list WeightConfig) : check :=
  match weights with
  | [] => Ok tt
  | w :: rest =>
      if bool_decide (wc_ServiceName w = ""%string) then Err WeightNameRequired
      else if (wc_Weight w <? 1) || (100 <? wc_Weight w)
      then Err (WeightOutOfRange (wc_ServiceName w) (wc_Weight w))
      else if bool_decide (wc_ServiceName w ∈ seen) then Err (DuplicateWeight (wc_ServiceName w))
      else validateWeights_loop ({[wc_ServiceName w]} ∪ seen) rest
  end.

Definition validateWeights (weights : list WeightConfig) (method : string) : check :=
  if (0 <? Z.of_nat (length weights)) && negb (bool_decide (method = MethodWeightedRoundRobin))
  then Err (WeightsNeedMethod method)
  else validateWeights_loop ∅ weights.

Definition validateHealthCheck (hc : option HealthCheckConfig) : check :=
  match hc with
  | None => Ok tt
  | Some h =>
      if negb (bool_decide (hcc_Protocol h ∈ [""%string; ProtocolTCP; ProtocolHTTP]))
      then Err (InvalidHealthCheckProtocol (hcc_Protocol h))
      else if bool_decide (hcc_Protocol h = ProtocolHTTP) && bool_decide (hcc_HTTPPath h = ""%string)
      then Err HTTPPathRequired
      else Ok tt
  end.

(** ** The overlap check *)

Fixpoint overlap_loop (newRange : string) (newStart newEnd : IP) (excludeName : string)
    (useIPv6 : bool) (items : list HeliosConfig) : check :=
  match items with
  | [] => Ok tt
  | existing :: rest =>
      let next := overlap_loop newRange newStart newEnd excludeName useIPv6 rest in
      if bool_decide (hc_Name existing = excludeName) then next
      else
        let exRange := if useIPv6 then IPv6Range (hc_Spec existing) else IPRange (hc_Spec existing) in
        if bool_decide (exRange = ""%string) then next
        else match ParseIPRange exRange with
             | Err _ => next
             | Ok (existStart, existEnd) =>
                 if (CompareIPs newStart existEnd <=? 0) && (CompareIPs newEnd existStart >=? 0)
                 then Err (RangeOverlaps newRange (hc_Name existing) exRange)
                 else next
             end
  end.

Definition overlapForRange (newRange excludeName : string) (items : list HeliosConfig)
    (useIPv6 : bool) : check :=
  match ParseIPRange newRange with
  | Err _ => Ok tt
  | Ok (newStart, newEnd) => overlap_loop newRange newStart newEnd excludeName useIPv6 items
  end.

Definition checkIPRangeOverlap (listed : result api_error (list HeliosConfig))
    (hc : HeliosConfig) (excludeName : string) : check :=
  match listed with
  | Err _ => Ok tt
  | Ok items =>
      let? _ := overlapForRange (IPRange (hc_Spec hc)) excludeName items false in
      if bool_decide (IPv6Range (hc_Spec hc) <> ""%string)
      then overlapForRange (IPv6Range (hc_Spec hc)) excludeName items true
      else Ok tt
  end.

(** ** Admission *)

(** [v.Client] and what its [List] returns; [None] when the client is nil. *)
Abbreviation client_list := (option (result api_error (list HeliosConfig))).

Definition in_field (field : string) (c : check) : check :=
  match c with Ok u => Ok u | Err e => Err (InField field e) end.

Definition validateSpec (client : client_list) (hc : HeliosConfig) (excludeName : string) : check :=
  let? _ := in_field "ipRange" (validateIPRange (IPRange (hc_Spec hc))) in
  let? _ := (if bool_decide (IPv6Range (hc_Spec hc) <> ""%string)
             then in_field "ipv6Range" (validateIPRange (IPv6Range (hc_Spec hc)))
             else Ok tt) in
  let? _ := validatePorts (Ports (hc_Spec hc)) in
  let? _ := validateWeights (Weights (hc_Spec hc)) (Method (hc_Spec hc)) in
  let? _ := validateHealthCheck (HealthCheck (hc_Spec hc)) in
  match client with
  | Some listed => checkIPRangeOverlap listed hc excludeName
  | None => Ok tt
  end.

Definition ValidateCreate (client : client_list) (hc : HeliosConfig) : check :=
  validateSpec client hc "".

Definition ValidateUpdate (client : client_list) (old hc : HeliosConfig) : check :=
  validateSpec client hc (hc_Name hc).

Definition ValidateDelete (hc : HeliosConfig) : check := Ok tt.

(** ** Ranges *)

Lemma ParseIPRange_empty : ParseIPRange "" = Err (InvalidRangeFormat "").
Proof. vm_compute. reflexivity. Qed.

(** C33. The webhook accepts a range exactly when the allocator can parse it
    and the parsed bounds are of one address family and in order; so an
    accepted configuration never reaches the allocator with a range it cannot
    parse, and the range is never empty. *)
Theorem validateIPRange_iff (r : string) :
  validateIPRange r = Ok tt <->
  exists s e, ParseIPRange r = Ok (s, e) /\ length s = length e /\ bytes_le s e.
Proof.
  unfold validateIPRange. destruct (bool_decide_reflect (r = ""%string)) as [->|Hne].
  { rw ParseIPRange_empty. by split; [|intros (? & ? & ? & _)]. }
  unfold ParseIPRange. cbv zeta. destruct (contains "/" (go_bytes (TrimSpace r))).
  { destruct (ParseCIDR (TrimSpace r)) as [n|] eqn:En; [|by split; [|intros (? & ? & ? & _)]].
    apply cidr_bounds_ok in En as (_ & _ & H1 & H2). split; [|done]. intros _.
    destruct (cidr_bounds n) as [s e]. eauto. }
  case_bool_decide as Hp; [split; [|done]; intros _; do 2 eexists; done|].
  destruct (split_on "-" _) as [|p0 [|p1 [|]]]; try by (split; [|intros (? & ? & ? & _)]).
  case_bool_decide as H0; [by split; [|intros (? & ? & ? & _)]|].
  case_bool_decide as H1; [by split; [|intros (? & ? & ? & _)]|]. cbn [orb].
  apply ParseIP_norm in H0, H1. unfold CompareIPs.
  rw (NormalizeIP_id _ H0) (NormalizeIP_id _ H1).
  destruct (Nat.eqb_spec (length (NormalizeIP (ParseIP (TrimSpace (of_bytes p0)))))
    (length (NormalizeIP (ParseIP (TrimSpace (of_bytes p1)))))) as [El|El]; cbn [negb].
  - unfold bytes_le. rw Z.gtb_ltb. destruct (Z.ltb_spec 0 (Compare
      (NormalizeIP (ParseIP (TrimSpace (of_bytes p0))))
      (NormalizeIP (ParseIP (TrimSpace (of_bytes p1)))))) as [Hc|Hc].
    + split; [done|]. intros (? & ? & [= <- <-] & _ & ?). lia.
    + split; [|done]. intros _. eauto.
  - split; [done|]. by intros (? & ? & [= <- <-] & ? & _).
Qed.

(** ** Lists with a set of seen keys *)

Lemma NoDup_fmap_cons_seen {A K} `{Countable K} (f : A -> K) (seen : gset K) x l :
  NoDup (f <$> x :: l) /\ (forall y, y ∈ x :: l -> f y ∉ seen) <->
  (f x ∉ seen) /\ NoDup (f <$> l) /\ (forall y, y ∈ l -> f y ∉ {[f x]} ∪ seen).
Proof.
  rw fmap_cons list.NoDup_cons. setoid_rewrite elem_of_cons. setoid_rewrite elem_of_union.
  setoid_rewrite elem_of_singleton. rw list_elem_of_fmap. naive_solver.
Qed.

(** What the markers of [PortConfig] allow. *)
Definition port_ok (p : PortConfig) : Prop :=
  1 <= pc_Port p <= 65535 /\ pc_Protocol p ∈ [""%string; ProtocolTCP; ProtocolUDP].

Lemma validatePorts_loop_iff seen ps :
  validatePorts_loop seen ps = Ok tt <->
  Forall port_ok ps /\ NoDup (pc_Port <$> ps) /\ (forall p, p ∈ ps -> pc_Port p ∉ seen).
Proof.
  revert seen. induction ps as [|p ps IH]; intros seen; cbn [validatePorts_loop].
  { split; [|done]. intros _. split_and!; [constructor|constructor|by intros ? ?%elem_of_nil]. }
  rw NoDup_fmap_cons_seen Forall_cons_iff. unfold port_ok at 1.
  destruct (Z.ltb_spec (pc_Port p) 1); [simpl; split; [done|lia]|].
  destruct (Z.ltb_spec 65535 (pc_Port p)); [simpl; split; [done|lia]|]. cbn [orb].
  case_bool_decide as Hp; cbn [negb]; [|split; [done|tauto]].
  case_bool_decide as Hs; [split; [done|tauto]|]. rw IH. intuition lia.
Qed.

(** What the markers of [WeightConfig] allow. *)
Definition weight_ok (w : WeightConfig) : Prop :=
  wc_ServiceName w <> ""%string /\ 1 <= wc_Weight w <= 100.

Lemma validateWeights_loop_iff seen ws :
  validateWeights_loop seen ws = Ok tt <->
  Forall weight_ok ws /\ NoDup (wc_ServiceName <$> ws) /\
  (forall w, w ∈ ws -> wc_ServiceName w ∉ seen).
Proof.
  revert seen. induction ws as [|w ws IH]; intros seen; cbn [validateWeights_loop].
  { split; [|done]. intros _. split_and!; [constructor|constructor|by intros ? ?%elem_of_nil]. }
  rw NoDup_fmap_cons_seen Forall_cons_iff. unfold weight_ok at 1.
  case_bool_decide as Hn; [split; [done|tauto]|].
  destruct (Z.ltb_spec (wc_Weight w) 1); [simpl; split; [done|lia]|].
  destruct (Z.ltb_spec 100 (wc_Weight w)); [simpl; split; [done|lia]|]. cbn [orb].
  case_bool_decide as Hs; [split; [done|tauto]|]. rw IH. intuition lia.
Qed.

Definition health_check_ok (h : HealthCheckConfig) : Prop :=
  hcc_Protocol h ∈ [""%string; ProtocolTCP; ProtocolHTTP] /\
  (hcc_Protocol h = ProtocolHTTP -> hcc_HTTPPath h <> ""%string).

(** The field validators accept exactly the lists and settings that
    satisfy the markers of the API types and have no duplicates: ports within
    1..65535 with a known protocol and pairwise distinct; weights only with
    the weighted method, named, within 1..100 and one per service; health
    checks with a known protocol and, for HTTP, a path. *)
Theorem field_validators_iff (ports : list PortConfig) (weights : list WeightConfig)
    (method : string) (hc : option HealthCheckConfig) :
  (validatePorts ports = Ok tt <-> Forall port_ok ports /\ NoDup (pc_Port <$> ports)) /\
  (validateWeights weights method = Ok tt <->
   (weights <> [] -> method = MethodWeightedRoundRobin) /\
   Forall weight_ok weights /\ NoDup (wc_ServiceName <$> weights)) /\
  (validateHealthCheck hc = Ok tt <-> forall h, hc = Some h -> health_check_ok h).
Proof.
  split_and!.
  - unfold validatePorts. rw validatePorts_loop_iff. set_solver.
  - unfold validateWeights. destruct weights as [|w ws]; cbn [length].
    + split; [|done]. intros _. split_and!; [done|constructor|constructor].
    + destruct (Z.ltb_spec 0 (Z.of_nat (S (length ws)))); [|lia]. cbn [andb].
      case_bool_decide as Hm; cbn [negb]; [rw validateWeights_loop_iff; set_solver|].
      split; [done|]. by intros [H' _]; destruct Hm; apply H'.
  - destruct hc as [h|]; simpl; [|done]. unfold health_check_ok.
    case_bool_decide as Hp; simpl; [|split; [done|]; intros H; by destruct (H h eq_refl)].
    case_bool_decide as Hh; case_bool_decide as Hpath; simpl; split; try done.
    all: naive_solver.
Qed.

(** ** Overlap *)

(** The range of a configuration in the family that is compared. *)
Definition family_range (useIPv6 : bool) (hc : HeliosConfig) : string :=
  if useIPv6 then IPv6Range (hc_Spec hc) else IPRange (hc_Spec hc).

(** The test of the loop on two ranges; an empty range does not parse. *)
Definition overlaps (r1 r2 : string) : bool :=
  match ParseIPRange r1, ParseIPRange r2 with
  | Ok (s1, e1), Ok (s2, e2) => (CompareIPs s1 e2 <=? 0) && (CompareIPs e1 s2 >=? 0)
  | _, _ => false
  end.

Lemma overlapForRange_iff r x items v6 :
  overlapForRange r x items v6 = Ok tt <->
  forall ex, ex ∈ items -> hc_Name ex <> x -> overlaps r (family_range v6 ex) = false.
Proof.
  unfold overlapForRange, overlaps. destruct (ParseIPRange r) as [[s e]|]; [|done].
  induction items as [|ex items IH]; cbn [overlap_loop].
  { split; [|done]. by intros _ ex ?%elem_of_nil. }
  setoid_rewrite elem_of_cons. fold (family_range v6 ex).
  case_bool_decide as Hn; [rw IH; naive_solver|].
  destruct (bool_decide_reflect (family_range v6 ex = ""%string)) as [Er|Er].
  { rw IH. split; [|auto]. intros H ex' [->|Hin] Hne; [by rw Er ParseIPRange_empty|auto]. }
  destruct (ParseIPRange (family_range v6 ex)) as [[es ee]|] eqn:Ep.
  - destruct ((CompareIPs s ee <=? 0) && (CompareIPs e es >=? 0)) eqn:Eo.
    + split; [done|]. intros H. specialize (H ex (or_introl eq_refl) Hn).
      rw Ep Eo in H. done.
    + rw IH. split; [|auto]. intros H ex' [->|Hin] Hne; [by rw Ep|auto].
  - rw IH. split; [|auto]. intros H ex' [->|Hin] Hne; [by rw Ep|auto].
Qed.

Lemma IPAllocatable_bounds ip r :
  IPAllocatable ip r = true ->
  exists s e x, ParseIPRange r = Ok (s, e) /\ norm_ip s /\ end_ok e /\
    x = NormalizeIP (ParseIP (TrimSpace ip)) /\ bytes_le s x /\ bytes_le x e.
Proof.
  intros H. destruct (ParseIPRange r) as [[s e]|] eqn:Er.
  - destruct (decide (ParseIP (TrimSpace ip) = [])) as [E|E].
    { unfold IPAllocatable in H. by rw bool_decide_eq_true_2 in H. }
    pose proof (ParseIPRange_end _ _ _ Er) as [? ?].
    destruct (proj1 (IPAllocatable_norm _ _ s e _ E eq_refl Er) H) as [? ?].
    exists s, e. eauto 10.
  - unfold IPAllocatable in H. rw Er in H. by case_bool_decide.
Qed.

Lemma shared_overlaps ip r1 r2 :
  IPAllocatable ip r1 = true -> IPAllocatable ip r2 = true -> overlaps r1 r2 = true.
Proof.
  intros (s1 & e1 & x & E1 & Hs1 & He1 & Hx & L1 & U1)%IPAllocatable_bounds
    (s2 & e2 & x2 & E2 & Hs2 & He2 & Hx2 & L2 & U2)%IPAllocatable_bounds.
  rw -Hx in Hx2. subst x2. unfold overlaps, CompareIPs. rw E1 E2 !(NormalizeIP_id s1, NormalizeIP_id s2) //.
  pose proof (NormalizeIP_end e1 He1) as N1. pose proof (NormalizeIP_end e2 He2) as N2.
  assert (A : bytes_le s1 (NormalizeIP e2)) by (trans x; [done|]; by trans e2).
  assert (B : bytes_le s2 (NormalizeIP e1)) by (trans x; [done|]; by trans e1).
  unfold bytes_le in A. apply bytes_le_ge in B. lia.
Qed.

(** A range with ordered bounds whose end is normalized: every validated
    range but an IPv6 block that reaches into the IPv4-mapped addresses. *)
Definition plain_range (r : string) : Prop :=
  match ParseIPRange r with
  | Ok (s, e) => norm_ip e /\ bytes_le s e
  | Err _ => True
  end.

#[export] Instance plain_range_dec r : Decision (plain_range r).
Proof. unfold plain_range. destruct (ParseIPRange r) as [[s e]|]; apply _. Defined.

(** The later of the two starts lies in both ranges. *)
Lemma overlaps_shared r1 r2 :
  plain_range r1 -> plain_range r2 -> overlaps r1 r2 = true ->
  exists ip, IPAllocatable ip r1 = true /\ IPAllocatable ip r2 = true.
Proof.
  unfold plain_range, overlaps.
  destruct (ParseIPRange r1) as [[s1 e1]|] eqn:E1; [|done].
  destruct (ParseIPRange r2) as [[s2 e2]|] eqn:E2; [|done].
  intros [N1 O1] [N2 O2]. pose proof (ParseIPRange_ok _ _ _ E1) as [S1 _].
  pose proof (ParseIPRange_ok _ _ _ E2) as [S2 _].
  unfold CompareIPs. rw !NormalizeIP_id // andb_true_iff.
  intros [A B]. assert (A' : bytes_le s1 e2) by (unfold bytes_le; lia).
  assert (B' : bytes_le s2 e1) by (apply bytes_le_ge; lia).
  destruct (total bytes_le s1 s2) as [H|H].
  - exists (IP_String s2). rw !(IPAllocatable_String s2 _ _ _ S2 E1, IPAllocatable_String s2 _ _ _ S2 E2).
    done.
  - exists (IP_String s1). rw !(IPAllocatable_String s1 _ _ _ S1 E1, IPAllocatable_String s1 _ _ _ S1 E2).
    done.
Qed.

Lemma validateSpec_iff client hc x :
  validateSpec client hc x = Ok tt <->
  validateIPRange (IPRange (hc_Spec hc)) = Ok tt /\
  (IPv6Range (hc_Spec hc) <> ""%string -> validateIPRange (IPv6Range (hc_Spec hc)) = Ok tt) /\
  validatePorts (Ports (hc_Spec hc)) = Ok tt /\
  validateWeights (Weights (hc_Spec hc)) (Method (hc_Spec hc)) = Ok tt /\
  validateHealthCheck (HealthCheck (hc_Spec hc)) = Ok tt /\
  (forall items ex, client = Some (Ok items) -> ex ∈ items -> hc_Name ex <> x ->
   overlaps (IPRange (hc_Spec hc)) (IPRange (hc_Spec ex)) = false /\
   overlaps (IPv6Range (hc_Spec hc)) (IPv6Range (hc_Spec ex)) = false).
Proof.
  unfold validateSpec, in_field, checkIPRangeOverlap.
  destruct (validateIPRange (IPRange _)) as [[]|]; [|by split; [|intros [? _]]].
  assert (E6 : IPv6Range (hc_Spec hc) = ""%string ->
    forall r, overlaps (IPv6Range (hc_Spec hc)) r = false).
  { intros -> r. unfold overlaps. by rw ParseIPRange_empty. }
  destruct (bool_decide_reflect (IPv6Range (hc_Spec hc) <> ""%string)) as [H6|H6];
    [destruct (validateIPRange (IPv6Range _)) as [[]|]|].
  2:{ split; [done|]. intros (_ & H & _). by specialize (H H6). }
  all: destruct (validatePorts _) as [[]|]; [|split; [done|tauto]].
  all: destruct (validateWeights _ _) as [[]|]; [|split; [done|tauto]].
  all: destruct (validateHealthCheck _) as [[]|]; [|split; [done|tauto]].
  all: destruct client as [[items|]|]; try by (split; [|done]; intros _; split_and!).
  all: pose proof (overlapForRange_iff (IPRange (hc_Spec hc)) x items false) as H4.
  all: destruct (overlapForRange (IPRange (hc_Spec hc)) x items false) as [[]|].
  all: cbn [family_range] in H4.
  - rw (overlapForRange_iff _ x items true). cbn [family_range]. naive_solver.
  - split; [done|]. intros (_ & _ & _ & _ & _ & H). apply H4.
    intros ex Hin Hne. by apply (H items ex).
  - split; [|done]. intros _. apply dec_stable in H6. naive_solver.
  - split; [done|]. intros (_ & _ & _ & _ & _ & H). apply H4.
    intros ex Hin Hne. by apply (H items ex).
Qed.

(** Some allocator hands the address out from the range, whose bounds are
    sane. *)
Definition granted_from (r ip : string) : Prop :=
  exists a a' b e, ParseIPRange r = Ok (b, e) /\ sane_range b e /\ 0 <= maxScan a /\
                   AllocateIP r a = (Ok ip, a').

Lemma granted_allocatable r ip : granted_from r ip -> IPAllocatable ip r = true.
Proof. intros (a & a' & b & e & Hp & Hs & Hm & Ha). by destruct (AllocateIP_sound _ _ _ _ _ _ Hp Hs Hm Ha). Qed.

(** What the handlers check against a listed configuration. *)
Lemma admitted_apart (items : list HeliosConfig) (old hc ex : HeliosConfig) :
  (ValidateCreate (Some (Ok items)) hc = Ok tt /\ hc_Name ex <> ""%string \/
   ValidateUpdate (Some (Ok items)) old hc = Ok tt /\ hc_Name ex <> hc_Name hc) ->
  ex ∈ items ->
  overlaps (IPRange (hc_Spec hc)) (IPRange (hc_Spec ex)) = false /\
  overlaps (IPv6Range (hc_Spec hc)) (IPv6Range (hc_Spec ex)) = false.
Proof.
  intros [[Hv Hne]|[Hv Hne]] Hin; apply validateSpec_iff in Hv as (_ & _ & _ & _ & _ & Hv);
    by apply (Hv items ex).
Qed.


(** A configuration with the given ranges and nothing else. *)
Definition bare_config (name ns r4 r6 : string) : HeliosConfig :=
  mkHeliosConfig name ns 1 1 [] false
    (mkHeliosConfigSpec r4 r6 "" ProtocolTCP [] MethodRoundRobin [] None [] 0) emptyStatus.


(** The overlap check is exact on plain ranges (bounds in order, the end
    not an IPv4-mapped address): it refuses a range exactly when some address
    can be handed out both from it and from the compared range of a
    configuration with another name. *)
Theorem overlap_check_exact (r x : string) (items : list HeliosConfig) (v6 : bool) :
  plain_range r -> Forall (fun ex => plain_range (family_range v6 ex)) items ->
  overlapForRange r x items v6 = Ok tt <->
  ~ exists ex ip, ex ∈ items /\ hc_Name ex <> x /\
      IPAllocatable ip r = true /\ IPAllocatable ip (family_range v6 ex) = true.
Proof.
  intros Hr Hi. rw list.Forall_forall in Hi. rw overlapForRange_iff. split.
  - intros H (ex & ip & Hin & Hne & A & B). specialize (H ex Hin Hne).
    pose proof (shared_overlaps _ _ _ A B). congruence.
  - intros H ex Hin Hne. apply not_true_iff_false. intros Ho. apply H.
    destruct (overlaps_shared _ _ Hr (Hi ex Hin) Ho) as (ip & A & B). eauto 10.
Qed.

Lemma overlap_check_exact_witness :
  overlapForRange "192.0.2.0/28" "a" [bare_config "b" "ns" "192.0.2.14-192.0.2.30" ""] false <> Ok tt.
Proof.
  intros H. revert H. rw overlap_check_exact.
  - intros H. apply H. exists (bare_config "b" "ns" "192.0.2.14-192.0.2.30" ""), "192.0.2.14"%string.
    split_and!; [by apply list_elem_of_singleton|done|vm_compute; reflexivity..].
  - by apply (bool_decide_unpack _); vm_compute.
  - by apply (bool_decide_unpack _); vm_compute.
Defined.

(** Two gaps of the overlap check.  On update it leaves out every
    configuration with the updated one's name, whatever its namespace, so a
    configuration can be moved onto the range of a namesake elsewhere, which
    creation refuses; and an IPv4 field is never compared with another
    configuration's IPv6 field, so a range written in one configuration's
    [ipRange] and in another's [ipv6Range] is accepted twice. *)
Theorem overlap_check_gaps :
  let namesake := bare_config "lb" "team-b" "192.0.2.0/28" "" in
  let updated := bare_config "lb" "team-a" "192.0.2.0/28" "" in
  ValidateUpdate (Some (Ok [namesake])) updated updated = Ok tt /\
  ValidateCreate (Some (Ok [namesake])) updated
    = Err (RangeOverlaps "192.0.2.0/28" "lb" "192.0.2.0/28") /\
  let dual := bare_config "dual" "ns" "192.0.2.0/28" "fd00::/120" in
  let six := bare_config "six" "ns" "fd00::/120" "" in
  ValidateCreate (Some (Ok [dual])) six = Ok tt /\
  IPAllocatable "fd00::1" (IPRange (hc_Spec six)) = true /\
  IPAllocatable "fd00::1" (IPv6Range (hc_Spec dual)) = true.
Proof. vm_compute. done. Qed.
