(* ===== verification/ServiceFilter.v ===== *)
(** * Eligible services: internal/controller/service_filter.go

    [FilterEligibleServices] and the contract between the filter and the
    allocator: a service the filter lets through with a requested address can
    be refused by the allocator only because the address is taken. *)
From S2P Require Import Prelude GoStrings NetIP IPRange IPAllocator Errors Types.

(** ** Operations *)

(** The loop of [FilterEligibleServices]; each test of the source that ends in
    [continue] skips to the rest. *)
Fixpoint filter_loop (nsAllowed : gset string) (ipRange : string) (ipv6Range : list string)
    (services : list Service_) : list Service_ :=
  match services with
  | [] => []
  | svc :: rest =>
      let next := filter_loop nsAllowed ipRange ipv6Range rest in
      if negb (bool_decide (svc_Type svc = ServiceTypeLoadBalancer)) then next
      else if match svc_LoadBalancerClass svc with
              | Some c => negb (bool_decide (c = LoadBalancerClassHelios))
              | None => false
              end then next
      else if (0 <? size nsAllowed)%nat && negb (bool_decide (svc_Namespace svc ∈ nsAllowed)) then next
      else if (0 <? length (svc_Ingress svc))%nat then next
      else if negb (bool_decide (svc_LoadBalancerIP svc = ""%string)) then
        let inV4 := IPAllocatable (svc_LoadBalancerIP svc) ipRange in
        let inV6 := match ipv6Range with
                    | [] => false
                    | r :: _ => negb (bool_decide (r = ""%string)) &&
                                IPAllocatable (svc_LoadBalancerIP svc) r
                    end in
        if negb inV4 && negb inV6 then next else svc :: next
      else svc :: next
  end.

Definition FilterEligibleServices (services : list Service_) (namespaceSelector : list string)
    (ipRange : string) (ipv6Range : list string) : list Service_ :=
  filter_loop (list_to_set namespaceSelector) ipRange ipv6Range services.

(** ** Specification *)

(** A service the configuration with these ranges should serve. *)
Record eligible (selector : list string) (ranges : list string) (svc : Service_) : Prop := {
  el_type : svc_Type svc = ServiceTypeLoadBalancer;
  el_class c : svc_LoadBalancerClass svc = Some c -> c = LoadBalancerClassHelios;
  el_namespace : selector <> [] -> svc_Namespace svc ∈ selector;
  el_unassigned : svc_Ingress svc = [];
  el_request : svc_LoadBalancerIP svc <> ""%string ->
               exists r, r ∈ ranges /\ IPAllocatable (svc_LoadBalancerIP svc) r = true;
}.

Lemma IPAllocatable_empty ip : IPAllocatable ip "" = false.
Proof. unfold IPAllocatable. by case_bool_decide. Qed.

Lemma size_list_to_set (l : list string) :
  (0 <? size (list_to_set l : gset string))%nat = negb (bool_decide (l = [])).
Proof.
  destruct l as [|x l]; [by rw size_empty|]. rw bool_decide_eq_false_2 //=.
  apply Nat.ltb_lt. apply Nat.neq_0_lt_0. rw size_non_empty_iff. set_solver.
Qed.

(** The tests of the loop as one boolean. *)
Definition passes (sel : list string) (r4 : string) (r6 : list string) (svc : Service_) : bool :=
  bool_decide (svc_Type svc = ServiceTypeLoadBalancer) &&
  match svc_LoadBalancerClass svc with
  | Some c => bool_decide (c = LoadBalancerClassHelios)
  | None => true
  end &&
  (bool_decide (sel = []) || bool_decide (svc_Namespace svc ∈ sel)) &&
  bool_decide (svc_Ingress svc = []) &&
  (bool_decide (svc_LoadBalancerIP svc = ""%string) ||
   existsb (IPAllocatable (svc_LoadBalancerIP svc)) (r4 :: take 1 r6)).

Lemma passes_iff sel r4 r6 svc :
  passes sel r4 r6 svc = true <-> eligible sel (r4 :: take 1 r6) svc.
Proof.
  unfold passes. rw !andb_true_iff !orb_true_iff !bool_decide_eq_true existsb_exists.
  setoid_rewrite <- list_elem_of_In. split.
  - intros ((((Ht & Hc) & Hn) & Hi) & Hr). split; try done.
    + intros c E. rw E in Hc. by apply bool_decide_eq_true in Hc.
    + intros Hs. by destruct Hn.
    + intros Hne. destruct Hr as [?|[?|(x & ? & ?)]]; [done|exists r4; set_solver|exists x; set_solver].
  - intros [Ht Hc Hn Hi Hr]. split_and!; [done| | |done|].
    + destruct (svc_LoadBalancerClass svc); [|done]. apply bool_decide_eq_true. auto.
    + destruct (decide (sel = [])); auto.
    + destruct (decide (svc_LoadBalancerIP svc = ""%string)) as [|Hne]; [auto|].
      destruct (Hr Hne) as (x & [->|?]%elem_of_cons & ?); eauto.
Qed.

#[export] Instance eligible_dec sel r4 r6 svc : Decision (eligible sel (r4 :: take 1 r6) svc).
Proof.
  destruct (passes sel r4 r6 svc) eqn:E; [left; by apply passes_iff|].
  right. intros H%passes_iff. congruence.
Defined.

Lemma filter_loop_step sel r4 r6 svc svcs :
  filter_loop (list_to_set sel) r4 r6 (svc :: svcs) =
  if passes sel r4 r6 svc then svc :: filter_loop (list_to_set sel) r4 r6 svcs
  else filter_loop (list_to_set sel) r4 r6 svcs.
Proof.
  unfold passes. cbn [filter_loop]. rw size_list_to_set.
  rw (bool_decide_ext (svc_Namespace svc ∈ list_to_set sel) (svc_Namespace svc ∈ sel));
    [|apply elem_of_list_to_set].
  destruct (bool_decide (svc_Type svc = ServiceTypeLoadBalancer)); cbn [negb andb]; [|done].
  destruct (match svc_LoadBalancerClass svc with Some c => bool_decide (c = _) | None => true end)
    eqn:Ec; destruct (svc_LoadBalancerClass svc) as [c|]; rw ?Ec //; cbn [negb andb];
    destruct (bool_decide (sel = [])), (bool_decide (svc_Namespace svc ∈ sel)); cbn [negb andb orb];
    try done; destruct (svc_Ingress svc) as [|i il]; cbn [length Nat.ltb Nat.leb]; try done;
    destruct (bool_decide (svc_LoadBalancerIP svc = ""%string)); cbn [negb andb orb existsb]; try done;
    destruct (IPAllocatable (svc_LoadBalancerIP svc) r4); cbn [negb andb orb]; try done;
    destruct r6 as [|r r6]; cbn [take existsb]; try done; rw orb_false_r;
    (destruct (bool_decide_reflect (r = ""%string)) as [->|]; [by rw IPAllocatable_empty|]);
    by destruct (IPAllocatable (svc_LoadBalancerIP svc) r).
Qed.

Lemma FilterEligibleServices_filter svcs sel r4 r6 :
  FilterEligibleServices svcs sel r4 r6 = filter (eligible sel (r4 :: take 1 r6)) svcs.
Proof.
  unfold FilterEligibleServices. induction svcs as [|svc svcs IH]; [done|].
  rw filter_loop_step IH filter_cons. pose proof (passes_iff sel r4 r6 svc) as Hp.
  destruct (passes sel r4 r6 svc); case_decide; try done; naive_solver.
Qed.

(** ** Properties *)

(** C34. [FilterEligibleServices] keeps, in order, exactly the services the
    configuration should serve: load balancers of this class or of none, in a
    selected namespace, without an ingress yet, whose requested address (if
    any) one of the configuration's ranges can hand out. *)
Theorem FilterEligibleServices_exact (services : list Service_) (sel : list string)
    (r4 : string) (r6 : list string) :
  FilterEligibleServices services sel r4 r6 = filter (eligible sel (r4 :: take 1 r6)) services.
Proof. apply FilterEligibleServices_filter. Qed.

(** The filter and the allocator agree on requested addresses: for a
    service that passes the filter and requests an address, one of the
    configuration's ranges grants exactly that address or refuses it because
    it is already allocated, whatever the state of the allocator. *)
Theorem filter_allocator_contract (services : list Service_) (sel : list string)
    (r4 r6 : string) (svc : Service_) (a : IPAllocator) :
  svc ∈ FilterEligibleServices services sel r4 [r6] -> svc_LoadBalancerIP svc <> ""%string ->
  exists r, r ∈ [r4; r6] /\
    fst (AllocateSpecificIP r (svc_LoadBalancerIP svc) a) =
    if is_used a (canonical (svc_LoadBalancerIP svc))
    then Err (ErrIPUnavailable (AlreadyAllocated (canonical (svc_LoadBalancerIP svc))))
    else Ok (canonical (svc_LoadBalancerIP svc)).
Proof.
  rw FilterEligibleServices_filter list_elem_of_filter. intros [[_ _ _ _ Hr] _] Hne.
  destruct (Hr Hne) as (r & Hin & Ha). exists r. split; [done|].
  rw AllocateSpecificIP_cases Ha. by destruct (is_used a _).
Qed.

(** A service of the given namespace that requests an address. *)
Definition asking (name ns ip : string) : Service_ :=
  mkService name ns 1 ∅ ServiceTypeLoadBalancer None ip [].

Lemma filter_allocator_contract_witness :
  exists r, r ∈ ["192.0.2.0/28"; "fd00::/120"]%string /\
    fst (AllocateSpecificIP r "fd00::5" NewIPAllocator) = Ok "fd00::5"%string.
Proof.
  apply (filter_allocator_contract [asking "web" "ns" "fd00::5"] ["ns"%string]
    "192.0.2.0/28" "fd00::/120" (asking "web" "ns" "fd00::5") NewIPAllocator); [|done].
  replace (FilterEligibleServices _ _ _ _) with [asking "web" "ns" "fd00::5"]
    by (vm_compute; reflexivity). by apply list_elem_of_singleton.
Defined.
