(* ===== verification/Metrics.v ===== *)
(** * Metrics: internal/metrics/metrics.go

    The metric vectors and the methods of [MetricsRecorder].  Of the
    Prometheus client the registry keeps what its documentation promises: a
    gauge holds the last value set, a counter the number of increments, a
    histogram its observations, each per tuple of label values.  The float64
    values the code passes are 0, 1 and integers below 2^53, which are exact;
    durations are kept in the unit of the clock. *)
From S2P Require Import Prelude.

Local Open Scope Z_scope.

(** ** Vectors *)

Definition lbStatus : string := "helios_lb_status".
Definition backendConnections : string := "helios_backend_connections".
Definition backendHealth : string := "helios_backend_health".
Definition requestDuration : string := "helios_request_duration_seconds".
Definition operationTotal : string := "helios_operations_total".
Definition ipAllocationStatus : string := "helios_ip_allocation_status".
Definition reconcileDuration : string := "helios_reconcile_duration_seconds".
Definition reconcileTotal : string := "helios_reconcile_total".
Definition requeueReasonTotal : string := "helios_requeue_reason_total".
Definition ipPoolUtilization : string := "helios_ip_pool_utilization".

(** A metric: its vector and label values. *)
Abbreviation series := (string * list string)%type.

Record registry : Type := mkRegistry {
  gauges : gmap series Z;
  counters : gmap series Z;
  histograms : gmap series (list Z);
}.

Definition emptyRegistry : registry := mkRegistry ∅ ∅ ∅.

Definition Set_ (v : string) (labels : list string) (value : Z) (r : registry) : registry :=
  mkRegistry (<[(v, labels) := value]> (gauges r)) (counters r) (histograms r).

Definition counter (r : registry) (v : string) (labels : list string) : Z :=
  default 0 (counters r !! (v, labels)).

Definition Inc (v : string) (labels : list string) (r : registry) : registry :=
  mkRegistry (gauges r) (<[(v, labels) := counter r v labels + 1]> (counters r)) (histograms r).

Definition observations (r : registry) (v : string) (labels : list string) : list Z :=
  default [] (histograms r !! (v, labels)).

Definition Observe (v : string) (labels : list string) (value : Z) (r : registry) : registry :=
  mkRegistry (gauges r) (counters r)
    (<[(v, labels) := observations r v labels ++ [value]]> (histograms r)).

(** ** MetricsRecorder *)

Definition bool_value (b : bool) : Z := if b then 1 else 0.

Definition RecordLBStatus (name namespace : string) (active : bool) : registry -> registry :=
  Set_ lbStatus [name; namespace] (bool_value active).

Definition RecordBackendConnections (backendAddr serviceName : string) (connections : Z)
  : registry -> registry :=
  Set_ backendConnections [backendAddr; serviceName] connections.

Definition RecordBackendHealth (backendAddr serviceName : string) (healthy : bool)
  : registry -> registry :=
  Set_ backendHealth [backendAddr; serviceName] (bool_value healthy).

Definition RecordRequestDuration (serviceName : string) (duration : Z) : registry -> registry :=
  Observe requestDuration [serviceName] duration.

Definition RecordOperation (serviceName operation status : string) : registry -> registry :=
  Inc operationTotal [serviceName; operation; status].

Definition RecordIPAllocation (ipAddress : string) (allocated : bool) : registry -> registry :=
  Set_ ipAllocationStatus [ipAddress] (bool_value allocated).

Definition RecordReconcileDuration (name namespace result : string) (duration : Z) (r : registry)
  : registry :=
  Inc reconcileTotal [name; namespace; result]
    (Observe reconcileDuration [name; namespace; result] duration r).

Definition RecordRequeueReason (name namespace reason : string) : registry -> registry :=
  Inc requeueReasonTotal [name; namespace; reason].

Definition RecordIPPoolUtilization (name namespace : string) (count : Z) : registry -> registry :=
  Set_ ipPoolUtilization [name; namespace] count.

(** ** Registration *)

Definition labelName : string := "name".
Definition labelNamespace : string := "namespace".
Definition labelBackendAddress : string := "backend_address".
Definition labelServiceName : string := "service_name".
Definition labelOperation : string := "operation".
Definition labelStatus : string := "status".
Definition labelResult : string := "result".
Definition labelReason : string := "reason".
Definition labelIPAddress : string := "ip_address".

Inductive kind : Type := Gauge | Counter | Histogram.

#[export] Instance kind_eq_dec : EqDecision kind.
Proof. solve_decision. Defined.

(** The vectors [init] registers, in its order, with the labels they were
    made with. *)
Definition collectors : list (string * (kind * list string)) :=
  [(lbStatus, (Gauge, [labelName; labelNamespace]));
   (backendConnections, (Gauge, [labelBackendAddress; labelServiceName]));
   (backendHealth, (Gauge, [labelBackendAddress; labelServiceName]));
   (requestDuration, (Histogram, [labelServiceName]));
   (operationTotal, (Counter, [labelServiceName; labelOperation; labelStatus]));
   (ipAllocationStatus, (Gauge, [labelIPAddress]));
   (reconcileDuration, (Histogram, [labelName; labelNamespace; labelResult]));
   (reconcileTotal, (Counter, [labelName; labelNamespace; labelResult]));
   (requeueReasonTotal, (Counter, [labelName; labelNamespace; labelReason]));
   (ipPoolUtilization, (Gauge, [labelName; labelNamespace]))].

(** [WithLabelValues] panics unless the vector has as many labels as there are
    values. *)
Definition labelled (k : kind) (x : series) : Prop :=
  exists names, (list_to_map collectors : gmap string (kind * list string)) !! fst x = Some (k, names) /\
                length names = length (snd x).

(** Every series belongs to a registered vector of its kind, with its labels. *)
Record well_labelled (r : registry) : Prop := mkWellLabelled {
  labelled_gauges : map_Forall (fun x _ => labelled Gauge x) (gauges r);
  labelled_counters : map_Forall (fun x _ => labelled Counter x) (counters r);
  labelled_histograms : map_Forall (fun x _ => labelled Histogram x) (histograms r);
}.

Lemma labelled_Set v labels z r :
  labelled Gauge (v, labels) -> well_labelled r -> well_labelled (Set_ v labels z r).
Proof. intros Hl [Hg Hc Hh]. split; [by apply map_Forall_insert_2|done|done]. Qed.

Lemma labelled_Inc v labels r :
  labelled Counter (v, labels) -> well_labelled r -> well_labelled (Inc v labels r).
Proof. intros Hl [Hg Hc Hh]. split; [done|by apply map_Forall_insert_2|done]. Qed.

Lemma labelled_Observe v labels z r :
  labelled Histogram (v, labels) -> well_labelled r -> well_labelled (Observe v labels z r).
Proof. intros Hl [Hg Hc Hh]. split; [done|done|by apply map_Forall_insert_2]. Qed.

(** A vector of the list with the number of values at hand. *)
Ltac registered := eexists; split; [vm_compute; reflexivity|reflexivity].

(** The methods of the recorder keep the labels right. *)
Definition labels_right (f : registry -> registry) : Prop :=
  forall r, well_labelled r -> well_labelled (f r).

Lemma right_RecordLBStatus name ns b : labels_right (RecordLBStatus name ns b).
Proof. intros r. apply labelled_Set. registered. Qed.
Lemma right_RecordBackendConnections a svc n : labels_right (RecordBackendConnections a svc n).
Proof. intros r. apply labelled_Set. registered. Qed.
Lemma right_RecordBackendHealth a svc b : labels_right (RecordBackendHealth a svc b).
Proof. intros r. apply labelled_Set. registered. Qed.
Lemma right_RecordIPAllocation ip b : labels_right (RecordIPAllocation ip b).
Proof. intros r. apply labelled_Set. registered. Qed.
Lemma right_RecordIPPoolUtilization name ns n : labels_right (RecordIPPoolUtilization name ns n).
Proof. intros r. apply labelled_Set. registered. Qed.
Lemma right_RecordRequestDuration svc d : labels_right (RecordRequestDuration svc d).
Proof. intros r. apply labelled_Observe. registered. Qed.
Lemma right_RecordOperation svc op st : labels_right (RecordOperation svc op st).
Proof. intros r. apply labelled_Inc. registered. Qed.
Lemma right_RecordRequeueReason name ns reason : labels_right (RecordRequeueReason name ns reason).
Proof. intros r. apply labelled_Inc. registered. Qed.
Lemma right_RecordReconcileDuration name ns result d :
  labels_right (RecordReconcileDuration name ns result d).
Proof. intros r Hr. apply labelled_Inc; [registered|]. apply labelled_Observe; [registered|done]. Qed.

#[export] Hint Resolve right_RecordLBStatus right_RecordBackendConnections right_RecordBackendHealth
  right_RecordIPAllocation right_RecordIPPoolUtilization right_RecordRequestDuration
  right_RecordOperation right_RecordRequeueReason right_RecordReconcileDuration : helios.

(** ** Reading back what was recorded *)

Lemma gauge_set v labels value r x :
  gauges (Set_ v labels value r) !! x =
  if decide ((v, labels) = x) then Some value else gauges r !! x.
Proof. unfold Set_. simpl. by rw lookup_insert. Qed.

Lemma counter_inc v labels r v' labels' :
  counter (Inc v labels r) v' labels' =
  counter r v' labels' + (if decide ((v, labels) = (v', labels')) then 1 else 0).
Proof.
  unfold counter, Inc. simpl. rw lookup_insert. case_decide; [|lia].
  simplify_eq. unfold counter. simpl. lia.
Qed.

Lemma observations_observe v labels value r v' labels' :
  observations (Observe v labels value r) v' labels' =
  observations r v' labels' ++ (if decide ((v, labels) = (v', labels')) then [value] else []).
Proof.
  unfold observations, Observe. simpl. rw lookup_insert. case_decide; simplify_eq; [done|].
  by rw app_nil_r.
Qed.

#[export] Hint Rewrite gauge_set counter_inc observations_observe : helios.
