(* ===== verification/Cluster.v ===== *)
(** * The environment of the controller

    What the controller uses of the Kubernetes client libraries, of the clock
    and of Go's map iteration, as an interface: an implementation of
    [Environment] acts on a world [W] that other parties may change at every
    call.  [EnvironmentLaws] states the documented behaviour the theorems rely
    on.  [Mem] is a small API server that satisfies the laws; it makes the
    hypotheses concrete and runs the handlers on examples. *)
From S2P Require Import Prelude Errors Types.

Local Open Scope Z_scope.
Local Open Scope go_scope.

(** ** Interface *)

Class Environment (W : Type) : Type := {
  (* client.Client on HeliosConfigs: namespace, then name *)
  GetConfig : string -> string -> M W (result api_error HeliosConfig);
  ListConfigs : M W (result api_error (list HeliosConfig));
  UpdateConfig : HeliosConfig -> M W (result api_error HeliosConfig);
  UpdateConfigStatus : HeliosConfig -> M W (result api_error HeliosConfig);
  (* client.Client on Services *)
  GetService : string -> string -> M W (result api_error Service_);
  ListServices : M W (result api_error (list Service_));
  UpdateService : Service_ -> M W (result api_error Service_);
  UpdateServiceStatus : Service_ -> M W (result api_error Service_);
  (* retry.RetryOnConflict with retry.DefaultRetry *)
  RetryOnConflict : M W (result api_error unit) -> M W (result api_error unit);
  (* the order in which a range loop visits a map *)
  iterate {V : Type} : gmap string V -> M W (list (string * V));
  (* time.Now *)
  Now : M W Z;
  (* meta.SetStatusCondition, controllerutil *)
  SetStatusCondition : Condition -> list Condition -> list Condition;
  ContainsFinalizer : HeliosConfig -> string -> bool;
  AddFinalizer : string -> HeliosConfig -> HeliosConfig;
  RemoveFinalizer : string -> HeliosConfig -> HeliosConfig;
  (* the service stored in the cluster *)
  stored_service : W -> string * string -> option Service_;
  (* the server has issued this version of a configuration with this spec *)
  issued : W -> string * string -> Z -> HeliosConfigSpec -> Prop;
}.

Definition svc_key (svc : Service_) : string * string := (svc_Namespace svc, svc_Name svc).
Definition hc_key (hc : HeliosConfig) : string * string := (hc_Namespace hc, hc_Name hc).

(** The calls of a function that is retried on conflict: the result is the
    result of its last call, and each earlier call was a conflict. *)
Inductive attempts {W} (fn : M W (result api_error unit))
  : W -> result api_error unit -> W -> Prop :=
| attempt_last w r w' : fn w = (r, w') -> attempts fn w r w'
| attempt_again w w1 r w' :
    fn w = (Err Conflict, w1) -> attempts fn w1 r w' -> attempts fn w r w'.

Section issued.
Context {W : Type} `{Environment W}.

Definition hc_issued (w : W) (hc : HeliosConfig) : Prop :=
  issued w (hc_key hc) (hc_ResourceVersion hc) (hc_Spec hc).

(** Versions stay issued. *)
Definition evolves (w w' : W) : Prop := forall k v sp, issued w k v sp -> issued w' k v sp.

#[export] Instance evolves_preorder : PreOrder evolves.
Proof. split; [by intros w k v sp|]. intros w1 w2 w3 E1 E2 k v sp ?. by apply E2, E1. Qed.

End issued.

Class EnvironmentLaws (W : Type) `{Environment W} : Prop := {
  get_config_key ns name w hc w' :
    GetConfig ns name w = (Ok hc, w') -> hc_key hc = (ns, name) /\ hc_issued w' hc;
  (* an update keeps the identity of the object and stores what was sent,
     except for the status, which only the status subresource stores *)
  update_config_sent hc w hc' w' :
    UpdateConfig hc w = (Ok hc', w') ->
    hc_key hc' = hc_key hc /\ hc_Spec hc' = hc_Spec hc /\
    hc_Finalizers hc' = hc_Finalizers hc /\ hc_issued w' hc';
  update_status_sent hc w hc' w' :
    UpdateConfigStatus hc w = (Ok hc', w') ->
    hc_key hc' = hc_key hc /\ hc_Status hc' = hc_Status hc;
  (* it succeeds only on the version that was read, whose spec it returns *)
  update_status_spec hc w hc' w' :
    hc_issued w hc -> UpdateConfigStatus hc w = (Ok hc', w') ->
    hc_Spec hc' = hc_Spec hc /\ hc_issued w' hc';
  keeps_get_config ns name : moves evolves (GetConfig ns name);
  keeps_list_configs : moves evolves ListConfigs;
  keeps_update_config hc : moves evolves (UpdateConfig hc);
  keeps_update_config_status hc : moves evolves (UpdateConfigStatus hc);
  keeps_get_service ns name : moves evolves (GetService ns name);
  keeps_list_services : moves evolves ListServices;
  keeps_update_service svc : moves evolves (UpdateService svc);
  keeps_update_service_status svc : moves evolves (UpdateServiceStatus svc);
  keeps_iterate {V} (m : gmap string V) : moves evolves (iterate m);
  keeps_now : moves evolves Now;
  get_service_key ns name w svc w' :
    GetService ns name w = (Ok svc, w') -> svc_key svc = (ns, name);
  update_service_status_sent svc w svc' w' :
    UpdateServiceStatus svc w = (Ok svc', w') ->
    svc_key svc' = svc_key svc /\ svc_Ingress svc' = svc_Ingress svc /\
    stored_service w' (svc_key svc) = Some svc';
  (* an update of the current version of an object leaves its status alone *)
  update_service_keeps_status svc w svc' w' :
    stored_service w (svc_key svc) = Some svc ->
    UpdateService svc w = (Ok svc', w') ->
    svc_Ingress svc' = svc_Ingress svc /\ stored_service w' (svc_key svc) = Some svc';
  retry_attempts fn w r w' : RetryOnConflict fn w = (r, w') -> attempts fn w r w';
  iterate_perm {V} (m : gmap string V) w l w' : iterate m w = (l, w') -> l ≡ₚ map_to_list m;
  set_condition_get c cs :
    find (fun x => bool_decide (cond_Type x = cond_Type c)) (SetStatusCondition c cs) = Some c;
  set_condition_other c cs t :
    t <> cond_Type c ->
    find (fun x => bool_decide (cond_Type x = t)) (SetStatusCondition c cs) =
    find (fun x => bool_decide (cond_Type x = t)) cs;
  contains_finalizer hc f : ContainsFinalizer hc f = bool_decide (f ∈ hc_Finalizers hc);
  add_finalizer f hc :
    AddFinalizer f hc =
    with_finalizers (if bool_decide (f ∈ hc_Finalizers hc) then hc_Finalizers hc
                     else hc_Finalizers hc ++ [f]) hc;
  remove_finalizer f hc :
    RemoveFinalizer f hc = with_finalizers (filter (fun x => x <> f) (hc_Finalizers hc)) hc;
}.

#[export] Hint Resolve keeps_get_config keeps_list_configs keeps_update_config
  keeps_update_config_status keeps_get_service keeps_list_services keeps_update_service
  keeps_update_service_status keeps_iterate keeps_now : helios.

Lemma keeps_retry {W} `{EnvironmentLaws W} fn :
  moves evolves fn -> moves evolves (RetryOnConflict fn).
Proof.
  intros Hf w a w' Ha%retry_attempts.
  induction Ha as [w r w' E|w w1 r w' E Ha IH]; [by eapply Hf|].
  transitivity w1; [by eapply Hf|done].
Qed.
#[export] Hint Resolve keeps_retry : helios.

(** ** An API server in memory *)

Module Mem.

Record t : Type := mk {
  configs : gmap (string * string) HeliosConfig;
  services : gmap (string * string) Service_;
  version : Z;                    (* of the next write *)
  clock : Z;
  down : bool;                    (* every call fails *)
}.

Definition with_version (v : Z) (hc : HeliosConfig) : HeliosConfig :=
  mkHeliosConfig (hc_Name hc) (hc_Namespace hc) (hc_Generation hc) v (hc_Finalizers hc)
    (hc_Deleting hc) (hc_Spec hc) (hc_Status hc).

Definition svc_with_version (v : Z) (s : Service_) : Service_ :=
  mkService (svc_Name s) (svc_Namespace s) v (svc_Annotations s) (svc_Type s)
    (svc_LoadBalancerClass s) (svc_LoadBalancerIP s) (svc_Ingress s).

Definition svc_with_ingress (l : list string) (s : Service_) : Service_ :=
  mkService (svc_Name s) (svc_Namespace s) (svc_ResourceVersion s) (svc_Annotations s) (svc_Type s)
    (svc_LoadBalancerClass s) (svc_LoadBalancerIP s) l.

Definition unavailable_error : api_error := OtherAPIError "server unavailable".

Definition put_config (hc : HeliosConfig) (w : t) : t :=
  mk (<[hc_key hc := hc]> (configs w)) (services w) (version w + 1) (clock w) (down w).
Definition put_service (s : Service_) (w : t) : t :=
  mk (configs w) (<[svc_key s := s]> (services w)) (version w + 1) (clock w) (down w).

(** A write of an object: [merge] builds what is stored from the stored object
    and the one sent. *)
Definition write_config (merge : HeliosConfig -> HeliosConfig -> HeliosConfig) (hc : HeliosConfig)
  : M t (result api_error HeliosConfig) := fun w =>
  if down w then (Err unavailable_error, w)
  else match configs w !! hc_key hc with
       | None => (Err NotFound, w)
       | Some cur =>
           if negb (hc_ResourceVersion cur =? hc_ResourceVersion hc) then (Err Conflict, w)
           else let hc' := with_version (version w) (merge cur hc) in (Ok hc', put_config hc' w)
       end.

Definition write_service (merge : Service_ -> Service_ -> Service_) (s : Service_)
  : M t (result api_error Service_) := fun w =>
  if down w then (Err unavailable_error, w)
  else match services w !! svc_key s with
       | None => (Err NotFound, w)
       | Some cur =>
           if negb (svc_ResourceVersion cur =? svc_ResourceVersion s) then (Err Conflict, w)
           else let s' := svc_with_version (version w) (merge cur s) in (Ok s', put_service s' w)
       end.

Definition merge_config (cur sent : HeliosConfig) : HeliosConfig := with_status (hc_Status cur) sent.
Definition merge_config_status (cur sent : HeliosConfig) : HeliosConfig :=
  mkHeliosConfig (hc_Name sent) (hc_Namespace sent) (hc_Generation cur) (hc_ResourceVersion cur)
    (hc_Finalizers cur) (hc_Deleting cur) (hc_Spec cur) (hc_Status sent).
Definition merge_service (cur sent : Service_) : Service_ := svc_with_ingress (svc_Ingress cur) sent.
Definition merge_service_status (cur sent : Service_) : Service_ :=
  mkService (svc_Name sent) (svc_Namespace sent) (svc_ResourceVersion cur) (svc_Annotations cur)
    (svc_Type cur) (svc_LoadBalancerClass cur) (svc_LoadBalancerIP cur) (svc_Ingress sent).

Definition read {A} (f : t -> result api_error A) : M t (result api_error A) := fun w =>
  (if down w then Err unavailable_error else f w, w).

Definition found {A} (o : option A) : result api_error A :=
  match o with Some a => Ok a | None => Err NotFound end.

(** Objects are stored under their own key, with a version already given. *)
Definition get_at {A} (key : A -> string * string) (rv : A -> Z) (m : gmap (string * string) A)
    (k : string * string) (next : Z) : option A :=
  match m !! k with
  | Some a => if bool_decide (key a = k /\ rv a < next) then Some a else None
  | None => None
  end.

(** [retry.DefaultRetry] has five steps. *)
Fixpoint retry (n : nat) (fn : M t (result api_error unit)) : M t (result api_error unit) := fun w =>
  match n with
  | O => fn w
  | S n' => match fn w with
            | (Err Conflict, w1) => retry n' fn w1
            | res => res
            end
  end.

Definition set_condition (c : Condition) (cs : list Condition) : list Condition :=
  if existsb (fun x => bool_decide (cond_Type x = cond_Type c)) cs
  then map (fun x => if bool_decide (cond_Type x = cond_Type c) then c else x) cs
  else cs ++ [c].

#[export] Instance env : Environment t := {
  GetConfig ns name := read (fun w => found (get_at hc_key hc_ResourceVersion (configs w) (ns, name) (version w)));
  ListConfigs := read (fun w => Ok (map_to_list (configs w)).*2);
  UpdateConfig := write_config merge_config;
  UpdateConfigStatus := write_config merge_config_status;
  GetService ns name := read (fun w => found (get_at svc_key svc_ResourceVersion (services w) (ns, name) (version w)));
  ListServices := read (fun w => Ok (map_to_list (services w)).*2);
  UpdateService := write_service merge_service;
  UpdateServiceStatus := write_service merge_service_status;
  RetryOnConflict := retry 4;
  iterate V m := fun w => (map_to_list m, w);
  Now := fun w => (clock w, mk (configs w) (services w) (version w) (clock w + 1) (down w));
  SetStatusCondition := set_condition;
  ContainsFinalizer hc f := bool_decide (f ∈ hc_Finalizers hc);
  AddFinalizer f hc :=
    with_finalizers (if bool_decide (f ∈ hc_Finalizers hc) then hc_Finalizers hc
                     else hc_Finalizers hc ++ [f]) hc;
  RemoveFinalizer f hc := with_finalizers (filter (fun x => x <> f) (hc_Finalizers hc)) hc;
  stored_service w k := services w !! k;
  issued w k v sp :=
    v < version w /\
    forall cur, configs w !! k = Some cur -> hc_ResourceVersion cur = v -> hc_Spec cur = sp;
}.

Lemma get_at_key {A} (key : A -> string * string) rv m k n a :
  get_at key rv m k n = Some a -> m !! k = Some a /\ key a = k /\ rv a < n.
Proof. unfold get_at. destruct (m !! k); [|done]. case_bool_decide; naive_solver. Qed.

Lemma write_config_Ok merge hc w hc' w' :
  write_config merge hc w = (Ok hc', w') ->
  exists cur, configs w !! hc_key hc = Some cur /\
    hc_ResourceVersion cur = hc_ResourceVersion hc /\
    hc' = with_version (version w) (merge cur hc) /\ w' = put_config hc' w.
Proof.
  unfold write_config. destruct (down w); [done|]. destruct (configs w !! hc_key hc) as [cur|]; [|done].
  destruct (Z.eqb_spec (hc_ResourceVersion cur) (hc_ResourceVersion hc)); simpl; [|done].
  intros [= <- <-]. eauto.
Qed.

Lemma write_service_Ok merge s w s' w' :
  write_service merge s w = (Ok s', w') ->
  exists cur, services w !! svc_key s = Some cur /\ s' = svc_with_version (version w) (merge cur s) /\
    services w' = <[svc_key s' := s']> (services w).
Proof.
  unfold write_service. destruct (down w); [done|]. destruct (services w !! svc_key s) as [cur|]; [|done].
  destruct (negb _); [done|]. intros [= <- <-]. eauto.
Qed.

Lemma issued_put hc w :
  hc_ResourceVersion hc = version w -> hc_issued (put_config hc w) hc.
Proof.
  intros Hv. split; simpl; [lia|]. intros cur. rw lookup_insert_eq. by intros [= <-].
Qed.

Lemma keeps_read {A} (f : t -> result api_error A) : moves evolves (read f).
Proof. intros w a w' [= _ <-] k v sp. done. Qed.

Lemma keeps_write_config merge hc : moves evolves (write_config merge hc).
Proof.
  intros w r w'. unfold write_config. destruct (down w); [by intros [= _ <-]|].
  destruct (configs w !! hc_key hc) as [cur|]; [|by intros [= _ <-]].
  destruct (negb _); [by intros [= _ <-]|]. intros [= _ <-] k v sp [Hv Hc]. split; simpl; [lia|].
  intros c. rw lookup_insert. case_decide; [|by apply Hc]. intros [= <-]. simpl. lia.
Qed.

Lemma keeps_write_service merge s : moves evolves (write_service merge s).
Proof.
  intros w r w'. unfold write_service. destruct (down w); [by intros [= _ <-]|].
  destruct (services w !! svc_key s) as [cur|]; [|by intros [= _ <-]].
  destruct (negb _); [by intros [= _ <-]|]. intros [= _ <-] k v sp [Hv Hc]. split; simpl; [lia|done].
Qed.

Lemma retry_attempts_mem n fn w r w' : retry n fn w = (r, w') -> attempts fn w r w'.
Proof.
  revert w. induction n as [|n IH]; intros w; simpl; [by constructor|].
  destruct (fn w) as [[u|[| |msg]] w1] eqn:E; intros Hr; simplify_eq; try by constructor.
  eauto using attempts.
Qed.

Lemma set_condition_find c cs :
  find (fun x => bool_decide (cond_Type x = cond_Type c)) (set_condition c cs) = Some c.
Proof.
  unfold set_condition.
  induction cs as [|x cs IH]; simpl; [by rw bool_decide_eq_true_2|].
  destruct (bool_decide (cond_Type x = cond_Type c)) eqn:Ex; simpl.
  - by rw bool_decide_eq_true_2.
  - destruct (existsb _ cs); simpl; by rw Ex.
Qed.

Lemma set_condition_find_other c cs t :
  t <> cond_Type c ->
  find (fun x => bool_decide (cond_Type x = t)) (set_condition c cs) =
  find (fun x => bool_decide (cond_Type x = t)) cs.
Proof.
  intros Ht. assert (bool_decide (cond_Type c = t) = false) as Hc by by apply bool_decide_eq_false_2.
  unfold set_condition. destruct (existsb _ cs); [|rw find_app /= Hc; by destruct (find _ cs)].
  induction cs as [|x cs IH]; simpl; [done|].
  destruct (bool_decide_reflect (cond_Type x = cond_Type c)) as [Ex|Ex].
  - rw Hc Ex Hc. apply IH.
  - by destruct (bool_decide (cond_Type x = t)).
Qed.

#[export] Instance laws : EnvironmentLaws t.
Proof.
  split; try (intros; apply keeps_read || apply keeps_write_config || apply keeps_write_service).
  - intros ns name w hc w'. simpl. unfold read. destruct (down w); [done|].
    destruct (get_at _ _ _ _ _) eqn:E; simpl; [|done]. intros [= <- <-].
    apply get_at_key in E as (E & Hk & Hv). split; [done|]. split; [done|]. rw Hk E. by intros ? [= <-].
  - intros hc w hc' w' (cur & _ & _ & -> & ->)%write_config_Ok. split_and!; try done.
    by apply issued_put.
  - intros hc w hc' w' (cur & _ & _ & -> & _)%write_config_Ok. done.
  - intros hc w hc' w' [Hv Hc] (cur & E & Hr & -> & ->)%write_config_Ok. split; [|by apply issued_put].
    simpl. by apply Hc.
  - intros V m w l w' [= _ <-] k v sp. done.
  - intros w z w' [= _ <-] k v sp. done.
  - intros ns name w s w'. simpl. unfold read. destruct (down w); [done|].
    destruct (get_at _ _ _ _ _) eqn:E; simpl; [|done]. intros [= <- <-]. by apply get_at_key in E as (_ & ? & _).
  - intros s w s' w' (cur & _ & -> & Hw)%write_service_Ok. split_and!; [done|done|].
    simpl. rw Hw. by rw lookup_insert_eq.
  - intros s w s' w' Hst (cur & Hcur & -> & Hw)%write_service_Ok. simpl in *.
    simplify_eq. split; [done|]. rw Hw. by rw lookup_insert_eq.
  - intros fn w r w'. apply retry_attempts_mem.
  - intros V m w l w' [= <- <-]. done.
  - apply set_condition_find.
  - apply set_condition_find_other.
  - done.
  - done.
  - done.
Qed.

End Mem.

#[export] Existing Instances Mem.env Mem.laws.
