(* ===== verification/Server.v ===== *)
(** * A healthy API server

    [Cluster] lets every call of the client fail and the objects change at any
    time, which is right for safety.  What the controller achieves depends on
    a server that answers: [Server] names the objects it stores, and
    [ServerLaws] says that, while it is [up] and the controller is its only
    writer, reads return the stored objects, writes of the current version are
    accepted and change just the object written, and nothing else changes.
    The server in memory satisfies the laws. *)
From S2P Require Import Prelude Errors Types Cluster.

Local Open Scope Z_scope.

(** ** Interface *)

Class Server (W : Type) `{Environment W} : Type := {
  up : W -> Prop;
  configs_of : W -> gmap (string * string) HeliosConfig;
  services_of : W -> gmap (string * string) Service_;
}.

Section effects.
Context {W : Type} `{Server W}.

(** A call that changes no object. *)
Record unchanged (w w' : W) : Prop := {
  un_up : up w';
  un_configs : configs_of w' = configs_of w;
  un_services : services_of w' = services_of w;
}.

(** A call that stores one configuration, or one service. *)
Record puts_config (hc : HeliosConfig) (w w' : W) : Prop := {
  pc_up : up w';
  pc_configs : configs_of w' = <[hc_key hc := hc]> (configs_of w);
  pc_services : services_of w' = services_of w;
}.

Record puts_service (svc : Service_) (w w' : W) : Prop := {
  ps_up : up w';
  ps_configs : configs_of w' = configs_of w;
  ps_services : services_of w' = <[svc_key svc := svc]> (services_of w);
}.

End effects.

Class ServerLaws (W : Type) `{Server W} : Prop := {
  service_stored w k : up w -> stored_service w k = services_of w !! k;
  config_keys w k hc : up w -> configs_of w !! k = Some hc -> hc_key hc = k;
  service_keys w k svc : up w -> services_of w !! k = Some svc -> svc_key svc = k;
  get_config_up ns name w hc :
    up w -> configs_of w !! (ns, name) = Some hc ->
    exists w', GetConfig ns name w = (Ok hc, w') /\ unchanged w w';
  list_configs_up w :
    up w -> exists items w', ListConfigs w = (Ok items, w') /\ unchanged w w' /\
      items ≡ₚ (map_to_list (configs_of w)).*2;
  get_service_up ns name w svc :
    up w -> services_of w !! (ns, name) = Some svc ->
    exists w', GetService ns name w = (Ok svc, w') /\ unchanged w w';
  get_service_none ns name w :
    up w -> services_of w !! (ns, name) = None ->
    exists e w', GetService ns name w = (Err e, w') /\ unchanged w w';
  list_services_up w :
    up w -> exists items w', ListServices w = (Ok items, w') /\ unchanged w w' /\
      items ≡ₚ (map_to_list (services_of w)).*2;
  (* writes of the current version *)
  update_config_up hc w cur :
    up w -> configs_of w !! hc_key hc = Some cur ->
    hc_ResourceVersion hc = hc_ResourceVersion cur ->
    hc_Deleting hc = false -> hc_Deleting cur = false ->
    exists hc' w', UpdateConfig hc w = (Ok hc', w') /\ puts_config hc' w w' /\
      hc_key hc' = hc_key hc /\ hc_Spec hc' = hc_Spec hc /\ hc_Finalizers hc' = hc_Finalizers hc /\
      hc_Deleting hc' = false /\ hc_Status hc' = hc_Status cur;
  (* an object that is being deleted may be gone afterwards *)
  update_config_deleting hc w cur :
    up w -> configs_of w !! hc_key hc = Some cur ->
    hc_ResourceVersion hc = hc_ResourceVersion cur -> hc_Deleting cur = true ->
    exists hc' w', UpdateConfig hc w = (Ok hc', w') /\ up w' /\ services_of w' = services_of w;
  update_config_status_up hc w cur :
    up w -> configs_of w !! hc_key hc = Some cur ->
    hc_ResourceVersion hc = hc_ResourceVersion cur ->
    exists hc' w', UpdateConfigStatus hc w = (Ok hc', w') /\ puts_config hc' w w' /\
      hc_key hc' = hc_key hc /\ hc_Spec hc' = hc_Spec cur /\ hc_Finalizers hc' = hc_Finalizers cur /\
      hc_Deleting hc' = hc_Deleting cur /\ hc_Status hc' = hc_Status hc;
  update_service_up svc w cur :
    up w -> services_of w !! svc_key svc = Some cur ->
    svc_ResourceVersion svc = svc_ResourceVersion cur ->
    exists svc' w', UpdateService svc w = (Ok svc', w') /\ puts_service svc' w w' /\
      svc_key svc' = svc_key svc /\ svc_Ingress svc' = svc_Ingress cur;
  update_service_status_up svc w cur :
    up w -> services_of w !! svc_key svc = Some cur ->
    svc_ResourceVersion svc = svc_ResourceVersion cur ->
    exists svc' w', UpdateServiceStatus svc w = (Ok svc', w') /\ puts_service svc' w w' /\
      svc_key svc' = svc_key svc /\ svc_Ingress svc' = svc_Ingress svc;
  (* whatever its answer, an update of a configuration is none of a service *)
  update_config_services hc w r w' :
    up w -> UpdateConfig hc w = (r, w') -> services_of w' = services_of w;
  iterate_up {V} (m : gmap string V) w :
    up w -> exists l w', iterate m w = (l, w') /\ unchanged w w' /\ l ≡ₚ map_to_list m;
  now_up w : up w -> exists t w', Now w = (t, w') /\ unchanged w w';
}.

Section facts.
Context {W : Type} `{EnvironmentLaws W} `{!Server W} `{!ServerLaws W}.
Implicit Types w : W.

Lemma unchanged_refl w : up w -> unchanged w w.
Proof. done. Qed.

Lemma unchanged_trans w1 w2 w3 : unchanged w1 w2 -> unchanged w2 w3 -> unchanged w1 w3.
Proof. intros [_ C1 S1] [U C2 S2]. split; congruence. Qed.

(** A retried function that succeeds at once is called once. *)
Lemma retry_first fn w w' : fn w = (Ok tt, w') -> RetryOnConflict fn w = (Ok tt, w').
Proof.
  intros Hf. destruct (RetryOnConflict fn w) as [r w1] eqn:E. apply retry_attempts in E.
  inversion E as [? ? ? E1|? ? ? ? E1 _]; subst; congruence.
Qed.

(** Iteration of a map in the state of the controller is a permutation. *)
Lemma elem_of_values {K} `{Countable K} {V} (m : gmap K V) l x :
  l ≡ₚ (map_to_list m).*2 -> x ∈ l <-> exists k, m !! k = Some x.
Proof.
  intros ->. rw list_elem_of_fmap. split.
  - intros ([k y] & -> & Hin%elem_of_map_to_list). eauto.
  - intros (k & Hk%elem_of_map_to_list). by exists (k, x).
Qed.

Lemma elem_of_configs w items hc :
  up w -> items ≡ₚ (map_to_list (configs_of w)).*2 ->
  hc ∈ items <-> configs_of w !! hc_key hc = Some hc.
Proof.
  intros Hu Hp. rw (elem_of_values _ _ hc Hp). split; [|eauto].
  intros [k Hk]. by rw (config_keys w k hc).
Qed.

Lemma elem_of_services w items svc :
  up w -> items ≡ₚ (map_to_list (services_of w)).*2 ->
  svc ∈ items <-> services_of w !! svc_key svc = Some svc.
Proof.
  intros Hu Hp. rw (elem_of_values _ _ svc Hp). split; [|eauto].
  intros [k Hk]. by rw (service_keys w k svc).
Qed.

(** The listed services have distinct keys. *)
Lemma NoDup_service_keys w items :
  up w -> items ≡ₚ (map_to_list (services_of w)).*2 -> NoDup (svc_key <$> items).
Proof.
  intros Hu ->. rw -list_fmap_compose. replace (_ <$> _) with (map_to_list (services_of w)).*1;
    [apply NoDup_fst_map_to_list|].
  apply list_fmap_ext. intros i [k svc] Hi.
  apply list_elem_of_lookup_2, elem_of_map_to_list in Hi. simpl. symmetry. by apply (service_keys w).
Qed.

End facts.

(** ** The server in memory *)

Module MemServer.
Import Mem.

Definition sound (w : t) : Prop :=
  down w = false /\
  map_Forall (fun k hc => hc_key hc = k /\ hc_ResourceVersion hc < version w) (configs w) /\
  map_Forall (fun k svc => svc_key svc = k /\ svc_ResourceVersion svc < version w) (services w).

#[export] Instance sound_dec w : Decision (sound w).
Proof. unfold sound. apply _. Defined.

#[export] Instance server : Server t := {
  up := sound;
  configs_of := configs;
  services_of := services;
}.

Lemma read_up {A} (f : t -> result api_error A) w : up w -> read f w = (f w, w).
Proof. intros (Hd & _). unfold read. by rw Hd. Qed.

Lemma sound_put_config hc w :
  sound w -> hc_ResourceVersion hc = version w -> sound (Mem.put_config hc w).
Proof.
  intros (Hd & Hc & Hs) Hv. split_and!; [done| |].
  - apply map_Forall_insert_2; [simpl; split; [done|lia]|].
    apply (map_Forall_impl _ _ _ Hc). simpl. intros ? ? [? ?]. split; [done|lia].
  - apply (map_Forall_impl _ _ _ Hs). simpl. intros ? ? [? ?]. split; [done|lia].
Qed.

Lemma sound_put_service svc w :
  sound w -> svc_ResourceVersion svc = version w -> sound (Mem.put_service svc w).
Proof.
  intros (Hd & Hc & Hs) Hv. split_and!; [done| |].
  - apply (map_Forall_impl _ _ _ Hc). simpl. intros ? ? [? ?]. split; [done|lia].
  - apply map_Forall_insert_2; [simpl; split; [done|lia]|].
    apply (map_Forall_impl _ _ _ Hs). simpl. intros ? ? [? ?]. split; [done|lia].
Qed.

Lemma write_config_up merge hc w cur :
  sound w -> configs w !! hc_key hc = Some cur -> hc_ResourceVersion hc = hc_ResourceVersion cur ->
  let hc' := with_version (version w) (merge cur hc) in
  write_config merge hc w = (Ok hc', Mem.put_config hc' w) /\ puts_config hc' w (Mem.put_config hc' w).
Proof.
  intros Hs Hl Hv. cbv zeta. split.
  - unfold write_config. destruct Hs as (-> & _). rw Hl Hv. by rw Z.eqb_refl.
  - split; [|done|done]. by apply sound_put_config.
Qed.

Lemma write_service_up merge svc w cur :
  sound w -> services w !! svc_key svc = Some cur -> svc_ResourceVersion svc = svc_ResourceVersion cur ->
  let svc' := svc_with_version (version w) (merge cur svc) in
  write_service merge svc w = (Ok svc', Mem.put_service svc' w) /\
  puts_service svc' w (Mem.put_service svc' w).
Proof.
  intros Hs Hl Hv. cbv zeta. split.
  - unfold write_service. destruct Hs as (-> & _). rw Hl Hv. by rw Z.eqb_refl.
  - split; [|done|done]. by apply sound_put_service.
Qed.

Lemma get_at_found {A} (key : A -> string * string) rv m k n a :
  m !! k = Some a -> key a = k /\ rv a < n -> get_at key rv m k n = Some a.
Proof. intros E Hk. unfold get_at. by rw E bool_decide_eq_true_2. Qed.

#[export] Instance server_laws : ServerLaws t.
Proof.
  split.
  - done.
  - intros w k hc (_ & Hc & _) Hl. by apply Hc in Hl as [? _].
  - intros w k svc (_ & _ & Hs) Hl. by apply Hs in Hl as [? _].
  - intros ns name w hc Hu Hl. exists w. split; [|done]. cbn [GetConfig env]. rw read_up //.
    destruct Hu as (_ & Hc & _). rw (get_at_found _ _ _ _ _ hc) //. by apply Hc.
  - intros w Hu. exists (map_to_list (configs w)).*2, w. split; [|done]. exact (read_up _ w Hu).
  - intros ns name w svc Hu Hl. exists w. split; [|done]. cbn [GetService env]. rw read_up //.
    destruct Hu as (_ & _ & Hs). rw (get_at_found _ _ _ _ _ svc) //. by apply Hs.
  - intros ns name w Hu Hl. exists NotFound, w. split; [|done]. cbn [GetService env]. rw read_up //.
    unfold get_at. simpl in Hl. by rw Hl.
  - intros w Hu. exists (map_to_list (services w)).*2, w. split; [|done]. exact (read_up _ w Hu).
  - intros hc w cur Hu Hl Hv Hd _. destruct (write_config_up merge_config hc w cur) as [E Hp]; [done..|].
    eexists _, _. split; [exact E|]. split; [exact Hp|]. by split_and!.
  - intros hc w cur Hu Hl Hv _. destruct (write_config_up merge_config hc w cur) as [E [Hp _ Hs]]; [done..|].
    by eexists _, _.
  - intros hc w cur Hu Hl Hv. destruct (write_config_up merge_config_status hc w cur) as [E Hp]; [done..|].
    eexists _, _. split; [exact E|]. split; [exact Hp|]. by split_and!.
  - intros svc w cur Hu Hl Hv. destruct (write_service_up merge_service svc w cur) as [E Hp]; [done..|].
    eexists _, _. split; [exact E|]. split; [exact Hp|]. by split_and!.
  - intros svc w cur Hu Hl Hv. destruct (write_service_up merge_service_status svc w cur) as [E Hp]; [done..|].
    eexists _, _. split; [exact E|]. split; [exact Hp|]. by split_and!.
  - intros hc w r w' _. cbn [UpdateConfig env]. unfold write_config.
    destruct (down w); [by intros [= _ <-]|]. destruct (configs w !! hc_key hc); [|by intros [= _ <-]].
    destruct (negb _); by intros [= _ <-].
  - intros V m w Hu. by exists (map_to_list m), w.
  - intros w Hu. eexists _, _. split; [reflexivity|]. split; [exact Hu|done|done].
Qed.

End MemServer.

#[export] Existing Instances MemServer.server MemServer.server_laws.
