(* ===== verification/IPManager.v ===== *)
(** * The IP manager: internal/controller/ip_manager.go

    Allocation, release and conflict checks for the addresses of services.
    The manager is written against the interfaces it uses: an [AddressPool]
    for the network manager and an [Environment] for the Kubernetes client.
    Log messages are left out. *)
From stdpp Require Import pretty.
From S2P Require Import Prelude GoStrings NetIP IPRange IPAllocator Pool Errors Types Metrics Cluster.

Local Open Scope Z_scope.
Local Open Scope go_scope.

(** ** State *)

(** Events sent to the event recorder, with the values in their text. *)
Inductive event : Type :=
| EvIPConflict (count : nat)
| EvQuotaExceeded (allocated : nat) (max : Z)
| EvAllocationFailed (ns name : string) (err : error)
| EvIPAllocated (ip ns name : string)
| EvDualIPAllocated (ip ipv6 ns name : string)
| EvCleanupStarted (count : nat)
| EvCleanupFailed (err : error)
| EvCleanupComplete.

(** What the controller's components share: the network manager, the world
    behind the client, the metrics and the events sent so far. *)
Record ctl (P W : Type) : Type := mkCtl {
  networkMgr : P;
  world : W;
  metrics : registry;
  events : list event;
}.
Arguments mkCtl {P W} networkMgr world metrics events.
Arguments networkMgr {P W} c.
Arguments world {P W} c.
Arguments metrics {P W} c.
Arguments events {P W} c.

Definition splitRequestedIP (requested : string) : string * string :=
  let trimmed := TrimSpace requested in
  let ip := ParseIP trimmed in
  if bool_decide (ip = []) then (""%string, ""%string)
  else if bool_decide (To4 ip <> []) then (trimmed, ""%string)
  else (""%string, trimmed).

Section manager.
Context {P W : Type} `{AddressPool P} `{Environment W}.

Abbreviation MC := (M (ctl P W)).

Definition on_pool {A} (c : M P A) : MC A := fun s =>
  let '(a, p) := c (networkMgr s) in (a, mkCtl p (world s) (metrics s) (events s)).
Definition on_world {A} (c : M W A) : MC A := fun s =>
  let '(a, w) := c (world s) in (a, mkCtl (networkMgr s) w (metrics s) (events s)).
Definition record (f : registry -> registry) : MC unit := fun s =>
  (tt, mkCtl (networkMgr s) (world s) (f (metrics s)) (events s)).
Definition emit (e : event) : MC unit := fun s =>
  (tt, mkCtl (networkMgr s) (world s) (metrics s) (events s ++ [e])).

Definition MarkUsed_ (ip : string) : MC unit := on_pool (fun p => (tt, pool_mark ip p)).
Definition ReleaseIP_ (ip : string) : MC unit := on_pool (fun p => (tt, pool_release ip p)).

(** ** Allocation *)

Definition allocateIP (ipRange requested : string) : MC (result alloc_error string) :=
  if bool_decide (requested = ""%string) then on_pool (pool_allocate ipRange)
  else on_pool (pool_allocate_specific ipRange requested).

Definition classAnnotation : string := "balancer.helios.dev/load-balancer-class".

(** The service as [assignIPToService] modifies it. *)
Definition with_ingress (ingress : list string) (svc : Service_) : Service_ :=
  mkService (svc_Name svc) (svc_Namespace svc) (svc_ResourceVersion svc) (svc_Annotations svc)
    (svc_Type svc) (svc_LoadBalancerClass svc) (svc_LoadBalancerIP svc) ingress.

Definition assigned (ip ipv6 : string) (svc : Service_) : Service_ :=
  with_ingress (if bool_decide (ipv6 <> ""%string) then [ip; ipv6] else [ip])
    (mkService (svc_Name svc) (svc_Namespace svc) (svc_ResourceVersion svc)
      (<[classAnnotation := LoadBalancerClassHelios]> (svc_Annotations svc)) (svc_Type svc)
      (Some LoadBalancerClassHelios) (svc_LoadBalancerIP svc) (svc_Ingress svc)).

(** The function [assignIPToService] retries. *)
Definition assign_once (svc : Service_) (ip ipv6 : string) : M W (result api_error unit) :=
  let! r := GetService (svc_Namespace svc) (svc_Name svc) in
  match r with
  | Err e => ret (Err e)
  | Ok currentSvc =>
      let! r := UpdateServiceStatus (assigned ip ipv6 currentSvc) in
      match r with
      | Err e => ret (Err e)
      | Ok currentSvc =>
          let! r := UpdateService currentSvc in
          ret (match r with Ok _ => Ok tt | Err e => Err e end)
      end
  end.

Definition assignIPToService (svc : Service_) (ip ipv6 : string) : MC (result api_error unit) :=
  on_world (RetryOnConflict (assign_once svc ip ipv6)).

(** [for _, ip := range m { m.NetworkMgr.MarkUsed(ip) }] *)
Definition mark_map (m : gmap string string) : MC unit :=
  let! entries := on_world (iterate m) in
  for_each (fun e => MarkUsed_ (snd e)) entries.

Definition same_config (a b : HeliosConfig) : bool :=
  bool_decide (hc_Name a = hc_Name b) && bool_decide (hc_Namespace a = hc_Namespace b).

(** The loop over the other configurations. *)
Definition mark_others (heliosConfig : HeliosConfig) : list HeliosConfig -> MC unit :=
  for_each (fun other =>
    if same_config other heliosConfig then ret tt
    else mark_map (AllocatedIPs (hc_Status other)) ;;
         mark_map (AllocatedIPv6s (hc_Status other))).

Definition AllocateAndAssign (heliosConfig : HeliosConfig) (svc : Service_)
  : MC (result error (string * string)) :=
  let! allConfigs := on_world ListConfigs in
  match allConfigs with
  | Err e => ret (Err (NewRetryableError "failed to list configs for conflict check" (APIError e)))
  | Ok items =>
      mark_others heliosConfig items ;;
      let '(requestedV4, requestedV6) := splitRequestedIP (svc_LoadBalancerIP svc) in
      let! r4 := allocateIP (IPRange (hc_Spec heliosConfig)) requestedV4 in
      match r4 with
      | Err e => ret (Err (NewRetryableError "IPv4 allocation failed" (AllocError e)))
      | Ok ip =>
          let! r6 := (if bool_decide (IPv6Range (hc_Spec heliosConfig) <> ""%string)
                      then allocateIP (IPv6Range (hc_Spec heliosConfig)) requestedV6
                      else ret (Ok ""%string)) in
          match r6 with
          | Err e =>
              ReleaseIP_ ip ;;
              ret (Err (NewRetryableError "IPv6 allocation failed" (AllocError e)))
          | Ok ipv6 =>
              let! assigned := assignIPToService svc ip ipv6 in
              match assigned with
              | Err e =>
                  ReleaseIP_ ip ;;
                  (if bool_decide (ipv6 <> ""%string) then ReleaseIP_ ipv6 else ret tt) ;;
                  ret (Err (NewRetryableError "service update failed" (APIError e)))
              | Ok _ =>
                  record (RecordIPAllocation ip true) ;;
                  (if bool_decide (ipv6 <> ""%string) then record (RecordIPAllocation ipv6 true)
                   else ret tt) ;;
                  ret (Ok (ip, ipv6))
              end
          end
      end
  end.

(** ** Release *)

(** One of the two loops over the allocated addresses; [serviceNames] collects
    the services to clear. *)
Fixpoint release_loop (entries : list (string * string)) (serviceNames : gmap string bool)
  : MC (gmap string bool) :=
  match entries with
  | [] => ret serviceNames
  | (serviceName, ip) :: rest =>
      ReleaseIP_ ip ;;
      record (RecordIPAllocation ip false) ;;
      release_loop rest (<[serviceName := true]> serviceNames)
  end.

(** Clear the ingress of one service; errors are only logged. *)
Definition clear_ingress (ns serviceName : string) : M W unit :=
  let! r := GetService ns serviceName in
  match r with
  | Err _ => ret tt
  | Ok svc => let! _ := UpdateServiceStatus (with_ingress [] svc) in ret tt
  end.

Definition ReleaseAll (heliosConfig : HeliosConfig) : MC unit :=
  let! entries := on_world (iterate (AllocatedIPs (hc_Status heliosConfig))) in
  let! serviceNames := release_loop entries ∅ in
  let! entries6 := on_world (iterate (AllocatedIPv6s (hc_Status heliosConfig))) in
  let! serviceNames := release_loop entries6 serviceNames in
  let! names := on_world (iterate serviceNames) in
  for_each (fun e => on_world (clear_ingress (hc_Namespace heliosConfig) (fst e))) names.

(** ** Conflicts and quota *)

(** [for svcName, ip := range m { if IPInRange(ip, ipRange) { conflicts[ip] = ... } }] *)
Definition conflict_map (m : gmap string string) (ipRange : string) (owner : string -> string)
    (conflicts : gmap string string) : M W (gmap string string) :=
  let! entries := iterate m in
  ret (fold_left (fun acc '(svcName, ip) =>
         if IPInRange ip ipRange then <[ip := owner svcName]> acc else acc) entries conflicts).

Fixpoint conflict_loop (heliosConfig : HeliosConfig) (items : list HeliosConfig)
    (conflicts : gmap string string) : M W (gmap string string) :=
  match items with
  | [] => ret conflicts
  | other :: rest =>
      if same_config other heliosConfig then conflict_loop heliosConfig rest conflicts
      else
        let owner := hc_Namespace other +:+ "/" +:+ hc_Name other +:+ " (svc: " in
        let! conflicts := conflict_map (AllocatedIPs (hc_Status other))
             (IPRange (hc_Spec heliosConfig)) (fun svc => owner +:+ svc +:+ ")") conflicts in
        let! conflicts := (if bool_decide (IPv6Range (hc_Spec heliosConfig) <> ""%string)
             then conflict_map (AllocatedIPv6s (hc_Status other))
                    (IPv6Range (hc_Spec heliosConfig)) (fun svc => owner +:+ svc +:+ ", ipv6)") conflicts
             else ret conflicts) in
        conflict_loop heliosConfig rest conflicts
  end.

(** The nil map of the source is the empty map. *)
Definition CheckIPConflicts (heliosConfig : HeliosConfig)
  : MC (result error (gmap string string)) :=
  on_world (
    let! allConfigs := ListConfigs in
    match allConfigs with
    | Err e => ret (Err (Wrapf "failed to list HeliosConfigs" (APIError e)))
    | Ok items => let! conflicts := conflict_loop heliosConfig items ∅ in ret (Ok conflicts)
    end).

End manager.

Definition CheckQuota (heliosConfig : HeliosConfig) : result error unit :=
  let allocated := size (AllocatedIPs (hc_Status heliosConfig)) in
  let max := MaxAllocations (hc_Spec heliosConfig) in
  if (0 <? max) && (max <=? wrap_s 32 (Z.of_nat allocated))
  then Err (Errorf ("max allocations reached: " +:+ pretty (Z.of_nat allocated) +:+ "/" +:+ pretty max))
  else Ok tt.

(** ** Effects on the pool *)

(** [hc] has the address [x] in its status. *)
Definition owns (hc : HeliosConfig) (x : string) : Prop :=
  (exists k, AllocatedIPs (hc_Status hc) !! k = Some x) \/
  (exists k, AllocatedIPv6s (hc_Status hc) !! k = Some x).

Lemma same_config_key a b : same_config a b = bool_decide (hc_key a = hc_key b).
Proof.
  unfold same_config, hc_key. destruct (bool_decide_reflect (hc_Name a = hc_Name b)) as [Hn|Hn];
    destruct (bool_decide_reflect (hc_Namespace a = hc_Namespace b)) as [Hs|Hs];
    symmetry; rw ?bool_decide_eq_true ?bool_decide_eq_false; congruence.
Qed.

(** The values of the entries of a map. *)
Lemma elem_of_map_values {V} (m : gmap string V) (x : V) :
  x ∈ (map_to_list m).*2 <-> exists k, m !! k = Some x.
Proof.
  rw list_elem_of_fmap. split.
  - intros ([k y] & -> & Hin%elem_of_map_to_list). eauto.
  - intros (k & Hk%elem_of_map_to_list). by exists (k, x).
Qed.

Section effects.
Context {P W : Type} `{AddressPoolLaws P} `{EnvironmentLaws W}.
Implicit Types s : ctl P W.

Abbreviation in_use := (fun s x => pool_in_use (networkMgr s) x = true).

(** The parts of the state an operation on the pool leaves alone. *)
Definition same_rest s s' : Prop := metrics s' = metrics s /\ events s' = events s.

Lemma for_each_mark (l : list (string * string)) s u s' :
  for_each (fun e => MarkUsed_ (snd e)) l s = (u, s') ->
  (forall x, in_use s' x <-> in_use s x \/ x ∈ l.*2) /\ world s' = world s /\ same_rest s s'.
Proof.
  revert s. induction l as [|[k ip] l IH]; intros s; simpl.
  - intros [= <- <-]. split; [set_solver|done].
  - unfold bind. simpl. intros (Hu & Hw & Hr)%IH. split; [|done]. intros x.
    rw Hu /= in_use_mark orb_true_iff bool_decide_eq_true. set_solver.
Qed.

Lemma mark_map_effect m s u s' :
  mark_map m s = (u, s') ->
  (forall x, in_use s' x <-> in_use s x \/ exists k, m !! k = Some x) /\ same_rest s s'.
Proof.
  unfold mark_map, bind, on_world. destruct (iterate m (world s)) as [l w] eqn:Ei.
  apply iterate_perm in Ei. intros (Hu & _ & Hr)%for_each_mark. split; [|done].
  intros x. rw Hu /= Ei. by rw elem_of_map_values.
Qed.

Lemma mark_others_effect hc items s u s' :
  mark_others hc items s = (u, s') ->
  (forall x, in_use s' x <-> in_use s x \/
     exists other, other ∈ items /\ same_config other hc = false /\ owns other x) /\
  same_rest s s'.
Proof.
  unfold mark_others. revert s. induction items as [|o items IH]; intros s; simpl.
  - intros [= <- <-]. split; [|done]. intros x. rw exists_nil. tauto.
  - unfold bind at 1. destruct (same_config o hc) eqn:Es; simpl.
    + intros (Hu & Hr)%IH. split; [|done]. intros x. rw Hu exists_cons. intuition congruence.
    + unfold bind. destruct (mark_map (AllocatedIPs _) s) as [u1 s1] eqn:E1.
      destruct (mark_map (AllocatedIPv6s _) s1) as [u2 s2] eqn:E2.
      apply mark_map_effect in E1 as [U1 [M1 V1]], E2 as [U2 [M2 V2]].
      intros [Hu [Mu Vu]]%IH. split; [|split; congruence]. intros x.
      rw Hu U2 U1 exists_cons. unfold owns at 2. tauto.
Qed.

(** A grant is free, the address a single-address range shares excepted; a
    requested address is free in any case. *)
Lemma allocateIP_effect r q s res s' :
  allocateIP r q s = (res, s') ->
  world s' = world s /\ same_rest s s' /\
  match res with
  | Ok ip => ip <> ""%string /\ (single_address r <> Some ip -> ~ in_use s ip) /\
             (q <> ""%string -> ip = canonical q /\ ~ in_use s ip) /\
             (forall x, in_use s' x <-> in_use s x \/ x = ip)
  | Err _ => networkMgr s' = networkMgr s
  end.
Proof.
  unfold allocateIP, on_pool. case_bool_decide as Hq.
  - destruct (pool_allocate r (networkMgr s)) as [[ip|e] p] eqn:E; intros [= <- <-];
      (split; [done|]); (split; [done|]); simpl; [|by apply allocate_refuses in E as [_ ->]].
    split; [eapply (grants_text r r); eauto|].
    split; [intros Hs Hu; by apply (allocate_shares _ _ _ _ E) in Hu|]. split; [done|].
    apply allocate_grants in E as [_ Hu].
    intros x. rw Hu orb_true_iff bool_decide_eq_true. tauto.
  - destruct (pool_allocate_specific r q (networkMgr s)) as [[ip|e] p] eqn:E; intros [= <- <-];
      (split; [done|]); (split; [done|]); simpl; [|by apply specific_refuses in E as ->].
    split; [eapply (grants_text r q); eauto|]. apply specific_grants in E as (Hc & Hf & Hu).
    split; [by rw Hf|]. split; [by rw Hf|].
    intros x. rw Hu orb_true_iff bool_decide_eq_true. tauto.
Qed.

Lemma ReleaseIP_effect ip s x :
  in_use (snd (ReleaseIP_ ip s)) x <-> in_use s x /\ x <> ip.
Proof.
  simpl. rw in_use_release andb_true_iff negb_true_iff bool_decide_eq_false. tauto.
Qed.

(** In use, or in the status of another configuration of the list. *)
Definition held (hc : HeliosConfig) (items : list HeliosConfig) s (x : string) : Prop :=
  in_use s x \/ exists other, other ∈ items /\ same_config other hc = false /\ owns other x.

(** The configuration has a range of one address, [x], which its services
    share. *)
Definition shares_address (hc : HeliosConfig) (x : string) : Prop :=
  single_address (IPRange (hc_Spec hc)) = Some x \/ single_address (IPv6Range (hc_Spec hc)) = Some x.

(** The IPv6 half of [AllocateAndAssign]. *)
Lemma allocate6_effect r q s res s' :
  (if bool_decide (r <> ""%string) then allocateIP r q else ret (Ok ""%string)) s = (res, s') ->
  world s' = world s /\ same_rest s s' /\
  match res with
  | Ok ip => (ip = ""%string <-> r = ""%string) /\
             (ip <> ""%string -> single_address r <> Some ip -> ~ in_use s ip) /\
             (ip <> ""%string -> q <> ""%string -> ip = canonical q /\ ~ in_use s ip) /\
             (forall x, in_use s' x <-> in_use s x \/ (ip <> ""%string /\ x = ip))
  | Err _ => networkMgr s' = networkMgr s
  end.
Proof.
  case_bool_decide as Hr.
  - intros (Hw & Hs & Hres)%allocateIP_effect. split; [done|]. split; [done|].
    destruct res as [ip|e]; [|done]. destruct Hres as (Hne & Hf & Hq & Hu).
    split; [naive_solver|]. split; [naive_solver|]. split; [naive_solver|].
    intros x. rw Hu. naive_solver.
  - intros [= <- <-]. split; [done|]. split; [done|].
    split; [naive_solver|]. split; [done|]. split; [done|]. naive_solver.
Qed.

(** The addresses of a failed assignment are given back. *)
Lemma release_both_effect ip ipv6 (e : error) s res s' :
  (ReleaseIP_ ip ;;
   (if bool_decide (ipv6 <> ""%string) then ReleaseIP_ ipv6 else ret tt) ;;
   ret (Err e : result error (string * string))) s = (res, s') ->
  res = Err e /\ same_rest s s' /\
  (forall x, in_use s' x <-> in_use s x /\ x <> ip /\ ~ (ipv6 <> ""%string /\ x = ipv6)).
Proof.
  unfold bind. pose proof (ReleaseIP_effect ip s) as R1.
  destruct (ReleaseIP_ ip s) as [u s1] eqn:E1. simpl in R1.
  assert (S1 : same_rest s s1) by (revert E1; by intros [= <- <-]).
  case_bool_decide as Hv.
  - pose proof (ReleaseIP_effect ipv6 s1) as R2.
    destruct (ReleaseIP_ ipv6 s1) as [u2 s2] eqn:E2. simpl in R2.
    assert (S2 : same_rest s1 s2) by (revert E2; by intros [= <- <-]).
    intros [= <- <-]. destruct S1, S2. split; [done|]. split; [split; congruence|].
    intros x. rw R2 R1. tauto.
  - intros [= <- <-]. split; [done|]. split; [done|]. intros x. rw R1. tauto.
Qed.

(** What [AllocateAndAssign] promises when the configurations could be
    listed. *)
Definition assignment_ok (hc : HeliosConfig) (requested : string * string)
    (held : string -> Prop) s' (res : result error (string * string)) : Prop :=
  match res with
  | Ok (ip, ipv6) =>
      ip <> ""%string /\ (ipv6 = ""%string <-> IPv6Range (hc_Spec hc) = ""%string) /\
      (single_address (IPRange (hc_Spec hc)) <> Some ip -> ~ held ip) /\
      (ipv6 <> ""%string -> single_address (IPv6Range (hc_Spec hc)) <> Some ipv6 ->
       ~ held ipv6 /\ ipv6 <> ip) /\
      (fst requested <> ""%string -> ip = canonical (fst requested) /\ ~ held ip) /\
      (ipv6 <> ""%string -> snd requested <> ""%string ->
       ipv6 = canonical (snd requested) /\ ~ held ipv6) /\
      (forall x, in_use s' x <-> held x \/ x = ip \/ (ipv6 <> ""%string /\ x = ipv6))
  | Err e =>
      IsRetryable (Some e) = true /\ IsPermanent (Some e) = false /\
      (forall x, in_use s' x -> held x) /\
      (forall x, ~ shares_address hc x -> held x -> in_use s' x)
  end.

(** The end of [AllocateAndAssign], once both addresses are allocated. *)
Lemma assign_effect svc ip ipv6 s res s' :
  (let! assigned := assignIPToService svc ip ipv6 in
   match assigned with
   | Err e =>
       ReleaseIP_ ip ;;
       (if bool_decide (ipv6 <> ""%string) then ReleaseIP_ ipv6 else ret tt) ;;
       ret (Err (NewRetryableError "service update failed" (APIError e)))
   | Ok _ =>
       record (RecordIPAllocation ip true) ;;
       (if bool_decide (ipv6 <> ""%string) then record (RecordIPAllocation ipv6 true) else ret tt) ;;
       ret (Ok (ip, ipv6))
   end) s = (res, s') ->
  match res with
  | Ok r => r = (ip, ipv6) /\ networkMgr s' = networkMgr s
  | Err e => IsRetryable (Some e) = true /\ IsPermanent (Some e) = false /\
      forall x, in_use s' x <-> in_use s x /\ x <> ip /\ ~ (ipv6 <> ""%string /\ x = ipv6)
  end.
Proof.
  unfold bind at 1. destruct (assignIPToService svc ip ipv6 s) as [ra s1] eqn:Ea.
  assert (P1 : networkMgr s1 = networkMgr s).
  { revert Ea. unfold assignIPToService, on_world. destruct (RetryOnConflict _ _). by intros [= _ <-]. }
  destruct ra as [[]|ea].
  - unfold bind. case_bool_decide; intros [= <- <-]; done.
  - intros (-> & _ & Hu)%release_both_effect. split_and!; [done|done|]. by rw -P1.
Qed.

Lemma AllocateAndAssign_effect hc svc s res s' items w :
  AllocateAndAssign hc svc s = (res, s') -> ListConfigs (world s) = (Ok items, w) ->
  assignment_ok hc (splitRequestedIP (svc_LoadBalancerIP svc)) (held hc items s) s' res.
Proof.
  unfold AllocateAndAssign, bind at 1, on_world at 1. intros Hrun Hl. rw Hl in Hrun.
  unfold bind at 1 in Hrun. destruct (mark_others hc items _) as [u s1] eqn:Em.
  apply mark_others_effect in Em as [Hm _]. cbn [networkMgr] in Hm.
  fold (held hc items s) in Hm. change (forall x, in_use s1 x <-> held hc items s x) in Hm.
  destruct (splitRequestedIP _) as [q4 q6]. unfold bind at 1 in Hrun.
  destruct (allocateIP _ q4 s1) as [r4 s2] eqn:E4.
  apply allocateIP_effect in E4 as (_ & _ & A4). destruct r4 as [ip|e4].
  2:{ injection Hrun as <- <-. simpl. split_and!; try done; intros x; by rw A4 Hm. }
  destruct A4 as (Hne & Hf & Hq & Hu). rw Hm in Hf, Hq. unfold bind at 1 in Hrun.
  destruct ((if bool_decide (IPv6Range (hc_Spec hc) <> ""%string)
             then allocateIP (IPv6Range (hc_Spec hc)) q6 else ret (Ok ""%string)) s2)
    as [r6 s3] eqn:E6.
  apply allocate6_effect in E6 as (_ & _ & A6). destruct r6 as [ipv6|e6].
  2:{ unfold bind in Hrun. pose proof (ReleaseIP_effect ip s3) as Hrel.
      destruct (ReleaseIP_ ip s3) as [u' s4]. injection Hrun as <- <-. simpl in Hrel |- *.
      unfold shares_address. split_and!; [done|done|..]; intros x; rw Hrel A6 Hu Hm.
      - naive_solver.
      - intros Hx Hh. split; [by left|]. intros ->. apply Hf in Hh; [done|].
        intros Hs. apply Hx. by left. }
  destruct A6 as (Hv & Hf6 & Hq6 & Hu6). setoid_rewrite Hu in Hf6. setoid_rewrite Hu in Hq6.
  setoid_rewrite Hu in Hu6. setoid_rewrite Hm in Hf6. setoid_rewrite Hm in Hq6.
  setoid_rewrite Hm in Hu6. apply assign_effect in Hrun. destruct res as [[i j]|e].
  - destruct Hrun as [[= -> ->] Hs']. simpl. rw Hs'. split_and!; [done|done|done|..].
    + naive_solver.
    + done.
    + naive_solver.
    + intros x. rw Hu6. clear. tauto.
  - destruct Hrun as (Hr & Hp & Hrel). unfold shares_address.
    split_and!; [done|done|..]; intros x; rw Hrel Hu6.
    + tauto.
    + intros Hx Hh. split_and!; [by left; left| |].
      * intros ->. apply Hf in Hh; [done|]. intros Hs. apply Hx. by left.
      * intros [H6 ->]. apply Hf6 in H6; [tauto|]. intros Hs. apply Hx. by right.
Qed.

(** ** Effects on the cluster *)

Definition ingress_of (ip ipv6 : string) : list string :=
  if bool_decide (ipv6 <> ""%string) then [ip; ipv6] else [ip].

Lemma assign_once_effect svc ip ipv6 w w' :
  assign_once svc ip ipv6 w = (Ok tt, w') ->
  exists cur, stored_service w' (svc_key svc) = Some cur /\ svc_Ingress cur = ingress_of ip ipv6.
Proof.
  unfold assign_once, bind.
  destruct (GetService _ _ w) as [[cur|e] w1] eqn:Eg; [|done]. apply get_service_key in Eg.
  destruct (UpdateServiceStatus _ w1) as [[cur1|e] w2] eqn:Es; [|done].
  apply update_service_status_sent in Es as (Hk & Hi & Hst).
  assert (K : svc_key cur1 = svc_key svc).
  { rw Hk. transitivity (svc_key cur); [done|]. by rw Eg. }
  destruct (UpdateService cur1 w2) as [[cur2|e] w3] eqn:Eu; [|done]. intros [= <-].
  rw -Hk in Hst. apply update_service_keeps_status in Eu as [Hi' Hst']; [|done].
  exists cur2. rw -K. split; [done|]. by rw Hi' Hi.
Qed.

Lemma attempts_Ok fn w w' : attempts (W := W) fn w (Ok tt) w' -> exists w1, fn w1 = (Ok tt, w').
Proof.
  intros Hr. remember (Ok tt) as r eqn:Er. induction Hr as [w r w' Hf|w w1 r w' Hf Ha IH]; subst; eauto.
Qed.

Lemma AllocateAndAssign_assigns hc svc s ip ipv6 s' :
  AllocateAndAssign hc svc s = (Ok (ip, ipv6), s') ->
  (exists cur, stored_service (world s') (svc_key svc) = Some cur /\
    svc_Ingress cur = ingress_of ip ipv6) /\
  gauges (metrics s') !! (ipAllocationStatus, [ip]) = Some 1 /\
  (ipv6 <> ""%string -> gauges (metrics s') !! (ipAllocationStatus, [ipv6]) = Some 1).
Proof.
  unfold AllocateAndAssign, bind at 1. destruct (on_world ListConfigs s) as [[items|e] s0]; [|done].
  unfold bind at 1. destruct (mark_others hc items s0) as [u s1].
  destruct (splitRequestedIP _) as [q4 q6]. unfold bind at 1.
  destruct (allocateIP _ q4 s1) as [[i4|e4] s2]; [|done]. unfold bind at 1.
  destruct ((if bool_decide (IPv6Range (hc_Spec hc) <> ""%string)
             then allocateIP (IPv6Range (hc_Spec hc)) q6 else ret (Ok ""%string)) s2)
    as [[i6|e6] s3]; [|done].
  unfold bind at 1. unfold assignIPToService, on_world.
  destruct (RetryOnConflict _ _) as [[[]|er] w] eqn:Er.
  - apply retry_attempts, attempts_Ok in Er as (w1 & Er). apply assign_once_effect in Er.
    unfold bind. case_bool_decide as Hv; intros [= <- <- <-]; simpl; split_and!; try done;
      intros; rw !lookup_insert; repeat (case_decide; try done).
  - unfold bind. by case_bool_decide.
Qed.

(** ** Release *)

(** The gauge of an address. *)
Definition allocation_gauge s (x : string) : option Z :=
  gauges (metrics s) !! (ipAllocationStatus, [x]).

Lemma release_loop_effect entries names s names' s' :
  release_loop entries names s = (names', s') ->
  (forall x, in_use s' x <-> in_use s x /\ x ∉ entries.*2) /\
  (forall x, allocation_gauge s' x = if decide (x ∈ entries.*2) then Some 0 else allocation_gauge s x) /\
  (forall k, is_Some (names' !! k) <-> is_Some (names !! k) \/ k ∈ entries.*1) /\
  world s' = world s /\ events s' = events s.
Proof.
  revert names s. induction entries as [|[k ip] rest IH]; intros names s; simpl.
  - intros [= <- <-]. split_and!; try done; set_solver.
  - unfold bind. pose proof (ReleaseIP_effect ip s) as Hrel.
    destruct (ReleaseIP_ ip s) as [u s1] eqn:E1.
    assert (S1 : metrics s1 = metrics s /\ world s1 = world s /\ events s1 = events s)
      by (revert E1; by intros [= <- <-]).
    destruct S1 as (M1 & W1 & V1). simpl in Hrel |- *.
    intros (Hu & Hg & Hn & Hw & Hv)%IH. simpl in *. split_and!; [| | |congruence|congruence].
    + intros x. rw Hu Hrel not_elem_of_cons. tauto.
    + intros x. rw Hg. unfold allocation_gauge. simpl. rw lookup_insert M1.
      change (list_fmap _ _ snd rest) with (rest.*2).
      destruct (decide (x ∈ ip :: rest.*2)) as [[->|?]%elem_of_cons|[Hx ?]%not_elem_of_cons].
      * destruct (decide (ip ∈ rest.*2)); [done|]. by rw decide_True.
      * by rw decide_True.
      * rw decide_False // decide_False //. by intros [= ->].
    + intros k'. rw Hn elem_of_cons lookup_insert_is_Some'. naive_solver.
Qed.

Lemma clear_loop_effect ns (l : list (string * bool)) s u s' :
  for_each (fun e => on_world (clear_ingress ns (fst e))) l s = (u, s') ->
  networkMgr s' = networkMgr s /\ same_rest s s'.
Proof.
  revert s. induction l as [|e l IH]; intros s; simpl.
  - by intros [= _ <-].
  - unfold bind, on_world at 1. destruct (clear_ingress ns e.1 (world s)) as [u1 w].
    by intros [Hp Hr]%IH.
Qed.

Lemma ReleaseAll_effect hc s u s' :
  ReleaseAll hc s = (u, s') ->
  (forall x, in_use s' x <-> in_use s x /\ ~ owns hc x) /\
  (forall x, owns hc x -> allocation_gauge s' x = Some 0) /\
  (forall x, ~ owns hc x -> allocation_gauge s' x = allocation_gauge s x) /\
  events s' = events s.
Proof.
  unfold ReleaseAll, bind, on_world.
  destruct (iterate (AllocatedIPs (hc_Status hc)) (world s)) as [e4 w1] eqn:I4.
  destruct (release_loop e4 ∅ _) as [names s1] eqn:R4.
  destruct (iterate (AllocatedIPv6s (hc_Status hc)) (world s1)) as [e6 w2] eqn:I6.
  destruct (release_loop e6 names _) as [names2 s2] eqn:R6.
  destruct (iterate names2 (world s2)) as [l w3]. intros [Hp [Hm He]]%clear_loop_effect.
  apply release_loop_effect in R4 as (U4 & G4 & _ & _ & V4), R6 as (U6 & G6 & _ & _ & V6).
  apply iterate_perm in I4, I6. simpl in *.
  assert (Ho : forall x, owns hc x <-> x ∈ e4.*2 \/ x ∈ e6.*2).
  { intros x. unfold owns. by rw I4 I6 !elem_of_map_values. }
  unfold allocation_gauge in *. rw Hm. simpl in G4. split_and!; [| | |congruence].
  - intros x. rw Hp U6 U4 Ho. tauto.
  - intros x. rw Ho G6 G4. intros. repeat case_decide; tauto.
  - intros x. rw Ho G6 G4. intros. repeat case_decide; tauto.
Qed.

(** ** Conflicts *)

Lemma fold_conflicts (r : string) (owner : string -> string) (l : list (string * string))
    (acc : gmap string string) ip :
  is_Some (fold_left (fun acc '(svcName, ip) =>
    if IPInRange ip r then <[ip := owner svcName]> acc else acc) l acc !! ip) <->
  is_Some (acc !! ip) \/ (ip ∈ l.*2 /\ IPInRange ip r = true).
Proof.
  revert acc. induction l as [|[k x] l IH]; intros acc; simpl; [set_solver|].
  rw IH elem_of_cons. destruct (IPInRange x r) eqn:E.
  - rw lookup_insert_is_Some'. naive_solver.
  - split; [naive_solver|]. intros [?|[[->|?] ?]]; [by left|congruence|by right].
Qed.

Lemma conflict_map_effect m r owner acc (w : W) acc' w' ip :
  conflict_map m r owner acc w = (acc', w') ->
  is_Some (acc' !! ip) <->
  is_Some (acc !! ip) \/ ((exists k, m !! k = Some ip) /\ IPInRange ip r = true).
Proof.
  unfold conflict_map, bind. destruct (iterate m w) as [l w1] eqn:Ei.
  apply iterate_perm in Ei. intros [= <- <-]. by rw fold_conflicts Ei elem_of_map_values.
Qed.

(** The address [ip] of [other] lies in a range of [hc]. *)
Definition conflicting (hc other : HeliosConfig) (ip : string) : Prop :=
  ((exists k, AllocatedIPs (hc_Status other) !! k = Some ip) /\
   IPInRange ip (IPRange (hc_Spec hc)) = true) \/
  (IPv6Range (hc_Spec hc) <> ""%string /\
   (exists k, AllocatedIPv6s (hc_Status other) !! k = Some ip) /\
   IPInRange ip (IPv6Range (hc_Spec hc)) = true).

Lemma conflict_loop_effect hc items acc (w : W) acc' w' ip :
  conflict_loop hc items acc w = (acc', w') ->
  is_Some (acc' !! ip) <->
  is_Some (acc !! ip) \/
  exists other, other ∈ items /\ same_config other hc = false /\ conflicting hc other ip.
Proof.
  revert acc w. induction items as [|o items IH]; intros acc w; cbn [conflict_loop].
  - intros [= <- <-]. rw exists_nil. tauto.
  - rw exists_cons. destruct (same_config o hc) eqn:Es.
    + intros ->%IH. intuition congruence.
    + unfold bind at 1. destruct (conflict_map _ (IPRange _) _ acc w) as [a1 w1] eqn:E4.
      apply (conflict_map_effect _ _ _ _ _ _ _ ip) in E4. unfold bind at 1.
      unfold conflicting at 1. case_bool_decide as H6.
      * destruct (conflict_map _ (IPv6Range _) _ a1 w1) as [a2 w2] eqn:E6.
        apply (conflict_map_effect _ _ _ _ _ _ _ ip) in E6. intros ->%IH. rw E6 E4. tauto.
      * intros ->%IH. rw E4. tauto.
Qed.

End effects.

(** ** Quota *)

Lemma CheckQuota_ok hc :
  Z.of_nat (size (AllocatedIPs (hc_Status hc))) < 2 ^ 31 ->
  CheckQuota hc = Ok tt <->
  MaxAllocations (hc_Spec hc) <= 0 \/
  Z.of_nat (size (AllocatedIPs (hc_Status hc))) < MaxAllocations (hc_Spec hc).
Proof.
  intros Hs. unfold CheckQuota, wrap_s. cbv zeta.
  replace ((Z.of_nat (size (AllocatedIPs (hc_Status hc))) + 2 ^ (32 - 1)) mod 2 ^ 32 - 2 ^ (32 - 1))
    with (Z.of_nat (size (AllocatedIPs (hc_Status hc)))) by divlia.
  destruct (Z.ltb_spec 0 (MaxAllocations (hc_Spec hc))),
    (Z.leb_spec (MaxAllocations (hc_Spec hc)) (Z.of_nat (size (AllocatedIPs (hc_Status hc)))));
    simpl; split; intros; try done; lia.
Qed.

(** ** What the manager never touches *)

Section quiet.
Context {P W : Type} `{AddressPool P} `{EnvironmentLaws W}.

(** The versions issued by the server stay issued, and the metrics of whole
    reconciliations are left alone. *)
Definition quiet (s s' : ctl P W) : Prop :=
  evolves (world s) (world s') /\
  forall l, counter (metrics s') reconcileTotal l = counter (metrics s) reconcileTotal l /\
            observations (metrics s') reconcileDuration l = observations (metrics s) reconcileDuration l.

#[export] Instance quiet_preorder : PreOrder quiet.
Proof.
  split.
  - intros s. split; [reflexivity|done].
  - intros s1 s2 s3 [E1 M1] [E2 M2]. split; [by transitivity (world s2)|]. intros l.
    destruct (M1 l) as [A1 B1], (M2 l) as [A2 B2]. split; congruence.
Qed.

Lemma quiet_world {A} (c : M W A) : moves evolves c -> moves quiet (on_world c).
Proof.
  intros Hc s a s'. unfold on_world. destruct (c (world s)) as [b w] eqn:E. intros [= _ <-].
  split; [by eapply Hc|done].
Qed.

Lemma quiet_pool {A} (c : M P A) : moves quiet (on_pool c).
Proof.
  intros s a s'. unfold on_pool. destruct (c (networkMgr s)) as [b p]. intros [= _ <-].
  split; [reflexivity|done].
Qed.

Lemma quiet_emit e : moves quiet (emit (P := P) (W := W) e).
Proof. intros s a s' [= _ <-]. split; [reflexivity|done]. Qed.

Lemma quiet_gauge v l z : moves quiet (record (P := P) (W := W) (Set_ v l z)).
Proof. intros s a s' [= _ <-]. split; [reflexivity|done]. Qed.

Lemma quiet_requeue name ns reason :
  moves quiet (record (P := P) (W := W) (RecordRequeueReason name ns reason)).
Proof.
  intros s a s' [= _ <-]. split; [reflexivity|]. intros l. simpl. split; [|done].
  unfold RecordRequeueReason. rw counter_inc. case_decide; [by simplify_eq|]. lia.
Qed.
End quiet.
#[export] Hint Resolve quiet_world quiet_pool quiet_emit quiet_gauge quiet_requeue : helios.

Section quiet_manager.
Context {P W : Type} `{AddressPool P} `{EnvironmentLaws W}.
Abbreviation quietly := (moves (quiet (P := P) (W := W))).

Lemma evolves_assign_once svc ip ipv6 : moves evolves (assign_once (W := W) svc ip ipv6).
Proof. unfold assign_once. moves. Qed.

Lemma evolves_clear_ingress ns name : moves evolves (clear_ingress (W := W) ns name).
Proof. unfold clear_ingress. moves. Qed.

Lemma evolves_conflict_loop hc items acc : moves evolves (conflict_loop (W := W) hc items acc).
Proof.
  revert acc. induction items as [|o items IH]; intros acc; simpl; [moves|].
  unfold conflict_map. moves.
Qed.
Hint Resolve evolves_assign_once evolves_clear_ingress evolves_conflict_loop : helios.

Lemma quiet_allocateIP r q : quietly (allocateIP r q).
Proof. unfold allocateIP. moves. Qed.
Hint Resolve quiet_allocateIP : helios.

Lemma quiet_AllocateAndAssign hc svc : quietly (AllocateAndAssign hc svc).
Proof.
  unfold AllocateAndAssign, mark_others, mark_map, MarkUsed_, ReleaseIP_, assignIPToService,
    RecordIPAllocation. moves.
Qed.

Lemma quiet_release_loop entries names : quietly (release_loop entries names).
Proof.
  revert names. induction entries as [|[k ip] rest IH]; intros names; simpl; [moves|].
  unfold ReleaseIP_, RecordIPAllocation. moves.
Qed.
Hint Resolve quiet_release_loop : helios.

Lemma quiet_ReleaseAll hc : quietly (ReleaseAll hc).
Proof. unfold ReleaseAll. moves. Qed.

Lemma quiet_CheckIPConflicts hc : quietly (CheckIPConflicts hc).
Proof. unfold CheckIPConflicts. apply quiet_world. moves. Qed.

End quiet_manager.
#[export] Hint Resolve quiet_AllocateAndAssign quiet_ReleaseAll quiet_CheckIPConflicts : helios.

(** ** Properties *)

Section claims.
Context {P W : Type} `{AddressPoolLaws P} `{EnvironmentLaws W}.

(** C6. [AllocateAndAssign], for every pool and every environment, once the
    configurations are listed.  An address is held when it is in use or in the
    status of another listed configuration.  On success a granted address was
    not held, unless it is the address of a single-address range, which is
    shared, and the IPv6 address is not the IPv4 one; there is an IPv6 address
    exactly when there is an IPv6 range; a requested IPv4 address, and a
    requested IPv6 address of a configuration with an IPv6 range, is granted
    exactly and only when not held; afterwards the addresses in use are
    precisely those held and those granted.  On failure the error is retryable
    and not permanent, no address is in use that was not held, and every
    address held is in use, except perhaps the shared address of a
    single-address range of this configuration ([allocation_gaps] (2)). *)
Theorem allocate_and_assign_correct (hc : HeliosConfig) (svc : Service_) (s s' : ctl P W)
    (res : result error (string * string)) (items : list HeliosConfig) (w : W) :
  AllocateAndAssign hc svc s = (res, s') -> ListConfigs (world s) = (Ok items, w) ->
  assignment_ok hc (splitRequestedIP (svc_LoadBalancerIP svc)) (held hc items s) s' res.
Proof. apply AllocateAndAssign_effect. Qed.

(** When [AllocateAndAssign] succeeds, the service stored in the cluster
    has the granted addresses as its ingress, IPv4 first, whatever conflicts
    the update met on the way, and the gauge of each granted address is 1. *)
Theorem assigned_service_has_ingress (hc : HeliosConfig) (svc : Service_) (s s' : ctl P W)
    (ip ipv6 : string) :
  AllocateAndAssign hc svc s = (Ok (ip, ipv6), s') ->
  (exists cur, stored_service (world s') (svc_key svc) = Some cur /\
    svc_Ingress cur = ingress_of ip ipv6) /\
  gauges (metrics s') !! (ipAllocationStatus, [ip]) = Some 1 /\
  (ipv6 <> ""%string -> gauges (metrics s') !! (ipAllocationStatus, [ipv6]) = Some 1).
Proof. apply AllocateAndAssign_assigns. Qed.

(** [ReleaseAll] gives back exactly the addresses in the configuration's
    status, of both families and in whatever order the maps are visited: they
    are free and their gauges 0 afterwards, every other address stays as it
    was. *)
Theorem ReleaseAll_releases (hc : HeliosConfig) (s s' : ctl P W) (u : unit) :
  ReleaseAll hc s = (u, s') ->
  (forall x, pool_in_use (networkMgr s') x = true <->
             pool_in_use (networkMgr s) x = true /\ ~ owns hc x) /\
  (forall x, owns hc x -> allocation_gauge s' x = Some 0) /\
  (forall x, ~ owns hc x -> allocation_gauge s' x = allocation_gauge s x) /\
  events s' = events s.
Proof. apply ReleaseAll_effect. Qed.

(** [CheckIPConflicts] reports exactly the addresses that another
    configuration holds and that lie in one of this configuration's ranges,
    and changes neither the pool nor the metrics. *)
Theorem CheckIPConflicts_exact (hc : HeliosConfig) (s s' : ctl P W) (items : list HeliosConfig)
    (w : W) (conflicts : gmap string string) :
  ListConfigs (world s) = (Ok items, w) ->
  CheckIPConflicts hc s = (Ok conflicts, s') ->
  (forall ip, is_Some (conflicts !! ip) <->
     exists other, other ∈ items /\ same_config other hc = false /\ conflicting hc other ip) /\
  networkMgr s' = networkMgr s /\ metrics s' = metrics s /\ events s' = events s.
Proof.
  intros Hl. unfold CheckIPConflicts, on_world, bind. rw Hl.
  destruct (conflict_loop hc items ∅ w) as [c w1] eqn:E. intros [= <- <-].
  split; [|done]. intros ip. apply (conflict_loop_effect _ _ _ _ _ _ ip) in E.
  rw E lookup_empty. split; [intros [[? ?]|?]; done|auto].
Qed.

End claims.

(** [CheckQuota] refuses exactly when a positive maximum is reached, for
    every status the int32 conversion of its length represents. *)
Theorem CheckQuota_iff (hc : HeliosConfig) :
  Z.of_nat (size (AllocatedIPs (hc_Status hc))) < 2 ^ 31 ->
  CheckQuota hc = Ok tt <->
  MaxAllocations (hc_Spec hc) <= 0 \/
  Z.of_nat (size (AllocatedIPs (hc_Status hc))) < MaxAllocations (hc_Spec hc).
Proof. apply CheckQuota_ok. Qed.

(** ** Runs *)

(** A cluster and a configuration to run the handlers on. *)
Definition demo_config (name ns r4 r6 : string) (v4 v6 : gmap string string) : HeliosConfig :=
  mkHeliosConfig name ns 1 1 [] false
    (mkHeliosConfigSpec r4 r6 "" ProtocolTCP [] MethodRoundRobin [] None [] 0)
    (with_allocated v4 v6 emptyStatus).

Definition demo_service (name ns ip : string) : Service_ :=
  mkService name ns 1 ∅ ServiceTypeLoadBalancer None ip [].

Definition demo_world (cs : list HeliosConfig) (ss : list Service_) : Mem.t :=
  Mem.mk (list_to_map ((fun c => (hc_key c, c)) <$> cs))
    (list_to_map ((fun x => (svc_key x, x)) <$> ss)) 2 0 false.

Definition demo_state (nm : NetworkManager.t) (cs : list HeliosConfig) (ss : list Service_)
  : ctl NetworkManager.t Mem.t :=
  mkCtl nm (demo_world cs ss) emptyRegistry [].

Definition lb_config := demo_config "lb" "ns" "192.0.2.10-192.0.2.20" "fd00::10-fd00::20" ∅ ∅.
Definition other_config := demo_config "other" "ns" "192.0.2.10-192.0.2.12" "" {["x" := "192.0.2.10"]} ∅.
Definition lb_state :=
  demo_state NetworkManager.New [lb_config; other_config] [demo_service "web" "ns" "fd00::15"].

Lemma allocate_and_assign_correct_witness :
  let res := AllocateAndAssign lb_config (demo_service "web" "ns" "fd00::15") lb_state in
  fst res = Ok ("192.0.2.11", "fd00::15")%string /\
  assignment_ok lb_config (""%string, "fd00::15"%string)
    (held lb_config (map_to_list (Mem.configs (world lb_state))).*2 lb_state) (snd res) (fst res).
Proof.
  split; [vm_compute; reflexivity|].
  apply (allocate_and_assign_correct lb_config (demo_service "web" "ns" "fd00::15") lb_state _ _
    _ (world lb_state)); [apply surjective_pairing|reflexivity].
Defined.

Lemma assigned_service_has_ingress_witness :
  exists (s' : ctl NetworkManager.t Mem.t) cur,
    stored_service (world s') ("ns", "web")%string = Some cur /\
    svc_Ingress cur = ["192.0.2.11"; "fd00::15"]%string.
Proof.
  destruct (AllocateAndAssign lb_config (demo_service "web" "ns" "fd00::15") lb_state)
    as [res s'] eqn:E.
  assert (Hres : res = Ok ("192.0.2.11", "fd00::15")%string).
  { apply (f_equal fst) in E. vm_compute in E. by rw -E. }
  exists s'. subst res.
  exact (proj1 (assigned_service_has_ingress lb_config (demo_service "web" "ns" "fd00::15")
    lb_state s' "192.0.2.11" "fd00::15" E)).
Defined.

Lemma ReleaseAll_releases_witness :
  let nm := NetworkManager.MarkUsed "192.0.2.11" (NetworkManager.MarkUsed "192.0.2.10" NetworkManager.New) in
  let s := demo_state nm [other_config] [] in
  pool_in_use (networkMgr (snd (ReleaseAll other_config s))) "192.0.2.10" <> true.
Proof.
  cbv zeta. set (nm := NetworkManager.MarkUsed _ _). set (s := demo_state nm _ _).
  destruct (ReleaseAll other_config s) as [u s'] eqn:E. simpl.
  destruct (ReleaseAll_releases other_config s s' u E) as [Hp _]. rw Hp.
  intros [_ Hno]. apply Hno. left. by exists "x"%string.
Defined.

Lemma CheckIPConflicts_exact_witness :
  exists conflicts, fst (CheckIPConflicts lb_config lb_state) = Ok conflicts /\
    is_Some (conflicts !! "192.0.2.10"%string).
Proof.
  destruct (CheckIPConflicts lb_config lb_state) as [[conflicts|e] s'] eqn:E.
  - exists conflicts. split; [done|].
    destruct (CheckIPConflicts_exact lb_config lb_state s'
      (map_to_list (Mem.configs (world lb_state))).*2 (world lb_state) conflicts) as [Hc _];
      [reflexivity|exact E|]. apply Hc.
    exists other_config. split_and!.
    + vm_compute. repeat constructor.
    + done.
    + left. split; [by exists "x"%string|vm_compute; reflexivity].
  - apply (f_equal fst) in E. vm_compute in E. done.
Defined.

Lemma CheckQuota_iff_witness : CheckQuota other_config = Ok tt.
Proof. apply (CheckQuota_iff other_config); [vm_compute; reflexivity|left; done]. Defined.

(** Three gaps of [AllocateAndAssign], as runs.  (1) A manager that
    starts with an empty allocator, as after a restart, does not know the
    addresses in the status of the configuration it serves (only those of the
    others are marked), so it grants the address of service [a] to [b] as
    well.  (2) On a range of one address the second service shares it; when
    its assignment fails the address is released although the first service
    keeps it.  (3) A single-stack configuration whose range is IPv6 ignores a
    requested IPv6 address, which is eligible for it, and grants the first
    free one. *)
Theorem allocation_gaps :
  let own := demo_config "lb" "ns" "192.0.2.10-192.0.2.20" "" {["a" := "192.0.2.10"]} ∅ in
  let b := demo_service "b" "ns" "" in
  fst (AllocateAndAssign own b (demo_state NetworkManager.New [own] [b]))
    = Ok ("192.0.2.10", "")%string /\
  let one := demo_config "one" "ns" "192.0.2.5" "" {["a" := "192.0.2.5"]} ∅ in
  let held := NetworkManager.MarkUsed "192.0.2.5" NetworkManager.New in
  let failed := AllocateAndAssign one b (demo_state held [one] []) in
  is_ok (fst failed) = false /\ pool_in_use (networkMgr (snd failed)) "192.0.2.5" = false /\
  let six := demo_config "six" "ns" "fd00::10-fd00::20" "" ∅ ∅ in
  let asks := demo_service "c" "ns" "fd00::15" in
  IPAllocatable (svc_LoadBalancerIP asks) (IPRange (hc_Spec six)) = true /\
  fst (AllocateAndAssign six asks (demo_state NetworkManager.New [six] [asks]))
    = Ok ("fd00::10", "")%string.
Proof. vm_compute. done. Qed.
