(* ===== verification/Reconciler.v ===== *)
(** * The reconciler: internal/controller/heliosconfig_controller.go

    [Reconcile] with its helpers, and the mapping from watched services to
    configurations.  The configuration object the source mutates through a
    pointer is threaded: every function returns it as it leaves it, and the
    deferred metrics read its last value.  Log messages are left out. *)
From S2P Require Import Prelude GoStrings NetIP IPRange IPAllocator Pool Errors Types.
From S2P Require Import ServiceFilter Metrics Cluster IPManager.

Local Open Scope Z_scope.
Local Open Scope go_scope.

Definition heliosConfigFinalizer : string := "balancer.helios.dev/finalizer".

(** [ctrl.Result]; the delay in seconds, 0 for none. *)
Record Result : Type := mkResult { RequeueAfter : Z }.

Section reconciler.
Context {P W : Type} `{AddressPool P} `{Environment W}.

Abbreviation MC := (M (ctl P W)).

(** [meta.SetStatusCondition] on the object, with its generation. *)
Definition set_condition (type : string) (status : ConditionStatus) (reason : string)
    (msg : message) (hc : HeliosConfig) : HeliosConfig :=
  with_status (with_conditions
    (SetStatusCondition (mkCondition type status reason msg (hc_Generation hc))
      (Conditions (hc_Status hc))) (hc_Status hc)) hc.

(** [Status().Update] whose error is only logged. *)
Definition try_update_status (hc : HeliosConfig) : MC HeliosConfig :=
  let! r := on_world (UpdateConfigStatus hc) in
  ret (match r with Ok hc' => hc' | Err _ => hc end).

(** The block that adds the finalizer: the error it returns with, if any. *)
Definition ensure_finalizer (hc : HeliosConfig) : MC (option api_error * HeliosConfig) :=
  if negb (ContainsFinalizer hc heliosConfigFinalizer) then
    let hc := AddFinalizer heliosConfigFinalizer hc in
    let! r := on_world (UpdateConfig hc) in
    match r with
    | Err e => ret (Some e, hc)
    | Ok hc =>
        let hc := set_condition ConditionTypeReady ConditionFalse ReasonInitializing
                    (Text "HeliosConfig is initializing") hc in
        let! r := on_world (UpdateConfigStatus hc) in
        match r with
        | Err e => ret (Some e, hc)
        | Ok hc => ret (None, hc)
        end
    end
  else ret (None, hc).

Definition handleDeletion (hc : HeliosConfig) : MC (result error unit * HeliosConfig) :=
  if ContainsFinalizer hc heliosConfigFinalizer then
    emit (EvCleanupStarted (size (AllocatedIPs (hc_Status hc)))) ;;
    ReleaseAll hc ;;
    let hc := RemoveFinalizer heliosConfigFinalizer hc in
    let! r := on_world (UpdateConfig hc) in
    match r with
    | Err e => emit (EvCleanupFailed (APIError e)) ;; ret (Err (APIError e), hc)
    | Ok hc => emit EvCleanupComplete ;; ret (Ok tt, hc)
    end
  else ret (Ok tt, hc).

(** The status after a failed allocation. *)
Definition mark_failed (err : error) (hc : HeliosConfig) : HeliosConfig :=
  set_condition ConditionTypeDegraded ConditionTrue ReasonIPAllocationError (ErrorText err)
    (set_condition ConditionTypeReady ConditionFalse ReasonIPAllocationError (ErrorText err)
      (with_status (with_phase StateFailed (ErrorText err) (hc_Status hc)) hc)).

(** The status after an allocation for [svc]. *)
Definition mark_allocated (svc : Service_) (ip ipv6 : string) (hc : HeliosConfig) : HeliosConfig :=
  let st := hc_Status hc in
  let st := with_allocated (<[svc_Name svc := ip]> (AllocatedIPs st))
              (if bool_decide (ipv6 <> ""%string) then <[svc_Name svc := ipv6]> (AllocatedIPv6s st)
               else AllocatedIPv6s st) st in
  set_condition ConditionTypeDegraded ConditionFalse ReasonNetworkConfigured
    (Text "All allocations healthy")
    (set_condition ConditionTypeReady ConditionTrue ReasonNetworkConfigured
      (Text "IP allocated successfully")
      (with_status (with_phase StateActive (Text "IP allocated successfully") st) hc)).

(** The loop over the eligible services.  [None]: the loop ended or broke off;
    [Some r]: [Reconcile] returns [r]. *)
Fixpoint process_services (eligible : list Service_) (hc : HeliosConfig)
  : MC (option (result error Result) * HeliosConfig) :=
  match eligible with
  | [] => ret (None, hc)
  | svc :: rest =>
      match CheckQuota hc with
      | Err _ =>
          emit (EvQuotaExceeded (size (AllocatedIPs (hc_Status hc))) (MaxAllocations (hc_Spec hc))) ;;
          ret (None, hc)
      | Ok _ =>
          let! r := AllocateAndAssign hc svc in
          match r with
          | Err err =>
              emit (EvAllocationFailed (svc_Namespace svc) (svc_Name svc) err) ;;
              let! hc := try_update_status (mark_failed err hc) in
              record (RecordRequeueReason (hc_Name hc) (hc_Namespace hc) "ip_allocation_error") ;;
              ret (Some (Ok (mkResult 10)), hc)
          | Ok (ip, ipv6) =>
              emit (if bool_decide (ipv6 <> ""%string)
                    then EvDualIPAllocated ip ipv6 (svc_Namespace svc) (svc_Name svc)
                    else EvIPAllocated ip (svc_Namespace svc) (svc_Name svc)) ;;
              let hc := mark_allocated svc ip ipv6 hc in
              let! u := on_world (UpdateConfigStatus hc) in
              match u with
              | Err e => ret (Some (Err (APIError e)), hc)
              | Ok hc => process_services rest hc
              end
          end
      end
  end.

(** [Reconcile] once the object has been read and has its finalizer. *)
Definition reconcile_live (hc : HeliosConfig) : MC (result error Result * HeliosConfig) :=
  let! listed := on_world ListServices in
  match listed with
  | Err e => ret (Err (APIError e), hc)
  | Ok items =>
      let eligible := FilterEligibleServices items (NamespaceSelector (hc_Spec hc))
                        (IPRange (hc_Spec hc)) [IPv6Range (hc_Spec hc)] in
      let! c := CheckIPConflicts hc in
      match c with
      | Err e => ret (Err e, hc)
      | Ok conflicts =>
          if (0 <? size conflicts)%nat then
            emit (EvIPConflict (size conflicts)) ;;
            let! hc := try_update_status
              (set_condition ConditionTypeDegraded ConditionTrue ReasonIPConflict
                (ConflictText (size conflicts)) hc) in
            record (RecordRequeueReason (hc_Name hc) (hc_Namespace hc) "ip_conflict") ;;
            ret (Ok (mkResult 30), hc)
          else
            let! out := process_services eligible hc in
            match out with
            | (Some r, hc) => ret (r, hc)
            | (None, hc) =>
                record (RecordRequeueReason (hc_Name hc) (hc_Namespace hc) "periodic") ;;
                ret (Ok (mkResult 5), hc)
            end
      end
  end.

Definition reconcile_config (hc : HeliosConfig) : MC (result error Result * HeliosConfig) :=
  let! init := ensure_finalizer hc in
  match init with
  | (Some e, hc) => ret (Err (APIError e), hc)
  | (None, hc) =>
      if hc_Deleting hc then
        let! d := handleDeletion hc in
        match d with
        | (Ok _, hc) => ret (Ok (mkResult 0), hc)
        | (Err e, hc) => ret (Err e, hc)
        end
      else reconcile_live hc
  end.

(** The deferred function. *)
Definition record_reconcile (start : Z) (hc : HeliosConfig) : MC unit :=
  let! now := on_world Now in
  let name := hc_Name hc in
  let ns := hc_Namespace hc in
  let result := (if bool_decide (Phase (hc_Status hc) = StateFailed) then "error" else "success")%string in
  record (RecordReconcileDuration name ns result (now - start)) ;;
  record (RecordLBStatus name ns (bool_decide (Phase (hc_Status hc) = StateActive))) ;;
  record (RecordIPPoolUtilization name ns (Z.of_nat (size (AllocatedIPs (hc_Status hc))))).

Definition Reconcile (namespace name : string) : MC (result error Result) :=
  let! start := on_world Now in
  let! got := on_world (GetConfig namespace name) in
  match got with
  | Err NotFound => ret (Ok (mkResult 0))
  | Err e => ret (Err (APIError e))
  | Ok hc =>
      let! out := reconcile_config hc in
      record_reconcile start (snd out) ;;
      ret (fst out)
  end.

(** ** Watches *)

(** The object of a watch event. *)
Inductive object : Type := ObjService (svc : Service_) | ObjOther.

(** The predicate of the service watch. *)
Definition service_predicate (obj : object) : bool :=
  match obj with
  | ObjService svc => bool_decide (svc_Type svc = ServiceTypeLoadBalancer)
  | ObjOther => false
  end.

Fixpoint requests_loop (svc : Service_) (items : list HeliosConfig) : list (string * string) :=
  match items with
  | [] => []
  | hc :: rest =>
      let next := requests_loop svc rest in
      if negb (bool_decide (svc_LoadBalancerIP svc = ""%string)) &&
         negb (IPInRange (svc_LoadBalancerIP svc) (IPRange (hc_Spec hc))) then next
      else hc_key hc :: next
  end.

Definition findLoadBalancerServices (obj : object) : MC (list (string * string)) :=
  match obj with
  | ObjOther => ret []
  | ObjService svc =>
      let! listed := on_world ListConfigs in
      ret (match listed with Err _ => [] | Ok items => requests_loop svc items end)
  end.

(** The watch on services [SetupWithManager] registers: the requests an event
    puts on the queue. *)
Definition watch_service (obj : object) : MC (list (string * string)) :=
  if service_predicate obj then findLoadBalancerServices obj else ret [].

End reconciler.

(** ** Frames *)

Section frames.
Context {P W : Type} `{AddressPool P} `{EnvironmentLaws W}.
Abbreviation quietly := (moves (quiet (P := P) (W := W))).

Lemma quiet_try_update_status hc : quietly (try_update_status hc).
Proof. unfold try_update_status. moves. Qed.
Hint Resolve quiet_try_update_status : helios.

Lemma quiet_process_services l hc : quietly (process_services l hc).
Proof. revert hc. induction l as [|svc l IH]; intros hc; simpl; moves. Qed.
Hint Resolve quiet_process_services : helios.

Lemma quiet_reconcile_config hc : quietly (reconcile_config hc).
Proof. unfold reconcile_config, ensure_finalizer, handleDeletion, reconcile_live. moves. Qed.

End frames.

(** ** The loop over the services *)

Section loop.
Context {P W : Type} `{AddressPoolLaws P} `{EnvironmentLaws W}.
Implicit Types s : ctl P W.

(** Every address in the status is in use in the pool, the address of a
    single-address range excepted. *)
Definition backed s (hc : HeliosConfig) : Prop :=
  forall x, owns hc x -> ~ shares_address hc x -> pool_in_use (networkMgr s) x = true.

(** [backed] reads the spec and the status only. *)
Lemma backed_same s hc hc' :
  hc_Spec hc' = hc_Spec hc -> hc_Status hc' = hc_Status hc -> backed s hc -> backed s hc'.
Proof. unfold backed, owns, shares_address. by intros -> ->. Qed.

Lemma AllocateAndAssign_pool hc svc s res s' :
  AllocateAndAssign hc svc s = (res, s') ->
  match res with
  | Ok (ip, ipv6) =>
      (forall x, pool_in_use (networkMgr s) x = true -> pool_in_use (networkMgr s') x = true) /\
      pool_in_use (networkMgr s') ip = true /\
      (ipv6 <> ""%string -> pool_in_use (networkMgr s') ipv6 = true)
  | Err _ =>
      forall x, ~ shares_address hc x ->
      pool_in_use (networkMgr s) x = true -> pool_in_use (networkMgr s') x = true
  end.
Proof.
  intros Hrun. destruct (ListConfigs (world s)) as [[items|e] w] eqn:El.
  - pose proof (AllocateAndAssign_effect _ _ _ _ _ _ _ Hrun El) as Ha.
    destruct res as [[ip ipv6]|e]; simpl in Ha.
    + destruct Ha as (_ & _ & _ & _ & _ & _ & Hu). split_and!; intros; apply Hu; auto.
      left. by left.
    + destruct Ha as (_ & _ & _ & Hu). intros x Hx ?. apply Hu; [done|]. by left.
  - revert Hrun. unfold AllocateAndAssign, bind at 1, on_world at 1. rw El. by intros [= <- <-].
Qed.

Lemma owns_mark_allocated svc ip ipv6 hc x :
  owns (mark_allocated svc ip ipv6 hc) x -> owns hc x \/ x = ip \/ (ipv6 <> ""%string /\ x = ipv6).
Proof.
  unfold owns, mark_allocated. simpl. intros [[k Hk]|[k Hk]].
  - apply lookup_insert_Some in Hk. naive_solver.
  - case_bool_decide; [apply lookup_insert_Some in Hk|]; naive_solver.
Qed.

(** What one turn of the loop does to the object: the spec is the one read,
    and the status the one sent. *)
Lemma status_update_effect hc s r s' :
  on_world (UpdateConfigStatus hc) s = (r, s') -> hc_issued (world s) hc ->
  networkMgr s' = networkMgr s /\ metrics s' = metrics s /\
  forall hc', r = Ok hc' ->
    hc_Spec hc' = hc_Spec hc /\ hc_Status hc' = hc_Status hc /\ hc_key hc' = hc_key hc /\
    hc_issued (world s') hc'.
Proof.
  unfold on_world. destruct (UpdateConfigStatus hc (world s)) as [r' w] eqn:E.
  intros [= <- <-] Hi. split; [done|]. split; [done|]. intros hc' ->.
  destruct (update_status_sent _ _ _ _ E). by destruct (update_status_spec _ _ _ _ Hi E).
Qed.

Lemma try_update_status_effect hc s hc' s' :
  try_update_status hc s = (hc', s') -> hc_issued (world s) hc ->
  networkMgr s' = networkMgr s /\ metrics s' = metrics s /\
  hc_Spec hc' = hc_Spec hc /\ hc_Status hc' = hc_Status hc /\ hc_key hc' = hc_key hc.
Proof.
  unfold try_update_status, bind. destruct (on_world _ s) as [r s1] eqn:E. intros [= <- <-] Hi.
  destruct (status_update_effect _ _ _ _ E Hi) as (Hp & Hm & Hr). destruct r as [h|]; [|done].
  by destruct (Hr h eq_refl) as (? & ? & ? & _).
Qed.

Lemma AllocateAndAssign_issued hc hc' svc s res s' :
  AllocateAndAssign hc svc s = (res, s') -> hc_issued (world s) hc' -> hc_issued (world s') hc'.
Proof. intros E Hi. apply (quiet_AllocateAndAssign hc svc _ _ _ E) in Hi. done. Qed.

(** The number of entries the quota counts. *)
Abbreviation entries hc := (Z.of_nat (size (AllocatedIPs (hc_Status hc)))).

Lemma size_insert_le (m : gmap string string) k v : (size (<[k := v]> m) <= S (size m))%nat.
Proof.
  rw map_size_insert. destruct (m !! k); simpl; [unfold id|]; lia.
Qed.

Lemma process_services_effect l hc s out hc' s' :
  process_services l hc s = ((out, hc'), s') -> hc_issued (world s) hc ->
  hc_Spec hc' = hc_Spec hc /\ hc_key hc' = hc_key hc /\
  (backed s hc -> backed s' hc') /\
  (0 < MaxAllocations (hc_Spec hc) < 2 ^ 31 -> entries hc < 2 ^ 31 ->
   entries hc' <= Z.max (entries hc) (MaxAllocations (hc_Spec hc))).
Proof.
  revert hc s. induction l as [|svc l IH]; intros hc s; cbn [process_services].
  { intros [= <- <- <-] _. split_and!; auto; lia. }
  destruct (CheckQuota hc) as [[]|eq] eqn:Eq.
  2:{ unfold bind. intros [= <- <- <-] _. split_and!; auto; lia. }
  unfold bind at 1. destruct (AllocateAndAssign hc svc s) as [res s1] eqn:Ea.
  pose proof (AllocateAndAssign_pool _ _ _ _ _ Ea) as Hp. intros Hrun Hi.
  pose proof (AllocateAndAssign_issued _ hc _ _ _ _ Ea Hi) as Hi1. destruct res as [[ip ipv6]|err].
  - unfold bind at 1 in Hrun. cbn [emit] in Hrun. unfold bind at 1 in Hrun.
    destruct (on_world (UpdateConfigStatus _) _) as [r s2] eqn:Eu.
    apply status_update_effect in Eu as (Hs2 & _ & Hr); [|done]. cbn [networkMgr world] in *.
    destruct Hp as (Hmono & Hip & Hip6).
    assert (Hb : backed s hc -> backed s2 (mark_allocated svc ip ipv6 hc)).
    { intros Hb x [Hx|[->|[? ->]]]%owns_mark_allocated ?; rw Hs2; auto. }
    assert (Hq : 0 < MaxAllocations (hc_Spec hc) < 2 ^ 31 -> entries hc < 2 ^ 31 ->
      entries (mark_allocated svc ip ipv6 hc) <= MaxAllocations (hc_Spec hc)).
    { intros Hmax Hs. apply CheckQuota_ok in Eq; [|done]. simpl.
      pose proof (size_insert_le (AllocatedIPs (hc_Status hc)) (svc_Name svc) ip). lia. }
    destruct r as [hc2|e].
    + destruct (Hr hc2 eq_refl) as (R1 & R2 & R3 & R4). apply IH in Hrun as (S & K & B & Q); [|done].
      change (hc_Spec hc2 = hc_Spec hc) in R1. change (hc_key hc2 = hc_key hc) in R3.
      split_and!; [congruence|congruence| |].
      * intros Hb'. apply B. by apply (backed_same _ (mark_allocated svc ip ipv6 hc)), Hb.
      * intros Hmax Hs. rw R1 R2 in Q. specialize (Hq Hmax Hs). specialize (Q Hmax ltac:(lia)). lia.
    + injection Hrun as <- <- <-. split_and!; [done|done|auto|].
      intros Hmax Hs. specialize (Hq Hmax Hs). lia.
  - unfold bind at 1 in Hrun. cbn [emit] in Hrun. unfold bind at 1 in Hrun.
    destruct (try_update_status (mark_failed err hc) _) as [hc2 s2] eqn:Eu.
    apply try_update_status_effect in Eu as (Hs2 & _ & R1 & R2 & R3); [|done].
    unfold bind in Hrun. injection Hrun as <- <- <-. cbn [networkMgr] in *.
    split_and!; [done|done| |].
    + intros Hb. apply (backed_same _ (mark_failed err hc)); [done|done|]. intros x Hx' Hs.
      cbn [networkMgr]. rw Hs2. apply Hp; [exact Hs|]. exact (Hb x Hx' Hs).
    + intros. rw R2. simpl. lia.
Qed.

(** ** A reconciliation of a live configuration *)

Lemma CheckIPConflicts_effect hc s r s' :
  CheckIPConflicts hc s = (r, s') ->
  networkMgr s' = networkMgr s /\ metrics s' = metrics s /\ events s' = events s.
Proof.
  unfold CheckIPConflicts, on_world at 1. destruct (bind _ _ (world s)) as [r' w].
  by intros [= _ <-].
Qed.

Lemma reconcile_live_effect hc s out hc' s' :
  reconcile_live hc s = ((out, hc'), s') -> hc_issued (world s) hc ->
  hc_Spec hc' = hc_Spec hc /\ hc_key hc' = hc_key hc /\
  (backed s hc -> backed s' hc') /\
  (0 < MaxAllocations (hc_Spec hc) < 2 ^ 31 -> entries hc < 2 ^ 31 ->
   entries hc' <= Z.max (entries hc) (MaxAllocations (hc_Spec hc))).
Proof.
  unfold reconcile_live, bind at 1. destruct (on_world ListServices s) as [ls s1] eqn:El.
  assert (N1 : networkMgr s1 = networkMgr s).
  { revert El. unfold on_world. destruct (ListServices _). by intros [= _ <-]. }
  apply (quiet_world _ keeps_list_services) in El as [V1 _]. intros Hrun Hi. apply V1 in Hi.
  destruct ls as [items|e]; [|injection Hrun as <- <- <-; split_and!; [done|done| |lia]; unfold backed; by rw N1].
  unfold bind at 1 in Hrun. destruct (CheckIPConflicts hc s1) as [c s2] eqn:Ec.
  pose proof (CheckIPConflicts_effect _ _ _ _ Ec) as (N2 & _ & _).
  apply quiet_CheckIPConflicts in Ec as [V2 _]. apply V2 in Hi.
  assert (backed s hc <-> backed s2 hc) as -> by (unfold backed; by rw N2 N1).
  destruct c as [conflicts|e]; [|injection Hrun as <- <- <-; split_and!; auto; lia].
  destruct (0 <? size conflicts)%nat; unfold bind at 1 in Hrun.
  - cbn [emit] in Hrun. unfold bind at 1 in Hrun.
    destruct (try_update_status _ _) as [hc2 s3] eqn:Eu.
    apply try_update_status_effect in Eu as (Hs & _ & R1 & R2 & R3); [|done].
    unfold bind in Hrun. injection Hrun as <- <- <-. cbn [networkMgr] in *. rw R2.
    split_and!; [done|done| |intros; simpl; lia].
    intros Hb. apply (backed_same _ _ _ R1 R2). unfold backed in *. cbn [networkMgr]. rw Hs. exact Hb.
  - destruct (process_services _ hc s2) as [[o hc2] s3] eqn:Ep.
    apply process_services_effect in Ep; [|done].
    destruct o as [r|]; unfold bind in Hrun; injection Hrun as <- <- <-; done.
Qed.

Lemma reconcile_config_live hc s :
  heliosConfigFinalizer ∈ hc_Finalizers hc -> hc_Deleting hc = false ->
  reconcile_config hc s = reconcile_live hc s.
Proof.
  intros Hf Hd. unfold reconcile_config, ensure_finalizer, bind.
  rw contains_finalizer bool_decide_eq_true_2 //=. by rw Hd.
Qed.

(** ** The object a reconciliation leaves *)

Lemma ensure_finalizer_effect hc s o hc' s' :
  ensure_finalizer hc s = ((o, hc'), s') -> hc_issued (world s) hc ->
  networkMgr s' = networkMgr s /\ hc_Spec hc' = hc_Spec hc /\ hc_key hc' = hc_key hc /\
  (o = None -> hc_issued (world s') hc').
Proof.
  intros Hrun Hi. revert Hrun.
  unfold ensure_finalizer. destruct (negb _); [|by intros [= <- <- <-]].
  unfold bind at 1, on_world at 1. destruct (UpdateConfig _ (world s)) as [r w1] eqn:Eu.
  destruct r as [h|e]; [|intros [= <- <- <-]; split_and!; try done; by rw add_finalizer].
  apply update_config_sent in Eu as (K1 & S1 & _ & I1). rw add_finalizer in K1, S1.
  unfold bind at 1, on_world. cbn [world].
  destruct (UpdateConfigStatus _ w1) as [r w2] eqn:Et. destruct r as [h2|e]; intros [= <- <- <-].
  - pose proof (update_status_sent _ _ _ _ Et) as [K2 _].
    apply update_status_spec in Et as [S2 I2]; [|done].
    split_and!; [done|by rw S2 /=| |done]. by transitivity (hc_key h).
  - by split_and!.
Qed.

Lemma handleDeletion_key hc s r hc' s' :
  handleDeletion hc s = ((r, hc'), s') -> hc_key hc' = hc_key hc.
Proof.
  unfold handleDeletion. destruct (ContainsFinalizer _ _); [|by intros [= _ <- _]].
  unfold bind at 1. cbn [emit]. unfold bind at 1. destruct (ReleaseAll hc _) as [u s1].
  cbv zeta. unfold bind at 1, on_world. destruct (UpdateConfig _ (world s1)) as [[h|e] w] eqn:Eu;
    unfold bind; intros [= _ <- _].
  - apply update_config_sent in Eu as (-> & _). by rw remove_finalizer.
  - by rw remove_finalizer.
Qed.

Lemma reconcile_config_key hc s out hc' s' :
  reconcile_config hc s = ((out, hc'), s') -> hc_issued (world s) hc -> hc_key hc' = hc_key hc.
Proof.
  unfold reconcile_config, bind at 1. destruct (ensure_finalizer hc s) as [[o hc1] s1] eqn:Ee.
  intros Hrun Hi. destruct (ensure_finalizer_effect _ _ _ _ _ Ee Hi) as (_ & _ & K & I1).
  rw -K. destruct o as [e|]; [by injection Hrun as _ <- _|]. specialize (I1 eq_refl).
  destruct (hc_Deleting hc1).
  - unfold bind in Hrun. destruct (handleDeletion hc1 s1) as [[r hc2] s2] eqn:Ed.
    apply handleDeletion_key in Ed as <-. by destruct r; injection Hrun as _ <- _.
  - by apply reconcile_live_effect in Hrun as (_ & ? & _).
Qed.

(** ** Conflicts *)

Lemma reconcile_conflict hc s svcs w1 items w2 other ip out hc' s' :
  ListServices (world s) = (Ok svcs, w1) -> ListConfigs w1 = (Ok items, w2) ->
  hc_issued (world s) hc ->
  other ∈ items -> same_config other hc = false -> conflicting hc other ip ->
  reconcile_live hc s = ((out, hc'), s') ->
  out = Ok (mkResult 30) /\ networkMgr s' = networkMgr s /\
  AllocatedIPs (hc_Status hc') = AllocatedIPs (hc_Status hc) /\
  exists n, find (fun c => bool_decide (cond_Type c = ConditionTypeDegraded))
              (Conditions (hc_Status hc')) =
            Some (mkCondition ConditionTypeDegraded ConditionTrue ReasonIPConflict (ConflictText n)
                   (hc_Generation hc)) /\ (0 < n)%nat.
Proof.
  intros Hs Hc Hi Hin Hne Hconf. unfold reconcile_live, bind at 1.
  destruct (on_world ListServices s) as [ls s1] eqn:El.
  pose proof (quiet_world _ keeps_list_services _ _ _ El) as [V1 _]. apply V1 in Hi.
  unfold on_world in El. rw Hs in El. injection El as <- <-.
  unfold bind at 1. destruct (CheckIPConflicts hc _) as [c s2] eqn:Ec.
  pose proof (CheckIPConflicts_effect _ _ _ _ Ec) as (N2 & _ & _).
  pose proof (quiet_CheckIPConflicts _ _ _ _ Ec) as [V2 _]. apply V2 in Hi. cbn [networkMgr] in N2.
  revert Ec. unfold CheckIPConflicts, on_world, bind at 1. cbn [world]. rw Hc. unfold bind at 1.
  destruct (conflict_loop hc items ∅ w2) as [conflicts w3] eqn:Ek. intros [= <- <-].
  assert (Hsz : (0 < size conflicts)%nat).
  { apply (conflict_loop_effect _ _ _ _ _ _ ip) in Ek. apply Nat.neq_0_lt_0.
    rw map_size_ne_0_lookup. exists ip. apply Ek. right. eauto. }
  rw (proj2 (Nat.ltb_lt _ _) Hsz). unfold bind at 1. cbn [emit]. unfold bind at 1.
  destruct (try_update_status _ _) as [hc2 s3] eqn:Eu.
  apply try_update_status_effect in Eu as (N3 & _ & R1 & R2 & R3); [|done].
  unfold bind. intros [= <- <- <-]. cbn [networkMgr] in *. rw R2. split_and!; [done|done|done|].
  exists (size conflicts). split; [|done]. 
  exact (set_condition_get (mkCondition ConditionTypeDegraded ConditionTrue ReasonIPConflict
    (ConflictText (size conflicts)) (hc_Generation hc)) _).
Qed.

(** ** Deletion *)

Lemma handleDeletion_effect hc s r hc' s' :
  heliosConfigFinalizer ∈ hc_Finalizers hc ->
  handleDeletion hc s = ((r, hc'), s') ->
  (forall x, pool_in_use (networkMgr s') x = true <->
             pool_in_use (networkMgr s) x = true /\ ~ owns hc x) /\
  (forall x, owns hc x -> allocation_gauge s' x = Some 0) /\
  (heliosConfigFinalizer ∉ hc_Finalizers hc') /\
  match r with
  | Ok _ => exists w w', UpdateConfig (RemoveFinalizer heliosConfigFinalizer hc) w = (Ok hc', w')
  | Err e => exists e' w w',
      UpdateConfig (RemoveFinalizer heliosConfigFinalizer hc) w = (Err e', w') /\ e = APIError e'
  end.
Proof.
  intros Hf. unfold handleDeletion. rw contains_finalizer bool_decide_eq_true_2 //.
  unfold bind at 1. cbn [emit]. unfold bind at 1.
  destruct (ReleaseAll hc _) as [u s1] eqn:Er.
  apply ReleaseAll_effect in Er as (Hu & Hg & _ & _). cbn [networkMgr] in Hu.
  assert (Hno : heliosConfigFinalizer ∉ hc_Finalizers (RemoveFinalizer heliosConfigFinalizer hc)).
  { rw remove_finalizer. simpl. rw list_elem_of_filter. naive_solver. }
  cbv zeta. unfold bind at 1, on_world.
  destruct (UpdateConfig _ (world s1)) as [ru w] eqn:Eu.
  destruct ru as [h|e]; unfold bind; intros [= <- <- <-]; split_and!; eauto 10.
  by apply update_config_sent in Eu as (_ & _ & -> & _).
Qed.

(** ** Metrics of a reconciliation *)

(** The label the deferred function reports. *)
Definition outcome_label (hc : HeliosConfig) : string :=
  if bool_decide (Phase (hc_Status hc) = StateFailed) then "error" else "success".

Lemma record_reconcile_effect start hc s u s' :
  record_reconcile start hc s = (u, s') ->
  networkMgr s' = networkMgr s /\
  (forall l, counter (metrics s') reconcileTotal l = counter (metrics s) reconcileTotal l +
     (if decide (l = [hc_Name hc; hc_Namespace hc; outcome_label hc]) then 1 else 0)) /\
  (forall l, observations (metrics s') reconcileDuration l =
     observations (metrics s) reconcileDuration l ++
     (if decide (l = [hc_Name hc; hc_Namespace hc; outcome_label hc])
      then [fst (Now (world s)) - start] else [])) /\
  gauges (metrics s') !! (lbStatus, [hc_Name hc; hc_Namespace hc])
    = Some (bool_value (bool_decide (Phase (hc_Status hc) = StateActive))) /\
  gauges (metrics s') !! (ipPoolUtilization, [hc_Name hc; hc_Namespace hc]) = Some (entries hc).
Proof.
  unfold record_reconcile, bind at 1. unfold on_world. destruct (Now (world s)) as [now w].
  unfold bind, record. intros [= _ <-]. cbn [metrics networkMgr]. fold (outcome_label hc).
  unfold RecordIPPoolUtilization, RecordLBStatus. split_and!; [done| | | |].
  - intros l. unfold counter at 1. cbn [counters Set_]. fold (counter
      (RecordReconcileDuration (hc_Name hc) (hc_Namespace hc) (outcome_label hc) (now - start) (metrics s))
      reconcileTotal l).
    unfold RecordReconcileDuration. rw counter_inc.
    destruct (decide (l = _)) as [->|Hl]; [by rw decide_True|rw decide_False //]. by intros [= <-].
  - intros l. unfold observations at 1. cbn [histograms Set_ RecordReconcileDuration Inc].
    fold (observations (Observe reconcileDuration [hc_Name hc; hc_Namespace hc; outcome_label hc]
      (now - start) (metrics s)) reconcileDuration l).
    rw observations_observe. f_equal.
    destruct (decide (l = _)) as [->|Hl]; case_decide as Hc; try done. by injection Hc.
  - rw !gauge_set. repeat (case_decide; try done).
  - rw !gauge_set. repeat (case_decide; try done).
Qed.

(** ** Requests *)

Lemma requests_loop_filter svc items :
  requests_loop svc items =
  hc_key <$> filter (fun hc => svc_LoadBalancerIP svc = ""%string \/
    IPInRange (svc_LoadBalancerIP svc) (IPRange (hc_Spec hc)) = true) items.
Proof.
  induction items as [|hc items IH]; [done|]. cbn [requests_loop]. rw filter_cons IH.
  destruct (IPInRange _ _) eqn:Ei, (bool_decide_reflect (svc_LoadBalancerIP svc = ""%string));
    cbn [negb andb]; case_decide as Hd; try done; naive_solver.
Qed.

End loop.

(** ** Properties *)

Section claims.
Context {P W : Type} `{AddressPoolLaws P} `{EnvironmentLaws W}.

(** C12. Reconciling a live configuration keeps every address of its status
    in use in the pool, on every path (services assigned, quota reached,
    allocation or update failed, conflict), whatever the cluster answers; the
    one exception is the address of a single-address range, which a failed
    assignment may release although other services share it.  And it leaves
    the spec and the identity of the object alone. *)
Theorem reconcile_keeps_backing (hc hc' : HeliosConfig) (s s' : ctl P W)
    (out : result error Result) :
  heliosConfigFinalizer ∈ hc_Finalizers hc -> hc_Deleting hc = false ->
  hc_issued (world s) hc -> backed s hc ->
  reconcile_config hc s = ((out, hc'), s') ->
  backed s' hc' /\ hc_Spec hc' = hc_Spec hc /\ hc_key hc' = hc_key hc.
Proof.
  intros Hf Hd Hi Hb. rw reconcile_config_live //.
  intros (? & ? & Hk & _)%reconcile_live_effect; auto.
Qed.

(** C13. Reconciling a live configuration never takes its status over the
    quota: afterwards the status has at most the larger of its old number of
    entries and the maximum. *)
Theorem reconcile_respects_quota (hc hc' : HeliosConfig) (s s' : ctl P W)
    (out : result error Result) :
  heliosConfigFinalizer ∈ hc_Finalizers hc -> hc_Deleting hc = false ->
  hc_issued (world s) hc -> 0 < MaxAllocations (hc_Spec hc) < 2 ^ 31 ->
  Z.of_nat (size (AllocatedIPs (hc_Status hc))) < 2 ^ 31 ->
  reconcile_config hc s = ((out, hc'), s') ->
  Z.of_nat (size (AllocatedIPs (hc_Status hc'))) <=
  Z.max (Z.of_nat (size (AllocatedIPs (hc_Status hc)))) (MaxAllocations (hc_Spec hc)).
Proof.
  intros Hf Hd Hi Hm Hs. rw reconcile_config_live //.
  intros (_ & _ & _ & Hq)%reconcile_live_effect; auto.
Qed.

(** C30. When another configuration holds an address in one of this one's
    ranges, a reconciliation allocates nothing: the pool and the status
    entries stay as they were, the Degraded condition is set with the
    conflict as its reason, and the object is looked at again after 30
    seconds. *)
Theorem reconcile_stops_on_conflict (hc hc' other : HeliosConfig) (s s' : ctl P W)
    (svcs : list Service_) (items : list HeliosConfig) (w1 w2 : W) (ip : string)
    (out : result error Result) :
  ListServices (world s) = (Ok svcs, w1) -> ListConfigs w1 = (Ok items, w2) ->
  hc_issued (world s) hc ->
  other ∈ items -> same_config other hc = false -> conflicting hc other ip ->
  reconcile_live hc s = ((out, hc'), s') ->
  out = Ok (mkResult 30) /\ networkMgr s' = networkMgr s /\
  AllocatedIPs (hc_Status hc') = AllocatedIPs (hc_Status hc) /\
  exists n, find (fun c => bool_decide (cond_Type c = ConditionTypeDegraded))
              (Conditions (hc_Status hc')) =
            Some (mkCondition ConditionTypeDegraded ConditionTrue ReasonIPConflict (ConflictText n)
                   (hc_Generation hc)) /\ (0 < n)%nat.
Proof. apply reconcile_conflict. Qed.

(** C26. Deletion: [handleDeletion] of a configuration with the finalizer
    releases every address of its status and only those, sets their gauges to
    0, and removes the finalizer from the object; it fails exactly with the
    error of that update. *)
Theorem deletion_releases_everything (hc hc' : HeliosConfig) (s s' : ctl P W)
    (r : result error unit) :
  heliosConfigFinalizer ∈ hc_Finalizers hc ->
  handleDeletion hc s = ((r, hc'), s') ->
  (forall x, pool_in_use (networkMgr s') x = true <->
             pool_in_use (networkMgr s) x = true /\ ~ owns hc x) /\
  (forall x, owns hc x -> allocation_gauge s' x = Some 0) /\
  (heliosConfigFinalizer ∉ hc_Finalizers hc') /\
  match r with
  | Ok _ => exists w w', UpdateConfig (RemoveFinalizer heliosConfigFinalizer hc) w = (Ok hc', w')
  | Err e => exists e' w w',
      UpdateConfig (RemoveFinalizer heliosConfigFinalizer hc) w = (Err e', w') /\ e = APIError e'
  end.
Proof. apply handleDeletion_effect. Qed.

(** C35. Every reconciliation of an existing object is counted exactly once,
    on every path, under the outcome it had: let [hc'] be the object as
    [reconcile_config] leaves it when it returns [out], the result of the
    reconciliation.  The counter of the request's name and namespace with the
    label of the phase of [hc'] grows by one and no other does; the histogram
    of that label triple receives the time the reconciliation took and no
    other does; the status and utilisation gauges of the request's object show
    the phase and the number of entries of [hc'].  A reconciliation of an
    object that cannot be read records nothing. *)
Theorem reconcile_counted_once (ns name : string) (s s' : ctl P W) (out : result error Result)
    (start : Z) (w w1 : W) (got : result api_error HeliosConfig) :
  Now (world s) = (start, w) -> GetConfig ns name w = (got, w1) ->
  Reconcile ns name s = (out, s') ->
  match got with
  | Err _ => metrics s' = metrics s /\ networkMgr s' = networkMgr s
  | Ok hc => exists hc' s2,
      reconcile_config hc (mkCtl (networkMgr s) w1 (metrics s) (events s)) = ((out, hc'), s2) /\
      hc_key hc' = (ns, name) /\
      (forall l, counter (metrics s') reconcileTotal l = counter (metrics s) reconcileTotal l +
         (if decide (l = [name; ns; outcome_label hc']) then 1 else 0)) /\
      (forall l, observations (metrics s') reconcileDuration l =
         observations (metrics s) reconcileDuration l ++
         (if decide (l = [name; ns; outcome_label hc'])
          then [fst (Now (world s2)) - start] else [])) /\
      gauges (metrics s') !! (lbStatus, [name; ns])
        = Some (bool_value (bool_decide (Phase (hc_Status hc') = StateActive))) /\
      gauges (metrics s') !! (ipPoolUtilization, [name; ns])
        = Some (Z.of_nat (size (AllocatedIPs (hc_Status hc'))))
  end.
Proof.
  intros Hn Hg. unfold Reconcile, bind at 1, on_world. rw Hn. unfold bind at 1. cbn [world]. rw Hg.
  destruct got as [hc|e]; [|by destruct e; intros [= _ <-]].
  apply get_config_key in Hg as [Hk Hi].
  unfold bind at 1. destruct (reconcile_config hc _) as [[o hc'] s1] eqn:Er.
  pose proof (reconcile_config_key _ _ _ _ _ Er Hi) as Hk'. rw Hk in Hk'.
  pose proof (quiet_reconcile_config _ _ _ _ Er) as [_ Hq]. cbn [metrics] in Hq.
  unfold bind at 1. cbn [fst snd]. destruct (record_reconcile start hc' s1) as [u s2] eqn:Em.
  intros [= <- <-]. apply record_reconcile_effect in Em as (_ & Hc & Ho & Hl & Hp).
  injection Hk' as Ens Ename. rw Ens Ename in Hc, Ho, Hl, Hp.
  exists hc', s1. split; [done|]. split; [by rw /hc_key Ens Ename|].
  split_and!; [| |done|done]; intros l; destruct (Hq l) as [Q1 Q2]; [by rw Hc Q1|by rw Ho Q2].
Qed.

(** A service event enqueues, in the order of the list, exactly the
    configurations that may serve it: all of them when the service requests
    no address, and otherwise those whose IPv4 range contains it. *)
Theorem requests_exact (svc : Service_) (items : list HeliosConfig) (s : ctl P W) (w : W) :
  ListConfigs (world s) = (Ok items, w) ->
  fst (findLoadBalancerServices (ObjService svc) s) =
  hc_key <$> filter (fun hc => svc_LoadBalancerIP svc = ""%string \/
    IPInRange (svc_LoadBalancerIP svc) (IPRange (hc_Spec hc)) = true) items.
Proof.
  intros Hl. unfold findLoadBalancerServices, bind, on_world. rw Hl. apply requests_loop_filter.
Qed.

End claims.

(** ** Runs *)

Definition live_config (max : Z) (v4 : gmap string string) : HeliosConfig :=
  mkHeliosConfig "lb" "ns" 1 1 [heliosConfigFinalizer] false
    (mkHeliosConfigSpec "192.0.2.10-192.0.2.20" "" "" ProtocolTCP [] MethodRoundRobin [] None [] max)
    (with_allocated v4 ∅ emptyStatus).

Definition live := live_config 2 {["a" := "192.0.2.10"]}.
Definition live_state : ctl NetworkManager.t Mem.t :=
  demo_state (NetworkManager.MarkUsed "192.0.2.10" NetworkManager.New) [live]
    [demo_service "b" "ns" ""; demo_service "c" "ns" ""].

(** The stored version of a configuration is issued. *)
Lemma stored_issued (w : Mem.t) hc :
  Mem.configs w !! hc_key hc = Some hc -> hc_ResourceVersion hc < Mem.version w -> hc_issued w hc.
Proof. intros Hs Hv. split; [done|]. intros cur Hc _. congruence. Qed.

Lemma live_issued : hc_issued (world live_state) live.
Proof. apply stored_issued; [vm_compute; reflexivity|done]. Qed.

Lemma reconcile_keeps_backing_witness :
  let run := reconcile_config live live_state in
  AllocatedIPs (hc_Status (snd (fst run))) = {["a" := "192.0.2.10"; "c" := "192.0.2.11"]}%string /\
  backed (snd run) (snd (fst run)).
Proof.
  cbv zeta. split; [vm_compute; reflexivity|].
  apply (reconcile_keeps_backing live _ live_state _ (fst (fst (reconcile_config live live_state))));
    [by constructor|done|apply live_issued| |].
  - intros x [[k Hk]|[k Hk]] _; [|done]. change (AllocatedIPs (hc_Status live)) with
      ({["a" := "192.0.2.10"]}%string : gmap string string) in Hk.
    apply lookup_singleton_Some in Hk as [_ <-]. vm_compute. done.
  - by destruct (reconcile_config live live_state) as [[? ?] ?].
Defined.

Lemma reconcile_respects_quota_witness :
  exists hc', snd (fst (reconcile_config live live_state)) = hc' /\
    Z.of_nat (size (AllocatedIPs (hc_Status hc'))) <= 2.
Proof.
  destruct (reconcile_config live live_state) as [[out hc'] s'] eqn:E. exists hc'. split; [done|].
  pose proof (reconcile_respects_quota live hc' live_state s' out) as Hq.
  etransitivity; [apply Hq|by vm_compute]; clear Hq.
  - by constructor.
  - done.
  - apply live_issued.
  - split; reflexivity.
  - vm_compute. reflexivity.
  - exact E.
Defined.

Lemma reconcile_stops_on_conflict_witness :
  exists out hc' s', reconcile_live lb_config lb_state = ((out, hc'), s') /\
    out = Ok (mkResult 30) /\ networkMgr s' = networkMgr lb_state.
Proof.
  destruct (reconcile_live lb_config lb_state) as [[out hc'] s'] eqn:E. exists out, hc', s'.
  split; [done|].
  pose proof (reconcile_stops_on_conflict lb_config hc' other_config lb_state s'
    (map_to_list (Mem.services (world lb_state))).*2
    (map_to_list (Mem.configs (world lb_state))).*2 (world lb_state) (world lb_state) "192.0.2.10" out)
    as Hc.
  destruct Hc as (Ho & Hp & _).
  - reflexivity.
  - reflexivity.
  - apply stored_issued; [vm_compute; reflexivity|reflexivity].
  - vm_compute. repeat constructor.
  - reflexivity.
  - left. split; [by exists "x"%string|vm_compute; reflexivity].
  - exact E.
  - exact (conj Ho Hp).
Defined.

Lemma deletion_releases_everything_witness :
  pool_in_use (networkMgr (snd (handleDeletion live live_state))) "192.0.2.10" <> true.
Proof.
  destruct (handleDeletion live live_state) as [[r hc'] s'] eqn:E. simpl.
  destruct (deletion_releases_everything live hc' live_state s' r) as [Hp _]; [by constructor|exact E|].
  rw Hp. intros [_ Hno]. apply Hno. left. by exists "a"%string.
Defined.

Lemma reconcile_counted_once_witness :
  counter (metrics (snd (Reconcile "ns" "lb" live_state))) reconcileTotal ["lb"; "ns"; "success"]%string = 1 /\
  gauges (metrics (snd (Reconcile "ns" "lb" live_state))) !! (ipPoolUtilization, ["lb"; "ns"]%string) = Some 2.
Proof.
  destruct (Reconcile "ns" "lb" live_state) as [out s'] eqn:E.
  destruct (reconcile_counted_once "ns" "lb" live_state s' out 0
    (snd (Now (world live_state))) (snd (Now (world live_state))) (Ok live))
    as (hc' & s2 & Hr & _ & Hc & _ & _ & Hg); [reflexivity|vm_compute; reflexivity|exact E|].
  apply (f_equal (fun r => hc_Status (snd (fst r)))) in Hr. cbn [fst snd] in Hr.
  cbn [snd]. split.
  - rw Hc. unfold outcome_label. rw -Hr. vm_compute. reflexivity.
  - rw Hg -Hr. vm_compute. reflexivity.
Defined.

Lemma requests_exact_witness :
  fst (findLoadBalancerServices (ObjService (demo_service "b" "ns" "192.0.2.12")) live_state)
  = [("ns", "lb")]%string.
Proof.
  rw (requests_exact (demo_service "b" "ns" "192.0.2.12") [live] live_state (world live_state)).
  - vm_compute. reflexivity.
  - vm_compute. reflexivity.
Defined.

(** Gaps of the controller, as runs.  (1) A service that requests an
    address of a configuration's IPv6 range is eligible for it, yet its events
    enqueue no configuration.  (2) The status is keyed by the service name
    alone: of two services with one name in two namespaces, both get an
    address and one entry remains, so after the deletion of the configuration
    the other address stays in use.  (3) Deletion looks the services up in the
    configuration's namespace only: a service elsewhere keeps an ingress whose
    address has been released.  (4) When the object read is not the latest
    version, the service is assigned before the update of the status is
    refused; the next reconciliation passes over the service, which now has an
    ingress, so its address never enters the status and a deletion leaves it in
    use. *)
Theorem controller_gaps :
  let dual := demo_config "dual" "ns" "192.0.2.0/28" "fd00::/120" ∅ ∅ in
  let asks := demo_service "web" "ns" "fd00::5" in
  FilterEligibleServices [asks] [] (IPRange (hc_Spec dual)) [IPv6Range (hc_Spec dual)] = [asks] /\
  fst (findLoadBalancerServices (ObjService asks) (demo_state NetworkManager.New [dual] [asks])) = [] /\
  let lb := live_config 0 ∅ in
  let twice := reconcile_config lb (demo_state NetworkManager.New [lb]
                 [demo_service "web" "ns" ""; demo_service "web" "apps" ""]) in
  let after := snd (handleDeletion (snd (fst twice)) (snd twice)) in
  let held s ip := pool_in_use (networkMgr s) ip in
  (held (snd twice) "192.0.2.10", held (snd twice) "192.0.2.11") = (true, true) /\
  size (AllocatedIPs (hc_Status (snd (fst twice)))) = 1%nat /\
  (held after "192.0.2.10" || held after "192.0.2.11") = true /\
  let far := reconcile_config lb (demo_state NetworkManager.New [lb] [demo_service "web" "apps" ""]) in
  let gone := snd (handleDeletion (snd (fst far)) (snd far)) in
  svc_Ingress <$> stored_service (world gone) ("apps", "web")%string = Some ["192.0.2.10"]%string /\
  held gone "192.0.2.10" = false /\
  let web := demo_service "web" "ns" "" in
  let stale := reconcile_config (Mem.with_version 0 lb) (demo_state NetworkManager.New [lb] [web]) in
  let next := reconcile_config lb (snd stale) in
  let dropped := snd (handleDeletion (snd (fst next)) (snd next)) in
  fst (fst stale) = Err (APIError Conflict) /\
  svc_Ingress <$> stored_service (world (snd next)) ("ns", "web")%string = Some ["192.0.2.10"]%string /\
  fst (fst next) = Ok (mkResult 5) /\ size (AllocatedIPs (hc_Status (snd (fst next)))) = 0%nat /\
  held dropped "192.0.2.10" = true.
Proof. vm_compute. done. Qed.
