(* ===== verification/Admission.v ===== *)
(** * Admission and allocation together

    The webhook keeps the ranges of configurations apart, the allocator hands
    out addresses of the range it is given, and the controller refuses to work
    while another configuration holds an address in its ranges.  Here the
    three meet: the addresses of a status stay within the ranges of the
    configuration, so that configurations that passed admission never stop
    each other. *)
From Stdlib Require Import Ascii.
From S2P Require Import Prelude GoStrings NetIP NetText IPRange IPAllocator Pool Errors Types Webhook.
From S2P Require Import ServiceFilter Metrics Cluster IPManager Reconciler.

Local Open Scope Z_scope.
Local Open Scope go_scope.

(** ** Interface: a pool that stays within ranges *)

Class RangedPool (P : Type) `{AddressPool P} : Type := {
  pool_sound : P -> Prop;               (* an invariant of the pool *)
  range_sound : string -> Prop;         (* the ranges it can be asked for *)
}.

Class RangedPoolLaws (P : Type) `{RangedPool P} : Prop := {
  sound_mark ip p : pool_sound p -> pool_sound (pool_mark ip p);
  sound_release ip p : pool_sound p -> pool_sound (pool_release ip p);
  sound_allocate r p res p' : pool_sound p -> pool_allocate r p = (res, p') -> pool_sound p';
  sound_specific r q p res p' :
    pool_sound p -> pool_allocate_specific r q p = (res, p') -> pool_sound p';
  allocate_within r p ip p' :
    pool_sound p -> range_sound r -> pool_allocate r p = (Ok ip, p') -> IPAllocatable ip r = true;
  specific_within r q p ip p' :
    pool_allocate_specific r q p = (Ok ip, p') -> IPAllocatable ip r = true;
}.

#[export] Instance NetworkManager_ranged : RangedPool NetworkManager.t := {
  pool_sound nm := 0 <= maxScan (NetworkManager.ipAllocator nm);
  range_sound r := match ParseIPRange r with Ok (s, e) => sane_range s e | Err _ => True end;
}.

(** A request and its canonical text are the same address. *)
Lemma IPAllocatable_canonical q r : IPAllocatable q r = true -> IPAllocatable (canonical q) r = true.
Proof.
  intros Ha. pose proof (IPAllocatable_parses _ _ Ha) as Hn.
  destruct (ParseIPRange r) as [[s e]|] eqn:Er.
  2:{ revert Ha. unfold IPAllocatable. rw Er. by destruct (bool_decide _). }
  apply (IPAllocatable_norm q r s e _ Hn eq_refl Er) in Ha.
  unfold canonical. by apply (IPAllocatable_String _ _ s e); [auto with helios|..].
Qed.

#[export] Instance NetworkManager_ranged_laws : RangedPoolLaws NetworkManager.t.
Proof.
  split.
  - by intros ip [a].
  - by intros ip [a].
  - intros r [a] res p'. simpl. unfold NetworkManager.AllocateIP. simpl. intros Hm.
    destruct (AllocateIP r a) as [res' a1] eqn:E. intros [= <- <-]. simpl.
    apply AllocateIP_result in E. destruct res'; by destruct E as [_ ->].
  - intros r q [a] res p'. simpl. unfold NetworkManager.AllocateSpecificIP. simpl. intros Hm.
    rw AllocateSpecificIP_cases.
    by destruct (IPAllocatable q r); [destruct (is_used a (canonical q))|]; intros [= <- <-].
  - intros r [a] ip p'. simpl. unfold NetworkManager.AllocateIP. simpl. intros Hm Hs.
    destruct (AllocateIP r a) as [res' a1] eqn:E. intros [= -> <-].
    destruct (ParseIPRange r) as [[s e]|err] eqn:Er.
    + by apply (AllocateIP_sound r a a1 s e) in E as [? _].
    + revert E. unfold AllocateIP. by rw Er.
  - intros r q [a] ip p'. simpl. unfold NetworkManager.AllocateSpecificIP. simpl.
    rw AllocateSpecificIP_cases. destruct (IPAllocatable q r) eqn:Ea; [|done].
    destruct (is_used a (canonical q)); [done|]. intros [= <- <-]. by apply IPAllocatable_canonical.
Qed.

(** ** The status stays within the ranges *)

(** Every address of the status can be handed out by the range of its
    family. *)
Definition within_ranges (hc : HeliosConfig) : Prop :=
  (forall k x, AllocatedIPs (hc_Status hc) !! k = Some x -> IPAllocatable x (IPRange (hc_Spec hc)) = true) /\
  (forall k x, AllocatedIPv6s (hc_Status hc) !! k = Some x -> IPAllocatable x (IPv6Range (hc_Spec hc)) = true).

(** The ranges of the configuration are sound. *)
Definition ranges_sound {P} `{RangedPool P} (hc : HeliosConfig) : Prop :=
  range_sound (IPRange (hc_Spec hc)) /\ range_sound (IPv6Range (hc_Spec hc)).

Section within.
Context {P W : Type} `{AddressPoolLaws P} `{!RangedPool P} `{!RangedPoolLaws P} `{EnvironmentLaws W}.
Implicit Types s : ctl P W.

Definition keeps_sound s s' : Prop := pool_sound (networkMgr s) -> pool_sound (networkMgr s').

#[export] Instance keeps_sound_preorder : PreOrder keeps_sound.
Proof. split; [by intros s ?|]. intros s1 s2 s3 E1 E2 ?. by apply E2, E1. Qed.

Lemma sound_world {A} (c : M W A) : moves keeps_sound (on_world c).
Proof. intros s a s'. unfold on_world. destruct (c (world s)). intros [= _ <-] Hs. exact Hs. Qed.
Lemma sound_record f : moves keeps_sound (record f).
Proof. intros s a s' [= _ <-] Hs. exact Hs. Qed.
Lemma sound_emit e : moves keeps_sound (emit e).
Proof. intros s a s' [= _ <-] Hs. exact Hs. Qed.
Lemma sound_MarkUsed ip : moves keeps_sound (MarkUsed_ ip).
Proof. intros s a s' [= _ <-]. exact (sound_mark ip _). Qed.
Lemma sound_ReleaseIP ip : moves keeps_sound (ReleaseIP_ ip).
Proof. intros s a s' [= _ <-]. exact (sound_release ip _). Qed.

Lemma sound_allocateIP r q : moves keeps_sound (allocateIP r q).
Proof.
  intros s a s'. unfold allocateIP, on_pool. destruct (bool_decide _).
  - destruct (pool_allocate r (networkMgr s)) eqn:E. intros [= _ <-] Hs. by apply sound_allocate in E.
  - destruct (pool_allocate_specific r q (networkMgr s)) eqn:E. intros [= _ <-] Hs. by apply sound_specific in E.
Qed.
Hint Resolve sound_world sound_record sound_emit sound_MarkUsed sound_ReleaseIP sound_allocateIP : helios.

Lemma sound_mark_others hc items : moves keeps_sound (mark_others hc items).
Proof. unfold mark_others, mark_map. moves. Qed.

Lemma sound_AllocateAndAssign hc svc : moves keeps_sound (AllocateAndAssign hc svc).
Proof. unfold AllocateAndAssign, mark_others, mark_map, assignIPToService. moves. Qed.

Lemma allocateIP_within r q s ip s' :
  pool_sound (networkMgr s) -> range_sound r -> allocateIP r q s = (Ok ip, s') -> IPAllocatable ip r = true.
Proof.
  intros Hs Hr. unfold allocateIP, on_pool. destruct (bool_decide _).
  - destruct (pool_allocate r (networkMgr s)) eqn:E. intros [= -> _]. by eapply allocate_within.
  - destruct (pool_allocate_specific r q (networkMgr s)) eqn:E. intros [= -> _]. by eapply specific_within.
Qed.

Lemma AllocateAndAssign_within hc svc s ip ipv6 s' :
  pool_sound (networkMgr s) -> ranges_sound hc -> AllocateAndAssign hc svc s = (Ok (ip, ipv6), s') ->
  IPAllocatable ip (IPRange (hc_Spec hc)) = true /\
  (ipv6 <> ""%string -> IPAllocatable ipv6 (IPv6Range (hc_Spec hc)) = true).
Proof.
  intros Hs [H4 H6]. unfold AllocateAndAssign, bind at 1. destruct (on_world ListConfigs s) as [r s0] eqn:E0.
  apply sound_world in E0. apply E0 in Hs. destruct r as [items|e]; [|done].
  unfold bind at 1. destruct (mark_others hc items s0) as [u s1] eqn:E1.
  apply sound_mark_others in E1. apply E1 in Hs. destruct (splitRequestedIP _) as [q4 q6].
  unfold bind at 1. destruct (allocateIP _ q4 s1) as [[i4|e4] s2] eqn:E4; [|done].
  pose proof (sound_allocateIP _ _ _ _ _ E4 Hs) as Hs2. apply allocateIP_within in E4; [|done|done].
  unfold bind at 1. destruct ((if bool_decide (IPv6Range (hc_Spec hc) <> ""%string)
    then allocateIP (IPv6Range (hc_Spec hc)) q6 else ret (Ok ""%string)) s2) as [[i6|e6] s3] eqn:E6; [|done].
  assert (i6 <> ""%string -> IPAllocatable i6 (IPv6Range (hc_Spec hc)) = true) as A6.
  { intros Hne. destruct (bool_decide _); [by eapply allocateIP_within|]. by injection E6 as <-. }
  unfold bind at 1. destruct (assignIPToService svc i4 i6 s3) as [[|e] s4]; unfold bind;
    destruct (bool_decide (i6 <> ""%string)); by intros [= <- <- _].
Qed.

(** An entry for addresses within the ranges. *)
Lemma within_entered svc ip ipv6 hc hc' :
  hc_Spec hc' = hc_Spec hc -> hc_Status hc' = hc_Status (mark_allocated svc ip ipv6 hc) ->
  IPAllocatable ip (IPRange (hc_Spec hc)) = true ->
  (ipv6 <> ""%string -> IPAllocatable ipv6 (IPv6Range (hc_Spec hc)) = true) ->
  within_ranges hc -> within_ranges hc'.
Proof.
  unfold within_ranges. intros -> -> A4 A6 [W4 W6]. split; intros k x; simpl.
  - intros [[_ <-]|[_ Hk]]%lookup_insert_Some; [done|]. by eapply W4.
  - destruct (bool_decide_reflect (ipv6 <> ""%string)) as [Hn|Hn]; [|by apply W6].
    intros [[_ <-]|[_ Hk]]%lookup_insert_Some; [by apply A6|]. by eapply W6.
Qed.

Lemma within_same hc hc' :
  hc_Spec hc' = hc_Spec hc -> AllocatedIPs (hc_Status hc') = AllocatedIPs (hc_Status hc) ->
  AllocatedIPv6s (hc_Status hc') = AllocatedIPv6s (hc_Status hc) -> within_ranges hc -> within_ranges hc'.
Proof. unfold within_ranges. by intros -> -> ->. Qed.

Lemma process_services_within l hc s out hc' s' :
  process_services l hc s = ((out, hc'), s') -> hc_issued (world s) hc ->
  pool_sound (networkMgr s) -> ranges_sound hc -> within_ranges hc ->
  within_ranges hc' /\ pool_sound (networkMgr s').
Proof.
  revert hc s. induction l as [|svc l IH]; intros hc s; cbn [process_services].
  { by intros [= <- <- <-]. }
  destruct (CheckQuota hc) as [[]|eq]; [|unfold bind; by intros [= <- <- <-]].
  unfold bind at 1. destruct (AllocateAndAssign hc svc s) as [res s1] eqn:Ea. intros Hrun Hi Hs Hr Hw.
  pose proof (sound_AllocateAndAssign _ _ _ _ _ Ea Hs) as Hs1.
  pose proof (AllocateAndAssign_issued _ hc _ _ _ _ Ea Hi) as Hi1.
  destruct res as [[ip ipv6]|err]; unfold bind at 1 in Hrun; cbn [emit] in Hrun; unfold bind at 1 in Hrun.
  - apply AllocateAndAssign_within in Ea as [A4 A6]; [|done|done].
    destruct (on_world (UpdateConfigStatus _) _) as [r s2] eqn:Eu.
    apply status_update_effect in Eu as (N2 & _ & Hst); [|done]. cbn [networkMgr] in N2. rw -N2 in Hs1.
    destruct r as [hc2|e]; [|injection Hrun as <- <- <-; split; [by apply (within_entered svc ip ipv6 hc)|done]].
    destruct (Hst hc2 eq_refl) as (R1 & R2 & R3 & R4). change (hc_Spec hc2 = hc_Spec hc) in R1.
    apply IH in Hrun; [done|done|done|by unfold ranges_sound; rw R1|by apply (within_entered svc ip ipv6 hc)].
  - destruct (try_update_status (mark_failed err hc) _) as [hc2 s2] eqn:Eu.
    apply try_update_status_effect in Eu as (N2 & _ & R1 & R2 & R3); [|done]. cbn [networkMgr] in N2.
    unfold bind in Hrun. injection Hrun as <- <- <-. cbn [networkMgr]. rw N2. split; [|done].
    eapply within_same; [exact R1|by rw R2|by rw R2|done].
Qed.

Lemma reconcile_live_within hc s out hc' s' :
  reconcile_live hc s = ((out, hc'), s') -> hc_issued (world s) hc ->
  pool_sound (networkMgr s) -> ranges_sound hc -> within_ranges hc ->
  within_ranges hc' /\ pool_sound (networkMgr s').
Proof.
  unfold reconcile_live, bind at 1. destruct (on_world ListServices s) as [ls s1] eqn:El.
  pose proof (sound_world _ _ _ _ El) as Hk.
  apply (quiet_world _ keeps_list_services) in El as [V1 _]. intros Hrun Hi Hs Hr Hw.
  apply V1 in Hi. apply Hk in Hs. destruct ls as [items|e]; [|by injection Hrun as <- <- <-].
  unfold bind at 1 in Hrun. destruct (CheckIPConflicts hc s1) as [c s2] eqn:Ec.
  pose proof (CheckIPConflicts_effect _ _ _ _ Ec) as (N2 & _ & _). rw -N2 in Hs.
  apply quiet_CheckIPConflicts in Ec as [V2 _]. apply V2 in Hi.
  destruct c as [conflicts|e]; [|by injection Hrun as <- <- <-].
  destruct (0 <? size conflicts)%nat; unfold bind at 1 in Hrun.
  - cbn [emit] in Hrun. unfold bind at 1 in Hrun. destruct (try_update_status _ _) as [hc2 s3] eqn:Eu.
    apply try_update_status_effect in Eu as (N3 & _ & R1 & R2 & R3); [|done]. cbn [networkMgr] in N3.
    unfold bind in Hrun. injection Hrun as <- <- <-. cbn [networkMgr]. rw N3. split; [|done].
    eapply within_same; [exact R1|by rw R2|by rw R2|done].
  - destruct (process_services _ hc s2) as [[o hc2] s3] eqn:Ep.
    apply process_services_within in Ep; [|done..].
    destruct o as [r|]; unfold bind in Hrun; by injection Hrun as <- <- <-.
Qed.

End within.

(** ** Admission *)

(** [a] was admitted while [b] was listed with the spec it still has. *)
Definition admitted_against (a b : HeliosConfig) : Prop :=
  exists a0 b0 old items,
    hc_Spec a0 = hc_Spec a /\ hc_Spec b0 = hc_Spec b /\ b0 ∈ items /\
    (ValidateCreate (Some (Ok items)) a0 = Ok tt /\ hc_Name b0 <> ""%string \/
     ValidateUpdate (Some (Ok items)) old a0 = Ok tt /\ hc_Name b0 <> hc_Name a0).

Lemma admitted_shares_nothing a b ip :
  admitted_against a b ->
  ~ (IPAllocatable ip (IPRange (hc_Spec a)) = true /\ IPAllocatable ip (IPRange (hc_Spec b)) = true) /\
  ~ (IPAllocatable ip (IPv6Range (hc_Spec a)) = true /\ IPAllocatable ip (IPv6Range (hc_Spec b)) = true).
Proof.
  intros (a0 & b0 & old & items & <- & <- & Hin & Hv).
  destruct (admitted_apart items old a0 b0 Hv Hin) as [O4 O6].
  split; intros [A B]; pose proof (shared_overlaps _ _ _ A B); congruence.
Qed.

(** A range that is not written as a prefix. *)
Definition not_cidr (r : string) : bool := negb (contains "/"%char (go_bytes r)).

Lemma IPInRange_not_cidr ip r : not_cidr r = true -> IPInRange ip r = IPAllocatable ip r.
Proof.
  unfold not_cidr. intros Hn%negb_true_iff. unfold IPInRange, IPAllocatable.
  destruct (bool_decide (ParseIP (TrimSpace ip) = [])); [done|]. by rw Hn.
Qed.

Lemma admitted_no_conflict hc other ip :
  not_cidr (IPRange (hc_Spec hc)) = true -> not_cidr (IPv6Range (hc_Spec hc)) = true ->
  within_ranges other -> admitted_against hc other \/ admitted_against other hc ->
  ~ conflicting hc other ip.
Proof.
  intros N4 N6 [W4 W6] Ha. unfold conflicting. rw !IPInRange_not_cidr //.
  intros [[[k Hk] Hin]|(_ & [k Hk] & Hin)]; [apply W4 in Hk|apply W6 in Hk];
    destruct Ha as [Ha|Ha]; apply (admitted_shares_nothing _ _ ip) in Ha as [A4 A6]; auto.
Qed.

(** ** Properties *)

Section claims.
Context {P W : Type} `{AddressPoolLaws P} `{!RangedPool P} `{!RangedPoolLaws P} `{EnvironmentLaws W}.

(** C15. The status never leaves the ranges: if the addresses in the status of
    a live configuration are allocatable from its ranges, and these ranges are
    sound (of one family, not ending at the last address of it, without
    IPv4-mapped addresses among IPv6 ones), they still are after a
    reconciliation, on every path and whatever the cluster answers; a granted
    address is one the range of its family hands out, requested or not. *)
Theorem status_stays_within (hc hc' : HeliosConfig) (s s' : ctl P W) (out : result error Result) :
  heliosConfigFinalizer ∈ hc_Finalizers hc -> hc_Deleting hc = false -> hc_issued (world s) hc ->
  pool_sound (networkMgr s) -> ranges_sound hc -> within_ranges hc ->
  reconcile_config hc s = ((out, hc'), s') ->
  within_ranges hc' /\ pool_sound (networkMgr s').
Proof. intros Hf Hd Hi Hs Hr Hw. rw reconcile_config_live //. intros Hrun. by eapply reconcile_live_within. Qed.

(** C20. Admission prevents conflicts: when every other listed configuration
    has a status within its ranges and was admitted against this one or this
    one against it (by a creation, or by an update under another name), the
    conflict check of a configuration whose ranges are not written as prefixes
    finds nothing, so it never stops a reconciliation. *)
Theorem admission_prevents_conflicts (hc : HeliosConfig) (items : list HeliosConfig) (s s' : ctl P W)
    (w : W) (res : result error (gmap string string)) :
  not_cidr (IPRange (hc_Spec hc)) = true -> not_cidr (IPv6Range (hc_Spec hc)) = true ->
  ListConfigs (world s) = (Ok items, w) ->
  (forall other, other ∈ items -> same_config other hc = false ->
     within_ranges other /\ (admitted_against hc other \/ admitted_against other hc)) ->
  CheckIPConflicts hc s = (res, s') -> res = Ok ∅.
Proof.
  intros N4 N6 Hl Ho. unfold CheckIPConflicts, on_world, bind at 1. rw Hl. unfold bind at 1.
  destruct (conflict_loop hc items ∅ w) as [c w2] eqn:Ec. intros [= <- _]. f_equal. apply map_empty.
  intros ip. apply eq_None_not_Some. rw (conflict_loop_effect _ _ _ _ _ _ ip Ec) lookup_empty.
  intros [[? ?]|(o & Hin & Hs & Hc)]; [done|]. destruct (Ho o Hin Hs) as [Hw Ha].
  by eapply admitted_no_conflict.
Qed.

End claims.

(** ** Runs *)

Lemma live_within : within_ranges live.
Proof.
  split; intros k x Hk.
  - change (({["a" := "192.0.2.10"]} : gmap string string)%string !! k = Some x) in Hk.
    apply lookup_singleton_Some in Hk as [_ <-]. vm_compute. reflexivity.
  - change ((∅ : gmap string string) !! k = Some x) in Hk. by rw lookup_empty in Hk.
Qed.

Lemma status_stays_within_witness :
  let run := reconcile_config live live_state in
  AllocatedIPs (hc_Status (snd (fst run))) = {["a" := "192.0.2.10"; "c" := "192.0.2.11"]}%string /\
  within_ranges (snd (fst run)).
Proof.
  cbv zeta. split; [vm_compute; reflexivity|].
  apply (status_stays_within live _ live_state (snd (reconcile_config live live_state))
    (fst (fst (reconcile_config live live_state)))).
  - by constructor.
  - reflexivity.
  - apply live_issued.
  - vm_compute. discriminate.
  - split; [|exact I]. apply (bool_decide_unpack (sane_range _ _)). vm_compute. exact I.
  - apply live_within.
  - by destruct (reconcile_config live live_state) as [[? ?] ?].
Defined.

(** Another configuration on the addresses above those of [live]. *)
Definition above : HeliosConfig := demo_config "above" "ns" "192.0.2.21-192.0.2.30" "" ∅ ∅.

Lemma admission_prevents_conflicts_witness :
  fst (CheckIPConflicts above (demo_state NetworkManager.New [live] [])) = Ok ∅.
Proof.
  destruct (CheckIPConflicts above (demo_state NetworkManager.New [live] [])) as [res s'] eqn:E.
  apply (admission_prevents_conflicts above [live] (demo_state NetworkManager.New [live] []) s'
    (demo_world [live] [])).
  - vm_compute. reflexivity.
  - vm_compute. reflexivity.
  - vm_compute. reflexivity.
  - intros other Ho%list_elem_of_singleton _. subst other. split; [apply live_within|]. left.
    exists above, live, live, [live]. split; [reflexivity|]. split; [reflexivity|].
    split; [by apply list_elem_of_singleton|]. left. split; [vm_compute; reflexivity|done].
  - exact E.
Defined.

(** The restriction to ranges that are not prefixes is needed.  The overlap
    check compares the addresses a prefix hands out, without its network and
    broadcast address; the conflict check compares with the whole prefix.  So
    both configurations below are admitted, in either order, and the second
    serves a service at the broadcast address of the first; from then on every
    reconciliation of the first stops with a conflict, although it could never
    hand out that address. *)
Theorem admitted_yet_conflicting :
  let block := demo_config "block" "ns" "192.0.2.0/24" "" ∅ ∅ in
  let edge := demo_config "edge" "ns" "192.0.2.255-192.0.3.9" "" ∅ ∅ in
  let start := demo_state NetworkManager.New [block; edge] [demo_service "a" "ns" ""] in
  ValidateCreate (Some (Ok [edge])) block = Ok tt /\
  ValidateCreate (Some (Ok [block])) edge = Ok tt /\
  IPAllocatable "192.0.2.255" "192.0.2.0/24" = false /\
  let served := Reconcile "ns" "edge" start in
  fst served = Ok (mkResult 5) /\
  svc_Ingress <$> stored_service (world (snd served)) ("ns", "a")%string = Some ["192.0.2.255"]%string /\
  fst (Reconcile "ns" "block" (snd served)) = Ok (mkResult 30).
Proof. vm_compute. done. Qed.
