(* ===== verification/Outcome.v ===== *)
(** * What a reconciliation reports

    The results of [Reconcile] on a live configuration with what they leave
    behind: the delay until the next call, the reason counted for it, the
    phase and conditions in the status, the last event. *)
From S2P Require Import Prelude GoStrings NetIP IPRange IPAllocator Pool Errors Types.
From S2P Require Import ServiceFilter Metrics Cluster IPManager Reconciler.

Local Open Scope Z_scope.
Local Open Scope go_scope.

(** ** Status *)

(** The condition of a type in the status of an object. *)
Definition condition_is (type : string) (status : ConditionStatus) (reason : string) (msg : message)
    (hc : HeliosConfig) : Prop :=
  exists generation,
    find (fun c => bool_decide (cond_Type c = type)) (Conditions (hc_Status hc)) =
    Some (mkCondition type status reason msg generation).

(** The last allocation succeeded. *)
Record healthy (hc : HeliosConfig) : Prop := {
  he_phase : Phase (hc_Status hc) = StateActive;
  he_state : State (hc_Status hc) = StateActive;
  he_ready : condition_is ConditionTypeReady ConditionTrue ReasonNetworkConfigured
               (Text "IP allocated successfully") hc;
  he_degraded : condition_is ConditionTypeDegraded ConditionFalse ReasonNetworkConfigured
                  (Text "All allocations healthy") hc;
}.

(** An allocation failed with the error. *)
Record failed (err : error) (hc : HeliosConfig) : Prop := {
  fa_phase : Phase (hc_Status hc) = StateFailed;
  fa_state : State (hc_Status hc) = StateFailed;
  fa_message : Message (hc_Status hc) = ErrorText err;
  fa_ready : condition_is ConditionTypeReady ConditionFalse ReasonIPAllocationError (ErrorText err) hc;
  fa_degraded : condition_is ConditionTypeDegraded ConditionTrue ReasonIPAllocationError (ErrorText err) hc;
}.

Lemma condition_is_status t st r m hc hc' :
  hc_Status hc' = hc_Status hc -> condition_is t st r m hc -> condition_is t st r m hc'.
Proof. unfold condition_is. by intros ->. Qed.

Section status.
Context {P W : Type} `{AddressPoolLaws P} `{EnvironmentLaws W}.

Lemma condition_set t st r m hc : condition_is t st r m (set_condition t st r m hc).
Proof. eexists. exact (set_condition_get (mkCondition t st r m (hc_Generation hc)) _). Qed.

Lemma condition_kept t st r m t' st' r' m' hc :
  t <> t' -> condition_is t st r m hc -> condition_is t st r m (set_condition t' st' r' m' hc).
Proof. intros Hne [g Hg]. exists g. simpl. by rw set_condition_other. Qed.

Lemma healthy_status hc hc' : hc_Status hc' = hc_Status hc -> healthy hc -> healthy hc'.
Proof. intros E []. split; rw ?E //; by eapply condition_is_status. Qed.

Lemma failed_status err hc hc' : hc_Status hc' = hc_Status hc -> failed err hc -> failed err hc'.
Proof. intros E []. split; rw ?E //; by eapply condition_is_status. Qed.

Lemma mark_allocated_healthy svc ip ipv6 hc : healthy (mark_allocated svc ip ipv6 hc).
Proof.
  split; [done|done| |apply condition_set]. apply condition_kept; [done|]. apply condition_set.
Qed.

Lemma mark_failed_failed err hc : failed err (mark_failed err hc).
Proof.
  split; [done|done|done| |apply condition_set]. apply condition_kept; [done|]. apply condition_set.
Qed.

(** ** Counters *)

Definition uncounted (s s' : ctl P W) : Prop := counters (metrics s') = counters (metrics s).

#[export] Instance uncounted_preorder : PreOrder uncounted.
Proof. split; [done|]. intros s1 s2 s3 E1 E2. unfold uncounted in *. congruence. Qed.

Lemma uncounted_world {A} (c : M W A) : moves uncounted (on_world (P := P) c).
Proof. intros s a s'. unfold on_world. destruct (c (world s)). by intros [= _ <-]. Qed.
Lemma uncounted_pool {A} (c : M P A) : moves uncounted (on_pool (W := W) c).
Proof. intros s a s'. unfold on_pool. destruct (c (networkMgr s)). by intros [= _ <-]. Qed.
Lemma uncounted_gauge v l z : moves uncounted (record (P := P) (W := W) (Set_ v l z)).
Proof. by intros s a s' [= _ <-]. Qed.
Hint Resolve uncounted_world uncounted_pool uncounted_gauge : helios.

Lemma uncounted_AllocateAndAssign hc svc : moves uncounted (AllocateAndAssign (P := P) (W := W) hc svc).
Proof.
  unfold AllocateAndAssign, mark_others, mark_map, MarkUsed_, ReleaseIP_, assignIPToService, allocateIP,
    RecordIPAllocation. moves.
Qed.

Lemma uncounted_try_update_status hc : moves uncounted (try_update_status (P := P) (W := W) hc).
Proof. unfold try_update_status. moves. Qed.

(** The requeue of the object is counted once, for the reason, and no other. *)
Definition requeued (hc : HeliosConfig) (reason : string) (s s' : ctl P W) : Prop :=
  forall l, counter (metrics s') requeueReasonTotal l = counter (metrics s) requeueReasonTotal l +
    (if decide (l = [hc_Name hc; hc_Namespace hc; reason]) then 1 else 0).

Lemma requeued_record hc hc' reason s s1 s' :
  uncounted s s1 -> hc_key hc' = hc_key hc ->
  metrics s' = RecordRequeueReason (hc_Name hc') (hc_Namespace hc') reason (metrics s1) ->
  requeued hc reason s s'.
Proof.
  intros Hu [= Hns Hn] Hm l. rw Hm Hn Hns. unfold RecordRequeueReason. rw counter_inc.
  unfold counter. rw Hu. repeat case_decide; simplify_eq; done.
Qed.

(** ** The loop *)

Lemma AllocateAndAssign_retryable hc svc s err s' :
  AllocateAndAssign hc svc s = (Err err, s') -> IsRetryable (Some err) = true.
Proof.
  intros Hrun. destruct (ListConfigs (world s)) as [[items|e] w] eqn:El.
  - by destruct (AllocateAndAssign_effect _ _ _ _ _ _ _ Hrun El).
  - revert Hrun. unfold AllocateAndAssign, bind at 1, on_world at 1. rw El. by intros [= <- _].
Qed.

(** The allocation for [svc] failed with [err] and was reported. *)
Definition reported (svc : Service_) (err : error) (hc : HeliosConfig) (s : ctl P W) : Prop :=
  failed err hc /\ IsRetryable (Some err) = true /\
  list.last (events s) = Some (EvAllocationFailed (svc_Namespace svc) (svc_Name svc) err).

(** The turn of the loop in which an allocation fails. *)
Lemma failure_turn svc err hc s1 (out : option (result error Result)) hc' s' :
  IsRetryable (Some err) = true -> hc_issued (world s1) hc ->
  (emit (EvAllocationFailed (svc_Namespace svc) (svc_Name svc) err) ;;
   let! hc := try_update_status (mark_failed err hc) in
   record (RecordRequeueReason (hc_Name hc) (hc_Namespace hc) "ip_allocation_error") ;;
   ret (Some (Ok (mkResult 10)), hc)) s1 = ((out, hc'), s') ->
  out = Some (Ok (mkResult 10)) /\ hc_key hc' = hc_key hc /\
  requeued hc "ip_allocation_error" s1 s' /\ reported svc err hc' s'.
Proof.
  intros Hret Hi Hrun. unfold bind at 1 in Hrun. cbn [emit] in Hrun. unfold bind at 1 in Hrun.
  destruct (try_update_status (mark_failed err hc) _) as [hc2 s2] eqn:Eu.
  assert (events s2 = events s1 ++ [EvAllocationFailed (svc_Namespace svc) (svc_Name svc) err]) as Ev.
  { revert Eu. unfold try_update_status, bind, on_world. destruct (UpdateConfigStatus _ _).
    by intros [= _ <-]. }
  apply try_update_status_effect in Eu as (_ & M2 & R1 & R2 & R3); [|done]. cbn [metrics] in M2.
  unfold bind in Hrun. injection Hrun as <- <- <-. change (hc_key hc2 = hc_key hc) in R3.
  split; [done|]. split; [done|]. split.
  - eapply (requeued_record hc hc2 _ s1 s1); [done|done|]. cbn [metrics]. by rw M2.
  - split_and!; [|done|].
    + by eapply failed_status, mark_failed_failed.
    + cbn [events]. by rw Ev last_snoc.
Qed.

Lemma process_services_outcome l hc s out hc' s' :
  process_services l hc s = ((out, hc'), s') -> hc_issued (world s) hc ->
  hc_key hc' = hc_key hc /\
  match out with
  | None => uncounted s s' /\ (hc_Status hc' = hc_Status hc \/ healthy hc')
  | Some (Ok r) => r = mkResult 10 /\ requeued hc "ip_allocation_error" s s' /\
                   exists svc err, svc ∈ l /\ reported svc err hc' s'
  | Some (Err e) => uncounted s s'
  end.
Proof.
  revert hc s. induction l as [|svc l IH]; intros hc s; cbn [process_services].
  { intros [= <- <- <-] _. split; [done|]. split; [done|]. by left. }
  destruct (CheckQuota hc) as [[]|eq].
  2:{ unfold bind. intros [= <- <- <-] _. split; [done|]. split; [done|]. by left. }
  unfold bind at 1. destruct (AllocateAndAssign hc svc s) as [res s1] eqn:Ea. intros Hrun Hi.
  pose proof (uncounted_AllocateAndAssign _ _ _ _ _ Ea) as U1.
  pose proof (AllocateAndAssign_issued _ hc _ _ _ _ Ea Hi) as Hi1. destruct res as [[ip ipv6]|err].
  - unfold bind at 1 in Hrun. cbn [emit] in Hrun. unfold bind at 1 in Hrun.
    destruct (on_world (UpdateConfigStatus _) _) as [r s2] eqn:Eu.
    apply status_update_effect in Eu as (_ & M2 & Hr); [|done]. cbn [metrics] in M2.
    assert (uncounted s s2) as U2 by (unfold uncounted; by rw M2).
    destruct r as [hc2|e]; [|by injection Hrun as <- <- <-].
    destruct (Hr hc2 eq_refl) as (R1 & R2 & R3 & R4). change (hc_key hc2 = hc_key hc) in R3.
    pose proof (healthy_status _ _ R2 (mark_allocated_healthy svc ip ipv6 hc)) as Hh.
    apply IH in Hrun as [K Ho]; [|done]. split; [congruence|]. destruct out as [[r|e]|].
    + destruct Ho as (-> & Hq & x & err & Hx & Hrep). split; [done|]. split.
      * intros q. rw Hq. unfold counter. rw U2. by injection R3 as -> ->.
      * exists x, err. split; [|done]. apply elem_of_cons. by right.
    + by transitivity s2.
    + destruct Ho as [U3 Ho]. split; [by transitivity s2|]. right.
      destruct Ho as [E|?]; [|done]. by eapply healthy_status.
  - pose proof (AllocateAndAssign_retryable _ _ _ _ _ Ea) as Hret.
    destruct (failure_turn svc err hc s1 out hc' s' Hret Hi1 Hrun) as (-> & K & Hq & Hrep).
    split; [done|]. split; [done|]. split; [|exists svc, err; split; [apply elem_of_cons; by left|done]].
    intros q. rw Hq. unfold counter. by rw U1.
Qed.

(** ** A live reconciliation *)

Definition outcome_ok (hc : HeliosConfig) (s : ctl P W) (out : result error Result) (hc' : HeliosConfig)
    (s' : ctl P W) : Prop :=
  match out with
  | Ok r =>
      (r = mkResult 5 /\ requeued hc "periodic" s s' /\ (hc_Status hc' = hc_Status hc \/ healthy hc')) \/
      (r = mkResult 10 /\ requeued hc "ip_allocation_error" s s' /\
       exists svc err, reported svc err hc' s') \/
      (r = mkResult 30 /\ requeued hc "ip_conflict" s s' /\ networkMgr s' = networkMgr s /\
       exists n, (0 < n)%nat /\ list.last (events s') = Some (EvIPConflict n) /\
         condition_is ConditionTypeDegraded ConditionTrue ReasonIPConflict (ConflictText n) hc')
  | Err _ => uncounted s s'
  end.

(** The turn that reports a conflict. *)
Lemma conflict_turn hc n s1 (out : result error Result) hc' s' :
  hc_issued (world s1) hc -> (0 < n)%nat ->
  (emit (EvIPConflict n) ;;
   let! hc := try_update_status
     (set_condition ConditionTypeDegraded ConditionTrue ReasonIPConflict (ConflictText n) hc) in
   record (RecordRequeueReason (hc_Name hc) (hc_Namespace hc) "ip_conflict") ;;
   ret (Ok (mkResult 30), hc)) s1 = ((out, hc'), s') ->
  outcome_ok hc s1 out hc' s'.
Proof.
  intros Hi Hn Hrun. unfold bind at 1 in Hrun. cbn [emit] in Hrun. unfold bind at 1 in Hrun.
  destruct (try_update_status _ _) as [hc2 s2] eqn:Eu.
  assert (events s2 = events s1 ++ [EvIPConflict n]) as Ev.
  { revert Eu. unfold try_update_status, bind, on_world. destruct (UpdateConfigStatus _ _).
    by intros [= _ <-]. }
  apply try_update_status_effect in Eu as (N2 & M2 & R1 & R2 & R3); [|done]. cbn [metrics networkMgr] in *.
  unfold bind in Hrun. injection Hrun as <- <- <-. change (hc_key hc2 = hc_key hc) in R3.
  right. right. split; [done|]. split_and!; [|done|].
  - eapply (requeued_record hc hc2 _ s1 s1); [done|done|]. cbn [metrics]. by rw M2.
  - exists n. split; [done|]. cbn [events]. rw Ev last_snoc. split; [done|].
    eapply condition_is_status; [exact R2|]. apply condition_set.
Qed.

Lemma outcome_from hc s s1 out hc' s' :
  metrics s1 = metrics s -> networkMgr s1 = networkMgr s ->
  outcome_ok hc s1 out hc' s' -> outcome_ok hc s out hc' s'.
Proof. unfold outcome_ok, requeued, uncounted. by intros -> ->. Qed.

Lemma reconcile_live_outcome hc s out hc' s' :
  reconcile_live hc s = ((out, hc'), s') -> hc_issued (world s) hc -> outcome_ok hc s out hc' s'.
Proof.
  unfold reconcile_live, bind at 1. destruct (on_world ListServices s) as [ls s1] eqn:El.
  assert (N1 : networkMgr s1 = networkMgr s /\ metrics s1 = metrics s).
  { revert El. unfold on_world. destruct (ListServices _). by intros [= _ <-]. }
  apply (quiet_world _ keeps_list_services) in El as [V1 _]. intros Hrun Hi. apply V1 in Hi.
  destruct N1 as [N1 M1]. apply (outcome_from _ s s1); [done|done|].
  destruct ls as [items|e]; [|by injection Hrun as <- <- <-].
  unfold bind at 1 in Hrun. destruct (CheckIPConflicts hc s1) as [c s2] eqn:Ec.
  pose proof (CheckIPConflicts_effect _ _ _ _ Ec) as (N2 & M2 & _).
  apply quiet_CheckIPConflicts in Ec as [V2 _]. apply V2 in Hi. apply (outcome_from _ s1 s2); [done|done|].
  destruct c as [conflicts|e]; [|by injection Hrun as <- <- <-].
  destruct (Nat.ltb_spec 0 (size conflicts)); [by eapply conflict_turn|]. unfold bind at 1 in Hrun.
  destruct (process_services _ hc s2) as [[o hc2] s3] eqn:Ep.
  apply process_services_outcome in Ep as [K Ho]; [|done].
  destruct o as [r|]; unfold bind in Hrun; injection Hrun as <- <- <-.
  - destruct r as [r|e]; [|done]. right. left. destruct Ho as (-> & Hq & svc & err & _ & Hr). eauto.
  - destruct Ho as [U Hst]. left. split_and!; [done| |done]. by eapply requeued_record.
Qed.

End status.

(** ** Properties *)

Section claims.
Context {P W : Type} `{AddressPoolLaws P} `{EnvironmentLaws W}.

(** C14. What a reconciliation of a live configuration reports, on every path
    and whatever the cluster answers.  It returns a delay of 5, 10 or 30
    seconds or an error.  5 seconds: the reason counted is "periodic", and the
    status is the one it had or that of a success (phase Active, Ready true,
    Degraded false).  10 seconds: the reason is "ip_allocation_error", an
    allocation failed with a retryable error, which is the last event, the
    message and the text of the conditions (phase Failed, Ready false, Degraded
    true).  30 seconds: the reason is "ip_conflict", the conflict is the last
    event and the Degraded condition, and nothing was allocated.  Each delay is
    counted once for its reason, and an error for none. *)
Theorem reconcile_outcomes (hc hc' : HeliosConfig) (s s' : ctl P W) (out : result error Result) :
  heliosConfigFinalizer ∈ hc_Finalizers hc -> hc_Deleting hc = false -> hc_issued (world s) hc ->
  reconcile_config hc s = ((out, hc'), s') ->
  outcome_ok hc s out hc' s'.
Proof. intros Hf Hd Hi. rw reconcile_config_live //. intros Hr. by apply reconcile_live_outcome. Qed.

End claims.

(** ** Runs *)

(** A range of two addresses, both in use, and a waiting service. *)
Definition tight : HeliosConfig :=
  mkHeliosConfig "lb" "ns" 1 1 [heliosConfigFinalizer] false
    (mkHeliosConfigSpec "192.0.2.10-192.0.2.11" "" "" ProtocolTCP [] MethodRoundRobin [] None [] 0)
    (with_allocated {["a" := "192.0.2.10"]} ∅ emptyStatus).
Definition tight_state : ctl NetworkManager.t Mem.t :=
  demo_state (NetworkManager.MarkUsed "192.0.2.11" (NetworkManager.MarkUsed "192.0.2.10" NetworkManager.New))
    [tight] [demo_service "b" "ns" ""].

Lemma reconcile_outcomes_witness :
  exists out hc' s', reconcile_config tight tight_state = ((out, hc'), s') /\
    out = Ok (mkResult 10) /\ outcome_ok tight tight_state out hc' s'.
Proof.
  destruct (reconcile_config tight tight_state) as [[out hc'] s'] eqn:E. exists out, hc', s'.
  split; [reflexivity|]. split.
  - apply (f_equal (fun p => fst (fst p))) in E. vm_compute in E. symmetry. exact E.
  - apply (reconcile_outcomes tight hc' tight_state s' out); [by constructor|reflexivity| |exact E].
    apply stored_issued; [vm_compute; reflexivity|reflexivity].
Defined.
