(* ===== verification/Controller.v ===== *)
(** * The controller over time

    Runs of [Reconcile]: the work queue hands requests to one worker
    (controller-runtime's default of one concurrent reconciliation), and
    between two reconciliations the cluster may change at will.  The events
    the controller records say which addresses it granted; the theorems here
    follow an address through a whole history. *)
From S2P Require Import Prelude GoStrings NetIP IPRange IPAllocator Pool Errors Types.
From S2P Require Import ServiceFilter Metrics Cluster IPManager Reconciler.

Local Open Scope Z_scope.
Local Open Scope go_scope.

(** The addresses an event announces as granted. *)
Definition granted_by (e : event) : list string :=
  match e with
  | EvIPAllocated ip _ _ => [ip]
  | EvDualIPAllocated ip ipv6 _ _ => [ip; ipv6]
  | _ => []
  end.

Definition grants (evs : list event) : list string := mjoin (granted_by <$> evs).

Lemma grants_app l1 l2 : grants (l1 ++ l2) = grants l1 ++ grants l2.
Proof. unfold grants. by rw fmap_app join_app. Qed.

(** A deletion was handled. *)
Definition cleanup (evs : list event) : Prop := exists n, EvCleanupStarted n ∈ evs.

(** ** Code that records no event *)

Section silent.
Context {P W : Type} `{AddressPool P} `{Environment W}.

Definition silent (s s' : ctl P W) : Prop := events s' = events s.

#[export] Instance silent_preorder : PreOrder silent.
Proof. split; [done|]. intros s1 s2 s3 E1 E2. unfold silent in *. congruence. Qed.

Lemma silent_world {A} (c : M W A) : moves silent (on_world c).
Proof. intros s a s'. unfold on_world. destruct (c (world s)). by intros [= _ <-]. Qed.
Lemma silent_pool {A} (c : M P A) : moves silent (on_pool c).
Proof. intros s a s'. unfold on_pool. destruct (c (networkMgr s)). by intros [= _ <-]. Qed.
Lemma silent_record f : moves silent (record (P := P) (W := W) f).
Proof. by intros s a s' [= _ <-]. Qed.
Hint Resolve silent_world silent_pool silent_record : helios.

Lemma silent_AllocateAndAssign hc svc : moves silent (AllocateAndAssign (P := P) (W := W) hc svc).
Proof.
  unfold AllocateAndAssign, mark_others, mark_map, MarkUsed_, ReleaseIP_, assignIPToService, allocateIP.
  moves.
Qed.

Lemma silent_release_loop entries names : moves silent (release_loop (P := P) (W := W) entries names).
Proof.
  revert names. induction entries as [|[k ip] rest IH]; intros names; simpl; [moves|].
  unfold ReleaseIP_. moves.
Qed.
Hint Resolve silent_release_loop : helios.

Lemma silent_ReleaseAll hc : moves silent (ReleaseAll (P := P) (W := W) hc).
Proof. unfold ReleaseAll. moves. Qed.

Lemma silent_ensure_finalizer hc : moves silent (ensure_finalizer (P := P) (W := W) hc).
Proof. unfold ensure_finalizer. moves. Qed.

Lemma silent_try_update_status hc : moves silent (try_update_status (P := P) (W := W) hc).
Proof. unfold try_update_status. moves. Qed.

Lemma silent_record_reconcile start hc : moves silent (record_reconcile (P := P) (W := W) start hc).
Proof. unfold record_reconcile. moves. Qed.

End silent.

(** ** Code that keeps the labels of the metrics right *)

Section labels.
Context {P W : Type} `{AddressPool P} `{Environment W}.

Definition keeps_labels (s s' : ctl P W) : Prop :=
  well_labelled (metrics s) -> well_labelled (metrics s').

#[export] Instance keeps_labels_preorder : PreOrder keeps_labels.
Proof. split; [by intros s ?|]. intros s1 s2 s3 E1 E2 ?. by apply E2, E1. Qed.

Lemma labels_world {A} (c : M W A) : moves keeps_labels (on_world c).
Proof. intros s a s'. unfold on_world. destruct (c (world s)). intros [= _ <-] Hl. exact Hl. Qed.
Lemma labels_pool {A} (c : M P A) : moves keeps_labels (on_pool c).
Proof. intros s a s'. unfold on_pool. destruct (c (networkMgr s)). intros [= _ <-] Hl. exact Hl. Qed.
Lemma labels_emit e : moves keeps_labels (emit (P := P) (W := W) e).
Proof. intros s a s' [= _ <-] Hl. exact Hl. Qed.
Lemma labels_record f : labels_right f -> moves keeps_labels (record (P := P) (W := W) f).
Proof. intros Hf s a s' [= _ <-]. exact (Hf (metrics s)). Qed.
Hint Resolve labels_world labels_pool labels_emit labels_record : helios.

Lemma labels_AllocateAndAssign hc svc : moves keeps_labels (AllocateAndAssign (P := P) (W := W) hc svc).
Proof.
  unfold AllocateAndAssign, mark_others, mark_map, MarkUsed_, ReleaseIP_, assignIPToService, allocateIP.
  moves.
Qed.
Hint Resolve labels_AllocateAndAssign : helios.

Lemma labels_release_loop entries names :
  moves keeps_labels (release_loop (P := P) (W := W) entries names).
Proof.
  revert names. induction entries as [|[k ip] rest IH]; intros names; simpl; [moves|].
  unfold ReleaseIP_. moves.
Qed.
Hint Resolve labels_release_loop : helios.

Lemma labels_process_services l hc : moves keeps_labels (process_services (P := P) (W := W) l hc).
Proof. revert hc. induction l as [|svc l IH]; intros hc; simpl; [moves|]. unfold try_update_status. moves. Qed.
Hint Resolve labels_process_services : helios.

Lemma labels_Reconcile ns name : moves keeps_labels (Reconcile (P := P) (W := W) ns name).
Proof.
  unfold Reconcile, reconcile_config, ensure_finalizer, handleDeletion, ReleaseAll, reconcile_live,
    CheckIPConflicts, try_update_status, record_reconcile. moves.
Qed.

End labels.

(** ** What one reconciliation grants *)

Section grants.
Context {P W : Type} `{AddressPoolLaws P} `{EnvironmentLaws W}.
Implicit Types s : ctl P W.

Abbreviation in_use := (fun s x => pool_in_use (networkMgr s) x = true).

(** How often an address occurs. *)
Definition times (x : string) (l : list string) : nat := length (filter (fun y => y = x) l).

Lemma times_0 x l : x ∉ l -> times x l = 0%nat.
Proof.
  unfold times. induction l as [|y l IH]; [done|]. intros [Hy Hl]%not_elem_of_cons.
  rw filter_cons decide_False //. auto.
Qed.

Lemma times_app x l1 l2 : times x (l1 ++ l2) = (times x l1 + times x l2)%nat.
Proof. unfold times. by rw list.filter_app length_app. Qed.

(** What the new events grant of the address [x]: it is granted at most once,
    was free before and is in use after. *)
Definition grant_ok (x : string) s s' (evs : list event) : Prop :=
  (times x (grants evs) <= 1)%nat /\ (x ∈ grants evs -> ~ in_use s x /\ in_use s' x).

(** A step that does not free [x]. *)
Definition allocates (x : string) s s' : Prop :=
  exists evs, events s' = events s ++ evs /\ grant_ok x s s' evs /\ (in_use s x -> in_use s' x).

Lemma grant_ok_none x s s' evs : grants evs = [] -> grant_ok x s s' evs.
Proof. intros Hg. unfold grant_ok. rw Hg. split; [cbn; lia|by intros ?%elem_of_nil]. Qed.

Lemma allocates_none x s s' e :
  events s' = events s ++ e -> grants e = [] -> (in_use s x -> in_use s' x) -> allocates x s s'.
Proof. intros He Hg Hm. exists e. split_and!; auto using grant_ok_none. Qed.

#[export] Instance allocates_preorder x : PreOrder (allocates x).
Proof.
  split.
  - intros s. apply (allocates_none x s s []); [by rw app_nil_r|done|done].
  - intros s1 s2 s3 (e1 & E1 & [N1 G1] & M1) (e2 & E2 & [N2 G2] & M2). exists (e1 ++ e2).
    split; [by rw E2 E1 app_assoc|]. split; [|auto]. unfold grant_ok. rw grants_app times_app elem_of_app.
    destruct (decide (x ∈ grants e1)) as [X1|X1].
    + destruct (G1 X1) as [F1 U1]. rw (times_0 x (grants e2)); [|by intros X2; apply G2 in X2 as [? _]].
      split; [lia|]. auto.
    + rw (times_0 x (grants e1) X1). split; [lia|]. intros [?|X2]; [done|].
      apply G2 in X2 as [F2 U2]. auto.
Qed.

Lemma grants_announce ip ipv6 ns name x :
  x ∈ grants [if bool_decide (ipv6 <> ""%string) then EvDualIPAllocated ip ipv6 ns name
              else EvIPAllocated ip ns name] <->
  x = ip \/ ipv6 <> ""%string /\ x = ipv6.
Proof. destruct (bool_decide_reflect (ipv6 <> ""%string)); simpl; set_solver. Qed.

(** One turn of the loop over the services, up to the status update. *)
Lemma AllocateAndAssign_allocates hc svc s ip ipv6 s' x :
  ~ shares_address hc x -> AllocateAndAssign hc svc s = (Ok (ip, ipv6), s') ->
  grant_ok x s s' [if bool_decide (ipv6 <> ""%string)
                   then EvDualIPAllocated ip ipv6 (svc_Namespace svc) (svc_Name svc)
                   else EvIPAllocated ip (svc_Namespace svc) (svc_Name svc)] /\
  (in_use s x -> in_use s' x).
Proof.
  intros Hx Hrun. destruct (ListConfigs (world s)) as [[items|e] w] eqn:El.
  2:{ revert Hrun. unfold AllocateAndAssign, bind at 1, on_world at 1. by rw El. }
  destruct (AllocateAndAssign_effect _ _ _ _ _ _ _ Hrun El) as (_ & _ & Hf4 & Hf6 & _ & _ & Hu).
  assert (x = ip -> ~ held hc items s ip) as F4.
  { intros ->. apply Hf4. intros ?. apply Hx. by left. }
  assert (ipv6 <> ""%string -> x = ipv6 -> ~ held hc items s ipv6 /\ ipv6 <> ip) as F6.
  { intros H6 ->. apply (Hf6 H6). intros ?. apply Hx. by right. }
  unfold held in *. split; [split|intros ?; apply Hu; tauto].
  - unfold times. destruct (bool_decide_reflect (ipv6 <> ""%string)) as [H6|H6]; cbn;
      repeat (case_decide; cbn); try lia. subst. destruct (F6 H6 eq_refl). congruence.
  - rw grants_announce. intros Hg. split; [|apply Hu; tauto]. destruct Hg as [->|[H6 ->]]; tauto.
Qed.

Lemma process_services_allocates l hc s out s' x :
  ~ shares_address hc x -> hc_issued (world s) hc -> process_services l hc s = (out, s') ->
  allocates x s s'.
Proof.
  revert hc s. induction l as [|svc l IH]; intros hc s Hx Hi; cbn [process_services].
  { intros [= _ <-]. reflexivity. }
  destruct (CheckQuota hc) as [[]|eq].
  2:{ unfold bind. intros [= _ <-]. by eapply allocates_none. }
  unfold bind at 1. destruct (AllocateAndAssign hc svc s) as [res s1] eqn:Ea.
  pose proof (silent_AllocateAndAssign _ _ _ _ _ Ea) as Es. unfold silent in Es.
  pose proof (AllocateAndAssign_issued _ hc _ _ _ _ Ea Hi) as Hi1. intros Hrun.
  destruct res as [[ip ipv6]|err].
  - destruct (AllocateAndAssign_allocates _ _ _ _ _ _ _ Hx Ea) as ([Hnd Hg] & Hm).
    unfold bind at 1 in Hrun. cbn [emit] in Hrun. unfold bind at 1 in Hrun.
    destruct (on_world (UpdateConfigStatus _) _) as [r s2] eqn:Eu.
    pose proof (silent_world _ _ _ _ Eu) as Es2. unfold silent in Es2. cbn [events] in Es2.
    apply status_update_effect in Eu as (Hs2 & _ & Hr); [|done]. cbn [networkMgr world] in *.
    assert (allocates x s s2) as Ha.
    { eexists. split; [by rw Es2 Es|]. split; [|intros Hx'; rw Hs2; by apply Hm]. split; [done|].
      intros Hin. rw Hs2. by apply Hg. }
    destruct r as [hc2|e]; [|by injection Hrun as _ <-].
    destruct (Hr hc2 eq_refl) as (R1 & R2 & R3 & R4). transitivity s2; [done|].
    apply (IH hc2); [|done|done]. unfold shares_address. by rw R1.
  - pose proof (AllocateAndAssign_pool _ _ _ _ _ Ea x Hx) as Hp.
    unfold bind at 1 in Hrun. cbn [emit] in Hrun. unfold bind at 1 in Hrun.
    destruct (try_update_status (mark_failed err hc) _) as [hc2 s2] eqn:Eu.
    pose proof (silent_try_update_status _ _ _ _ Eu) as Es2. unfold silent in Es2. cbn [events] in Es2.
    apply try_update_status_effect in Eu as (Hs2 & _ & _); [|done].
    unfold bind in Hrun. injection Hrun as _ <-.
    eapply (allocates_none _ _ _ [_]); [cbn [events]; rw Es2 Es; reflexivity|done|].
    cbn [networkMgr] in *. rw Hs2. exact Hp.
Qed.

Lemma reconcile_live_allocates hc s out s' x :
  ~ shares_address hc x -> hc_issued (world s) hc -> reconcile_live hc s = (out, s') ->
  allocates x s s'.
Proof.
  intros Hx Hi. unfold reconcile_live, bind at 1. destruct (on_world ListServices s) as [ls s1] eqn:El.
  pose proof (silent_world _ _ _ _ El) as S1. unfold silent in S1.
  assert (N1 : networkMgr s1 = networkMgr s).
  { revert El. unfold on_world. destruct (ListServices _). by intros [= _ <-]. }
  apply (quiet_world _ keeps_list_services) in El as [V1 _]. apply V1 in Hi. intros Hrun.
  assert (allocates x s s1) as Ha1.
  { apply (allocates_none _ _ _ []); [by rw app_nil_r|done|]. by rw N1. }
  transitivity s1; [done|]. destruct ls as [items|e]; [|injection Hrun as _ <-; reflexivity].
  unfold bind at 1 in Hrun. destruct (CheckIPConflicts hc s1) as [c s2] eqn:Ec.
  pose proof (CheckIPConflicts_effect _ _ _ _ Ec) as (N2 & _ & E2).
  apply quiet_CheckIPConflicts in Ec as [V2 _]. apply V2 in Hi.
  assert (allocates x s1 s2) as Ha2.
  { apply (allocates_none _ _ _ []); [by rw app_nil_r|done|]. by rw N2. }
  transitivity s2; [done|]. destruct c as [conflicts|e]; [|injection Hrun as _ <-; reflexivity].
  destruct (0 <? size conflicts)%nat; unfold bind at 1 in Hrun.
  - cbn [emit] in Hrun. unfold bind at 1 in Hrun.
    destruct (try_update_status _ _) as [hc2 s3] eqn:Eu.
    pose proof (silent_try_update_status _ _ _ _ Eu) as Es. unfold silent in Es. cbn [events] in Es.
    apply try_update_status_effect in Eu as (Hs & _ & _); [|done].
    unfold bind in Hrun. injection Hrun as _ <-. eapply (allocates_none _ _ _ [_]); [exact Es|done|].
    cbn [networkMgr] in *. by rw Hs.
  - destruct (process_services _ hc s2) as [[o hc2] s3] eqn:Ep.
    apply (process_services_allocates _ _ _ _ _ x) in Ep as Hp; [|done|done].
    destruct o as [r|]; unfold bind in Hrun; injection Hrun as _ <-; [done|].
    etransitivity; [exact Hp|]. by apply (allocates_none _ _ _ []); [cbn; rw app_nil_r| |].
Qed.

(** One step of the controller: either [x] is not freed, or a deletion is
    handled and nothing is granted. *)
Definition controls (x : string) s s' (evs : list event) : Prop :=
  events s' = events s ++ evs /\
  ((grant_ok x s s' evs /\ (in_use s x -> in_use s' x)) \/ (cleanup evs /\ grants evs = [])).

Lemma handleDeletion_events hc r hc' s s' :
  heliosConfigFinalizer ∈ hc_Finalizers hc -> handleDeletion hc s = ((r, hc'), s') ->
  exists e, events s' = events s ++ [EvCleanupStarted (size (AllocatedIPs (hc_Status hc))); e] /\
            granted_by e = [].
Proof.
  intros Hf. unfold handleDeletion. rw contains_finalizer bool_decide_eq_true_2 //.
  unfold bind at 1. cbn [emit]. unfold bind at 1. destruct (ReleaseAll hc _) as [u s1] eqn:Er.
  apply silent_ReleaseAll in Er. unfold silent in Er. cbn [events] in Er.
  cbv zeta. unfold bind at 1, on_world. destruct (UpdateConfig _ (world s1)) as [[h|e] w];
    unfold bind; intros [= _ _ <-]; cbn [events]; rw Er -app_assoc; eauto.
Qed.

Lemma allocates_controls x s s' : allocates x s s' -> exists evs, controls x s s' evs.
Proof. intros (evs & He & Hg & Hm). exists evs. split; [done|]. by left. Qed.

(** Steps that touch neither the pool nor the events around a step. *)
Lemma controls_between x s0 s s' s1 evs :
  networkMgr s = networkMgr s0 -> events s = events s0 ->
  networkMgr s1 = networkMgr s' -> events s1 = events s' -> controls x s s' evs -> controls x s0 s1 evs.
Proof. unfold controls, grant_ok. by intros -> -> -> ->. Qed.

Lemma controls_refl x s s' :
  networkMgr s' = networkMgr s -> events s' = events s -> controls x s s' [].
Proof. intros N E. split; [by rw E app_nil_r|]. left. split; [by apply grant_ok_none|by rw N]. Qed.

Lemma reconcile_config_controls hc s out s' x :
  ~ shares_address hc x -> hc_issued (world s) hc -> reconcile_config hc s = (out, s') ->
  exists evs, controls x s s' evs.
Proof.
  intros Hx Hi. unfold reconcile_config, bind at 1.
  destruct (ensure_finalizer hc s) as [[o hc1] s1] eqn:Ee.
  destruct (ensure_finalizer_effect _ _ _ _ _ Ee Hi) as (N1 & S1 & _ & I1).
  apply silent_ensure_finalizer in Ee as E1. unfold silent in E1.
  assert (forall t evs, controls x s1 t evs -> controls x s t evs) as Hlift.
  { intros t evs. by apply controls_between. }
  destruct o as [e|]; [intros [= _ <-]; exists []; by apply controls_refl|].
  specialize (I1 eq_refl). intros Hrun.
  assert (~ shares_address hc1 x) as Hx1 by (unfold shares_address; by rw S1).
  destruct (hc_Deleting hc1).
  - unfold bind at 1 in Hrun. destruct (handleDeletion hc1 s1) as [[r hc2] s2] eqn:Ed.
    assert (s' = s2) as -> by (by destruct r; injection Hrun as _ <-).
    destruct (decide (heliosConfigFinalizer ∈ hc_Finalizers hc1)) as [Hf|Hf].
    + destruct (handleDeletion_events _ _ _ _ _ Hf Ed) as (e & Ev & Hg).
      eexists. apply Hlift. split; [exact Ev|]. right. split.
      * eexists. apply elem_of_cons. by left.
      * unfold grants. cbn. by rw Hg.
    + revert Ed. unfold handleDeletion. rw contains_finalizer bool_decide_eq_false_2 //.
      intros [= _ _ <-]. exists []. by apply controls_refl.
  - apply (reconcile_live_allocates _ _ _ _ x) in Hrun as (evs & Hc)%allocates_controls; [|done|done].
    exists evs. by apply Hlift.
Qed.

(** The configuration a request reads. *)
Definition read_by (ns name : string) s : option HeliosConfig :=
  match fst (GetConfig ns name (snd (Now (world s)))) with Ok hc => Some hc | Err _ => None end.

Lemma record_reconcile_pool start hc s u s' :
  record_reconcile start hc s = (u, s') -> networkMgr s' = networkMgr s /\ events s' = events s.
Proof.
  intros Hr. split; [by apply record_reconcile_effect in Hr as [-> _]|].
  by apply silent_record_reconcile in Hr.
Qed.

Lemma Reconcile_controls ns name s out s' x :
  (forall hc, read_by ns name s = Some hc -> ~ shares_address hc x) ->
  Reconcile ns name s = (out, s') -> exists evs, controls x s s' evs.
Proof.
  unfold read_by. intros Hx. unfold Reconcile, bind at 1, on_world at 1.
  destruct (Now (world s)) as [t w1] eqn:En. cbn [snd] in Hx.
  unfold bind at 1, on_world at 1. cbn [world].
  destruct (GetConfig ns name w1) as [r w2] eqn:Eg. cbn [networkMgr world metrics events fst] in *.
  destruct r as [hc|[| |]]; [|intros [= _ <-]; exists []; by apply controls_refl..].
  unfold bind at 1. destruct (reconcile_config hc _) as [res s2] eqn:Er. unfold bind.
  destruct (record_reconcile t (snd res) s2) as [u s3] eqn:Ec.
  apply record_reconcile_pool in Ec as [Hn He]. intros [= _ <-].
  pose proof (get_config_key _ _ _ _ _ Eg) as [_ Hi].
  apply (reconcile_config_controls _ _ _ _ x) in Er as [evs Hc]; [|by apply Hx|done].
  exists evs. revert Hc. by apply controls_between.
Qed.

(** ** Histories *)

Definition with_world (w : W) s : ctl P W := mkCtl (networkMgr s) w (metrics s) (events s).

(** A reconciliation of a history: the configuration it read, if any, and the
    events it recorded. *)
Record entry : Type := mkEntry { entry_read : option HeliosConfig; entry_events : list event }.

(** A history of the controller: reconciliations of any objects, and
    arbitrary changes of the cluster between them. *)
Inductive history : ctl P W -> list entry -> ctl P W -> Prop :=
| history_end s : history s [] s
| history_reconcile s ns name out s1 evs h s2 :
    Reconcile ns name s = (out, s1) -> events s1 = events s ++ evs ->
    history s1 h s2 -> history s (mkEntry (read_by ns name s) evs :: h) s2
| history_cluster s w h s2 : history (with_world w s) h s2 -> history s h s2.

(** The reconciliation granted [x]. *)
Definition entry_grants (e : entry) (x : string) : Prop := x ∈ grants (entry_events e).

(** It read a configuration with a range that is the single address [x]. *)
Definition entry_shares (e : entry) (x : string) : Prop :=
  exists hc, entry_read e = Some hc /\ shares_address hc x.

(** A history as steps that follow the address [x]. *)
Inductive steps (x : string) : ctl P W -> list entry -> ctl P W -> Prop :=
| steps_end s s' : networkMgr s' = networkMgr s -> steps x s [] s'
| steps_next s s1 s2 e h :
    (~ entry_shares e x -> controls x s s1 (entry_events e)) -> steps x s1 h s2 -> steps x s (e :: h) s2.

Lemma steps_from x s0 s h s' :
  networkMgr s = networkMgr s0 -> events s = events s0 -> steps x s h s' -> steps x s0 h s'.
Proof.
  intros Hn He Hs. destruct Hs as [s s' E|s s1 s2 e h Hc Hs].
  - constructor. by rw E.
  - econstructor; [|exact Hs]. intros Hx. apply Hc in Hx. revert Hx. by apply controls_between.
Qed.

Lemma history_steps x s h s' : history s h s' -> steps x s h s'.
Proof.
  induction 1 as [s|s ns name out s1 evs h s2 Hr He Hh IH|s w h s2 Hh IH]; [by constructor| |].
  - econstructor; [|exact IH]. intros Hx. cbn [entry_events].
    destruct (Reconcile_controls ns name s out s1 x) as [evs' [E Hc]]; [|done|].
    + intros hc Hr' Hs. apply Hx. by exists hc.
    + rw E in He. apply app_inv_head in He as ->. by split.
  - revert IH. by apply steps_from.
Qed.

Lemma steps_app x s h1 h2 s' : steps x s (h1 ++ h2) s' -> exists s1, steps x s h1 s1 /\ steps x s1 h2 s'.
Proof.
  revert s. induction h1 as [|e h1 IH]; intros s Hs; [exists s; split; [by constructor|done]|].
  inversion Hs as [|? s1 ? ? ? Hc Hr]; subst. destruct (IH _ Hr) as (s2 & ? & ?).
  exists s2. split; [by econstructor|done].
Qed.

(** An address in use stays in use until a deletion. *)
Lemma steps_in_use x s h s' :
  steps x s h s' -> (forall e, e ∈ h -> ~ entry_shares e x) -> in_use s x ->
  in_use s' x \/ exists e, e ∈ h /\ cleanup (entry_events e).
Proof.
  induction 1 as [s s' E|s s1 s2 e h Hc Hs IH]; intros Hno Hx; [left; by rw E|].
  setoid_rewrite elem_of_cons in Hno. destruct (Hc (Hno e (or_introl eq_refl))) as [_ Hd].
  setoid_rewrite elem_of_cons. destruct Hd as [[_ Hm]|[Hcl _]]; [|by eauto].
  destruct (IH (fun e' He => Hno e' (or_intror He)) (Hm Hx)) as [?|(e' & ? & ?)]; eauto.
Qed.

Lemma controls_grants x s s' evs : controls x s s' evs -> grant_ok x s s' evs.
Proof. intros [_ [[Hg _]|[_ E]]]; [done|]. by apply grant_ok_none. Qed.

Lemma steps_once x s h s' e :
  steps x s h s' -> e ∈ h -> ~ entry_shares e x -> (times x (grants (entry_events e)) <= 1)%nat.
Proof.
  induction 1 as [|s s1 s2 e' h Hc Hs IH]; [by intros ?%elem_of_nil|].
  intros [->|Hin]%elem_of_cons Hno; [by apply Hc, controls_grants in Hno as [? _]|by apply IH].
Qed.

#[export] Instance entry_shares_dec e x : Decision (entry_shares e x).
Proof.
  destruct (entry_read e) as [hc|] eqn:E.
  - destruct (decide (single_address (IPRange (hc_Spec hc)) = Some x \/
                      single_address (IPv6Range (hc_Spec hc)) = Some x)) as [Hd|Hd].
    + left. by exists hc.
    + right. intros (hc' & E' & Hs). rw E in E'. by injection E' as <-.
  - right. intros (hc' & E' & _). congruence.
Defined.

Lemma steps_grants x s h1 e1 h2 e2 h3 s' :
  steps x s (h1 ++ e1 :: h2 ++ e2 :: h3) s' -> entry_grants e1 x -> entry_grants e2 x ->
  (exists e, e ∈ h2 /\ cleanup (entry_events e)) \/
  (exists e, e ∈ e1 :: h2 ++ [e2] /\ entry_shares e x).
Proof.
  intros Hs G1 G2.
  destruct (decide (Exists (fun e => entry_shares e x) (e1 :: h2 ++ [e2]))) as [He|He].
  { right. by apply list.Exists_exists. }
  left. rw list.Exists_exists in He.
  assert (forall e, e ∈ e1 :: h2 ++ [e2] -> ~ entry_shares e x) as Hno by naive_solver. clear He.
  setoid_rewrite elem_of_cons in Hno. setoid_rewrite elem_of_app in Hno.
  apply steps_app in Hs as (s1 & _ & Hs).
  inversion Hs as [|? s2 ? ? ? C1 Hs2]; subst. apply steps_app in Hs2 as (s3 & Hmid & Hs3).
  inversion Hs3 as [|? s4 ? ? ? C2 _]; subst.
  destruct (controls_grants _ _ _ _ (C1 (Hno e1 ltac:(auto)))) as [_ O1].
  destruct (controls_grants _ _ _ _ (C2 (Hno e2 ltac:(right; right; by apply list_elem_of_singleton)))) as [_ O2].
  destruct (O1 G1) as [_ Hu], (O2 G2) as [Hn _].
  destruct (steps_in_use _ _ _ _ Hmid (fun e He => Hno e (or_intror (or_introl He))) Hu) as [?|?]; done.
Qed.

End grants.

(** ** Properties *)

Section claims.
Context {P W : Type} `{AddressPoolLaws P} `{EnvironmentLaws W}.

(** C2. No address is granted twice over the life of the controller, the
    address of a single-address range excepted: in any history of
    reconciliations of any configurations, whatever the cluster does in
    between and whatever its calls answer, a reconciliation grants an address
    at most once unless its configuration has a range that is this single
    address; and if two reconciliations grant the same address then one
    between them handled the deletion of a configuration, or one of them or
    between them was of a configuration with a range that is this single
    address, which such a range hands out to every service. *)
Theorem controller_no_double_grant (s s' : ctl P W) (h : list entry) (x : string) :
  history s h s' ->
  (forall e, e ∈ h -> ~ entry_shares e x -> (times x (grants (entry_events e)) <= 1)%nat) /\
  forall h1 e1 h2 e2 h3, h = h1 ++ e1 :: h2 ++ e2 :: h3 -> entry_grants e1 x -> entry_grants e2 x ->
    (exists e, e ∈ h2 /\ cleanup (entry_events e)) \/
    (exists e, e ∈ e1 :: h2 ++ [e2] /\ entry_shares e x).
Proof.
  intros Hh%(history_steps x). split.
  - intros e. by apply steps_once with s s'.
  - intros h1 e1 h2 e2 h3 ->. by apply steps_grants with s h1 h3 s'.
Qed.

(** C36. A reconciliation never panics in [WithLabelValues]: whatever path it
    takes, every series it records belongs to a vector that [init] registers,
    of the kind the code uses it as and with as many label values as the
    vector has labels; and the registered names are distinct, so
    [MustRegister] does not panic either. *)
Theorem reconcile_labels_right (ns name : string) (s s' : ctl P W) (out : result error Result) :
  Reconcile ns name s = (out, s') ->
  keeps_labels s s' /\ NoDup (fst <$> collectors).
Proof.
  intros Hr. split; [exact (labels_Reconcile ns name _ _ _ Hr)|].
  apply (bool_decide_unpack _). vm_compute. exact I.
Qed.

End claims.

(** The life of an address: granted, given back by a deletion, and granted
    again to the service of a new configuration. *)
Definition first_world : Mem.t := demo_world [live_config 0 ∅] [demo_service "b" "ns" ""].
Definition deleting_world : Mem.t :=
  demo_world [mkHeliosConfig "lb" "ns" 1 1 [heliosConfigFinalizer] true (hc_Spec (live_config 0 ∅))
                (with_allocated {["b" := "192.0.2.10"]} ∅ emptyStatus)] [].

Definition state0 : ctl NetworkManager.t Mem.t := mkCtl NetworkManager.New first_world emptyRegistry [].
Definition state1 := snd (Reconcile "ns" "lb" state0).
Definition state2 := snd (Reconcile "ns" "lb" (with_world deleting_world state1)).
Definition state3 := snd (Reconcile "ns" "lb" (with_world first_world state2)).

Definition granting := [EvIPAllocated "192.0.2.10" "ns" "b"].
Definition deletion := [EvCleanupStarted 1; EvCleanupComplete].

(** The same with a range of one address: no deletion is needed. *)
Definition one_world : Mem.t :=
  demo_world [mkHeliosConfig "lb" "ns" 1 1 [heliosConfigFinalizer] false
                (hc_Spec (demo_config "lb" "ns" "192.0.2.10" "" ∅ ∅)) emptyStatus]
             [demo_service "b" "ns" ""].
Definition one0 : ctl NetworkManager.t Mem.t := mkCtl NetworkManager.New one_world emptyRegistry [].
Definition one1 := snd (Reconcile "ns" "lb" one0).
Definition one2 := snd (Reconcile "ns" "lb" (with_world one_world one1)).

Lemma controller_no_double_grant_witness :
  (exists e2, e2 ∈ [mkEntry (read_by "ns" "lb" (with_world deleting_world state1)) deletion] /\
              cleanup (entry_events e2)) /\
  (exists e, e ∈ [mkEntry (read_by "ns" "lb" one0) granting;
                  mkEntry (read_by "ns" "lb" (with_world one_world one1)) granting] /\
             entry_shares e "192.0.2.10").
Proof.
  split.
  - destruct (controller_no_double_grant state0 state3
      [mkEntry (read_by "ns" "lb" state0) granting;
       mkEntry (read_by "ns" "lb" (with_world deleting_world state1)) deletion;
       mkEntry (read_by "ns" "lb" (with_world first_world state2)) granting] "192.0.2.10") as [_ H2].
    + eapply history_reconcile; [apply surjective_pairing|vm_compute; reflexivity|].
      apply (history_cluster _ deleting_world).
      eapply history_reconcile; [apply surjective_pairing|vm_compute; reflexivity|].
      apply (history_cluster _ first_world).
      eapply history_reconcile; [apply surjective_pairing|vm_compute; reflexivity|].
      apply history_end.
    + destruct (H2 [] _ [_] _ [] eq_refl) as [?|(e & He & hc & Hr & Hs)]; [by constructor|by constructor|done|].
      exfalso. cbn [app] in He. rw !elem_of_cons elem_of_nil in He.
      destruct He as [->|[->|[->|[]]]]; vm_compute in Hr; injection Hr as <-;
        destruct Hs as [Hs|Hs]; vm_compute in Hs; discriminate Hs.
  - destruct (controller_no_double_grant one0 one2
      [mkEntry (read_by "ns" "lb" one0) granting;
       mkEntry (read_by "ns" "lb" (with_world one_world one1)) granting] "192.0.2.10") as [_ H2].
    + eapply history_reconcile; [apply surjective_pairing|vm_compute; reflexivity|].
      apply (history_cluster _ one_world).
      eapply history_reconcile; [apply surjective_pairing|vm_compute; reflexivity|].
      apply history_end.
    + destruct (H2 [] _ [] _ [] eq_refl) as [(e & He & _)|?]; [by constructor|by constructor| |done].
      by apply elem_of_nil in He.
Defined.

Lemma reconcile_labels_right_witness :
  well_labelled (metrics (snd (Reconcile "ns" "lb" live_state))).
Proof.
  apply (reconcile_labels_right "ns" "lb" live_state _ (fst (Reconcile "ns" "lb" live_state))).
  - apply surjective_pairing.
  - split; apply map_Forall_empty.
Defined.
