(* ===== verification/Refinement.v ===== *)
(** * The protocol of the controller

    What one reconciliation may do, as a machine of its own, and the proof
    that every reconciliation is a run of it, whatever the cluster answers.
    The machine operates the same pool and calls the same environment as the
    code, one operation or call per step, and nothing else changes either.
    Its memory, [client], has what a reconciliation has learnt and what it was
    given: the last version of its object, the last list of configurations,
    the last service it got, and the addresses granted to it and not given
    back.  It may
    - allocate from the two ranges of its object and from no other;
    - mark an address only if a listed configuration other than its own
      records it;
    - release an address only if it was granted to it, or if its object is
      being deleted and records the address;
    - write no configuration but the version it knows of its own, keep the
      spec and the deletion mark of it, and enter no address that was neither
      there before nor granted to it;
    - write no service but the version it got last, with an ingress of granted
      addresses only or a cleared one.

    The proofs are triples over the code, composed along its structure.  What
    the machine leaves alone follows by induction over its runs: on the server
    in memory, [Confined] bounds what a run does to the pool and to every
    stored object. *)
From stdpp Require Import gmultiset.
From S2P Require Import Prelude GoStrings NetIP IPRange IPAllocator Pool Errors Types.
From S2P Require Import ServiceFilter Metrics Cluster IPManager Reconciler.

Local Open Scope Z_scope.
Local Open Scope go_scope.

(** ** The machine *)

Record client : Type := mkClient {
  target : string * string;
  cur : option HeliosConfig;
  listed : list HeliosConfig;
  service : option Service_;
  granted : gmultiset string;
}.

Definition start (ns name : string) : client := mkClient (ns, name) None [] None ∅.

Definition with_cur (r : result api_error HeliosConfig) (k : client) : client :=
  match r with
  | Ok hc => mkClient (target k) (Some hc) (listed k) (service k) (granted k)
  | Err _ => k
  end.
Definition with_listed (r : result api_error (list HeliosConfig)) (k : client) : client :=
  match r with
  | Ok items => mkClient (target k) (cur k) items (service k) (granted k)
  | Err _ => k
  end.
Definition with_service (r : result api_error Service_) (k : client) : client :=
  match r with
  | Ok svc => mkClient (target k) (cur k) (listed k) (Some svc) (granted k)
  | Err _ => k
  end.
Definition with_granted (g : gmultiset string) (k : client) : client :=
  mkClient (target k) (cur k) (listed k) (service k) g.

(** Operations of the pool the machine may perform. *)
Definition permitted (k : client) (hc : HeliosConfig) (o : op) : Prop :=
  match o with
  | OpAllocate r | OpAllocateSpecific r _ =>
      r = IPRange (hc_Spec hc) \/ (r <> ""%string /\ r = IPv6Range (hc_Spec hc))
  | OpMarkUsed ip => exists other, other ∈ listed k /\ same_config other hc = false /\ owns other ip
  | OpRelease ip => ip ∈ granted k \/ (hc_Deleting hc = true /\ owns hc ip)
  end.

(** What an operation does to the addresses granted. *)
Definition account (o : op) (out : outcome) (k : client) : client :=
  match out, o with
  | Granted ip, _ => with_granted ({[+ ip +]} ⊎ granted k) k
  | _, OpRelease ip => with_granted (granted k ∖ {[+ ip +]}) k
  | _, _ => k
  end.

(** The configuration the machine may send when it knows [hc]. *)
Definition writable (k : client) (hc sent : HeliosConfig) : Prop :=
  hc_key sent = hc_key hc /\ hc_ResourceVersion sent = hc_ResourceVersion hc /\
  hc_Spec sent = hc_Spec hc /\ hc_Deleting sent = hc_Deleting hc /\
  (forall x, owns sent x -> owns hc x \/ x ∈ granted k).

(** The service it may send to the status subresource when it knows [svc]. *)
Definition ingress_writable (k : client) (svc sent : Service_) : Prop :=
  svc_key sent = svc_key svc /\ svc_ResourceVersion sent = svc_ResourceVersion svc /\
  (forall x, x ∈ svc_Ingress sent -> x ∈ granted k).

(** The operations of the pool with their outcomes, in their order. *)
Abbreviation trace := (list (op * outcome)).

Section machine.
Context {P W : Type} `{AddressPool P} `{Environment W}.

(** Calls that change no object and are not remembered. *)
Inductive quiet_call : W -> W -> Prop :=
| quiet_list_services w r w' : ListServices w = (r, w') -> quiet_call w w'
| quiet_iterate {V} (m : gmap string V) w l w' : iterate m w = (l, w') -> quiet_call w w'
| quiet_now w t w' : Now w = (t, w') -> quiet_call w w'.

(** A step: one call of the environment, or one operation of the pool, which
    the trace records. *)
Inductive step : client * P * W -> trace -> client * P * W -> Prop :=
| step_quiet k p w w' : quiet_call w w' -> step (k, p, w) [] (k, p, w')
| step_get_service k p ns name w r w' :
    GetService ns name w = (r, w') -> step (k, p, w) [] (with_service r k, p, w')
| step_ingress k p svc sent w r w' :
    UpdateServiceStatus sent w = (r, w') -> service k = Some svc -> ingress_writable k svc sent ->
    step (k, p, w) [] (with_service r k, p, w')
| step_service k p svc w r w' :
    UpdateService svc w = (r, w') -> service k = Some svc ->
    step (k, p, w) [] (with_service r k, p, w')
| step_read k p w r w' :
    GetConfig (fst (target k)) (snd (target k)) w = (r, w') -> step (k, p, w) [] (with_cur r k, p, w')
| step_list k p w r w' : ListConfigs w = (r, w') -> step (k, p, w) [] (with_listed r k, p, w')
| step_write k p hc sent w r w' :
    UpdateConfig sent w = (r, w') \/ UpdateConfigStatus sent w = (r, w') ->
    cur k = Some hc -> writable k hc sent -> step (k, p, w) [] (with_cur r k, p, w')
| step_pool k p hc o out p' w :
    cur k = Some hc -> permitted k hc o -> exec o p = (out, p') ->
    step (k, p, w) [(o, out)] (account o out k, p', w).

Inductive runs : client * P * W -> trace -> client * P * W -> Prop :=
| runs_nil t : runs t [] t
| runs_cons t1 l t2 tr t3 : step t1 l t2 -> runs t2 tr t3 -> runs t1 (l ++ tr) t3.

Lemma runs_once t1 l t2 : step t1 l t2 -> runs t1 l t2.
Proof. intros Hs. rw -(app_nil_r l). eauto using runs. Qed.

Lemma runs_app t1 tr1 t2 tr2 t3 : runs t1 tr1 t2 -> runs t2 tr2 t3 -> runs t1 (tr1 ++ tr2) t3.
Proof.
  induction 1 as [|t1 l t2 tr t3' Hs Hr IH]; [done|]. intros Hr2. rw -app_assoc. eauto using runs.
Qed.

(** The pool runs through the operations of the trace. *)
Lemma runs_pool t tr t' : runs t tr t' -> run (snd (fst t)) tr (snd (fst t')).
Proof.
  induction 1 as [t|t1 l t2 tr t3 Hs Hr IH]; [constructor|].
  destruct Hs; simpl in *; try exact IH. by econstructor.
Qed.

End machine.

(** ** Triples *)

(** States of the code that the machine can follow. *)
Class Follows (T : Type) : Type := {
  follows : client -> T -> client -> T -> Prop;
  follows_refl k t : follows k t k t;
  follows_trans k1 t1 k2 t2 k3 t3 :
    follows k1 t1 k2 t2 -> follows k2 t2 k3 t3 -> follows k1 t1 k3 t3;
}.

Section triples.
Context {T : Type} `{!Follows T}.

(** From a memory with [pre] the machine can follow the code to one with
    [post]. *)
Definition triple {A} (pre : client -> Prop) (c : M T A) (post : A -> client -> Prop) : Prop :=
  forall k t a t', c t = (a, t') -> pre k -> exists k', follows k t k' t' /\ post a k'.

Lemma triple_ret {A} (pre : client -> Prop) (a : A) (post : A -> client -> Prop) :
  (forall k, pre k -> post a k) -> triple pre (ret a) post.
Proof. intros Hp k t ? ? [= <- <-] Hk. exists k. split; [apply follows_refl|auto]. Qed.

Lemma triple_bind {A B} pre (c : M T A) mid (d : A -> M T B) post :
  triple pre c mid -> (forall a, triple (mid a) (d a) post) -> triple pre (bind c d) post.
Proof.
  intros Hc Hd k t b t'. unfold bind. destruct (c t) as [a t1] eqn:E. intros E2 Hk.
  destruct (Hc _ _ _ _ E Hk) as (k1 & F1 & H1). destruct (Hd _ _ _ _ _ E2 H1) as (k2 & F2 & H2).
  exists k2. split; [by eapply follows_trans|done].
Qed.

Lemma triple_conseq {A} (pre pre' : client -> Prop) (c : M T A) (post post' : A -> client -> Prop) :
  triple pre' c post' -> (forall k, pre k -> pre' k) -> (forall a k, post' a k -> post a k) ->
  triple pre c post.
Proof.
  intros Hc Hpre Hpost k t a t' E Hk. destruct (Hc _ _ _ _ E (Hpre _ Hk)) as (k' & ? & ?). eauto.
Qed.

Lemma triple_weaken {A} (pre pre' : client -> Prop) (c : M T A) post :
  triple pre' c post -> (forall k, pre k -> pre' k) -> triple pre c post.
Proof. intros Hc Hp. by eapply triple_conseq. Qed.

Lemma triple_for_each {A} (inv : client -> Prop) (body : A -> M T unit) l :
  (forall a, a ∈ l -> triple inv (body a) (fun _ => inv)) -> triple inv (for_each body l) (fun _ => inv).
Proof.
  induction l as [|x l IH]; intros Hb; cbn [for_each]; [by apply triple_ret|].
  eapply triple_bind; [apply Hb; set_solver|]. intros u. apply IH. intros a Ha. apply Hb. set_solver.
Qed.

End triples.

Section primitives.
Context {P W : Type} `{AddressPoolLaws P} `{EnvironmentLaws W}.

#[export, refine] Instance follows_world : Follows W := {
  follows k w k' w' := forall (Q : Type) (HQ : AddressPool Q) (p : Q), runs (k, p, w) [] (k', p, w');
}.
Proof.
  - intros. apply runs_nil.
  - intros k1 w1 k2 w2 k3 w3 F1 F2 Q HQ p. exact (runs_app _ [] _ [] _ (F1 Q HQ p) (F2 Q HQ p)).
Defined.

#[export, refine] Instance follows_ctl : Follows (ctl P W) := {
  follows k s k' s' :=
    exists tr, runs (k, networkMgr s, world s) tr (k', networkMgr s', world s');
}.
Proof.
  - intros. exists []. apply runs_nil.
  - intros k1 s1 k2 s2 k3 s3 [t1 R1] [t2 R2]. exists (t1 ++ t2). by eapply runs_app.
Defined.

(** *** The environment *)

Abbreviation wtriple := (triple (T := W)).

Lemma triple_step {A} (pre : client -> Prop) (c : M W A) (post : A -> client -> Prop) :
  (forall k w a w', c w = (a, w') -> pre k ->
   exists k', (forall (Q : Type) (HQ : AddressPool Q) (p : Q), step (k, p, w) [] (k', p, w')) /\ post a k') ->
  wtriple pre c post.
Proof.
  intros Hc k w a w' E Hk. destruct (Hc _ _ _ _ E Hk) as (k' & Hs & Hp). exists k'.
  split; [|done]. intros Q HQ p. by apply runs_once.
Qed.

Lemma triple_quiet {A} (pre : client -> Prop) (c : M W A) :
  (forall w a w', c w = (a, w') -> quiet_call w w') -> wtriple pre c (fun _ => pre).
Proof. intros Hq. apply triple_step. intros k w a w' E Hk. exists k. eauto using step_quiet. Qed.

Lemma triple_list_services pre : wtriple pre ListServices (fun _ => pre).
Proof. apply triple_quiet. eauto using quiet_list_services. Qed.
Lemma triple_iterate {V} (pre : client -> Prop) (m : gmap string V) :
  wtriple pre (iterate m) (fun l k => pre k /\ l ≡ₚ map_to_list m).
Proof.
  apply triple_step. intros k w l w' E Hk. exists k. split; [|split; [done|by eapply iterate_perm]].
  intros Q HQ p. by eapply step_quiet, quiet_iterate.
Qed.
Lemma triple_now pre : wtriple pre Now (fun _ => pre).
Proof. apply triple_quiet. eauto using quiet_now. Qed.

(** What the machine remembers of a service does not matter to [pre]. *)
Definition service_free (pre : client -> Prop) : Prop := forall k r, pre k -> pre (with_service r k).

(** The answer to a call on a service is the service the machine knows. *)
Definition answered (pre : client -> Prop) (r : result api_error Service_) (k : client) : Prop :=
  pre k /\ forall svc, r = Ok svc -> service k = Some svc.

Lemma answered_with (pre : client -> Prop) r k : service_free pre -> pre k -> answered pre r (with_service r k).
Proof. intros Hf Hk. split; [by apply Hf|]. by intros svc ->. Qed.

Lemma triple_get_service (pre : client -> Prop) ns name :
  service_free pre -> wtriple pre (GetService ns name) (answered pre).
Proof.
  intros Hf. apply triple_step. intros k w r w' E Hk. exists (with_service r k).
  split; [intros Q HQ p; by eapply step_get_service|by apply answered_with].
Qed.

Lemma triple_update_service_status (pre : client -> Prop) svc sent :
  service_free pre -> (forall k, pre k -> ingress_writable k svc sent) ->
  wtriple (answered pre (Ok svc)) (UpdateServiceStatus sent) (answered pre).
Proof.
  intros Hf Hw. apply triple_step. intros k w r w' E [Hk Hs]. exists (with_service r k).
  split; [intros Q HQ p; eapply step_ingress; eauto|by apply answered_with].
Qed.

Lemma triple_update_service (pre : client -> Prop) svc :
  service_free pre -> wtriple (answered pre (Ok svc)) (UpdateService svc) (answered pre).
Proof.
  intros Hf. apply triple_step. intros k w r w' E [Hk Hs]. exists (with_service r k).
  split; [intros Q HQ p; eapply step_service; eauto|by apply answered_with].
Qed.

Lemma triple_get_config ns name :
  wtriple (fun k => target k = (ns, name)) (GetConfig ns name) (fun r k => forall hc, r = Ok hc -> cur k = Some hc).
Proof.
  apply triple_step. intros k w r w' E Ht. exists (with_cur r k). split; [|by intros hc ->].
  intros Q HQ p. apply step_read. by rw Ht.
Qed.

Lemma triple_list_configs (pre : client -> Prop) :
  (forall k items, pre k -> pre (with_listed (Ok items) k)) ->
  wtriple pre ListConfigs (fun r k => pre k /\ forall items, r = Ok items -> listed k = items).
Proof.
  intros Hp. apply triple_step. intros k w r w' E Hk. exists (with_listed r k). split.
  - intros Q HQ p. by apply step_list.
  - destruct r as [items|e]; [|done]. split; [by apply Hp|]. by intros ? [= <-].
Qed.

(** A write of the own object, with the object the machine knows after it. *)
Definition writes (hc sent : HeliosConfig) (k : client) : Prop :=
  cur k = Some hc /\ writable k hc sent.

Lemma triple_write hc sent (c : M W (result api_error HeliosConfig)) :
  (forall w r w', c w = (r, w') -> UpdateConfig sent w = (r, w') \/ UpdateConfigStatus sent w = (r, w')) ->
  wtriple (writes hc sent) c (fun r k => forall hc', r = Ok hc' -> cur k = Some hc').
Proof.
  intros Hc. apply triple_step. intros k w r w' E [Hcur Hs]. exists (with_cur r k).
  split; [|by intros hc' ->]. intros Q HQ p. eapply step_write; eauto.
Qed.

Lemma triple_update_config hc sent :
  wtriple (writes hc sent) (UpdateConfig sent) (fun r k => forall hc', r = Ok hc' -> cur k = Some hc').
Proof. apply triple_write. auto. Qed.
Lemma triple_update_config_status hc sent :
  wtriple (writes hc sent) (UpdateConfigStatus sent) (fun r k => forall hc', r = Ok hc' -> cur k = Some hc').
Proof. apply triple_write. auto. Qed.

Lemma triple_retry (inv : client -> Prop) fn :
  wtriple inv fn (fun _ => inv) -> wtriple inv (RetryOnConflict fn) (fun _ => inv).
Proof.
  intros Hf k w r w' Ha%retry_attempts. revert k.
  induction Ha as [w r w' E|w w1 r w' E _ IH]; intros k Hk; [by apply (Hf k w r w')|].
  destruct (Hf k _ _ _ E Hk) as (k1 & F1 & Hk1). destruct (IH k1 Hk1) as (k2 & F2 & Hk2).
  exists k2. split; [by eapply follows_trans|done].
Qed.

(** *** The controller's state *)

Lemma triple_world {A} pre (c : M W A) post :
  wtriple pre c post -> triple pre (on_world c : M (ctl P W) A) post.
Proof.
  intros Hc k s a s'. unfold on_world. destruct (c (world s)) as [b w] eqn:E. intros [= <- <-] Hk.
  destruct (Hc _ _ _ _ E Hk) as (k' & F & Hp). exists k'. split; [|done]. exists []. apply F.
Qed.

Lemma triple_record (pre : client -> Prop) f : triple pre (record (P := P) (W := W) f) (fun _ => pre).
Proof. intros k s a s' [= _ <-] Hk. exists k. split; [exists []; apply runs_nil|done]. Qed.
Lemma triple_emit (pre : client -> Prop) e : triple pre (emit (P := P) (W := W) e) (fun _ => pre).
Proof. intros k s a s' [= _ <-] Hk. exists k. split; [exists []; apply runs_nil|done]. Qed.

(** An operation of the pool. *)
Lemma follows_exec k hc o out p' (s : ctl P W) :
  exec o (networkMgr s) = (out, p') -> cur k = Some hc -> permitted k hc o ->
  follows k s (account o out k) (mkCtl p' (world s) (metrics s) (events s)).
Proof.
  intros E Hc Hp. exists [(o, out)]. apply runs_once. by eapply step_pool.
Qed.

Lemma triple_mark (inv : client -> Prop) ip :
  (forall k, inv k -> exists hc, cur k = Some hc /\ permitted k hc (OpMarkUsed ip)) ->
  triple inv (MarkUsed_ (P := P) (W := W) ip) (fun _ => inv).
Proof.
  intros Hp k s a s' [= _ <-] Hk. destruct (Hp k Hk) as (hc & Hc & Ho). exists k. split; [|done].
  exact (follows_exec k hc (OpMarkUsed ip) Done _ s eq_refl Hc Ho).
Qed.

Lemma triple_release (pre post : client -> Prop) ip :
  (forall k, pre k -> exists hc, cur k = Some hc /\ permitted k hc (OpRelease ip)) ->
  (forall k, pre k -> post (with_granted (granted k ∖ {[+ ip +]}) k)) ->
  triple pre (ReleaseIP_ (P := P) (W := W) ip) (fun _ => post).
Proof.
  intros Hp Hpost k s a s' [= _ <-] Hk. destruct (Hp k Hk) as (hc & Hc & Ho). eexists. split; [|by apply Hpost].
  exact (follows_exec k hc (OpRelease ip) Done _ s eq_refl Hc Ho).
Qed.

Lemma triple_allocate (pre : client -> Prop) hc r q :
  (forall k, pre k -> cur k = Some hc) ->
  (r = IPRange (hc_Spec hc) \/ (r <> ""%string /\ r = IPv6Range (hc_Spec hc))) ->
  triple pre (allocateIP (P := P) (W := W) r q) (fun res k => exists k0, pre k0 /\
    match res with Ok ip => k = with_granted ({[+ ip +]} ⊎ granted k0) k0 | Err _ => k = k0 end).
Proof.
  intros Hcur Hr k s res s' E Hk.
  assert (exists o p, exec o (networkMgr s) = (answer res, p) /\ permitted k hc o /\
            match o with OpAllocate _ | OpAllocateSpecific _ _ => True | _ => False end /\
            s' = mkCtl p (world s) (metrics s) (events s)) as (o & p & Ex & Hp & Ho & ->).
  { revert E. unfold allocateIP, on_pool. destruct (bool_decide (q = ""%string)).
    - destruct (pool_allocate r (networkMgr s)) as [res' p] eqn:E. intros [= <- <-].
      exists (OpAllocate r), p. cbn. by rw E.
    - destruct (pool_allocate_specific r q (networkMgr s)) as [res' p] eqn:E. intros [= <- <-].
      exists (OpAllocateSpecific r q), p. cbn. by rw E. }
  eexists. split; [exact (follows_exec k hc o _ p s Ex (Hcur k Hk) Hp)|]. exists k. split; [done|].
  by destruct res, o.
Qed.

End primitives.

(** ** The IP manager *)

Section manager.
Context {P W : Type} `{AddressPoolLaws P} `{EnvironmentLaws W}.
Abbreviation MC := (M (ctl P W)).

(** The memory while the code works on the version [hc] of its object. *)
Definition knows (hc : HeliosConfig) (k : client) : Prop := cur k = Some hc.

(** The two addresses are granted, the second unless it is empty. *)
Definition has_both (ip ipv6 : string) (k : client) : Prop :=
  {[+ ip +]} ⊎ (if bool_decide (ipv6 <> ""%string) then {[+ ipv6 +]} else ∅) ⊆ granted k.

Lemma has_both_granted ip ipv6 k :
  has_both ip ipv6 k -> ip ∈ granted k /\ (ipv6 <> ""%string -> ipv6 ∈ granted k).
Proof.
  unfold has_both. case_bool_decide; [split; [|intros _]|split; [|done]]; multiset_solver.
Qed.

Lemma triple_mark_map (inv : client -> Prop) m :
  (forall k j ip, inv k -> m !! j = Some ip -> exists hc, cur k = Some hc /\ permitted k hc (OpMarkUsed ip)) ->
  triple inv (mark_map m : MC unit) (fun _ => inv).
Proof.
  intros Hm. unfold mark_map. eapply triple_bind; [apply triple_world, triple_iterate|]. intros l. cbn beta.
  eapply (triple_conseq _ _ _ _ (fun _ k => inv k /\ l ≡ₚ map_to_list m)); [|intros k Hk; exact Hk|by intros ? k [? _]].
  apply triple_for_each. intros [j ip] Hin. apply triple_mark. intros k [Hk Hl]. rw Hl in Hin.
  apply elem_of_map_to_list in Hin. by eapply Hm.
Qed.

Lemma triple_mark_others hc items :
  triple (fun k => knows hc k /\ listed k = items) (mark_others hc items : MC unit) (fun _ => knows hc).
Proof.
  eapply (triple_conseq _ _ _ _ (fun _ k => knows hc k /\ listed k = items)); [|intros k Hk; exact Hk|by intros ? k [Hk _]].
  unfold mark_others. apply triple_for_each. intros other Hin.
  destruct (same_config other hc) eqn:Es; [by apply triple_ret|].
  eapply triple_bind; [|intros u]; apply triple_mark_map; intros k j ip [Hk Hl] Hj; exists hc;
    (split; [done|]); exists other; rw Hl; (split_and!; [done..|]); [left|right]; eauto.
Qed.

Lemma triple_assign_once hc svc ip ipv6 :
  let inv := fun k => knows hc k /\ has_both ip ipv6 k in
  triple (T := W) inv (assign_once svc ip ipv6) (fun _ => inv).
Proof.
  intros inv. assert (service_free inv) as Hf by (by intros k [?|?] Hk).
  assert (forall r k, answered inv r k -> inv k) as Ha by (by intros r k [? _]).
  unfold assign_once. eapply triple_bind; [by apply triple_get_service|].
  intros [svc1|e]; [|apply triple_ret; eauto].
  eapply triple_bind; [apply triple_update_service_status; [done|]|].
  - intros k [_ [H4 H6]%has_both_granted]. split_and!; [done|done|]. intros x Hx. cbn in Hx.
    destruct (bool_decide_reflect (ipv6 <> ""%string)).
    + apply elem_of_cons in Hx as [->|Hx]; [done|]. apply list_elem_of_singleton in Hx as ->. auto.
    + by apply list_elem_of_singleton in Hx as ->.
  - intros [svc2|e]; [|apply triple_ret; eauto].
    eapply triple_bind; [by apply triple_update_service|]. intros r. apply triple_ret. eauto.
Qed.

Lemma triple_release_both hc ip ipv6 (e : error) :
  triple (fun k => knows hc k /\ has_both ip ipv6 k)
    (ReleaseIP_ ip ;;
     (if bool_decide (ipv6 <> ""%string) then ReleaseIP_ ipv6 else ret tt) ;;
     ret (Err e : result error (string * string)) : MC _) (fun res k => knows hc k /\ res = Err e).
Proof.
  eapply triple_bind.
  - apply (triple_release _ (fun k => knows hc k /\ (ipv6 <> ""%string -> ipv6 ∈ granted k))).
    + intros k [Hk [H4 _]%has_both_granted]. exists hc. split; [done|by left].
    + intros k [Hk Hb]. split; [done|]. intros Hne. revert Hb. unfold has_both.
      rw bool_decide_eq_true_2 //. cbn [with_granted granted]. generalize (granted k). intros g Hb. multiset_solver.
  - intros u. eapply (triple_bind _ _ (fun _ => knows hc)); [|intros ?; by apply triple_ret].
    case_bool_decide as Hne; [|apply triple_ret; by intros k [? _]].
    apply triple_release; [|by intros k [? _]]. intros k [Hk Hi]. exists hc. split; [done|left; auto].
Qed.

(** An assignment that succeeds has been granted its addresses. *)
Lemma triple_AllocateAndAssign hc svc :
  triple (knows hc) (AllocateAndAssign hc svc : MC _) (fun res k => knows hc k /\
    forall ip ipv6, res = Ok (ip, ipv6) -> ip ∈ granted k /\ (ipv6 <> ""%string -> ipv6 ∈ granted k)).
Proof.
  unfold AllocateAndAssign. eapply triple_bind; [apply triple_world, triple_list_configs; done|].
  intros [items|e]; [|apply triple_ret; by intros k [Hk _]]. eapply triple_bind.
  { eapply triple_conseq; [apply (triple_mark_others hc items)|intros k [Hk Hl]; by auto|done]. }
  intros u. destruct (splitRequestedIP (svc_LoadBalancerIP svc)) as [q4 q6].
  eapply triple_bind; [apply (triple_allocate _ hc); [done|by left]|].
  intros [ip|e]; [|apply triple_ret; by intros k (k0 & Hk & ->)].
  eapply (triple_bind _ _ (fun res k => knows hc k /\
    match res with Ok ipv6 => has_both ip ipv6 k | Err _ => ip ∈ granted k end)).
  { case_bool_decide as Hr.
    - eapply triple_conseq; [apply (triple_allocate (fun k => knows hc k /\ ip ∈ granted k) hc)| |].
      + by intros k [? _].
      + by right.
      + intros k (k0 & Hk & ->). split; [exact Hk|]. cbn [with_granted granted]. multiset_solver.
      + intros [ipv6|e] k (k0 & [Hk Hi] & ->); (split; [done|]); [|done].
        unfold has_both. cbn [with_granted granted]. case_bool_decide; multiset_solver.
    - apply triple_ret. intros k (k0 & Hk & ->). split; [done|]. unfold has_both.
      rw bool_decide_eq_false_2; [|by intros []]. cbn [with_granted granted]. multiset_solver. }
  intros [ipv6|e].
  - eapply triple_bind; [apply triple_world, triple_retry, triple_assign_once|]. intros [[]|e].
    + eapply triple_bind; [apply triple_record|]. intros ?.
      eapply (triple_bind _ _ (fun _ k => knows hc k /\ has_both ip ipv6 k)).
      { case_bool_decide; [apply triple_record|by apply triple_ret]. }
      intros ?. apply triple_ret. intros k [Hk Hb]. split; [done|]. intros ? ? [= <- <-]. by apply has_both_granted.
    + eapply triple_conseq; [apply (triple_release_both hc ip ipv6)|done|]. by intros res k [Hk ->].
  - eapply (triple_bind _ _ (fun _ => knows hc)); [|intros ?; by apply triple_ret].
    apply triple_release; [|by intros k [? _]]. intros k [Hk Hi]. exists hc. split; [done|by left].
Qed.

(** ** Deletion *)

(** The object is being deleted. *)
Definition deletes (hc : HeliosConfig) (k : client) : Prop := knows hc k /\ hc_Deleting hc = true.

Lemma triple_release_loop hc entries names :
  (forall e, e ∈ entries -> owns hc (snd e)) ->
  triple (deletes hc) (release_loop entries names : MC _) (fun _ => deletes hc).
Proof.
  revert names. induction entries as [|[j ip] rest IH]; intros names Ho; cbn [release_loop].
  { by apply triple_ret. }
  eapply triple_bind; [apply (triple_release _ (deletes hc)); [|done]|].
  - intros k [Hk Hd]. exists hc. split; [done|]. right. split; [done|]. apply (Ho (j, ip)). set_solver.
  - intros u. eapply triple_bind; [apply triple_record|]. intros u'. apply IH. intros e He. apply Ho. set_solver.
Qed.

Lemma triple_clear_ingress inv ns name :
  service_free inv -> triple (T := W) inv (clear_ingress ns name) (fun _ => inv).
Proof.
  intros Hf. unfold clear_ingress. eapply triple_bind; [by apply triple_get_service|].
  intros [svc|e]; [|apply triple_ret; by intros k [? _]].
  eapply triple_bind; [apply triple_update_service_status; [done|]|intros r; apply triple_ret; by intros k [? _]].
  intros k _. split_and!; [done|done|]. by intros x ?%elem_of_nil.
Qed.

Lemma triple_ReleaseAll hc : triple (deletes hc) (ReleaseAll hc : MC _) (fun _ => deletes hc).
Proof.
  unfold ReleaseAll.
  assert (forall m names, (forall j x, m !! j = Some x -> owns hc x) ->
    forall l : list (string * string), triple (fun k => deletes hc k /\ l ≡ₚ map_to_list m)
      (release_loop l names : MC _) (fun _ => deletes hc)) as Hloop.
  { intros m names Hm l k s a s' E [Hk Hl]. eapply triple_release_loop; [|exact E|exact Hk].
    intros [j x] Hin. rw Hl in Hin. apply elem_of_map_to_list in Hin. by eapply Hm. }
  eapply triple_bind; [apply triple_world, triple_iterate|]. intros e4.
  eapply triple_bind; [apply Hloop; intros j x Hx; left; by exists j|]. intros names.
  eapply triple_bind; [apply triple_world, triple_iterate|]. intros e6.
  eapply triple_bind; [apply Hloop; intros j x Hx; right; by exists j|]. intros names2.
  eapply triple_bind; [apply triple_world, triple_iterate|]. intros l.
  eapply (triple_conseq _ (deletes hc) _ _ (fun _ => deletes hc)); [|by intros k [Hk _]|done].
  apply triple_for_each. intros e _. apply triple_world, triple_clear_ingress. by intros k [?|?] Hk.
Qed.

(** ** Conflicts *)

Lemma triple_conflict_loop inv hc items acc : triple (T := W) inv (conflict_loop hc items acc) (fun _ => inv).
Proof.
  assert (forall m r owner acc, triple (T := W) inv (conflict_map m r owner acc) (fun _ => inv)) as Hm.
  { intros m r owner a. unfold conflict_map. eapply triple_bind; [apply triple_iterate|]. intros l.
    apply triple_ret. by intros k [? _]. }
  revert acc. induction items as [|other rest IH]; intros acc; cbn [conflict_loop]; [by apply triple_ret|].
  destruct (same_config other hc); [apply IH|]. eapply triple_bind; [apply Hm|]. intros a.
  eapply (triple_bind _ _ (fun _ => inv)); [case_bool_decide; [apply Hm|by apply triple_ret]|]. intros b. apply IH.
Qed.

Lemma triple_CheckIPConflicts hc : triple (knows hc) (CheckIPConflicts hc : MC _) (fun _ => knows hc).
Proof.
  unfold CheckIPConflicts. apply triple_world. eapply triple_bind; [by apply triple_list_configs|].
  intros [items|e]; [|apply triple_ret; by intros k [? _]].
  eapply triple_bind; [apply triple_conflict_loop|]. intros c. apply triple_ret. by intros k [? _].
Qed.

(** ** Reconciliation *)

(** Writes that change no entry of the status. *)
Lemma writes_same hc sent k :
  hc_key sent = hc_key hc -> hc_ResourceVersion sent = hc_ResourceVersion hc ->
  hc_Spec sent = hc_Spec hc -> hc_Deleting sent = hc_Deleting hc ->
  AllocatedIPs (hc_Status sent) = AllocatedIPs (hc_Status hc) ->
  AllocatedIPv6s (hc_Status sent) = AllocatedIPv6s (hc_Status hc) -> knows hc k -> writes hc sent k.
Proof. intros Hk Hv Hs Hd H4 H6 Hc. split; [done|]. split_and!; try done. intros x. unfold owns. rw H4 H6. auto. Qed.

Lemma triple_try_update_status hc sent :
  triple (writes hc sent) (try_update_status sent : MC _) (fun _ _ => True).
Proof.
  unfold try_update_status. eapply triple_bind; [apply triple_world, (triple_update_config_status hc)|].
  intros r. by apply triple_ret.
Qed.

Lemma triple_process_services l hc : triple (knows hc) (process_services l hc : MC _) (fun _ _ => True).
Proof.
  revert hc. induction l as [|svc l IH]; intros hc; cbn [process_services]; [by apply triple_ret|].
  destruct (CheckQuota hc); [|eapply triple_bind; [apply triple_emit|intros ?; by apply triple_ret]].
  eapply triple_bind; [apply triple_AllocateAndAssign|]. intros [[ip ipv6]|err].
  - eapply triple_bind; [apply triple_emit|]. intros u. eapply triple_bind.
    { apply triple_world. eapply triple_weaken; [apply (triple_update_config_status hc)|].
      intros k [Hk Hi]. destruct (Hi _ _ eq_refl) as [H4 H6]. split; [done|]. split_and!; try done.
      intros x [?|[->|[Hne ->]]]%owns_mark_allocated; auto. }
    intros [hc2|e]; [|by apply triple_ret]. eapply triple_weaken; [apply (IH hc2)|]. intros k Hk. by apply Hk.
  - eapply triple_bind; [apply triple_emit|]. intros u. eapply triple_bind.
    { eapply triple_weaken; [apply (triple_try_update_status hc)|]. intros k [Hk _]. by apply writes_same. }
    intros hc2. eapply triple_bind; [apply triple_record|]. intros ?. by apply triple_ret.
Qed.

Lemma triple_reconcile_live hc : triple (knows hc) (reconcile_live hc : MC _) (fun _ _ => True).
Proof.
  unfold reconcile_live. eapply triple_bind; [apply triple_world, triple_list_services|].
  intros [items|e]; [|by apply triple_ret].
  eapply triple_bind; [apply triple_CheckIPConflicts|]. intros [conflicts|e]; [|by apply triple_ret].
  destruct (0 <? size conflicts)%nat.
  - eapply triple_bind; [apply triple_emit|]. intros u. eapply triple_bind.
    { eapply triple_weaken; [apply (triple_try_update_status hc)|]. intros k Hk. by apply writes_same. }
    intros hc2. eapply triple_bind; [apply triple_record|]. intros ?. by apply triple_ret.
  - eapply triple_bind; [apply triple_process_services|]. intros [[r|] hc2]; [by apply triple_ret|].
    eapply triple_bind; [apply triple_record|]. intros ?. by apply triple_ret.
Qed.

Lemma triple_ensure_finalizer hc :
  triple (knows hc) (ensure_finalizer hc : MC _) (fun r k => fst r = None -> knows (snd r) k).
Proof.
  unfold ensure_finalizer. rw add_finalizer. destruct (negb _); [|by apply triple_ret]. eapply triple_bind.
  { apply triple_world. eapply triple_weaken; [apply (triple_update_config hc)|]. intros k Hk. by apply writes_same. }
  intros [hc1|e]; [|by apply triple_ret]. eapply triple_bind.
  { apply triple_world. eapply triple_weaken; [apply (triple_update_config_status hc1)|].
    intros k Hk. apply writes_same; try done. by apply Hk. }
  intros [hc2|e]; [|by apply triple_ret]. apply triple_ret. intros k Hk _. by apply Hk.
Qed.

Lemma triple_handleDeletion hc : triple (deletes hc) (handleDeletion hc : MC _) (fun _ _ => True).
Proof.
  unfold handleDeletion. rw remove_finalizer. destruct (ContainsFinalizer _ _); [|by apply triple_ret].
  eapply triple_bind; [apply triple_emit|]. intros u. eapply triple_bind; [apply triple_ReleaseAll|]. intros u'.
  eapply triple_bind.
  { apply triple_world. eapply triple_weaken; [apply (triple_update_config hc)|]. intros k [Hk _]. by apply writes_same. }
  intros [hc1|e]; (eapply triple_bind; [apply triple_emit|]); intros ?; by apply triple_ret.
Qed.

Lemma triple_reconcile_config hc : triple (knows hc) (reconcile_config hc : MC _) (fun _ _ => True).
Proof.
  unfold reconcile_config. eapply triple_bind; [apply triple_ensure_finalizer|].
  intros [[e|] hc1]; [by apply triple_ret|]. destruct (hc_Deleting hc1) eqn:Ed.
  - eapply triple_bind.
    { eapply triple_weaken; [apply (triple_handleDeletion hc1)|]. intros k Hk. split; [by apply Hk|done]. }
    intros [[u|e] hc2]; by apply triple_ret.
  - eapply triple_weaken; [apply (triple_reconcile_live hc1)|]. intros k Hk. by apply Hk.
Qed.

Lemma triple_Reconcile ns name :
  triple (fun k => k = start ns name) (Reconcile ns name : MC _) (fun _ _ => True).
Proof.
  unfold Reconcile. eapply triple_bind; [apply triple_world, triple_now|]. intros t.
  eapply triple_bind.
  { apply triple_world. eapply triple_weaken; [apply triple_get_config|]. by intros k ->. }
  intros [hc|[| |]]; [|by apply triple_ret..]. eapply triple_bind.
  { eapply triple_weaken; [apply (triple_reconcile_config hc)|]. intros k Hk. by apply Hk. }
  intros out. eapply (triple_bind _ _ (fun _ _ => True)); [|intros ?; by apply triple_ret].
  unfold record_reconcile. eapply triple_bind; [apply triple_world, triple_now|]. intros now.
  do 2 (eapply triple_bind; [apply triple_record|]; intros ?). apply triple_record.
Qed.

End manager.

(** ** Properties *)

Section claims.
Context {P W : Type} `{AddressPoolLaws P} `{EnvironmentLaws W}.

(** C3. The controller follows its protocol.  Whatever the cluster answers, a
    reconciliation is a run of the protocol machine, from a memory that knows
    nothing but the requested name, over the same pool and the same calls of
    the environment: it allocates only from the two ranges of the object it
    read, marks only addresses that other configurations it listed record,
    releases only addresses granted to it or, when its object is being
    deleted, those the object records, writes no other configuration, no other
    spec, and no address into a status or an ingress that it was not granted
    or that was not there before; and the pool it leaves is the one the
    operations of this run lead to. *)
Theorem controller_refines_protocol (ns name : string) (s s' : ctl P W) (out : result error Result) :
  Reconcile ns name s = (out, s') ->
  exists k tr, runs (start ns name, networkMgr s, world s) tr (k, networkMgr s', world s') /\
    run (networkMgr s) tr (networkMgr s').
Proof.
  intros Hr. destruct (triple_Reconcile ns name _ _ _ _ Hr eq_refl) as (k & [tr F] & _).
  exists k, tr. split; [done|]. exact (runs_pool _ _ _ F).
Qed.

End claims.

Lemma controller_refines_protocol_witness :
  exists k tr, runs (start "ns" "lb", networkMgr live_state, world live_state) tr
                    (k, networkMgr (snd (Reconcile "ns" "lb" live_state)),
                     world (snd (Reconcile "ns" "lb" live_state))) /\
    (Granted "192.0.2.11" ∈ tr.*2 \/ OpMarkUsed "192.0.2.11" ∈ tr.*1).
Proof.
  destruct (controller_refines_protocol "ns" "lb" live_state (snd (Reconcile "ns" "lb" live_state))
    (fst (Reconcile "ns" "lb" live_state))) as (k & tr & Hr & Hp); [apply surjective_pairing|].
  exists k, tr. split; [exact Hr|]. apply (run_new _ _ _ "192.0.2.11" Hp); vm_compute; reflexivity.
Defined.
