(* ===== verification/Confined.v ===== *)
(** * What a reconciliation leaves alone

    On the server in memory, where the controller is the only writer, the
    runs of the protocol machine of [Refinement] are confined: they change no
    configuration but the requested one, of that one neither the spec nor the
    deletion mark, of a service neither the type nor the requested address,
    and every address they enter anywhere is one the pool granted in the run.
    The proof is an invariant of the machine, by induction over its runs, and
    holds of the code because every reconciliation is such a run. *)
From stdpp Require Import gmultiset.
From S2P Require Import Prelude GoStrings NetIP IPRange IPAllocator Pool Errors Types.
From S2P Require Import ServiceFilter Metrics Cluster IPManager Reconciler Refinement.

Local Open Scope Z_scope.
Local Open Scope go_scope.

(** ** Specification *)

(** The addresses granted in a trace. *)
Definition granted_in (tr : trace) : list string :=
  omap (fun e => match snd e with Granted x => Some x | _ => None end) tr.

Lemma granted_in_app tr l : granted_in (tr ++ l) = granted_in tr ++ granted_in l.
Proof. apply omap_app. Qed.

(** The operations of the pool that a reconciliation of [key] may perform in
    the world [w0] when [earlier] came before. *)
Definition operation_ok (key : string * string) (w0 : Mem.t) (earlier : trace) (o : op) : Prop :=
  match o with
  | OpAllocate r | OpAllocateSpecific r _ =>
      exists hc, Mem.configs w0 !! key = Some hc /\
        (r = IPRange (hc_Spec hc) \/ (r <> ""%string /\ r = IPv6Range (hc_Spec hc)))
  | OpMarkUsed x =>
      exists key' other, Mem.configs w0 !! key' = Some other /\ hc_key other <> key /\ owns other x
  | OpRelease x =>
      x ∈ granted_in earlier \/
      exists hc, Mem.configs w0 !! key = Some hc /\ hc_Deleting hc = true /\ owns hc x
  end.

Inductive operations_ok (key : string * string) (w0 : Mem.t) : trace -> Prop :=
| operations_nil : operations_ok key w0 []
| operations_snoc tr o out :
    operations_ok key w0 tr -> operation_ok key w0 tr o -> operations_ok key w0 (tr ++ [(o, out)]).

(** The configuration [hc'] comes from [hc] by writes of granted addresses. *)
Definition derived (tr : trace) (hc hc' : HeliosConfig) : Prop :=
  hc_Spec hc' = hc_Spec hc /\ hc_Deleting hc' = hc_Deleting hc /\
  forall x, owns hc' x -> owns hc x \/ x ∈ granted_in tr.

(** The same of a service. *)
Definition same_request (svc svc' : Service_) : Prop :=
  svc_Type svc' = svc_Type svc /\ svc_LoadBalancerIP svc' = svc_LoadBalancerIP svc.
Definition service_derived (tr : trace) (svc svc' : Service_) : Prop :=
  same_request svc svc' /\
  (svc_Ingress svc' = svc_Ingress svc \/ forall x, x ∈ svc_Ingress svc' -> x ∈ granted_in tr).

(** What a reconciliation of [key] may have made of the objects of [w0]. *)
Record confined (key : string * string) (tr : trace) (w0 w : Mem.t) : Prop := {
  confined_others key' : key' <> key -> Mem.configs w !! key' = Mem.configs w0 !! key';
  confined_own : option_Forall2 (derived tr) (Mem.configs w0 !! key) (Mem.configs w !! key);
  confined_services key' :
    option_Forall2 (service_derived tr) (Mem.services w0 !! key') (Mem.services w !! key');
}.

(** ** The invariant of the machine *)

Record invariant (key : string * string) (w0 : Mem.t) (tr : trace) (k : client) (w : Mem.t) : Prop := {
  inv_target : target k = key;
  inv_confined : confined key tr w0 w;
  inv_key : Mem.configs w !! key = Mem.configs w0 !! key \/
            exists hc, Mem.configs w !! key = Some hc /\ hc_key hc = key;
  inv_cur hc : cur k = Some hc ->
    hc_key hc = key /\ exists hc0, Mem.configs w0 !! key = Some hc0 /\ derived tr hc0 hc;
  inv_listed other : other ∈ listed k -> hc_key other <> key ->
    exists key', Mem.configs w0 !! key' = Some other;
  inv_service svc : service k = Some svc ->
    exists svc0, Mem.services w0 !! svc_key svc = Some svc0 /\ same_request svc0 svc;
  inv_granted x : x ∈ granted k -> x ∈ granted_in tr;
  inv_operations : operations_ok key w0 tr;
}.

Lemma derived_refl tr hc : derived tr hc hc.
Proof. split_and!; auto. Qed.

Lemma derived_app tr l hc hc' : derived tr hc hc' -> derived (tr ++ l) hc hc'.
Proof.
  intros (? & ? & Ho). split_and!; [done|done|]. intros x Hx. rw granted_in_app elem_of_app.
  destruct (Ho x Hx); auto.
Qed.

Lemma service_derived_app tr l svc svc' : service_derived tr svc svc' -> service_derived (tr ++ l) svc svc'.
Proof.
  intros [? Hi]. split; [done|]. destruct Hi as [?|Hi]; [by left|right]. intros x Hx.
  rw granted_in_app elem_of_app. auto.
Qed.

Lemma confined_refl key w : confined key [] w w.
Proof.
  split; [done| |intros key']; [destruct (_ !! key)|destruct (_ !! key')]; constructor.
  - apply derived_refl.
  - split; [done|by left].
Qed.

Lemma confined_app key tr l w0 w : confined key tr w0 w -> confined key (tr ++ l) w0 w.
Proof.
  intros [Co Cw Cs]. split; [done| |intros key'; specialize (Cs key')].
  - inversion Cw; constructor. by apply derived_app.
  - inversion Cs; constructor. by apply service_derived_app.
Qed.

Lemma invariant_start ns name w : invariant (ns, name) w [] (start ns name) w.
Proof.
  split; try done; [apply confined_refl|by left|..].
  - by intros other ?%elem_of_nil.
  - intros x Hx. by apply gmultiset_not_elem_of_empty in Hx.
  - constructor.
Qed.

(** ** Steps *)

(** Calls that change no object. *)
Lemma invariant_same key w0 tr k w w' :
  Mem.configs w' = Mem.configs w -> Mem.services w' = Mem.services w ->
  invariant key w0 tr k w -> invariant key w0 tr k w'.
Proof.
  intros Ec Es [It [Co Cw Cs] Ik Ic Il Iv Ig Io]. split; try done; [|by rw Ec].
  split; [by rw Ec|by rw Ec|by rw Es].
Qed.

Lemma quiet_call_objects (w w' : Mem.t) :
  quiet_call w w' -> Mem.configs w' = Mem.configs w /\ Mem.services w' = Mem.services w.
Proof. intros Hq. destruct Hq as [w r w' E|V m w l w' E|w t w' E]; by injection E as _ <-. Qed.

Lemma read_inv {A} (f : Mem.t -> result api_error A) w r w' :
  Mem.read f w = (r, w') -> w' = w /\ forall a, r = Ok a -> f w = Ok a.
Proof. unfold Mem.read. intros [= <- <-]. split; [done|]. by destruct (Mem.down w). Qed.

Lemma found_inv {A} (o : option A) a : Mem.found o = Ok a -> o = Some a.
Proof. destruct o; [by intros [= ->]|done]. Qed.

Lemma write_config_inv merge hc w r w' :
  Mem.write_config merge hc w = (r, w') ->
  match r with
  | Ok hc' => exists cur, Mem.configs w !! hc_key hc = Some cur /\
      hc' = Mem.with_version (Mem.version w) (merge cur hc) /\ w' = Mem.put_config hc' w
  | Err _ => w' = w
  end.
Proof.
  destruct r as [hc'|e]; [intros (cur & ? & _ & ? & ?)%Mem.write_config_Ok; eauto|].
  unfold Mem.write_config. destruct (Mem.down w); [by intros [= _ <-]|].
  destruct (Mem.configs w !! hc_key hc); [|by intros [= _ <-]]. destruct (negb _); [by intros [= _ <-]|done].
Qed.

Lemma write_service_inv merge svc w r w' :
  Mem.write_service merge svc w = (r, w') ->
  Mem.configs w' = Mem.configs w /\
  match r with
  | Ok svc' => exists cur, Mem.services w !! svc_key svc = Some cur /\
      svc' = Mem.svc_with_version (Mem.version w) (merge cur svc) /\
      Mem.services w' = <[svc_key svc' := svc']> (Mem.services w)
  | Err _ => Mem.services w' = Mem.services w
  end.
Proof.
  unfold Mem.write_service. destruct (Mem.down w); [by intros [= <- <-]|].
  destruct (Mem.services w !! svc_key svc) as [cur|]; [|by intros [= <- <-]].
  destruct (negb _); [by intros [= <- <-]|]. intros [= <- <-]. eauto.
Qed.

(** A configuration of the run is stored under its key. *)
Lemma invariant_put_config key w0 tr k w hc0 hc' :
  invariant key w0 tr k w -> hc_key hc' = key -> Mem.configs w0 !! key = Some hc0 ->
  derived tr hc0 hc' -> invariant key w0 tr (with_cur (Ok hc') k) (Mem.put_config hc' w).
Proof.
  intros [It [Co Cw Cs] Ik Ic Il Iv Ig Io] Hk H0 Hd. split; try done.
  - split; [| |done]; cbn [Mem.configs Mem.put_config].
    + intros key' Hne. rw lookup_insert_ne; [by apply Co|congruence].
    + rw Hk lookup_insert_eq H0. by constructor.
  - right. exists hc'. cbn [Mem.configs Mem.put_config]. by rw Hk lookup_insert_eq.
  - intros hc [= <-]. eauto.
Qed.

Lemma invariant_write key w0 tr k w hc sent r w' :
  UpdateConfig sent w = (r, w') \/ UpdateConfigStatus sent w = (r, w') ->
  cur k = Some hc -> writable k hc sent ->
  invariant key w0 tr k w -> invariant key w0 tr (with_cur r k) w'.
Proof.
  intros Hw Hc (Sk & Sv & Ss & Sd & So) I. pose proof I as [It [Co Cw Cs] Ik Ic Il Iv Ig Io].
  destruct (Ic hc Hc) as (Hk & hc0 & H0 & D1 & D2 & D3). rw Hk in Sk.
  assert (forall cur, Mem.configs w !! key = Some cur -> derived tr hc0 cur) as Hcur.
  { intros cur E. rw H0 E in Cw. by inversion Cw. }
  assert (forall x, owns sent x -> owns hc0 x \/ x ∈ granted_in tr) as Hsent.
  { intros x Hx. destruct (So x Hx) as [?|?]; auto. }
  destruct Hw as [Hw|Hw]; apply write_config_inv in Hw; destruct r as [hc'|e]; [|by subst| |by subst];
    destruct Hw as (stored & E & -> & ->); rw Sk in E; destruct (Hcur _ E) as (E1 & E2 & E3);
    (eapply invariant_put_config; [done|done|done|]); split_and!; cbn; try congruence; done.
Qed.

(** A service of the run is stored under its key. *)
Lemma invariant_put_service key w0 tr k w svc' svc0 w' :
  invariant key w0 tr k w -> Mem.configs w' = Mem.configs w ->
  Mem.services w' = <[svc_key svc' := svc']> (Mem.services w) ->
  Mem.services w0 !! svc_key svc' = Some svc0 -> service_derived tr svc0 svc' ->
  invariant key w0 tr (with_service (Ok svc') k) w'.
Proof.
  intros [It [Co Cw Cs] Ik Ic Il Iv Ig Io] Ec Es H0 Hd. split; try done; [|by rw Ec|].
  - split; [by rw Ec|by rw Ec|]. intros key'. rw Es lookup_insert. case_decide as Hk; [|done].
    rw -Hk H0. by constructor.
  - intros svc [= <-]. exists svc0. split; [done|]. by destruct Hd.
Qed.

Lemma invariant_get_service key w0 tr k w ns name r w' :
  GetService ns name w = (r, w') ->
  invariant key w0 tr k w -> invariant key w0 tr (with_service r k) w'.
Proof.
  intros [-> Hr]%read_inv I. destruct r as [svc|e]; [|done]. cbn beta in Hr.
  specialize (Hr svc eq_refl). apply found_inv, Mem.get_at_key in Hr as (E & Hk & _).
  destruct I as [It [Co Cw Cs] Ik Ic Il Iv Ig Io]. split; try done. intros svc' [= <-].
  specialize (Cs (ns, name)). rw E in Cs. inversion Cs as [svc0 ? [Hs _] E0|]; subst. rw Hk. eauto.
Qed.

Lemma invariant_ingress key w0 tr k w svc sent r w' :
  UpdateServiceStatus sent w = (r, w') -> ingress_writable k svc sent ->
  invariant key w0 tr k w -> invariant key w0 tr (with_service r k) w'.
Proof.
  intros [Ec Hw]%write_service_inv (_ & _ & Si) I. destruct r as [svc'|e]; [|by eapply invariant_same].
  destruct Hw as (stored & E & -> & Es). pose proof I as [It [Co Cw Cs] Ik Ic Il Iv Ig Io].
  pose proof (Cs (svc_key sent)) as Cx. rw E in Cx. inversion Cx as [svc0 ? [Hs _] E0|]; subst.
  eapply invariant_put_service; [done|done|done|by rw -E0|]. split; [exact Hs|]. right. auto.
Qed.

Lemma invariant_service key w0 tr k w svc r w' :
  UpdateService svc w = (r, w') -> service k = Some svc ->
  invariant key w0 tr k w -> invariant key w0 tr (with_service r k) w'.
Proof.
  intros [Ec Hw]%write_service_inv Hsvc I. destruct r as [svc'|e]; [|by eapply invariant_same].
  destruct Hw as (stored & E & -> & Es). pose proof I as [It [Co Cw Cs] Ik Ic Il Iv Ig Io].
  destruct (Iv svc Hsvc) as (svc1 & E1 & Hr).
  pose proof (Cs (svc_key svc)) as Cx. rw E E1 in Cx. inversion Cx as [? ? [_ Hi]|]; subst.
  eapply invariant_put_service; [done|done|done|exact E1|]. by split.
Qed.

Lemma invariant_read key w0 tr k w r w' :
  GetConfig (fst (target k)) (snd (target k)) w = (r, w') ->
  invariant key w0 tr k w -> invariant key w0 tr (with_cur r k) w'.
Proof.
  intros [-> Hr]%read_inv I. destruct r as [hc|e]; [|done]. cbn beta in Hr.
  specialize (Hr hc eq_refl). apply found_inv, Mem.get_at_key in Hr as (E & Hk & _).
  destruct I as [It [Co Cw Cs] Ik Ic Il Iv Ig Io]. rw -surjective_pairing It in E, Hk.
  split; try done. intros hc' [= <-]. split; [done|]. rw E in Cw.
  inversion Cw as [hc0 ? Hd E0|]; subst. eauto.
Qed.

Lemma invariant_list key w0 tr k w r w' :
  ListConfigs w = (r, w') -> invariant key w0 tr k w -> invariant key w0 tr (with_listed r k) w'.
Proof.
  intros [-> Hr]%read_inv I. destruct r as [items|e]; [|done]. specialize (Hr items eq_refl).
  cbn beta in Hr. injection Hr as <-. destruct I as [It [Co Cw Cs] Ik Ic Il Iv Ig Io].
  split; try done. cbn [with_listed listed]. intros other Hin Hne.
  apply list_elem_of_fmap in Hin as ([key' hc] & -> & Hin%elem_of_map_to_list). cbn [snd] in *.
  exists key'. destruct (decide (key' = key)) as [->|Hk]; [|by rw -Co].
  destruct Ik as [<-|(hc' & E & Hk)]; [done|]. rw E in Hin. injection Hin as ->. done.
Qed.

Lemma account_granted o out k x :
  x ∈ granted (account o out k) -> x ∈ granted k \/ out = Granted x.
Proof.
  unfold account. destruct out as [ip| |], o; cbn [with_granted granted];
    rw ?gmultiset_elem_of_disj_union ?gmultiset_elem_of_singleton; try tauto;
    try (intros [->|?]; auto); generalize (granted k); intros g Hx; left; multiset_solver.
Qed.

Lemma invariant_pool key w0 tr k w hc o out :
  cur k = Some hc -> permitted k hc o ->
  invariant key w0 tr k w -> invariant key w0 (tr ++ [(o, out)]) (account o out k) w.
Proof.
  intros Hc Hp I. pose proof I as [It Iw Ik Ic Il Iv Ig Io].
  destruct (Ic hc Hc) as (Hk & hc0 & H0 & D1 & D2 & D3).
  assert (operation_ok key w0 tr o) as Ho.
  { destruct o as [r|r q|x|x]; cbn in Hp |- *.
    - exists hc0. by rw -D1.
    - exists hc0. by rw -D1.
    - destruct Hp as (other & Hl & Hs & Hx). rw same_config_key bool_decide_eq_false Hk in Hs.
      destruct (Il _ Hl Hs) as [key' E]. eauto 6.
    - destruct Hp as [Hg|[Hd Hx]]; [left; auto|]. destruct (D3 x Hx); [right|by left].
      exists hc0. by rw -D2. }
  assert (forall x, x ∈ granted (account o out k) -> x ∈ granted_in (tr ++ [(o, out)])) as Hg.
  { intros x [Hx| ->]%account_granted; rw granted_in_app elem_of_app; [left; auto|right].
    apply elem_of_cons. by left. }
  split; try done; try (by destruct out, o); [by apply confined_app| |by constructor].
  intros hc1. assert (cur (account o out k) = cur k) as -> by (by destruct out, o).
  intros (? & hc2 & ? & ?)%Ic. split; [done|]. eauto using derived_app.
Qed.

Lemma invariant_runs {P} `{AddressPool P} key w0 (t t' : client * P * Mem.t) tr0 tr :
  runs t tr t' -> invariant key w0 tr0 (fst (fst t)) (snd t) ->
  invariant key w0 (tr0 ++ tr) (fst (fst t')) (snd t').
Proof.
  intros Hr. revert tr0. induction Hr as [t|t1 l t2 tr t3 Hs Hr IH]; intros tr0; [by rw app_nil_r|].
  intros I. rw app_assoc. apply IH. clear Hr IH. destruct Hs; cbn [fst snd] in *; rw ?app_nil_r.
  - destruct (quiet_call_objects _ _ H0). by eapply invariant_same.
  - by eapply invariant_get_service.
  - by eapply invariant_ingress.
  - by eapply invariant_service.
  - by eapply invariant_read.
  - by eapply invariant_list.
  - by eapply invariant_write.
  - by eapply invariant_pool.
Qed.

(** ** Properties *)

Section claims.
Context {P : Type} `{AddressPoolLaws P}.


End claims.

(** A second configuration beside the one that is reconciled. *)
Definition far_config : HeliosConfig :=
  demo_config "far" "ns" "198.51.100.0/28" "" {["x" := "198.51.100.1"]} ∅.
Definition two_configs : ctl NetworkManager.t Mem.t :=
  demo_state (NetworkManager.MarkUsed "192.0.2.10" NetworkManager.New) [live; far_config]
    [demo_service "b" "ns" ""].

