(* ===== verification/Progress.v ===== *)
(** * What the controller achieves

    The other side of the safety theorems: on a server that answers
    ([Server]) and with room in the ranges ([Capacity]) for what the services
    request, a reconciliation serves every waiting service, and the next one
    finds nothing left to do.
    The results are proved against the interfaces of the pool and of the
    server, and run on the network manager and the server in memory. *)
From S2P Require Import Prelude GoStrings NetIP IPRange IPAllocator Pool Capacity Errors Types.
From S2P Require Import ServiceFilter Metrics Cluster Server IPManager Reconciler.

Local Open Scope Z_scope.
Local Open Scope go_scope.

(** ** Addresses of the other configurations *)

Definition values (m : gmap string string) : gset string := list_to_set (map_to_list m).*2.

Lemma elem_of_value_set m x : x ∈ values m <-> exists k, m !! k = Some x.
Proof. unfold values. by rw elem_of_list_to_set elem_of_map_values. Qed.

Definition owned (hc : HeliosConfig) : gset string :=
  values (AllocatedIPs (hc_Status hc)) ∪ values (AllocatedIPv6s (hc_Status hc)).

Lemma elem_of_owned hc x : x ∈ owned hc <-> owns hc x.
Proof. unfold owned, owns. by rw elem_of_union !elem_of_value_set. Qed.

Lemma Forall_pairs {A} (R : A -> A -> Prop) (l : list A) :
  Forall (fun a => Forall (R a) l) l <-> forall a b, a ∈ l -> b ∈ l -> R a b.
Proof.
  rw list.Forall_forall. split.
  - intros Hl a b Ha Hb. exact (proj1 (list.Forall_forall _ _) (Hl a Ha) b Hb).
  - intros Hl a Ha. apply list.Forall_forall. auto.
Qed.

Section progress.
Context {P W : Type} `{AddressPoolLaws P} `{!PoolCapacity P} `{!PoolCapacityLaws P}.
Context `{EnvironmentLaws W} `{!Server W} `{!ServerLaws W}.
Implicit Types (w : W) (s : ctl P W).

Abbreviation in_use := (fun s x => pool_in_use (networkMgr s) x = true).

Definition held_by_others w (hc : HeliosConfig) : gset string :=
  ⋃ ((fun e => if decide (fst e = hc_key hc) then ∅ else owned (snd e)) <$> map_to_list (configs_of w)).

Lemma elem_of_held_by_others w hc x :
  x ∈ held_by_others w hc <->
  exists k other, configs_of w !! k = Some other /\ k <> hc_key hc /\ owns other x.
Proof.
  unfold held_by_others. rw elem_of_union_list. split.
  - intros (X & ([k o] & -> & Hin%elem_of_map_to_list)%list_elem_of_fmap & Hx). simpl in Hx.
    destruct (decide (k = hc_key hc)); [set_solver|]. exists k, o. by rw -elem_of_owned.
  - intros (k & o & Hl & Hk & Ho). exists (owned o). split; [|by apply elem_of_owned].
    apply list_elem_of_fmap. exists (k, o). simpl. by rw decide_False // elem_of_map_to_list.
Qed.

(** The marks [AllocateAndAssign] sets are those addresses. *)
Lemma others_listed w items hc x :
  up w -> items ≡ₚ (map_to_list (configs_of w)).*2 ->
  (exists other, other ∈ items /\ same_config other hc = false /\ owns other x) <->
  x ∈ held_by_others w hc.
Proof.
  intros Hu Hp. rw elem_of_held_by_others. split.
  - intros (o & Hin & Hs & Ho). rw same_config_key bool_decide_eq_false in Hs.
    exists (hc_key o), o. by rw -(elem_of_configs w items).
  - intros (k & o & Hl & Hk & Ho). pose proof (config_keys w k o Hu Hl) as <-.
    exists o. rw same_config_key bool_decide_eq_false. by rw (elem_of_configs w items).
Qed.

(** Nobody has the address: it is not in use and no other configuration
    records it. *)
Definition unheld s (hc : HeliosConfig) (x : string) : Prop :=
  pool_in_use (networkMgr s) x = false /\ x ∉ held_by_others (world s) hc.

(** The addresses the configuration can still hand out of a range. *)
Definition available s (hc : HeliosConfig) (r : string) : gset string :=
  free (networkMgr s) r ∖ held_by_others (world s) hc.

Lemma elem_of_available s hc r x :
  x ∈ available s hc r <-> x ∈ pool_covers (networkMgr s) r /\ unheld s hc x.
Proof. unfold available, unheld. rw elem_of_difference elem_of_free. tauto. Qed.

Lemma unheld_unused s hc x : unheld s hc x -> ~ in_use s x.
Proof. by intros [-> _]. Qed.

(** What a service asks of the two ranges; the empty string for any
    address. *)
Definition request4 (svc : Service_) : string := fst (splitRequestedIP (svc_LoadBalancerIP svc)).
Definition request6 (svc : Service_) : string := snd (splitRequestedIP (svc_LoadBalancerIP svc)).

(** The addresses that may answer a request. *)
Definition reach (p : P) (r q : string) : gset string :=
  if decide (q = ""%string) then pool_covers p r else {[canonical q]}.

Lemma elem_of_reach p r q x :
  x ∈ reach p r q <-> if decide (q = ""%string) then x ∈ pool_covers p r else x = canonical q.
Proof. unfold reach. case_decide; [done|]. by rw elem_of_singleton. Qed.

(** The requests can all be granted from a range, in any order: there are as
    many available addresses as requests for any address, the particular
    addresses are allocatable, unheld and distinct, and a request for any
    address cannot be answered with one of them. *)
Definition fits (r : string) (qs : list string) (hc : HeliosConfig) s : Prop :=
  (length (filter (fun q => q = ""%string) qs) <= size (available s hc r))%nat /\
  Forall (fun q => q <> ""%string ->
    IPAllocatable q r = true /\ unheld s hc (canonical q) /\
    (""%string ∈ qs -> canonical q ∉ pool_covers (networkMgr s) r)) qs /\
  NoDup (canonical <$> filter (fun q => q <> ""%string) qs).

(** Room for the services in both ranges; what answers a request for one range
    does not answer one for the other. *)
Definition room (l : list Service_) (hc : HeliosConfig) s : Prop :=
  fits (IPRange (hc_Spec hc)) (request4 <$> l) hc s /\
  (IPv6Range (hc_Spec hc) = ""%string \/
   fits (IPv6Range (hc_Spec hc)) (request6 <$> l) hc s /\
   Forall (fun a => Forall (fun b =>
     reach (networkMgr s) (IPRange (hc_Spec hc)) (request4 a) ##
     reach (networkMgr s) (IPv6Range (hc_Spec hc)) (request6 b)) l) l).

Lemma fits_perm r qs qs' hc s : qs ≡ₚ qs' -> fits r qs hc s -> fits r qs' hc s.
Proof.
  intros Hp (Hn & Hs & Hd). split_and!.
  - by setoid_rewrite <- Hp.
  - rw !list.Forall_forall in Hs |- *. intros q Hq. setoid_rewrite <- Hp. apply Hs. by setoid_rewrite Hp.
  - by setoid_rewrite <- Hp.
Qed.

Lemma room_perm l l' hc s : l ≡ₚ l' -> room l hc s -> room l' hc s.
Proof.
  intros Hp [R4 R6]. split; [exact (fits_perm _ _ _ _ _ (fmap_Permutation _ _ _ Hp) R4)|].
  destruct R6 as [?|[R6 Hd]]; [by left|right]. split; [exact (fits_perm _ _ _ _ _ (fmap_Permutation _ _ _ Hp) R6)|].
  rw !Forall_pairs in Hd |- *. intros a b Ha Hb. apply Hd; by setoid_rewrite Hp.
Qed.

(** ** Code that changes no object and no range *)

Definition calm w w' : Prop := up w -> unchanged w w'.

#[export] Instance calm_preorder : PreOrder calm.
Proof.
  split; [by intros w Hu; apply unchanged_refl|]. intros w1 w2 w3 U1 U2 Hu.
  pose proof (U1 Hu) as Hu1. apply (unchanged_trans _ _ _ Hu1), U2, Hu1.
Qed.

Lemma calm_iterate {V} (m : gmap string V) : moves calm (iterate m).
Proof. intros w l w' E Hu. destruct (iterate_up m w Hu) as (? & ? & E' & ? & _). congruence. Qed.

Lemma calm_now : moves calm Now.
Proof. intros w l w' E Hu. destruct (now_up w Hu) as (? & ? & E' & ?). congruence. Qed.

Lemma calm_list_configs : moves calm ListConfigs.
Proof. intros w l w' E Hu. destruct (list_configs_up w Hu) as (? & ? & E' & ? & _). congruence. Qed.
Hint Resolve calm_iterate calm_now calm_list_configs : helios.

Lemma calm_conflict_loop hc items acc : moves calm (conflict_loop (W := W) hc items acc).
Proof.
  revert acc. induction items as [|o items IH]; intros acc; simpl; [moves|]. unfold conflict_map. moves.
Qed.
Hint Resolve calm_conflict_loop : helios.

Definition steady s s' : Prop :=
  calm (world s) (world s') /\
  forall r, pool_covers (networkMgr s') r = pool_covers (networkMgr s) r.

#[export] Instance steady_preorder : PreOrder steady.
Proof.
  split; [by intros s; split|].
  intros s1 s2 s3 [U1 C1] [U2 C2]. split; [|intros r; by rw C2]. by transitivity (world s2).
Qed.

Lemma steady_world {A} (c : M W A) : moves calm c -> moves steady (on_world (P := P) c).
Proof.
  intros Hc s a s'. unfold on_world. destruct (c (world s)) as [b w'] eqn:E.
  intros [= _ <-]. split; [by eapply Hc|done].
Qed.
Hint Resolve steady_world : helios.

Lemma steady_mark ip : moves steady (MarkUsed_ (W := W) ip).
Proof. intros s a s' [= _ <-]. split; [done|]. intros r. apply covers_mark. Qed.

Lemma steady_record f : moves steady (record (P := P) (W := W) f).
Proof. by intros s a s' [= _ <-]. Qed.

Lemma steady_emit e : moves steady (emit (P := P) (W := W) e).
Proof. by intros s a s' [= _ <-]. Qed.
Hint Resolve steady_mark steady_record steady_emit : helios.

Lemma steady_mark_others hc items : moves steady (mark_others (P := P) (W := W) hc items).
Proof. unfold mark_others, mark_map. moves. Qed.

Lemma steady_CheckIPConflicts hc : moves steady (CheckIPConflicts (P := P) (W := W) hc).
Proof. unfold CheckIPConflicts. apply steady_world. moves. Qed.

(** ** One assignment *)

Lemma assign_once_up svc ip ipv6 w cur :
  up w -> services_of w !! svc_key svc = Some cur ->
  exists svc' w', assign_once svc ip ipv6 w = (Ok tt, w') /\ puts_service svc' w w' /\
    svc_key svc' = svc_key svc /\ svc_Ingress svc' = ingress_of ip ipv6.
Proof.
  intros Hu Hl. unfold assign_once, bind.
  destruct (get_service_up _ _ w cur Hu Hl) as (w1 & -> & [U1 C1 S1]).
  pose proof (service_keys w _ _ Hu Hl) as Hk.
  destruct (update_service_status_up (assigned ip ipv6 cur) w1 cur) as (c1 & w2 & -> & [U2 C2 S2] & K2 & I2);
    [done|by rw S1 -Hl -Hk|done|].
  destruct (update_service_up c1 w2 c1) as (c2 & w3 & -> & [U3 C3 S3] & K3 & I3);
    [done|by rw S2 lookup_insert_eq|done|].
  exists c2, w3. split_and!; [done| |by rw K3 K2 -Hk|by rw I3 I2].
  split; [done|congruence|]. by rw S3 S2 K3 insert_insert_eq S1.
Qed.

Lemma unheld_marks hc items s s1 x :
  up (world s) -> items ≡ₚ (map_to_list (configs_of (world s))).*2 ->
  (forall x, in_use s1 x <-> held hc items s x) ->
  pool_in_use (networkMgr s1) x = false <-> unheld s hc x.
Proof.
  intros Hu Hp Hm. unfold unheld. rw -!not_true_iff_false Hm. unfold held.
  rw (others_listed _ items) //. tauto.
Qed.

(** One request that can be granted in a state of the pool. *)
Definition grantable (r q : string) s : Prop :=
  exists x, x ∈ reach (networkMgr s) r q /\ pool_in_use (networkMgr s) x = false /\
    (q <> ""%string -> IPAllocatable q r = true).

Lemma allocateIP_up r q s :
  grantable r q s ->
  exists ip s', allocateIP r q s = (Ok ip, s') /\ ip <> ""%string /\ ip ∈ reach (networkMgr s) r q /\
    pool_in_use (networkMgr s) ip = false /\ (forall x, in_use s' x <-> in_use s x \/ x = ip) /\
    world s' = world s /\ (forall r', pool_covers (networkMgr s') r' = pool_covers (networkMgr s) r').
Proof.
  intros (x & Hx & Hf & Hq). destruct (allocateIP r q s) as [res s'] eqn:E.
  pose proof (allocateIP_effect _ _ _ _ _ E) as (Hw & _ & Heff). revert E. apply elem_of_reach in Hx.
  unfold allocateIP, on_pool. case_bool_decide as He; case_decide as He'; try done.
  - destruct (covers_progress _ _ _ Hx Hf) as (ip & p' & Ha).
    destruct (covers_only _ _ _ _ _ Hx Hf Ha) as [Hc Hu]. rw Ha. intros [= <- <-]. destruct Heff as (Hne & _ & _ & Hin).
    exists ip, (mkCtl p' (world s) (metrics s) (events s)). rw elem_of_reach decide_True //. split_and!; try done.
    intros r'. exact (covers_allocate _ _ _ _ r' Ha).
  - subst x. destruct (specific_progress _ _ _ (Hq He) Hf) as (p' & Ha). rw Ha. intros [= <- <-].
    destruct Heff as (Hne & _ & _ & Hin). eexists (canonical q), _. rw elem_of_reach decide_False //.
    split_and!; try done. intros r'. exact (covers_specific _ _ _ _ _ r' Ha).
Qed.

Lemma allocate6_up r q s :
  r = ""%string \/ grantable r q s ->
  exists ip s', (if bool_decide (r <> ""%string) then allocateIP r q else ret (Ok ""%string)) s = (Ok ip, s') /\
    (ip = ""%string <-> r = ""%string) /\ (ip <> ""%string -> ip ∈ reach (networkMgr s) r q /\ pool_in_use (networkMgr s) ip = false) /\
    world s' = world s /\ (forall r', pool_covers (networkMgr s') r' = pool_covers (networkMgr s) r').
Proof.
  intros Hf. destruct (bool_decide_reflect (r <> ""%string)) as [Hr|Hr].
  - destruct Hf as [?|Hf]; [done|]. destruct (allocateIP_up r q s Hf) as (ip & s' & -> & ? & ? & ? & _ & ? & ?).
    by exists ip, s'; split_and!.
  - exists ""%string, s. apply dec_stable in Hr. by split_and!.
Qed.

(** A request that fits is answered by an address nobody has. *)
Lemma fits_choice r q qs hc s :
  fits r (q :: qs) hc s ->
  exists x, x ∈ reach (networkMgr s) r q /\ unheld s hc x /\ (q <> ""%string -> IPAllocatable q r = true).
Proof.
  intros (Hn & Hs & _). apply Forall_inv in Hs. rw filter_cons in Hn.
  destruct (decide (q = ""%string)) as [He|He].
  - assert (available s hc r <> ∅) as [x Hx]%set_choose_L.
    { intros E. rw E size_empty /= in Hn. lia. }
    apply elem_of_available in Hx as [Hc Hx]. exists x. by rw elem_of_reach decide_True.
  - destruct (Hs He) as (Ha & Hu & _). exists (canonical q). by rw elem_of_reach decide_False.
Qed.

(** What a service is given: an answer to its request that nobody had, in each
    range the configuration has. *)
Record granted (hc : HeliosConfig) s (svc : Service_) (ip ipv6 : string) : Prop := {
  gr_v4 : ip ∈ reach (networkMgr s) (IPRange (hc_Spec hc)) (request4 svc);
  gr_v4_unheld : unheld s hc ip;
  gr_dual : ipv6 = ""%string <-> IPv6Range (hc_Spec hc) = ""%string;
  gr_v6 : ipv6 <> ""%string -> ipv6 ∈ reach (networkMgr s) (IPv6Range (hc_Spec hc)) (request6 svc);
  gr_v6_unheld : ipv6 <> ""%string -> unheld s hc ipv6;
}.

Lemma granted_mono hc s hc2 s2 svc ip ipv6 :
  hc_Spec hc2 = hc_Spec hc ->
  (forall r, pool_covers (networkMgr s2) r = pool_covers (networkMgr s) r) ->
  (forall x, unheld s2 hc2 x -> unheld s hc x) ->
  granted hc2 s2 svc ip ipv6 -> granted hc s svc ip ipv6.
Proof. intros Hs Hc Hu [G4 U4 D G6 U6]. unfold reach in *. rw Hs ?Hc in G4, D, G6. split; unfold reach; auto. Qed.

Lemma AllocateAndAssign_up l hc svc s cur :
  up (world s) -> services_of (world s) !! svc_key svc = Some cur -> room (svc :: l) hc s ->
  exists ip ipv6 svc' s', AllocateAndAssign hc svc s = (Ok (ip, ipv6), s') /\
    puts_service svc' (world s) (world s') /\ svc_key svc' = svc_key svc /\
    svc_Ingress svc' = ingress_of ip ipv6 /\ granted hc s svc ip ipv6 /\
    (forall r, pool_covers (networkMgr s') r = pool_covers (networkMgr s) r).
Proof.
  intros Hu Hl [R4 R6]. unfold AllocateAndAssign, bind at 1, on_world at 1.
  destruct (list_configs_up _ Hu) as (items & w1 & -> & Un1 & Hp).
  unfold bind at 1. destruct (mark_others hc items _) as [u s1] eqn:Em.
  apply steady_mark_others in Em as St. apply mark_others_effect in Em as [Hm _].
  cbn [world networkMgr] in St, Hm. destruct St as [Us Cs]. specialize (Us (un_up _ _ Un1)).
  apply (unchanged_trans _ _ _ Un1) in Us as [U1 C1 S1]. cbn [world] in *.
  pose proof (fun x => unheld_marks hc items s s1 x Hu Hp Hm) as Hfree.
  assert (forall r q, reach (networkMgr s1) r q = reach (networkMgr s) r q) as Hreach
    by (intros; unfold reach; by rw Cs).
  rw (surjective_pairing (splitRequestedIP _)). fold (request4 svc) (request6 svc). unfold bind at 1.
  destruct (allocateIP_up (IPRange (hc_Spec hc)) (request4 svc) s1) as (ip & s2 & -> & _ & I4 & F4 & M4 & W4 & C4).
  { destruct (fits_choice _ _ _ _ _ R4) as (x & Hx & Hun & Hq). exists x. by rw Hreach Hfree. }
  unfold bind at 1. rw Hreach in I4. apply Hfree in F4.
  assert (forall r q, reach (networkMgr s2) r q = reach (networkMgr s) r q) as Hreach2
    by (intros; unfold reach; by rw C4 Cs).
  destruct (allocate6_up (IPv6Range (hc_Spec hc)) (request6 svc) s2) as (ipv6 & s3 & -> & D6 & I6 & W6 & C6).
  { destruct R6 as [?|[R6 Hd]]; [by left|]. right.
    destruct (fits_choice _ _ _ _ _ R6) as (x & Hx & Hun & Hq). exists x. rw Hreach2. split_and!; [done| |done].
    apply Forall_inv, Forall_inv in Hd. rw -not_true_iff_false M4. apply Hfree in Hun as ->.
    intros [?| ->]; [done|set_solver]. }
  unfold bind at 1, assignIPToService, on_world. rw W6 W4.
  destruct (assign_once_up svc ip ipv6 (world s1) cur) as (svc' & w' & Ea & [Up Cp Sp] & K & I);
    [done|by rw S1|].
  rw (retry_first _ _ _ Ea). unfold bind.
  assert (granted hc s svc ip ipv6) as Hg.
  { split; try done; intros [Hr Hf]%I6; [by rw -Hreach2|]. apply Hfree.
    rw -!not_true_iff_false M4 in Hf |- *. tauto. }
  exists ip, ipv6, svc'. destruct (bool_decide (ipv6 <> ""%string)); eexists;
    (split; [reflexivity|]); cbn [world networkMgr record]; (split_and!; [|done..|]);
    first [intros r; by rw C6 C4 Cs|split; [done|by rw Cp|by rw Sp S1]].
Qed.

(** ** The loop over the services *)

(** The configurations other than [hc] are the same in both worlds. *)
Lemma held_by_others_put w w' hc hc' :
  hc_key hc' = hc_key hc -> configs_of w' = <[hc_key hc := hc']> (configs_of w) ->
  held_by_others w' hc' = held_by_others w hc.
Proof.
  intros Hk Hc. apply set_eq. intros x. rw !elem_of_held_by_others Hc Hk.
  split; intros (k & o & Hl & Hne & Ho); exists k, o; rw lookup_insert_ne // in Hl |- *.
Qed.

Lemma size_remove (X Y : gset string) n x : (S n <= size X)%nat -> X ∖ {[x]} ⊆ Y -> (n <= size Y)%nat.
Proof.
  intros Hn Hs%subseteq_size. rw size_difference_alt in Hs.
  assert (size (X ∩ {[x]}) <= size ({[x]} : gset string))%nat as Hx by (apply subseteq_size; set_solver).
  rw size_singleton in Hx. lia.
Qed.

(** What an assignment leaves to nobody. *)
Lemma unheld_next hc hc2 s s2 items ip ipv6 x :
  up (world s) -> items ≡ₚ (map_to_list (configs_of (world s))).*2 ->
  hc_key hc2 = hc_key hc ->
  configs_of (world s2) = <[hc_key hc := hc2]> (configs_of (world s)) ->
  (forall x, in_use s2 x <-> held hc items s x \/ x = ip \/ (ipv6 <> ""%string /\ x = ipv6)) ->
  unheld s2 hc2 x <-> unheld s hc x /\ ~ (x = ip \/ (ipv6 <> ""%string /\ x = ipv6)).
Proof.
  intros Hu Hp Hk Hc Huse. unfold unheld. rw (held_by_others_put _ _ _ _ Hk Hc).
  rw -!not_true_iff_false Huse. unfold held. rw (others_listed _ items) //. tauto.
Qed.

(** The requests after the first still fit once it is granted, and something
    else taken that answers none of them. *)
Lemma fits_next r q qs hc s hc2 s2 ip (taken : string -> Prop) :
  (forall x, unheld s2 hc2 x <-> unheld s hc x /\ ~ taken x) ->
  pool_covers (networkMgr s2) r = pool_covers (networkMgr s) r ->
  ip ∈ reach (networkMgr s) r q ->
  (forall x, taken x -> x = ip \/ forall q', q' ∈ qs -> x ∉ reach (networkMgr s) r q') ->
  fits r (q :: qs) hc s -> fits r qs hc2 s2.
Proof.
  intros Hun Hc Hip Ht (Hn & Hs & Hd). rw elem_of_reach in Hip. rw list.Forall_forall in Hs.
  rw filter_cons in Hn. rw filter_cons in Hd. split_and!.
  - destruct (decide (""%string ∈ qs)) as [Hin|Hin].
    + assert (available s hc r ∖ {[ip]} ⊆ available s2 hc2 r) as Hsub.
      { intros x [[Hx Hu]%elem_of_available Hne]%elem_of_difference. apply elem_of_available.
        rw Hc Hun. split_and!; [done..|]. intros [->|Hno]%Ht; [set_solver|].
        apply (Hno _ Hin). by apply elem_of_reach. }
      destruct (decide (q = ""%string)) as [He|He]; [by eapply size_remove|].
      etrans; [exact Hn|]. apply subseteq_size. intros x Hx. apply Hsub, elem_of_difference.
      split; [done|]. apply elem_of_available in Hx as [Hx _]. destruct (Hs q) as (_ & _ & Hq); [set_solver|done|].
      rw elem_of_singleton. intros ->. subst ip. apply Hq in Hx; [done|set_solver].
    + destruct (filter (fun q => q = ""%string) qs) as [|x xs] eqn:Ef; [simpl; lia|].
      assert (x ∈ x :: xs) as Hx by set_solver. rw -Ef list_elem_of_filter in Hx. by destruct Hx as [-> ?].
  - apply list.Forall_forall. intros q' Hq' Hne. destruct (Hs q') as (Ha & Hu & Hx); [set_solver|done|].
    split_and!; [done| |rw Hc; set_solver]. apply Hun. split; [done|]. intros [He|Hno]%Ht.
    + rw He in Hx. destruct (decide (q = ""%string)) as [->|Hqe]; [set_solver|].
      rw decide_True // fmap_cons list.NoDup_cons in Hd. destruct Hd as [Hd _]. apply Hd.
      apply list_elem_of_fmap. exists q'. split; [congruence|]. by apply list_elem_of_filter.
    + apply (Hno _ Hq'). by rw elem_of_reach decide_False.
  - case_decide; [by apply list.NoDup_cons in Hd as [_ ?]|done].
Qed.

(** An assignment takes one place of the room. *)
Lemma room_next svc l hc hc2 s s2 ip ipv6 :
  hc_Spec hc2 = hc_Spec hc ->
  (forall r, pool_covers (networkMgr s2) r = pool_covers (networkMgr s) r) ->
  (forall x, unheld s2 hc2 x <-> unheld s hc x /\ ~ (x = ip \/ (ipv6 <> ""%string /\ x = ipv6))) ->
  granted hc s svc ip ipv6 -> room (svc :: l) hc s -> room l hc2 s2.
Proof.
  intros Hs Hcov Hun [G4 _ D G6 _] [R4 R6]. unfold room. rw Hs. split.
  - eapply fits_next; [exact Hun|done|exact G4| |exact R4].
    intros x [->|[Hne ->]]; [by left|right]. destruct R6 as [E|[_ Hd]]; [by apply D in E|].
    intros q (a & -> & Ha)%list_elem_of_fmap Hx. specialize (G6 Hne). rw Forall_pairs in Hd.
    specialize (Hd a svc). set_solver.
  - destruct (decide (IPv6Range (hc_Spec hc) = ""%string)) as [?|Hr]; [by left|right].
    assert (ipv6 <> ""%string) as Hne by (by rw D). destruct R6 as [?|[R6 Hd]]; [done|].
    rw Forall_pairs in Hd. split.
    + eapply (fits_next _ _ _ _ _ _ _ ipv6); [exact Hun|done|by apply G6| |exact R6].
      intros x [->|[_ ->]]; [right|by left]. intros q (b & -> & Hb)%list_elem_of_fmap Hx.
      specialize (Hd svc b). set_solver.
    + rw Forall_pairs. intros a b Ha Hb. unfold reach. rw !Hcov. apply Hd; set_solver.
Qed.

(** Room for [n] more entries under the quota. *)
Definition quota_room (n : nat) (hc : HeliosConfig) : Prop :=
  let entries := Z.of_nat (size (AllocatedIPs (hc_Status hc))) in
  entries + Z.of_nat n < 2 ^ 31 /\
  (MaxAllocations (hc_Spec hc) <= 0 \/ entries + Z.of_nat n <= MaxAllocations (hc_Spec hc)).

Lemma quota_room_ok n hc : quota_room (S n) hc -> CheckQuota hc = Ok tt.
Proof. intros [Hb Hm]. apply CheckQuota_ok; lia. Qed.

Lemma quota_room_next n hc hc2 svc ip ipv6 :
  hc_Spec hc2 = hc_Spec hc -> hc_Status hc2 = hc_Status (mark_allocated svc ip ipv6 hc) ->
  quota_room (S n) hc -> quota_room n hc2.
Proof.
  unfold quota_room. intros -> ->. simpl.
  pose proof (size_insert_le (AllocatedIPs (hc_Status hc)) (svc_Name svc) ip). lia.
Qed.

(** The service has the addresses as its ingress, available ones, and the
    status records them. *)
Definition entered (l : list Service_) (hc' : HeliosConfig) (svc : Service_) (ip ipv6 : string) : Prop :=
  NoDup (svc_Name <$> l) ->
  AllocatedIPs (hc_Status hc') !! svc_Name svc = Some ip /\
  (ipv6 <> ""%string -> AllocatedIPv6s (hc_Status hc') !! svc_Name svc = Some ipv6).

(** All services of [l] served and nothing else changed. *)
Record served (l : list Service_) (hc : HeliosConfig) s (hc' : HeliosConfig) s' : Prop := {
  sv_up : up (world s');
  sv_configs : configs_of (world s') = <[hc_key hc := hc']> (configs_of (world s));
  sv_key : hc_key hc' = hc_key hc;
  sv_spec : hc_Spec hc' = hc_Spec hc;
  sv_finalizers f : f ∈ hc_Finalizers hc -> f ∈ hc_Finalizers hc';
  sv_deleting : hc_Deleting hc' = hc_Deleting hc;
  sv_services k : k ∉ svc_key <$> l -> services_of (world s') !! k = services_of (world s) !! k;
  sv_entries k : k ∉ svc_Name <$> l ->
    AllocatedIPs (hc_Status hc') !! k = AllocatedIPs (hc_Status hc) !! k /\
    AllocatedIPv6s (hc_Status hc') !! k = AllocatedIPv6s (hc_Status hc) !! k;
  sv_served svc : svc ∈ l -> exists cur ip ipv6,
    services_of (world s') !! svc_key svc = Some cur /\ svc_Ingress cur = ingress_of ip ipv6 /\
    granted hc s svc ip ipv6 /\ entered l hc' svc ip ipv6;
  sv_grows x : in_use s x -> in_use s' x;
  sv_grants x : NoDup (svc_Name <$> l) ->
    in_use s' x -> in_use s x \/ x ∈ held_by_others (world s) hc \/ owns hc' x;
  sv_owned x : owns hc' x -> owns hc x \/ ~ in_use s x;
}.

Lemma served_nil hc s :
  up (world s) -> configs_of (world s) !! hc_key hc = Some hc -> served [] hc s hc s.
Proof.
  intros Hu Hl. split; try done; [by rw insert_id| |by left|by left]. by intros svc ?%elem_of_nil.
Qed.

(** One more service in front. *)
Lemma served_cons svc l hc s hc2 s2 hc' s' ip ipv6 svc' :
  svc_key svc ∉ svc_key <$> l ->
  configs_of (world s2) = <[hc_key hc := hc2]> (configs_of (world s)) ->
  services_of (world s2) = <[svc_key svc := svc']> (services_of (world s)) ->
  svc_Ingress svc' = ingress_of ip ipv6 -> granted hc s svc ip ipv6 ->
  hc_key hc2 = hc_key hc -> hc_Spec hc2 = hc_Spec hc ->
  (forall f, f ∈ hc_Finalizers hc -> f ∈ hc_Finalizers hc2) ->
  hc_Deleting hc2 = hc_Deleting hc -> hc_Status hc2 = hc_Status (mark_allocated svc ip ipv6 hc) ->
  (forall r, pool_covers (networkMgr s2) r = pool_covers (networkMgr s) r) ->
  (forall x, unheld s2 hc2 x -> unheld s hc x) ->
  (forall x, in_use s2 x <-> in_use s x \/ x ∈ held_by_others (world s) hc \/
                             x = ip \/ (ipv6 <> ""%string /\ x = ipv6)) ->
  served l hc2 s2 hc' s' -> served (svc :: l) hc s hc' s'.
Proof.
  intros Hnew C2 S2 Hi Hg K2 Sp2 F2 D2 St2 Hcov Hsub Huse [U C K Sp F D S E V G1 G2 G3].
  assert (He : forall k, k <> svc_Name svc ->
    AllocatedIPs (hc_Status hc2) !! k = AllocatedIPs (hc_Status hc) !! k /\
    AllocatedIPv6s (hc_Status hc2) !! k = AllocatedIPv6s (hc_Status hc) !! k).
  { intros k Hk. rw St2. simpl. rw lookup_insert_ne //. split; [done|].
    destruct (bool_decide (ipv6 <> ""%string)); [by rw lookup_insert_ne|done]. }
  assert (Hent : entered (svc :: l) hc' svc ip ipv6).
  { intros [Hn _]%list.NoDup_cons. destruct (E _ Hn) as [-> ->]. rw St2. simpl.
    rw lookup_insert_eq. split; [done|]. intros H6. by rw bool_decide_eq_true_2 // lookup_insert_eq. }
  split; try congruence; [|auto|..].
  - by rw C C2 K2 insert_insert_eq.
  - intros k Hk. rw fmap_cons not_elem_of_cons in Hk. destruct Hk as [Hk Hl].
    by rw S // S2 lookup_insert_ne.
  - intros k Hk. rw fmap_cons not_elem_of_cons in Hk. destruct Hk as [Hk Hl].
    destruct (E k Hl) as [-> ->]. by apply He.
  - intros x [->|Hx]%elem_of_cons.
    + exists svc', ip, ipv6. by split_and!; [rw S // S2 lookup_insert_eq| | |].
    + destruct (V x Hx) as (cur & i & j & V1 & V2 & V3 & V4). exists cur, i, j.
      split_and!; auto; [by eapply granted_mono|]. intros [_ Hn]%list.NoDup_cons. by apply V4.
  - intros x Hx. apply G1, Huse. by left.
  - intros x Hn Hx. destruct (Hent Hn) as [He4 He6]. apply list.NoDup_cons in Hn as [_ Hn].
    apply (G2 x Hn) in Hx as [Hx|[Hx|Hx]]; [|rw (held_by_others_put (world s) _ hc) // in Hx; auto|auto].
    apply Huse in Hx as [?|[?|[->|[H6 ->]]]]; [by left|by right; left|..]; right; right.
    + left. eauto.
    + right. eauto.
  - intros x [Hx|Hx]%G3; [|right; intros Hu; apply Hx, Huse; by left].
    unfold owns in Hx. rw St2 in Hx. apply owns_mark_allocated in Hx as [?|[->|[H6 ->]]]; [by left|right..].
    + apply (unheld_unused s hc), Hg.
    + by apply (unheld_unused s hc), (gr_v6_unheld _ _ _ _ _ Hg).
Qed.

Lemma process_services_up l hc s :
  up (world s) -> configs_of (world s) !! hc_key hc = Some hc ->
  NoDup (svc_key <$> l) ->
  (forall svc, svc ∈ l -> is_Some (services_of (world s) !! svc_key svc)) ->
  quota_room (length l) hc -> room l hc s ->
  exists hc' s', process_services l hc s = ((None, hc'), s') /\ served l hc s hc' s'.
Proof.
  revert hc s. induction l as [|svc l IH]; intros hc s Hu Hc Hnd Hl Hq Hr.
  { exists hc, s. split; [done|]. by apply served_nil. }
  cbn [process_services length] in *. rw (quota_room_ok _ _ Hq).
  destruct (Hl svc) as [cur Hcur]; [set_solver|].
  destruct (AllocateAndAssign_up _ _ _ _ _ Hu Hcur Hr) as (ip & ipv6 & svc' & s1 & Ea & [U1 C1 S1] & K1 & I1 & Hg & Cov).
  unfold bind at 1. rw Ea. unfold bind at 1. cbn [emit]. unfold bind at 1, on_world. cbn [world].
  destruct (update_config_status_up (mark_allocated svc ip ipv6 hc) (world s1) hc) as
    (hc2 & w2 & -> & [U2 C2 S2] & K2 & Sp2 & F2 & D2 & St2); [done|by rw C1|done|].
  change (hc_key hc2 = hc_key hc) in K2. rw K2 C1 in C2.
  destruct (list_configs_up _ Hu) as (items & w1 & Eli & _ & Hp).
  destruct (AllocateAndAssign_effect _ _ _ _ _ _ _ Ea Eli) as (_ & _ & _ & _ & _ & _ & Huse).
  set (s2 := mkCtl _ _ _ _).
  pose proof (fun x => unheld_next hc hc2 s s2 items ip ipv6 x Hu Hp K2 C2 Huse) as Hnext. apply list.NoDup_cons in Hnd as [Hnew Hnd].
  destruct (IH hc2 s2) as (hc' & s' & Hrun & Hserved).
  - done.
  - cbn [world s2]. by rw K2 C2 lookup_insert_eq.
  - done.
  - intros x Hx. cbn [world s2]. rw S2 S1. apply lookup_insert_is_Some'. right. apply Hl. set_solver.
  - by eapply quota_room_next.
  - by apply (room_next svc l hc hc2 s s2 ip ipv6).
  - exists hc', s'. split; [exact Hrun|].
    apply (served_cons svc l hc s hc2 s2 hc' s' ip ipv6 svc'); try done.
    + cbn [world s2]. by rw S2 S1 K1.
    + intros f. by rw F2.
    + intros x Hx. by apply Hnext.
    + intros x. cbn [networkMgr s2]. rw Huse. unfold held. rw (others_listed (world s) items) //. clear. tauto.
Qed.

(** ** Waiting services *)

(** The services the filter lets through. *)
Definition waiting (hc : HeliosConfig) : Service_ -> Prop :=
  eligible (NamespaceSelector (hc_Spec hc)) (IPRange (hc_Spec hc) :: take 1 [IPv6Range (hc_Spec hc)]).

#[export] Instance waiting_dec hc svc : Decision (waiting hc svc).
Proof. apply eligible_dec. Defined.

Definition waiting_services w (hc : HeliosConfig) : gmap (string * string) Service_ :=
  filter (fun e => waiting hc (snd e)) (services_of w).

Lemma waiting_listed w hc items :
  items ≡ₚ (map_to_list (services_of w)).*2 ->
  filter (waiting hc) items ≡ₚ (map_to_list (waiting_services w hc)).*2.
Proof.
  intros ->. unfold waiting_services. generalize (services_of w) as m. intros m.
  induction m as [|k svc m Hk IH] using map_ind; [done|].
  rw map_to_list_insert // fmap_cons filter_cons. simpl.
  destruct (decide (waiting hc svc)) as [Hw|Hw].
  - rw map_filter_insert_True // map_to_list_insert; [by rw IH|].
    apply map_lookup_filter_None. by left.
  - rw map_filter_insert_not' //. intros y Hy. congruence.
Qed.

(** A configuration that can serve all its waiting services: the server
    answers, the configuration is stored and not being deleted, no other one
    holds an address in its ranges, the quota has room for all the waiting
    services, and the ranges have [room] for what they request. *)
Record serviceable (hc : HeliosConfig) s : Prop := {
  se_up : up (world s);
  se_stored : configs_of (world s) !! hc_key hc = Some hc;
  se_live : hc_Deleting hc = false;
  se_conflicts k other ip :
    configs_of (world s) !! k = Some other -> k <> hc_key hc -> ~ conflicting hc other ip;
  se_quota : quota_room (size (waiting_services (world s) hc)) hc;
  se_room : room (map_to_list (waiting_services (world s) hc)).*2 hc s;
}.

(** Writes of the configuration that keep its spec and its entries. *)
Record rewritten (hc : HeliosConfig) s (hc' : HeliosConfig) s' : Prop := {
  rw_up : up (world s');
  rw_configs : configs_of (world s') = <[hc_key hc := hc']> (configs_of (world s));
  rw_services : services_of (world s') = services_of (world s);
  rw_pool : networkMgr s' = networkMgr s;
  rw_key : hc_key hc' = hc_key hc;
  rw_spec : hc_Spec hc' = hc_Spec hc;
  rw_v4 : AllocatedIPs (hc_Status hc') = AllocatedIPs (hc_Status hc);
  rw_v6 : AllocatedIPv6s (hc_Status hc') = AllocatedIPv6s (hc_Status hc);
  rw_live : hc_Deleting hc' = hc_Deleting hc;
  rw_finalizers f : f ∈ hc_Finalizers hc -> f ∈ hc_Finalizers hc';
}.

Lemma rewritten_unchanged hc s s' :
  configs_of (world s) !! hc_key hc = Some hc -> unchanged (world s) (world s') ->
  networkMgr s' = networkMgr s -> rewritten hc s hc s'.
Proof. intros Hl [U C S] Hp. split; try done. by rw insert_id. Qed.

Lemma held_by_others_rewritten hc s hc' s' :
  rewritten hc s hc' s' -> held_by_others (world s') hc' = held_by_others (world s) hc.
Proof. intros []. by apply held_by_others_put. Qed.

Lemma serviceable_rewritten hc s hc' s' :
  rewritten hc s hc' s' -> serviceable hc s -> serviceable hc' s'.
Proof.
  intros Hr [U St L C Q R]. pose proof (held_by_others_rewritten _ _ _ _ Hr) as Hh.
  destruct Hr as [U' C' S' P' K' Sp' V4 V6 D' F'].
  assert (waiting hc' = waiting hc) as Hw by (unfold waiting; by rw Sp').
  assert (waiting_services (world s') hc' = waiting_services (world s) hc) as Hws.
  { unfold waiting_services. rw S'. apply map_filter_ext. intros. by rw Hw. }
  rw -Hws in Q, R. split; try done.
  - by rw C' K' lookup_insert_eq.
  - congruence.
  - intros k o ip. rw C' K'. intros Hl Hk. rw lookup_insert_ne // in Hl.
    unfold conflicting. rw Sp'. by apply (C k).
  - revert Q. unfold quota_room. by rw Sp' V4.
  - revert R. unfold room, fits, available, unheld. by rw Hh Sp' P'.
Qed.

Lemma served_rewritten l hc s hc1 s1 hc' s' :
  rewritten hc s hc1 s1 -> served l hc1 s1 hc' s' -> served l hc s hc' s'.
Proof.
  intros Hr [U C K Sp F D S E V G1 G2 G3].
  pose proof (held_by_others_rewritten _ _ _ _ Hr) as Hh.
  destruct Hr as [U' C' S' P' K' Sp' V4 V6 D' F']. unfold owns in G3. rw P' in G1, G2, G3.
  rw (held_by_others_put (world s) _ hc hc1) // in G2. rw V4 V6 in G3.
  split; try congruence; auto.
  - by rw C C' K' insert_insert_eq.
  - intros k Hk. by rw S // S'.
  - intros k Hk. rw -V4 -V6. by apply E.
  - intros svc Hs. destruct (V svc Hs) as (cur & ip & ipv6 & V1 & V2 & V3 & V4').
    exists cur, ip, ipv6. split_and!; try done. revert V3. apply granted_mono; [done|by rw P'|].
    intros x. unfold unheld. by rw Hh P'.
Qed.

Lemma served_unchanged l hc s hc' s1 s' :
  unchanged (world s1) (world s') -> networkMgr s' = networkMgr s1 ->
  served l hc s hc' s1 -> served l hc s hc' s'.
Proof. intros [Un Cn Sn] Hn [U C K Sp F D S E V G1 G2 G3]. split; rw ?Cn ?Sn ?Hn //. Qed.

(** ** A reconciliation *)

Lemma ensure_finalizer_up hc s :
  up (world s) -> configs_of (world s) !! hc_key hc = Some hc -> hc_Deleting hc = false ->
  exists hc' s', ensure_finalizer hc s = ((None, hc'), s') /\ rewritten hc s hc' s' /\
    heliosConfigFinalizer ∈ hc_Finalizers hc' /\ events s' = events s.
Proof.
  intros Hu Hl Hd. unfold ensure_finalizer. rw contains_finalizer.
  destruct (bool_decide_reflect (heliosConfigFinalizer ∈ hc_Finalizers hc)) as [Hf|Hf]; cbn [negb].
  { exists hc, s. split; [done|]. split; [by apply rewritten_unchanged|done]. }
  unfold bind at 1, on_world at 1. rw add_finalizer bool_decide_eq_false_2 //.
  destruct (update_config_up (with_finalizers (hc_Finalizers hc ++ [heliosConfigFinalizer]) hc) (world s) hc)
    as (hc1 & w1 & -> & [U1 C1 S1] & K1 & Sp1 & F1 & D1 & St1); [done..|].
  unfold bind at 1, on_world. cbn [world].
  destruct (update_config_status_up (set_condition ConditionTypeReady ConditionFalse ReasonInitializing
      (Text "HeliosConfig is initializing") hc1) w1 hc1)
    as (hc2 & w2 & -> & [U2 C2 S2] & K2 & Sp2 & F2 & D2 & St2); [done|by rw C1 lookup_insert_eq|done|].
  change (hc_key hc1 = hc_key hc) in K1. change (hc_key hc2 = hc_key hc1) in K2.
  eexists hc2, _. split; [reflexivity|]. rw F2 F1. cbn [with_finalizers hc_Finalizers events].
  split_and!; [|set_solver|done]. split; cbn [world networkMgr]; try congruence.
  - by rw C2 C1 K2 K1 insert_insert_eq.
  - by rw Sp2 Sp1.
  - by rw St2 /= St1.
  - by rw St2 /= St1.
  - rw F2 F1. simpl. set_solver.
Qed.

Lemma CheckIPConflicts_up hc s :
  up (world s) ->
  (forall k other ip, configs_of (world s) !! k = Some other -> k <> hc_key hc -> ~ conflicting hc other ip) ->
  exists s', CheckIPConflicts hc s = (Ok ∅, s') /\ unchanged (world s) (world s') /\
    networkMgr s' = networkMgr s /\ events s' = events s.
Proof.
  intros Hu Hno. destruct (CheckIPConflicts hc s) as [r s'] eqn:E. exists s'.
  pose proof (CheckIPConflicts_effect _ _ _ _ E) as (Hp & _ & He).
  pose proof (steady_CheckIPConflicts _ _ _ _ E) as [Hun _].
  revert E. unfold CheckIPConflicts, on_world, bind at 1.
  destruct (list_configs_up _ Hu) as (items & w1 & -> & _ & Hi). unfold bind at 1.
  destruct (conflict_loop hc items ∅ w1) as [c w2] eqn:Ec. intros [= <- <-].
  split_and!; [|by apply Hun|done|done]. do 2 f_equal. apply map_empty. intros ip.
  apply eq_None_not_Some. rw (conflict_loop_effect _ _ _ _ _ _ ip Ec) lookup_empty.
  intros [[? ?]|(o & Hin & Hs & Hc)]; [done|].
  rw same_config_key bool_decide_eq_false in Hs. apply (elem_of_configs (world s)) in Hin; [|done..].
  by apply (Hno _ _ ip) in Hin.
Qed.

Lemma ListServices_up s :
  up (world s) -> exists items s', on_world ListServices s = (Ok items, s') /\
    items ≡ₚ (map_to_list (services_of (world s))).*2 /\ unchanged (world s) (world s') /\
    networkMgr s' = networkMgr s /\ events s' = events s.
Proof.
  intros Hu. unfold on_world. destruct (list_services_up _ Hu) as (items & w & -> & Hun & Hp).
  by eexists items, _.
Qed.

(** The eligible services of a listing are the waiting ones. *)
Lemma eligible_listed w items hc :
  up w -> items ≡ₚ (map_to_list (services_of w)).*2 ->
  let l := FilterEligibleServices items (NamespaceSelector (hc_Spec hc)) (IPRange (hc_Spec hc))
             [IPv6Range (hc_Spec hc)] in
  NoDup (svc_key <$> l) /\ l ≡ₚ (map_to_list (waiting_services w hc)).*2 /\
  forall svc, svc ∈ l <-> services_of w !! svc_key svc = Some svc /\ waiting hc svc.
Proof.
  intros Hu Hp. cbv zeta. rw FilterEligibleServices_filter. fold (waiting hc). split_and!.
  - eapply sublist_NoDup; [exact (NoDup_service_keys w items Hu Hp)|].
    apply fmap_sublist, sublist_filter.
  - by apply waiting_listed.
  - intros svc. rw list_elem_of_filter (elem_of_services w items) //. tauto.
Qed.

Lemma reconcile_live_up hc s :
  serviceable hc s ->
  exists l hc' s', reconcile_live hc s = ((Ok (mkResult 5), hc'), s') /\ served l hc s hc' s' /\
    NoDup (svc_key <$> l) /\
    forall svc, svc ∈ l <-> services_of (world s) !! svc_key svc = Some svc /\ waiting hc svc.
Proof.
  intros Hse. unfold reconcile_live, bind at 1.
  destruct (ListServices_up s) as (items & s1 & -> & Hp & Hun & Hn & _); [apply Hse|].
  assert (rewritten hc s hc s1) as Hr1 by (apply rewritten_unchanged; [apply Hse|done..]).
  apply (serviceable_rewritten _ _ _ _ Hr1) in Hse as Hse1. unfold bind at 1.
  destruct (CheckIPConflicts_up hc s1) as (s2 & -> & Hun2 & Hn2 & _); [apply Hse1..|].
  assert (rewritten hc s1 hc s2) as Hr2 by (apply rewritten_unchanged; [apply Hse1|done..]).
  apply (serviceable_rewritten _ _ _ _ Hr2) in Hse1 as Hse2. rw map_size_empty. cbn [Nat.ltb Nat.leb].
  assert (items ≡ₚ (map_to_list (services_of (world s2))).*2) as Hp2.
  { by rw (rw_services _ _ _ _ Hr2) (rw_services _ _ _ _ Hr1). }
  destruct (eligible_listed (world s2) items hc (se_up _ _ Hse2) Hp2) as (Hnd & Hlen & Hin).
  set (l := FilterEligibleServices _ _ _ _) in *. unfold bind at 1.
  destruct (process_services_up l hc s2) as (hc' & s3 & -> & Hsv).
  - apply Hse2.
  - apply Hse2.
  - exact Hnd.
  - intros svc [Hs Hw]%Hin. by eexists.
  - apply Permutation_length in Hlen. rw Hlen length_fmap length_map_to_list. apply Hse2.
  - symmetry in Hlen. apply (room_perm _ _ _ _ Hlen), Hse2.
  - eexists l, hc', _. split; [reflexivity|]. split_and!; [|done|].
    + eapply served_rewritten; [exact Hr1|]. eapply served_rewritten; [exact Hr2|].
      apply (served_unchanged _ _ _ _ s3); [|done|exact Hsv]. apply unchanged_refl. by destruct Hsv.
    + intros svc. by rw Hin (rw_services _ _ _ _ Hr2) (rw_services _ _ _ _ Hr1).
Qed.

Lemma reconcile_config_up hc s :
  serviceable hc s ->
  exists l hc' s', reconcile_config hc s = ((Ok (mkResult 5), hc'), s') /\ served l hc s hc' s' /\
    heliosConfigFinalizer ∈ hc_Finalizers hc' /\
    NoDup (svc_key <$> l) /\
    forall svc, svc ∈ l <-> services_of (world s) !! svc_key svc = Some svc /\ waiting hc svc.
Proof.
  intros Hse. unfold reconcile_config, bind at 1.
  destruct (ensure_finalizer_up hc s) as (hc1 & s1 & -> & Hr & Hf & _); [apply Hse..|].
  pose proof (serviceable_rewritten _ _ _ _ Hr Hse) as Hse1. rw (se_live _ _ Hse1).
  destruct (reconcile_live_up hc1 s1 Hse1) as (l & hc' & s' & -> & Hsv & Hnd & Hl).
  exists l, hc', s'. split; [done|]. split_and!.
  - by eapply served_rewritten.
  - by apply (sv_finalizers _ _ _ _ _ Hsv).
  - done.
  - intros svc. rw Hl (rw_services _ _ _ _ Hr). unfold waiting. by rw (rw_spec _ _ _ _ Hr).
Qed.

Lemma record_reconcile_steady start hc s u s' :
  record_reconcile start hc s = (u, s') -> up (world s) ->
  unchanged (world s) (world s') /\ networkMgr s' = networkMgr s /\ events s' = events s.
Proof.
  unfold record_reconcile, bind, on_world, record. intros Hr Hu.
  destruct (now_up _ Hu) as (t & w & E & Hun). rw E in Hr. injection Hr as _ <-. done.
Qed.

(** The frame of [Reconcile] around the handling of the object. *)
Lemma Reconcile_frame hc s :
  up (world s) -> configs_of (world s) !! hc_key hc = Some hc ->
  exists s0, unchanged (world s) (world s0) /\ networkMgr s0 = networkMgr s /\ events s0 = events s /\
    forall out hc' s1, reconcile_config hc s0 = ((out, hc'), s1) -> up (world s1) ->
    exists s', Reconcile (hc_Namespace hc) (hc_Name hc) s = (out, s') /\
      unchanged (world s1) (world s') /\ networkMgr s' = networkMgr s1 /\ events s' = events s1.
Proof.
  intros Hu Hl. unfold Reconcile, bind at 1, on_world at 1.
  destruct (now_up _ Hu) as (t & w1 & -> & [U1 C1 S1]). unfold bind at 1, on_world at 1. cbn [world].
  destruct (get_config_up (hc_Namespace hc) (hc_Name hc) w1 hc) as (w2 & -> & [U2 C2 S2]);
    [done|by rw C1|].
  exists (mkCtl (networkMgr s) w2 (metrics s) (events s)).
  split; [split; cbn [world]; [done|congruence..]|]. split; [done|]. split; [done|].
  intros out hc' s1 Hrun Hu1. unfold bind at 1. cbn [networkMgr metrics events]. rw Hrun.
  unfold bind at 1. cbn [fst snd]. destruct (record_reconcile t hc' s1) as [u s'] eqn:Er.
  destruct (record_reconcile_steady _ _ _ _ _ Er Hu1) as (? & ? & ?). by exists s'.
Qed.

(** A whole reconciliation of a serviceable configuration. *)
Lemma Reconcile_up hc s :
  serviceable hc s ->
  exists l hc' s', Reconcile (hc_Namespace hc) (hc_Name hc) s = (Ok (mkResult 5), s') /\
    served l hc s hc' s' /\ heliosConfigFinalizer ∈ hc_Finalizers hc' /\ NoDup (svc_key <$> l) /\
    forall svc, svc ∈ l <-> services_of (world s) !! svc_key svc = Some svc /\ waiting hc svc.
Proof.
  intros Hse. destruct (Reconcile_frame hc s) as (s0 & Hun & Hn & _ & Hrun); [apply Hse..|].
  assert (rewritten hc s hc s0) as Hr by (apply rewritten_unchanged; [apply Hse|done..]).
  destruct (reconcile_config_up hc s0) as (l & hc' & s1 & Erun & Hsv & Hf & Hnd & Hl);
    [by eapply serviceable_rewritten|].
  destruct (Hrun _ _ _ Erun (sv_up _ _ _ _ _ Hsv)) as (s' & -> & Hun' & Hn' & _).
  rw (rw_services _ _ _ _ Hr) in Hl. exists l, hc', s'. split_and!; try done.
  eapply served_unchanged; [exact Hun'|exact Hn'|]. by eapply served_rewritten.
Qed.

(** A configuration with nothing to do. *)
Record settled (hc : HeliosConfig) s : Prop := {
  sd_up : up (world s);
  sd_stored : configs_of (world s) !! hc_key hc = Some hc;
  sd_live : hc_Deleting hc = false;
  sd_finalizer : heliosConfigFinalizer ∈ hc_Finalizers hc;
  sd_conflicts k other ip :
    configs_of (world s) !! k = Some other -> k <> hc_key hc -> ~ conflicting hc other ip;
  sd_waiting k svc : services_of (world s) !! k = Some svc -> ~ waiting hc svc;
}.

Lemma settled_unchanged hc s s' : unchanged (world s) (world s') -> settled hc s -> settled hc s'.
Proof. intros [Un Cn Sn] [U St L F C Wt]. split; rw ?Cn ?Sn //. Qed.

Lemma reconcile_settled hc s :
  settled hc s ->
  exists s', reconcile_config hc s = ((Ok (mkResult 5), hc), s') /\ unchanged (world s) (world s') /\
    networkMgr s' = networkMgr s /\ events s' = events s.
Proof.
  intros Hs. rw reconcile_config_live; [|apply Hs..]. unfold reconcile_live, bind at 1.
  destruct (ListServices_up s) as (items & s1 & -> & Hp & Hun & Hn & He); [apply Hs|].
  pose proof (settled_unchanged _ _ _ Hun Hs) as Hs1. unfold bind at 1.
  destruct (CheckIPConflicts_up hc s1) as (s2 & -> & Hun2 & Hn2 & He2); [apply Hs1..|].
  rw map_size_empty. cbn [Nat.ltb Nat.leb].
  destruct (eligible_listed (world s) items hc (sd_up _ _ Hs) Hp) as (_ & _ & Hin).
  destruct (FilterEligibleServices _ _ _ _) as [|svc l].
  - unfold bind. eexists. split; [reflexivity|]. cbn [world networkMgr events].
    split_and!; [by eapply unchanged_trans|congruence..].
  - exfalso. destruct (proj1 (Hin svc)) as [Hl Hw]; [set_solver|]. by apply (sd_waiting _ _ Hs _ _ Hl).
Qed.

(** Once all are served the configuration is settled. *)
Lemma served_settled l hc s hc' s' :
  serviceable hc s -> served l hc s hc' s' -> heliosConfigFinalizer ∈ hc_Finalizers hc' ->
  (forall svc, svc ∈ l <-> services_of (world s) !! svc_key svc = Some svc /\ waiting hc svc) ->
  settled hc' s'.
Proof.
  intros Hse [U C K Sp F D S E V _ _ _] Hf Hl. split; try done.
  - by rw C K lookup_insert_eq.
  - rw D. apply Hse.
  - intros k o ip. rw C K. intros Ho Hk. rw lookup_insert_ne // in Ho.
    unfold conflicting. rw Sp. by apply (se_conflicts _ _ Hse k).
  - intros k svc Hk Hw. assert (waiting hc svc) as Hw' by (revert Hw; unfold waiting; by rw Sp).
    destruct (decide (k ∈ svc_key <$> l)) as [Hin|Hin].
    + apply list_elem_of_fmap in Hin as (x & -> & Hx). destruct (V x Hx) as (cur & ip & ipv6 & V1 & V2 & _).
      assert (cur = svc) as -> by congruence. pose proof (el_unassigned _ _ _ Hw') as Hno.
      rw Hno in V2. unfold ingress_of in V2. by destruct (bool_decide (ipv6 <> ""%string)).
    + rw S // in Hk. apply Hin, list_elem_of_fmap. pose proof (service_keys _ _ _ (se_up _ _ Hse) Hk) as <-.
      exists svc. split; [done|]. by apply Hl.
Qed.

End progress.

(** ** Properties *)

Section claims.
Context {P W : Type} `{AddressPoolLaws P} `{!PoolCapacity P} `{!PoolCapacityLaws P}.
Context `{EnvironmentLaws W} `{!Server W} `{!ServerLaws W}.

(** The waiting services have different names. *)
Definition distinct_names (w : W) (hc : HeliosConfig) : Prop :=
  forall a b, services_of w !! svc_key a = Some a -> services_of w !! svc_key b = Some b ->
    waiting hc a -> waiting hc b -> svc_Name a = svc_Name b -> svc_key a = svc_key b.

Lemma distinct_names_list (w : W) hc l :
  NoDup (svc_key <$> l) -> distinct_names w hc ->
  (forall svc, svc ∈ l <-> services_of w !! svc_key svc = Some svc /\ waiting hc svc) ->
  NoDup (svc_Name <$> l).
Proof.
  intros Hnd Hd Hl. apply NoDup_fmap_2_strong; [|by apply NoDup_fmap_1 in Hnd].
  intros a b [Ha Wa]%Hl [Hb Wb]%Hl Hn. pose proof (Hd a b Ha Hb Wa Wb Hn) as Hk. congruence.
Qed.

(** C4. Every waiting service is served.  Let the server answer, and let the
    configuration be stored, not being deleted and without conflict; let the
    quota have room for all its waiting services and let the ranges have
    [room] for what they request: the requested addresses are allocatable,
    free and distinct, there are as many free addresses as services without a
    request, and either all services request an address of a range, or none
    does, or the requested ones lie outside what first fit covers of it.  Then
    one reconciliation gives each waiting service an ingress of addresses that
    nobody had, the one it requests or any of the range if it requests none;
    records them in the stored status provided the waiting services have
    different names; leaves all other services and configurations alone; and
    asks to be called again after 5 seconds. *)
Theorem reconcile_serves_everyone (hc : HeliosConfig) (s : ctl P W) :
  serviceable hc s ->
  exists hc' s', Reconcile (hc_Namespace hc) (hc_Name hc) s = (Ok (mkResult 5), s') /\
    configs_of (world s') = <[hc_key hc := hc']> (configs_of (world s)) /\
    hc_key hc' = hc_key hc /\ hc_Spec hc' = hc_Spec hc /\
    forall k svc, services_of (world s) !! k = Some svc ->
      if decide (waiting hc svc) then
        exists cur ip ipv6, services_of (world s') !! k = Some cur /\
          svc_Ingress cur = ingress_of ip ipv6 /\ granted hc s svc ip ipv6 /\
          (distinct_names (world s) hc ->
           AllocatedIPs (hc_Status hc') !! svc_Name svc = Some ip /\
           (ipv6 <> ""%string -> AllocatedIPv6s (hc_Status hc') !! svc_Name svc = Some ipv6))
      else services_of (world s') !! k = Some svc.
Proof.
  intros Hse. destruct (Reconcile_up hc s Hse) as (l & hc' & s' & -> & Hsv & _ & Hnd & Hl).
  destruct Hsv as [U C K Sp F D S E V _ _ _].
  exists hc', s'. split_and!; try done. intros k svc Hk.
  pose proof (service_keys _ _ _ (se_up _ _ Hse) Hk) as <-. case_decide as Hw.
  - destruct (V svc) as (cur & ip & ipv6 & V1 & V2 & V3 & V4); [by apply Hl|].
    exists cur, ip, ipv6. split_and!; try done. intros Hd. by apply V4, (distinct_names_list (world s) hc).
  - rw S //. intros (x & Ex & [Hx Wx]%Hl)%list_elem_of_fmap. congruence.
Qed.

(** C9. Reconciliation converges: once a reconciliation has served everyone,
    the next one finds nothing to do.  It grants nothing, writes no object,
    records no event, leaves the pool as it is and asks to be called again
    after 5 seconds. *)
Theorem reconcile_converges (hc : HeliosConfig) (s s1 : ctl P W) (out : result error Result) :
  serviceable hc s -> Reconcile (hc_Namespace hc) (hc_Name hc) s = (out, s1) ->
  exists s2, Reconcile (hc_Namespace hc) (hc_Name hc) s1 = (Ok (mkResult 5), s2) /\
    networkMgr s2 = networkMgr s1 /\ configs_of (world s2) = configs_of (world s1) /\
    services_of (world s2) = services_of (world s1) /\ events s2 = events s1.
Proof.
  intros Hse. destruct (Reconcile_up hc s Hse) as (l & hc' & s' & -> & Hsv & Hf & _ & Hl).
  intros [= _ <-]. pose proof (served_settled _ _ _ _ _ Hse Hsv Hf Hl) as Hst.
  pose proof (sv_key _ _ _ _ _ Hsv) as [= <- <-].
  destruct (Reconcile_frame hc' s') as (s3 & Hun3 & Hn3 & He3 & Hrun3); [apply Hst..|].
  destruct (reconcile_settled hc' s3) as (s4 & Erun4 & Hun4 & Hn4 & He4); [by eapply settled_unchanged|].
  destruct (Hrun3 _ _ _ Erun4 (un_up _ _ Hun4)) as (s5 & -> & Hun5 & Hn5 & He5).
  exists s5. pose proof (unchanged_trans _ _ _ (unchanged_trans _ _ _ Hun3 Hun4) Hun5) as [_ C5 S5].
  split_and!; congruence.
Qed.

(** What the event of a service enqueues: the configurations it may concern,
    and nothing else changes. *)
Lemma watch_service_up hc svc (s : ctl P W) :
  up (world s) -> configs_of (world s) !! hc_key hc = Some hc ->
  svc_Type svc = ServiceTypeLoadBalancer ->
  svc_LoadBalancerIP svc = ""%string \/ IPInRange (svc_LoadBalancerIP svc) (IPRange (hc_Spec hc)) = true ->
  exists reqs s', watch_service (ObjService svc) s = (reqs, s') /\ hc_key hc ∈ reqs /\
    unchanged (world s) (world s') /\ networkMgr s' = networkMgr s.
Proof.
  intros Hu Hl Ht Hq. unfold watch_service. cbn [service_predicate]. rw bool_decide_eq_true_2 //.
  unfold findLoadBalancerServices, bind, on_world.
  destruct (list_configs_up _ Hu) as (items & w & -> & Hun & Hp). eexists _, _. split; [reflexivity|].
  split; [|done]. rw requests_loop_filter. apply list_elem_of_fmap. exists hc. split; [done|].
  apply list_elem_of_filter. split; [done|]. by apply (elem_of_configs (world s)).
Qed.

(** C22. From event to ingress: when a waiting service that requests no
    address or one of the IPv4 range is created or changes, its event enqueues
    the configuration, and the reconciliation of that request gives the service
    an ingress, provided the configuration is [serviceable]: the server
    answers, the configuration is stored, not being deleted and without
    conflict, and the quota and the ranges have room for what all the waiting
    services request. *)
Theorem event_to_ingress (hc : HeliosConfig) (svc : Service_) (s : ctl P W) :
  serviceable hc s -> services_of (world s) !! svc_key svc = Some svc -> waiting hc svc ->
  svc_LoadBalancerIP svc = ""%string \/ IPInRange (svc_LoadBalancerIP svc) (IPRange (hc_Spec hc)) = true ->
  exists reqs s1 s2 cur, watch_service (ObjService svc) s = (reqs, s1) /\ hc_key hc ∈ reqs /\
    Reconcile (fst (hc_key hc)) (snd (hc_key hc)) s1 = (Ok (mkResult 5), s2) /\
    services_of (world s2) !! svc_key svc = Some cur /\ svc_Ingress cur <> [].
Proof.
  intros Hse Hs Hw Hq. destruct (watch_service_up hc svc s) as (reqs & s1 & -> & Hin & Hun & Hn);
    [apply Hse|apply Hse|apply Hw|done|].
  assert (rewritten hc s hc s1) as Hr by (apply rewritten_unchanged; [apply Hse|done..]).
  destruct (Reconcile_up hc s1) as (l & hc' & s2 & Hrun & Hsv & _ & _ & Hl);
    [by eapply serviceable_rewritten|].
  destruct (sv_served _ _ _ _ _ Hsv svc) as (cur & ip & ipv6 & Hc & Hi & _).
  { apply Hl. by rw (un_services _ _ Hun). }
  exists reqs, s1, s2, cur. split_and!; try done. rw Hi. unfold ingress_of.
  by destruct (bool_decide (ipv6 <> ""%string)).
Qed.

End claims.

(** ** Runs *)

(** Two waiting services and one of another kind; another configuration
    already holds an address elsewhere. *)
Definition dual_config : HeliosConfig :=
  demo_config "lb" "ns" "192.0.2.10-192.0.2.20" "fd00::10-fd00::14" ∅ ∅.
Definition elsewhere : HeliosConfig :=
  demo_config "other" "ns" "198.51.100.0/28" "" {["x" := "198.51.100.1"]} ∅.
Definition inner : Service_ := mkService "db" "ns" 1 ∅ ServiceTypeClusterIP None "" [].
Definition dual_with (services : list Service_) : ctl NetworkManager.t Mem.t :=
  demo_state (NetworkManager.MarkUsed "198.51.100.1" NetworkManager.New) [dual_config; elsewhere] services.

Lemma dual_conflicts services k o ip :
  configs_of (world (dual_with services)) !! k = Some o -> k <> hc_key dual_config ->
  ~ conflicting dual_config o ip.
Proof.
  intros Hk Hne. apply elem_of_map_to_list in Hk.
  replace (map_to_list (configs_of (world (dual_with services))))
    with [(("ns", "other"), elsewhere); (("ns", "lb"), dual_config)]%string in Hk by (vm_compute; reflexivity).
  apply elem_of_cons in Hk as [[-> ->]%pair_equal_spec|[-> ->]%list_elem_of_singleton%pair_equal_spec];
    [|destruct (Hne eq_refl)].
  intros [[[j Hj] Hr]|(_ & [j Hj] & _)];
    [change (({["x" := "198.51.100.1"]} : gmap string string)%string !! j = Some ip) in Hj;
     apply lookup_singleton_Some in Hj as [_ <-]
    |change ((∅ : gmap string string) !! j = Some ip) in Hj; by rw lookup_empty in Hj].
  vm_compute in Hr. discriminate Hr.
Qed.

Ltac dual_serviceable :=
  split;
  [apply (bool_decide_unpack _); vm_compute; exact I
  |vm_compute; reflexivity
  |reflexivity
  |apply dual_conflicts
  |unfold quota_room; apply (bool_decide_unpack _); vm_compute; exact I
  |unfold room, fits, unheld; apply (bool_decide_unpack _); vm_compute; exact I].

(** No requests. *)
Definition dual_state : ctl NetworkManager.t Mem.t :=
  dual_with [demo_service "web" "ns" ""; demo_service "api" "ns" ""; inner].

Lemma dual_state_serviceable : serviceable dual_config dual_state.
Proof. dual_serviceable. Qed.

(** Every service requests an address of the IPv4 range; the second one is
    spelled with spaces. *)
Definition asking_state : ctl NetworkManager.t Mem.t :=
  dual_with [demo_service "web" "ns" "192.0.2.15"; demo_service "api" "ns" " 192.0.2.12 "; inner].

Lemma asking_state_serviceable : serviceable dual_config asking_state.
Proof. dual_serviceable. Qed.

Lemma reconcile_serves_everyone_witness :
  exists s' cur ip ipv6, Reconcile "ns" "lb" asking_state = (Ok (mkResult 5), s') /\
    services_of (world s') !! ("ns", "web")%string = Some cur /\ svc_Ingress cur = ingress_of ip ipv6 /\
    ip = "192.0.2.15"%string.
Proof.
  destruct (reconcile_serves_everyone dual_config asking_state asking_state_serviceable)
    as (hc' & s' & Hr & _ & _ & _ & Hs).
  pose proof (Hs ("ns", "web")%string (demo_service "web" "ns" "192.0.2.15") ltac:(vm_compute; reflexivity)) as Hw.
  destruct (decide (waiting dual_config (demo_service "web" "ns" "192.0.2.15"))) as [_|Hno].
  - destruct Hw as (cur & ip & ipv6 & H1 & H2 & Hg & _). exists s', cur, ip, ipv6.
    split; [exact Hr|]. split; [exact H1|]. split; [exact H2|].
    pose proof (gr_v4 _ _ _ _ _ Hg) as Hin. apply elem_of_reach in Hin. vm_compute in Hin. exact Hin.
  - destruct Hno. apply (bool_decide_unpack _). vm_compute. exact I.
Defined.

Lemma reconcile_converges_witness :
  exists s2, Reconcile "ns" "lb" (snd (Reconcile "ns" "lb" dual_state)) = (Ok (mkResult 5), s2) /\
    networkMgr s2 = networkMgr (snd (Reconcile "ns" "lb" dual_state)).
Proof.
  destruct (reconcile_converges dual_config dual_state (snd (Reconcile "ns" "lb" dual_state))
    (fst (Reconcile "ns" "lb" dual_state)) dual_state_serviceable) as (s2 & Hr & Hp & _).
  - apply surjective_pairing.
  - exists s2. split; [exact Hr|exact Hp].
Defined.

(** A range of a single address and one service. *)
Definition single_config : HeliosConfig := demo_config "lb" "ns" "192.0.2.10" "" ∅ ∅.
Definition single_state : ctl NetworkManager.t Mem.t :=
  demo_state NetworkManager.New [single_config] [demo_service "web" "ns" ""].

Lemma single_state_serviceable : serviceable single_config single_state.
Proof.
  split;
  [apply (bool_decide_unpack _); vm_compute; exact I
  |vm_compute; reflexivity
  |reflexivity
  |
  |unfold quota_room; apply (bool_decide_unpack _); vm_compute; exact I
  |unfold room, fits, unheld; apply (bool_decide_unpack _); vm_compute; exact I].
  intros k o ip Hk Hne. apply elem_of_map_to_list in Hk.
  replace (map_to_list (configs_of (world single_state)))
    with [(("ns", "lb"), single_config)]%string in Hk by (vm_compute; reflexivity).
  by apply list_elem_of_singleton in Hk as [-> _]%pair_equal_spec.
Qed.

Lemma event_to_ingress_witness :
  (exists reqs s1 s2 cur,
    watch_service (ObjService (demo_service "api" "ns" "")) dual_state = (reqs, s1) /\
    ("ns", "lb")%string ∈ reqs /\ Reconcile "ns" "lb" s1 = (Ok (mkResult 5), s2) /\
    services_of (world s2) !! ("ns", "api")%string = Some cur /\ svc_Ingress cur <> []) /\
  (exists reqs s1 s2 cur,
    watch_service (ObjService (demo_service "web" "ns" "")) single_state = (reqs, s1) /\
    ("ns", "lb")%string ∈ reqs /\ Reconcile "ns" "lb" s1 = (Ok (mkResult 5), s2) /\
    services_of (world s2) !! ("ns", "web")%string = Some cur /\ svc_Ingress cur <> []).
Proof.
  split.
  - apply (event_to_ingress dual_config (demo_service "api" "ns" "") dual_state dual_state_serviceable).
    + vm_compute. reflexivity.
    + apply (bool_decide_unpack _). vm_compute. exact I.
    + left. reflexivity.
  - apply (event_to_ingress single_config (demo_service "web" "ns" "") single_state single_state_serviceable).
    + vm_compute. reflexivity.
    + apply (bool_decide_unpack _). vm_compute. exact I.
    + left. reflexivity.
Defined.

(** ** Where progress stops *)

(** Three reconciliations in a row, and the ingress of some services in the
    end. *)
Definition after_three (names : list string) (s : ctl NetworkManager.t Mem.t) :
    list (result error Result) * list (option (list string)) :=
  let '(r1, s) := Reconcile "ns" "lb" s in
  let '(r2, s) := Reconcile "ns" "lb" s in
  let '(r3, s) := Reconcile "ns" "lb" s in
  ([r1; r2; r3], (fun name => svc_Ingress <$> stored_service (world s) ("ns", name)%string) <$> names).

(** One request that cannot be granted stops the loop: the services listed
    after it wait as long as it does, while the range has free addresses. *)
Theorem one_request_blocks :
  after_three ["c"; "b"; "a"]%string
    (demo_state (NetworkManager.MarkUsed "192.0.2.10" NetworkManager.New)
      [demo_config "lb" "ns" "192.0.2.10-192.0.2.20" "" ∅ ∅]
      [demo_service "a" "ns" ""; demo_service "b" "ns" ""; demo_service "c" "ns" "192.0.2.10"]) =
  ([Ok (mkResult 10); Ok (mkResult 10); Ok (mkResult 10)], [Some []; Some []; Some []]).
Proof. vm_compute. reflexivity. Qed.

(** A service without a request takes the address that a service listed after
    it requests, so the request is refused although the range has room for
    both. *)
Theorem first_fit_takes_requested :
  after_three ["c"; "b"]%string
    (demo_state NetworkManager.New [demo_config "lb" "ns" "192.0.2.10-192.0.2.20" "" ∅ ∅]
      [demo_service "b" "ns" "192.0.2.10"; demo_service "c" "ns" ""]) =
  ([Ok (mkResult 10); Ok (mkResult 10); Ok (mkResult 10)], [Some ["192.0.2.10"]; Some []])%string.
Proof. vm_compute. reflexivity. Qed.
