(* ===== verification/Turnover.v ===== *)
(** * Serving and deleting

    The deletion of a configuration on a server that answers, and the whole
    life of a configuration: what a reconciliation took and wrote, the
    deletion gives back and clears. *)
From S2P Require Import Prelude GoStrings NetIP IPRange IPAllocator Pool Capacity Errors Types.
From S2P Require Import ServiceFilter Metrics Cluster Server IPManager Reconciler Controller Progress.

Local Open Scope Z_scope.
Local Open Scope go_scope.

Section clearing.
Context {P W : Type} `{AddressPoolLaws P} `{EnvironmentLaws W} `{!Server W} `{!ServerLaws W}.
Implicit Types (w : W) (s : ctl P W).

(** The services with a key in [ks] have lost their ingress, all others are as
    they were. *)
Record cleared (ks : string * string -> Prop) w w' : Prop := {
  cl_up : up w';
  cl_configs : configs_of w' = configs_of w;
  cl_others k : ~ ks k -> services_of w' !! k = services_of w !! k;
  cl_absent k : services_of w !! k = None -> services_of w' !! k = None;
  cl_cleared k svc : ks k -> services_of w !! k = Some svc ->
    exists cur, services_of w' !! k = Some cur /\ svc_Ingress cur = [];
}.

Lemma cleared_iff (ks1 ks2 : string * string -> Prop) w w' :
  (forall k, ks1 k <-> ks2 k) -> cleared ks1 w w' -> cleared ks2 w w'.
Proof. intros Hk [U C O A L]. split; try done; intros; [apply O|eapply L]; try done; by rw Hk. Qed.

Lemma cleared_trans (ks1 ks2 : string * string -> Prop)
    `{forall k, Decision (ks1 k)} `{forall k, Decision (ks2 k)} w1 w2 w3 :
  cleared ks1 w1 w2 -> cleared ks2 w2 w3 -> cleared (fun k => ks1 k \/ ks2 k) w1 w3.
Proof.
  intros [U1 C1 O1 A1 L1] [U2 C2 O2 A2 L2]. split; [done|congruence| |auto|].
  - intros k Hk. rw O2 ?O1; tauto.
  - intros k svc Hk Hl. destruct (decide (ks2 k)) as [K2|K2].
    + destruct (services_of w2 !! k) as [svc2|] eqn:E2; [by eapply L2|].
      exfalso. destruct (decide (ks1 k)) as [K1|K1].
      * destruct (L1 _ _ K1 Hl) as (cur & ? & _). congruence.
      * rw O1 // in E2. congruence.
    + rw O2 //. apply L1 in Hl; [done|tauto].
Qed.

Lemma clear_ingress_up ns name w :
  up w -> exists w', clear_ingress ns name w = (tt, w') /\ cleared (fun k => k = (ns, name)) w w'.
Proof.
  intros Hu. unfold clear_ingress, bind. destruct (services_of w !! (ns, name)) as [svc|] eqn:El.
  - destruct (get_service_up _ _ w svc Hu El) as (w1 & -> & [U1 C1 S1]).
    pose proof (service_keys _ _ _ Hu El) as Hk.
    destruct (update_service_status_up (with_ingress [] svc) w1 svc)
      as (svc' & w2 & -> & [U2 C2 S2] & K2 & I2); [done|by rw S1 -El -Hk|done|].
    change (svc_key svc' = svc_key svc) in K2. rw Hk in K2. rw K2 in S2.
    exists w2. split; [done|]. split; rw ?S2 ?S1; [done|congruence| | |].
    + intros k Hne. by rw lookup_insert_ne.
    + intros k Hno. rw lookup_insert_ne //. congruence.
    + intros k x -> _. exists svc'. by rw lookup_insert_eq.
  - destruct (get_service_none _ _ w Hu El) as (e & w1 & -> & [U1 C1 S1]).
    exists w1. split; [done|]. split; rw ?S1 //. intros k x ->. congruence.
Qed.

Lemma clear_loop_up ns (l : list (string * bool)) s :
  up (world s) ->
  exists s', for_each (fun e => on_world (clear_ingress ns (fst e))) l s = (tt, s') /\
    cleared (fun k => fst k = ns /\ snd k ∈ l.*1) (world s) (world s').
Proof.
  revert s. induction l as [|[name b] l IH]; intros s Hu; simpl.
  - exists s. split; [done|]. split; try done. by intros k svc [_ ?%elem_of_nil].
  - unfold bind, on_world at 1. destruct (clear_ingress_up ns name (world s) Hu) as (w1 & -> & Hc).
    destruct (IH (mkCtl (networkMgr s) w1 (metrics s) (events s))) as (s' & -> & Hc'); [apply Hc|].
    exists s'. split; [done|]. eapply cleared_iff; [|exact (cleared_trans _ _ _ _ _ Hc Hc')].
    intros [ns' name']. cbn. rw elem_of_cons. naive_solver.
Qed.

(** The services the status names, in the namespace of the configuration. *)
Definition named (hc : HeliosConfig) (k : string * string) : Prop :=
  fst k = hc_Namespace hc /\
  (is_Some (AllocatedIPs (hc_Status hc) !! snd k) \/ is_Some (AllocatedIPv6s (hc_Status hc) !! snd k)).

Lemma elem_of_names {V} (m : gmap string V) l k :
  l ≡ₚ map_to_list m -> k ∈ l.*1 <-> is_Some (m !! k).
Proof.
  intros ->. rw list_elem_of_fmap. split.
  - intros ([j v] & -> & Hin%elem_of_map_to_list). by exists v.
  - intros [v Hv%elem_of_map_to_list]. by exists (k, v).
Qed.

Lemma ReleaseAll_up hc s :
  up (world s) ->
  exists s', ReleaseAll hc s = (tt, s') /\ cleared (named hc) (world s) (world s').
Proof.
  intros Hu. unfold ReleaseAll, bind, on_world at 1.
  destruct (iterate_up (AllocatedIPs (hc_Status hc)) _ Hu) as (e4 & w1 & -> & Un1 & P4).
  destruct (release_loop e4 ∅ _) as [names s1] eqn:R4. unfold on_world at 1.
  apply release_loop_effect in R4 as (_ & _ & N4 & W4 & _). cbn [world] in W4. rw W4.
  destruct (iterate_up (AllocatedIPv6s (hc_Status hc)) w1 (un_up _ _ Un1)) as (e6 & w2 & -> & Un2 & P6).
  destruct (release_loop e6 names _) as [names2 s2] eqn:R6. unfold on_world at 1.
  apply release_loop_effect in R6 as (_ & _ & N6 & W6 & _). cbn [world] in W6. rw W6.
  destruct (iterate_up names2 w2 (un_up _ _ Un2)) as (l & w3 & -> & Un3 & Pl).
  destruct (clear_loop_up (hc_Namespace hc) l (mkCtl (networkMgr s2) w3 (metrics s2) (events s2)))
    as (s' & -> & Hc); [apply Un3|].
  exists s'. split; [done|]. cbn [world] in Hc.
  pose proof (unchanged_trans _ _ _ (unchanged_trans _ _ _ Un1 Un2) Un3) as [_ C3 S3].
  apply (cleared_iff _ (named hc)) in Hc as [U C O A L].
  - rw C3 in C. rw S3 in O, A, L. by split.
  - intros [ns k]. unfold named. cbn. rw (elem_of_names names2) // N6 N4 lookup_empty.
    rw (elem_of_names _ _ _ P4) (elem_of_names _ _ _ P6). naive_solver eauto using is_Some_None.
Qed.

End clearing.

(** ** Deletion *)

Section deletion.
Context {P W : Type} `{AddressPoolLaws P} `{EnvironmentLaws W} `{!Server W} `{!ServerLaws W}.
Implicit Types (w : W) (s : ctl P W).

Lemma handleDeletion_services hc s r hc' s' :
  up (world s) -> heliosConfigFinalizer ∈ hc_Finalizers hc ->
  handleDeletion hc s = ((r, hc'), s') ->
  exists w1, cleared (named hc) (world s) w1 /\ services_of (world s') = services_of w1 /\
    (forall cur, configs_of (world s) !! hc_key hc = Some cur ->
      hc_ResourceVersion hc = hc_ResourceVersion cur -> hc_Deleting cur = true ->
      r = Ok tt /\ up (world s')).
Proof.
  intros Hu Hf. unfold handleDeletion. rw contains_finalizer bool_decide_eq_true_2 //.
  unfold bind at 1. cbn [emit]. unfold bind at 1.
  destruct (ReleaseAll_up hc (mkCtl (networkMgr s) (world s) (metrics s)
    (events s ++ [EvCleanupStarted (size (AllocatedIPs (hc_Status hc)))]))) as (s1 & -> & Hc); [done|].
  cbn [world] in Hc. cbv zeta. unfold bind at 1, on_world.
  destruct (UpdateConfig _ (world s1)) as [ru w] eqn:Eu.
  pose proof (update_config_services _ _ _ _ (cl_up _ _ _ Hc) Eu) as Hs.
  assert (forall cur, configs_of (world s) !! hc_key hc = Some cur ->
    hc_ResourceVersion hc = hc_ResourceVersion cur -> hc_Deleting cur = true ->
    is_ok ru = true /\ up w) as Hok.
  { intros cur Hl Hv Hd. rw remove_finalizer in Eu. set (hc0 := with_finalizers _ hc) in Eu.
    destruct (update_config_deleting hc0 (world s1) cur) as (h & w' & E & ? & _);
      [apply Hc|by rw (cl_configs _ _ _ Hc)|done|done|].
    rw E in Eu. by injection Eu as <- <-. }
  destruct ru as [h|e]; unfold bind; intros [= <- <- <-]; exists (world s1);
    (split; [done|]); (split; [exact Hs|]); intros cur Hl Hv Hd; by destruct (Hok cur Hl Hv Hd).
Qed.

Lemma Reconcile_deleting hc s :
  up (world s) -> configs_of (world s) !! hc_key hc = Some hc -> hc_Deleting hc = true ->
  heliosConfigFinalizer ∈ hc_Finalizers hc ->
  exists s' w1, Reconcile (hc_Namespace hc) (hc_Name hc) s = (Ok (mkResult 0), s') /\
    cleared (named hc) (world s) w1 /\ services_of (world s') = services_of w1 /\
    forall x, pool_in_use (networkMgr s') x = true <-> pool_in_use (networkMgr s) x = true /\ ~ owns hc x.
Proof.
  intros Hu Hl Hd Hf. destruct (Reconcile_frame hc s Hu Hl) as (s0 & [U0 C0 S0] & Hn0 & _ & Hrun).
  destruct (handleDeletion hc s0) as [[r hc'] s1] eqn:Ed.
  destruct (handleDeletion_services _ _ _ _ _ U0 Hf Ed) as (w1 & [U C O A L] & Hs & Hok).
  destruct (Hok hc) as [-> Hu1]; [by rw C0|done|done|].
  pose proof (handleDeletion_effect _ _ _ _ _ Hf Ed) as (Hp & _).
  destruct (Hrun (Ok (mkResult 0)) hc' s1) as (s' & Hr & [_ _ Hs'] & Hn' & _); [|done|].
  { unfold reconcile_config, ensure_finalizer, bind at 1. rw contains_finalizer bool_decide_eq_true_2 //.
    cbn [negb]. unfold ret at 1. rw Hd. unfold bind. by rw Ed. }
  exists s', w1. split_and!; [done| |congruence|by rw Hn' -Hn0].
  rw C0 in C. rw S0 in O, A, L. by split.
Qed.

End deletion.

(** ** Properties *)

Section claims.
Context {P W : Type} `{AddressPoolLaws P} `{!PoolCapacity P} `{!PoolCapacityLaws P}.
Context `{EnvironmentLaws W} `{!Server W} `{!ServerLaws W}.

(** Deletion clears the cluster: on a server that answers, every service
    that the status names and that exists in the namespace of the
    configuration has no ingress after [handleDeletion], and every other
    service is as it was, whether or not the finalizer can be removed. *)
Theorem deletion_clears_ingress (hc hc' : HeliosConfig) (s s' : ctl P W) (r : result error unit) :
  up (world s) -> heliosConfigFinalizer ∈ hc_Finalizers hc ->
  handleDeletion hc s = ((r, hc'), s') ->
  forall k, 
    (named hc k -> forall svc, services_of (world s) !! k = Some svc ->
       exists cur, services_of (world s') !! k = Some cur /\ svc_Ingress cur = []) /\
    (~ named hc k -> services_of (world s') !! k = services_of (world s) !! k).
Proof.
  intros Hu Hf Hd k. destruct (handleDeletion_services _ _ _ _ _ Hu Hf Hd) as (w1 & [] & -> & _).
  split; [intros Hk svc; by apply cl_cleared0|apply cl_others0].
Qed.

(** [hcd] is [hc] once its deletion has been requested. *)
Record deletion_requested (hc hcd : HeliosConfig) : Prop := {
  dr_key : hc_key hcd = hc_key hc;
  dr_finalizers : hc_Finalizers hcd = hc_Finalizers hc;
  dr_status : hc_Status hcd = hc_Status hc;
  dr_deleting : hc_Deleting hcd = true;
}.

(** The keys the status names after all were served. *)
Lemma served_named l hc s hc' s' k :
  AllocatedIPs (hc_Status hc) = ∅ -> AllocatedIPv6s (hc_Status hc) = ∅ ->
  NoDup (svc_Name <$> l) -> (forall svc, svc ∈ l -> svc_Namespace svc = hc_Namespace hc) ->
  served l hc s hc' s' -> named hc' k <-> k ∈ svc_key <$> l.
Proof.
  intros E4 E6 Hnd Hns [U C K Sp F D S E V _ _ _]. unfold named. rw list_elem_of_fmap.
  pose proof K as [= Kn _]. rw Kn. split.
  - intros [Hk Hsome]. destruct (decide (snd k ∈ svc_Name <$> l)) as [Hin|Hin].
    + apply list_elem_of_fmap in Hin as (svc & Hs & Hin). exists svc. split; [|done].
      destruct k as [ns name]. cbn in *. unfold svc_key. by rw Hns // Hk Hs.
    + destruct (E _ Hin) as [N4 N6]. rw N4 N6 E4 E6 !lookup_empty in Hsome. by destruct Hsome as [[]|[]].
  - intros (svc & -> & Hin). split; [cbn; by apply Hns|]. left. cbn.
    destruct (V svc Hin) as (cur & ip & ipv6 & _ & _ & _ & Hent). destruct (Hent Hnd) as [-> _]. eauto.
Qed.

(** C8. A configuration leaves no trace.  Let a [serviceable] configuration
    with an empty status serve its waiting services, all in its own namespace
    and with different names; then let its deletion be requested, nothing else
    change, and the deletion be reconciled.  It succeeds, every service has
    the ingress it had at the start, every address that was in use still is,
    and nothing else is in use except addresses that other configurations
    record, which serving marks. *)
Theorem serving_then_deleting (hc hc1 hcd : HeliosConfig) (s s1 : ctl P W) (w2 : W)
    (out : result error Result) :
  serviceable hc s -> distinct_names (world s) hc ->
  AllocatedIPs (hc_Status hc) = ∅ -> AllocatedIPv6s (hc_Status hc) = ∅ ->
  (forall k svc, services_of (world s) !! k = Some svc -> waiting hc svc ->
     svc_Namespace svc = hc_Namespace hc) ->
  Reconcile (hc_Namespace hc) (hc_Name hc) s = (out, s1) ->
  configs_of (world s1) !! hc_key hc = Some hc1 -> deletion_requested hc1 hcd ->
  up w2 -> configs_of w2 !! hc_key hc = Some hcd -> services_of w2 = services_of (world s1) ->
  exists s3, Reconcile (hc_Namespace hc) (hc_Name hc) (with_world w2 s1) = (Ok (mkResult 0), s3) /\
    (forall x, pool_in_use (networkMgr s) x = true -> pool_in_use (networkMgr s3) x = true) /\
    (forall x, pool_in_use (networkMgr s3) x = true ->
       pool_in_use (networkMgr s) x = true \/ x ∈ held_by_others (world s) hc) /\
    (forall k svc, services_of (world s) !! k = Some svc ->
       exists cur, services_of (world s3) !! k = Some cur /\ svc_Ingress cur = svc_Ingress svc).
Proof.
  intros Hse Hdn E4 E6 Hns. destruct (Reconcile_up hc s Hse) as (l & hc' & s' & -> & Hsv & Hf & Hnd & Hl).
  intros [= _ <-] Hst1 [Kd Fd Sd Dd] Hu2 Hc2 Hs2.
  rw (sv_configs _ _ _ _ _ Hsv) lookup_insert_eq in Hst1. injection Hst1 as <-.
  pose proof (distinct_names_list _ _ _ Hnd Hdn Hl) as Hnn.
  assert (forall k, named hcd k <-> k ∈ svc_key <$> l) as Hnamed.
  { intros k. rw -(served_named l hc s hc' s' k) //; [unfold named; rw Sd; by injection Kd as -> _|].
    intros svc [Hk Hw]%Hl. by eapply Hns. }
  pose proof (sv_key _ _ _ _ _ Hsv) as Kv. rw -Kv -Kd in Hc2.
  assert (hc_Namespace hc = hc_Namespace hcd /\ hc_Name hc = hc_Name hcd) as [-> ->]
    by (rw Kv in Kd; by injection Kd as -> ->).
  destruct (Reconcile_deleting hcd (with_world w2 s')) as (s3 & w1 & -> & [_ _ O _ L] & Hs3 & Hp);
    [done|done|done|by rw Fd|].
  exists s3. cbn [with_world networkMgr world] in *. rw Hs2 in O, L. unfold owns in Hp. rw Sd in Hp.
  split_and!; [done| | |].
  - intros x Hx. apply Hp. split; [by apply (sv_grows _ _ _ _ _ Hsv)|].
    intros [[[k Hk]|[k Hk]]|Hn]%(sv_owned _ _ _ _ _ Hsv); [| |done]; rw ?E4 ?E6 lookup_empty in Hk; done.
  - intros x [Hx Hno]%Hp. destruct (sv_grants _ _ _ _ _ Hsv x Hnn Hx) as [?|[?|?]]; [by left|by right|done].
  - intros k svc Hk. rw Hs3. destruct (decide (k ∈ svc_key <$> l)) as [Hin|Hin].
    + pose proof Hin as (x & -> & Hx)%list_elem_of_fmap. pose proof Hx as [Hxs Hw]%Hl.
      assert (svc = x) as -> by congruence. rw (el_unassigned _ _ _ Hw).
      destruct (sv_served _ _ _ _ _ Hsv x Hx) as (c & ? & ? & Hc & _). by apply (L _ c); [apply Hnamed|].
    + exists svc. split; [|done]. rw O; [|by rw Hnamed]. by rw (sv_services _ _ _ _ _ Hsv).
Qed.

End claims.

(** ** Runs *)

(** The state of [dual_state] once everyone is served, and with the deletion
    of the configuration requested. *)
Definition dual_served : ctl NetworkManager.t Mem.t := snd (Reconcile "ns" "lb" dual_state).
Definition dual_stored : HeliosConfig :=
  default dual_config (Mem.configs (world dual_served) !! ("ns", "lb")%string).

Definition request_deletion (hc : HeliosConfig) : HeliosConfig :=
  mkHeliosConfig (hc_Name hc) (hc_Namespace hc) (hc_Generation hc) (hc_ResourceVersion hc)
    (hc_Finalizers hc) true (hc_Spec hc) (hc_Status hc).
Lemma request_deletion_requested hc : deletion_requested hc (request_deletion hc).
Proof. by split. Qed.

Lemma put_config_services hc (w : Mem.t) : services_of (Mem.put_config hc w) = services_of w.
Proof. done. Qed.

Definition dual_deleting : Mem.t :=
  Mem.put_config (request_deletion dual_stored) (world dual_served).

Lemma deletion_clears_ingress_witness :
  exists s' cur, snd (handleDeletion dual_stored dual_served) = s' /\
    services_of (world s') !! ("ns", "api")%string = Some cur /\ svc_Ingress cur = [].
Proof.
  destruct (handleDeletion dual_stored dual_served) as [[r hc'] s'] eqn:E. exists s'.
  destruct (deletion_clears_ingress dual_stored hc' dual_served s' r) with (k := ("ns", "api")%string)
    as [Hc _]; [apply (bool_decide_unpack _); vm_compute; exact I
               |apply (bool_decide_unpack _); vm_compute; exact I|exact E|].
  destruct (services_of (world dual_served) !! ("ns", "api")%string) as [svc|] eqn:El.
  - destruct (Hc ltac:(split; [vm_compute; reflexivity|left; vm_compute; eauto]) svc eq_refl) as (cur & H1 & H2).
    exists cur. split; [reflexivity|]. split; [exact H1|exact H2].
  - vm_compute in El. discriminate El.
Defined.

Lemma dual_namespace k svc :
  services_of (world dual_state) !! k = Some svc -> svc_Namespace svc = "ns"%string.
Proof. revert k svc. apply (bool_decide_unpack (map_Forall _ _)). vm_compute. exact I. Qed.

Lemma serving_then_deleting_witness :
  exists s3, Reconcile "ns" "lb" (with_world dual_deleting dual_served) = (Ok (mkResult 0), s3) /\
    forall x, pool_in_use (networkMgr s3) x = true ->
      pool_in_use (networkMgr dual_state) x = true \/ x ∈ held_by_others (world dual_state) dual_config.
Proof.
  destruct (serving_then_deleting dual_config dual_stored (request_deletion dual_stored) dual_state
    dual_served dual_deleting (fst (Reconcile "ns" "lb" dual_state))) as (s3 & Hr & _ & Hp & _).
  - exact dual_state_serviceable.
  - intros a b Ha%dual_namespace Hb%dual_namespace _ _ Hn. unfold svc_key. by rw Ha Hb Hn.
  - reflexivity.
  - reflexivity.
  - intros k svc Hk _. by apply dual_namespace in Hk.
  - apply surjective_pairing.
  - vm_compute. reflexivity.
  - apply request_deletion_requested.
  - apply (bool_decide_unpack _). vm_compute. exact I.
  - vm_compute. reflexivity.
  - exact (put_config_services (request_deletion dual_stored) (world dual_served)).
  - exists s3. split; [exact Hr|exact Hp].
Defined.
