(* ===== verification/LoadBalancer.v ===== *)
(** * The load balancer: internal/loadbalancer

    Backends, the five selection algorithms and the balancer around them
    (types.go, backend.go, balancer.go, algorithms.go, metrics.go and the
    checks of health.go).  Backends are shared by pointer between the balancer
    and its callers: they live in a store, and slices hold locations.  Every
    slice that leaves the lock is a copy, so slices are lists.  Each operation
    reads and writes the balancer under its lock and the counters by atomic
    instructions; the operations here are sequential, and [Lifecycle]
    interleaves them with the goroutines of the health checks.  A random
    choice and the network are arguments. *)
From Stdlib Require Import Ascii.
From stdpp Require Import pretty.
From S2P Require Import Prelude GoStrings Metrics.

Local Open Scope char_scope.
Local Open Scope Z_scope.
Local Open Scope go_scope.

(** ** Data: types.go *)

Definition RoundRobin : string := "roundrobin".
Definition LeastConnection : string := "leastconnection".
Definition WeightedRoundRobin : string := "weightedroundrobin".
Definition IPHash : string := "iphash".
Definition RandomSelection : string := "random".

Record Weight : Type := mkWeight {
  w_ServiceName : string;
  w_Weight : Z;
}.

(** Durations in nanoseconds. *)
Record HealthCheckOptions : Type := mkHealthCheckOptions {
  hco_Timeout : Z;
  hco_Protocol : string;
  hco_HTTPPath : string;
}.

Record BalancerConfig : Type := mkBalancerConfig {
  bc_Type : string;
  bc_HealthCheck : bool;
  bc_CheckInterval : Z;
  bc_MetricsEnabled : bool;
  bc_Weights : list Weight;
  bc_HealthCheckOpts : HealthCheckOptions;
}.

Record Backend : Type := mkBackend {
  be_Address : string;
  be_Port : Z;
  be_healthy : Z;           (* int32 *)
  be_Connections : Z;       (* int32 *)
  be_ServiceName : string;
  be_Weight : Z;            (* int *)
}.

Record LoadBalancerStats : Type := mkLoadBalancerStats {
  TotalConnections : Z;
  ActiveBackends : Z;
  HealthyBackends : Z;
}.

Definition zeroStats : LoadBalancerStats := mkLoadBalancerStats 0 0 0.

(** The store of backends. *)
Abbreviation loc := positive.
Definition heap : Type := loc -> Backend.

Definition store (p : loc) (b : Backend) (h : heap) : heap :=
  fun q => if decide (q = p) then b else h q.

(** The implementations of the [Algorithm] interface with the counters of
    their [RoundRobinState]s (uint32), by service. *)
Inductive Algorithm : Type :=
| roundRobinAlgorithm (states : gmap string Z)
| leastConnectionAlgorithm
| weightedRoundRobinAlgorithm (states : gmap string Z) (weights : list Weight)
| ipHashAlgorithm
| randomAlgorithm.

Record LoadBalancer : Type := mkLoadBalancer {
  backends : gmap string (list loc);
  stats : gmap string LoadBalancerStats;
  config : BalancerConfig;
  algorithm : Algorithm;
}.

(** ** backend.go *)

Definition IsHealthy (b : Backend) : bool := be_healthy b =? 1.

Definition SetHealthy (healthy : bool) (b : Backend) : Backend :=
  mkBackend (be_Address b) (be_Port b) (if healthy then 1 else 0) (be_Connections b)
    (be_ServiceName b) (be_Weight b).

Definition AddBackend (h : heap) (backend : loc) (lb : LoadBalancer) : LoadBalancer :=
  let name := be_ServiceName (h backend) in
  let '(bs, st) :=
    match backends lb !! name with
    | Some _ => (backends lb, stats lb)
    | None => (<[name := []]> (backends lb), <[name := zeroStats]> (stats lb))
    end in
  mkLoadBalancer (<[name := default [] (bs !! name) ++ [backend]]> bs) st (config lb) (algorithm lb).

(** The loop of [RemoveBackend]: the slice without its first backend at the
    address. *)
Fixpoint remove_first (h : heap) (address : string) (bs : list loc) : list loc :=
  match bs with
  | [] => []
  | b :: rest => if bool_decide (be_Address (h b) = address) then rest
                 else b :: remove_first h address rest
  end.

Definition RemoveBackend (h : heap) (address serviceName : string) (lb : LoadBalancer) : LoadBalancer :=
  match backends lb !! serviceName with
  | None => lb
  | Some bs =>
      mkLoadBalancer (<[serviceName := remove_first h address bs]> (backends lb)) (stats lb)
        (config lb) (algorithm lb)
  end.

(** ** algorithms.go *)

Definition NewAlgorithm (balancerType : string) (weights : list Weight) : Algorithm :=
  if bool_decide (balancerType = LeastConnection) then leastConnectionAlgorithm
  else if bool_decide (balancerType = WeightedRoundRobin) then weightedRoundRobinAlgorithm ∅ weights
  else if bool_decide (balancerType = IPHash) then ipHashAlgorithm
  else if bool_decide (balancerType = RandomSelection) then randomAlgorithm
  else roundRobinAlgorithm ∅.

(** The run-time panics a selection could end with.  A selection returns
    [Err] for a panic, [Ok None] for nil and [Ok (Some b)] for a backend. *)
Inductive go_panic : Type :=
| IndexOutOfRange
| DivideByZero
| InvalidArgument.

(** [backends[i]] *)
Definition index (bs : list loc) (i : Z) : result go_panic (option loc) :=
  match (if i <? 0 then None else bs !! Z.to_nat i) with
  | Some b => Ok (Some b)
  | None => Err IndexOutOfRange
  end.

(** [a % b] on uint32 and on int *)
Definition rem_u (a b : Z) : result go_panic Z := if b =? 0 then Err DivideByZero else Ok (a mod b).
Definition rem_s (a b : Z) : result go_panic Z := if b =? 0 then Err DivideByZero else Ok (Z.rem a b).

(** [rand.Intn(n)], which panics unless [n] is positive; [intn] is its choice. *)
Definition Intn (intn : Z -> Z) (n : Z) : result go_panic Z :=
  if n <=? 0 then Err InvalidArgument else Ok (intn n).

(** [atomic.AddUint32(&state.current, 1)] on the state of a service, created
    when it is missing. *)
Definition tick (states : gmap string Z) (serviceName : string) : Z * gmap string Z :=
  let current := wrap_u 32 (default 0 (states !! serviceName) + 1) in
  (current, <[serviceName := current]> states).

(** The state map after the lookup that precedes the count. *)
Definition touch (states : gmap string Z) (serviceName : string) : gmap string Z :=
  match states !! serviceName with Some _ => states | None => <[serviceName := 0]> states end.

Definition healthy_of (h : heap) (bs : list loc) : list loc :=
  filter (fun b => IsHealthy (h b) = true) bs.

Fixpoint least_loop (h : heap) (leastConn : Z) (best : option loc) (bs : list loc) : option loc :=
  match bs with
  | [] => best
  | b :: rest =>
      if negb (IsHealthy (h b)) then least_loop h leastConn best rest
      else let connections := be_Connections (h b) in
           if connections <? leastConn then least_loop h connections (Some b) rest
           else least_loop h leastConn best rest
  end.

Fixpoint configured_weight (weights : list Weight) (serviceName : string) (w : Z) : Z :=
  match weights with
  | [] => w
  | x :: rest => if bool_decide (w_ServiceName x = serviceName) then w_Weight x
                 else configured_weight rest serviceName w
  end.

Definition resolveWeight (weights : list Weight) (backend : Backend) : Z :=
  let w := configured_weight weights (be_ServiceName backend) (be_Weight backend) in
  if w =? 0 then 1 else w.

(** The loop over the healthy backends, on an int. *)
Fixpoint weighted_loop (point : Z) (bs : list loc) (weights : list Z) : option loc :=
  match bs, weights with
  | b :: bs', w :: weights' =>
      let point := wrap_s 64 (point - w) in
      if point <? 0 then Some b else weighted_loop point bs' weights'
  | _, _ => None
  end.

(** FNV-1a on 32 bits: [hash/fnv]. *)
Definition fnv_step (hash : Z) (c : ascii) : Z :=
  wrap_u 32 (Z.lxor hash (Z.of_N (N_of_ascii c)) * 16777619).
Definition fnv32a (s : string) : Z := fold_left fnv_step (go_bytes s) 2166136261.

(** [Select]; [intn] is the choice of [rand.Intn]. *)
Definition Select (intn : Z -> Z) (h : heap) (bs : list loc) (serviceName clientIP : string)
    (a : Algorithm) : result go_panic (option loc) * Algorithm :=
  match a with
  | roundRobinAlgorithm states =>
      if (length bs =? 0)%nat then (Ok None, a)
      else
        let '(current, states) := tick states serviceName in
        (let? i := rem_u current (wrap_u 32 (Z.of_nat (length bs))) in index bs i,
         roundRobinAlgorithm states)
  | leastConnectionAlgorithm =>
      (Ok (least_loop h (Z.shiftr (Z.lxor (2 ^ 32 - 1) 0) 1) None bs), a)
  | weightedRoundRobinAlgorithm states weights =>
      if (length bs =? 0)%nat then (Ok None, a)
      else
        let states := touch states serviceName in
        let healthyBackends := healthy_of h bs in
        let ws := map (fun b => resolveWeight weights (h b)) healthyBackends in
        let totalWeight := fold_left (fun t w => wrap_s 64 (t + w)) ws 0 in
        if totalWeight =? 0 then (Ok None, weightedRoundRobinAlgorithm states weights)
        else
          let '(current, states) := tick states serviceName in
          (let? point := rem_s current totalWeight in
           match weighted_loop point healthyBackends ws with
           | Some b => Ok (Some b)
           | None => index healthyBackends 0
           end, weightedRoundRobinAlgorithm states weights)
  | ipHashAlgorithm =>
      if (length bs =? 0)%nat then (Ok None, a)
      else
        let healthyBackends := healthy_of h bs in
        if (length healthyBackends =? 0)%nat then (Ok None, a)
        else (let? i := rem_u (fnv32a clientIP) (wrap_u 32 (Z.of_nat (length healthyBackends))) in
              index healthyBackends i, a)
  | randomAlgorithm =>
      if (length bs =? 0)%nat then (Ok None, a)
      else
        let healthyBackends := healthy_of h bs in
        if (length healthyBackends =? 0)%nat then (Ok None, a)
        else (let? i := Intn intn (Z.of_nat (length healthyBackends)) in index healthyBackends i, a)
  end.

Definition with_algorithm (a : Algorithm) (lb : LoadBalancer) : LoadBalancer :=
  mkLoadBalancer (backends lb) (stats lb) (config lb) a.

Definition NextBackend (intn : Z -> Z) (h : heap) (serviceName clientIP : string)
    (lb : LoadBalancer) : result go_panic (option loc) * LoadBalancer :=
  match backends lb !! serviceName with
  | None => (Ok None, lb)
  | Some bs =>
      if (length bs =? 0)%nat then (Ok None, lb)
      else let '(r, a) := Select intn h bs serviceName clientIP (algorithm lb) in
           (r, with_algorithm a lb)
  end.

(** ** balancer.go *)

Definition second : Z := 1000000000.
Definition protocolTCP : string := "TCP".

Definition DefaultHealthCheckOptions : HealthCheckOptions :=
  mkHealthCheckOptions second protocolTCP "".

(** The defaults [NewLoadBalancer] fills in. *)
Definition with_defaults (c : BalancerConfig) : BalancerConfig :=
  let interval := if bc_HealthCheck c && (bc_CheckInterval c <=? 0) then second * 5
                  else bc_CheckInterval c in
  let o := bc_HealthCheckOpts c in
  let timeout := if hco_Timeout o <=? 0 then second else hco_Timeout o in
  let protocol := if bool_decide (hco_Protocol o = ""%string) then protocolTCP else hco_Protocol o in
  mkBalancerConfig (bc_Type c) (bc_HealthCheck c) interval (bc_MetricsEnabled c) (bc_Weights c)
    (mkHealthCheckOptions timeout protocol (hco_HTTPPath o)).

Definition NewLoadBalancer (c : BalancerConfig) : LoadBalancer :=
  let c := with_defaults c in
  mkLoadBalancer ∅ ∅ c (NewAlgorithm (bc_Type c) (bc_Weights c)).

(** [atomic.AddInt32(&backend.Connections, d)] *)
Definition add_connections (d : Z) (b : Backend) : Backend :=
  mkBackend (be_Address b) (be_Port b) (be_healthy b) (wrap_s 32 (be_Connections b + d))
    (be_ServiceName b) (be_Weight b).

Definition IncrementConnections (backend : loc) (h : heap) : heap :=
  store backend (add_connections 1 (h backend)) h.
Definition DecrementConnections (backend : loc) (h : heap) : heap :=
  store backend (add_connections (-1) (h backend)) h.

(** ** metrics.go *)

Definition GetStats (serviceName : string) (lb : LoadBalancer) : LoadBalancerStats :=
  match stats lb !! serviceName with Some s => s | None => zeroStats end.

(** [order] is the order in which the loop visits the map. *)
Definition UpdateMetrics (h : heap) (order : list (string * list loc)) (r : registry) : registry :=
  fold_left (fun r '(serviceName, bs) =>
    fold_left (fun r b =>
      RecordBackendConnections (be_Address (h b)) serviceName (be_Connections (h b))
        (RecordBackendHealth (be_Address (h b)) serviceName (IsHealthy (h b)) r)) bs r) order r.

(** ** health.go *)

(** The network a probe reaches: [Dial] is [net.Dialer.Dial] on an address
    within a timeout, [None] for an error and otherwise whether the connection
    is non-nil; [Get] is the status code of [http.Client.Get], [None] for an
    error. *)
Record network : Type := mkNetwork {
  Dial : string -> Z -> option bool;
  Get : string -> Z -> option Z;
}.

(** [net.JoinHostPort] *)
Definition JoinHostPort (host port : string) : string :=
  if contains ":" (go_bytes host) then "[" +:+ host +:+ "]:" +:+ port else host +:+ ":" +:+ port.

Definition checkTCP (net : network) (address : string) (timeout : Z) : bool :=
  match Dial net address timeout with
  | None => false
  | Some conn => if conn then true else false
  end.

Definition checkHTTP (net : network) (address : string) (opts : HealthCheckOptions) : bool :=
  let path := if bool_decide (hco_HTTPPath opts = ""%string) then "/"%string else hco_HTTPPath opts in
  let url := ("http://" +:+ address +:+ path)%string in
  match Get net url (hco_Timeout opts) with
  | None => false
  | Some StatusCode => (200 <=? StatusCode) && (StatusCode <? 400)
  end.

Definition checkBackendHealth (net : network) (backend : Backend) (opts : HealthCheckOptions) : bool :=
  let address := JoinHostPort (be_Address backend) (pretty (be_Port backend)) in
  if bool_decide (hco_Protocol opts = "HTTP"%string) then checkHTTP net address opts
  else checkTCP net address (hco_Timeout opts).

(** One turn of the loop over the snapshot. *)
Definition check_one (net : network) (opts : HealthCheckOptions) (h : heap) (backend : loc) : heap :=
  store backend (SetHealthy (checkBackendHealth net (h backend) opts) (h backend)) h.

(** One round of checks; [order] is the snapshot of the backends in the order
    in which the loop visits the map. *)
Definition doHealthCheck (net : network) (order : list (string * list loc)) (lb : LoadBalancer)
    (h : heap) : heap :=
  let opts := bc_HealthCheckOpts (config lb) in
  fold_left (fun h '(_, bkends) => fold_left (check_one net opts) bkends h) order h.

(** ** Machine integers in range *)

Lemma wrap_u_id w z : 0 <= z < 2 ^ w -> wrap_u w z = z.
Proof. intros. by apply Z.mod_small. Qed.

Lemma wrap_s64_id z : - 2 ^ 63 <= z < 2 ^ 63 -> wrap_s 64 z = z.
Proof. intros. unfold wrap_s. change (64 - 1) with 63. rw Z.mod_small; lia. Qed.

(** ** Turning through a list *)

(** [n] selections in a row, with the same backends. *)
Fixpoint select_times (intn : Z -> Z) (h : heap) (bs : list loc) (serviceName clientIP : string)
    (n : nat) (a : Algorithm) : list (result go_panic (option loc)) * Algorithm :=
  match n with
  | O => ([], a)
  | S n' => let '(r, a) := Select intn h bs serviceName clientIP a in
            let '(rs, a) := select_times intn h bs serviceName clientIP n' a in (r :: rs, a)
  end.

(** The entries a counter picks from a list after [c], [n] times. *)
Definition turns (l : list loc) (c : Z) (n : nat) : list (option loc) :=
  (fun v => l !! Z.to_nat (v mod Z.of_nat (length l))) <$> seqZ (c + 1) (Z.of_nat n).

Lemma turns_S l c n :
  turns l c (S n) = l !! Z.to_nat ((c + 1) mod Z.of_nat (length l)) :: turns l (c + 1) n.
Proof.
  unfold turns. rw seqZ_cons; [|lia]. simpl. f_equal. f_equal. f_equal; lia.
Qed.

(** A full turn is a rotation of the list. *)
Lemma turns_rotate l c :
  0 <= c -> l <> [] -> turns l c (length l) = Some <$> rotate (Z.to_nat (c + 1)) l.
Proof.
  intros Hc Hl. assert (0 < length l)%nat by (destruct l; simpl; [done|lia]).
  apply list_eq. intros i. unfold turns.
  remember (seqZ (c + 1) (Z.of_nat (length l))) as vs eqn:Ev. rw !list_lookup_fmap. subst vs.
  destruct (decide (i < length l)%nat) as [Hi|Hi].
  - rw lookup_rotate_r //. rw lookup_seqZ_lt; [|lia]. simpl. unfold rotate_nat_add.
    rw Z2Nat.id; [|lia].
    destruct (lookup_lt_is_Some_2 l (Z.to_nat ((c + 1 + Z.of_nat i) mod Z.of_nat (length l)))) as [x Hx].
    { pose proof (Z.mod_pos_bound (c + 1 + Z.of_nat i) (Z.of_nat (length l))). lia. }
    by rw Hx.
  - rw (lookup_ge_None_2 (seqZ _ _)); [|rw length_seqZ; lia].
    rw lookup_ge_None_2 //. rw length_rotate. lia.
Qed.

Lemma index_mod bs v n :
  bs <> [] -> 0 <= v -> n = Z.of_nat (length bs) ->
  (let? i := rem_u v n in index bs i) = Ok (bs !! Z.to_nat (v mod Z.of_nat (length bs))).
Proof.
  intros Hb Hv ->. assert (0 < Z.of_nat (length bs)) by (destruct bs; simpl; [done|lia]).
  unfold rem_u. destruct (Z.eqb_spec (Z.of_nat (length bs)) 0); [lia|]. unfold index.
  pose proof (Z.mod_pos_bound v (Z.of_nat (length bs))).
  destruct (Z.ltb_spec (v mod Z.of_nat (length bs)) 0); [lia|].
  destruct (lookup_lt_is_Some_2 bs (Z.to_nat (v mod Z.of_nat (length bs)))) as [b Hl]; [lia|]. by rw Hl.
Qed.

(** The counter of a service. *)
Definition count_of (states : gmap string Z) (svc : string) : Z := default 0 (states !! svc).

Lemma tick_eq states svc c :
  count_of states svc = c -> 0 <= c -> c + 1 < 2 ^ 32 ->
  tick states svc = (c + 1, <[svc := c + 1]> states).
Proof. unfold tick, count_of. intros -> ? ?. rw wrap_u_id //. lia. Qed.

Lemma count_of_insert states svc c : count_of (<[svc := c]> states) svc = c.
Proof. unfold count_of. by rw lookup_insert_eq. Qed.

Lemma round_robin_turns intn h bs svc ip n states c :
  bs <> [] -> Z.of_nat (length bs) < 2 ^ 32 ->
  count_of states svc = c -> 0 <= c -> c + Z.of_nat n < 2 ^ 32 ->
  fst (select_times intn h bs svc ip n (roundRobinAlgorithm states)) = Ok <$> turns bs c n.
Proof.
  intros Hb Hlen. revert states c. induction n as [|n IH]; intros states c Hc H0 Hn; [done|].
  rw turns_S. cbn [select_times Select].
  destruct (Nat.eqb_spec (length bs) 0) as [E|E]; [by destruct bs|].
  rw (tick_eq states svc c) //; [|lia]. rw wrap_u_id; [|lia].
  specialize (IH (<[svc := c + 1]> states) (c + 1) (count_of_insert _ _ _) ltac:(lia) ltac:(lia)).
  destruct (select_times _ _ _ _ _ n _) as [rs a']. simpl in IH |- *. rw IH. f_equal.
  apply index_mod; [done|lia|done].
Qed.

(** ** Weighted turns *)

(** Each backend as often as its weight. *)
Fixpoint expand (bs : list loc) (ws : list Z) : list loc :=
  match bs, ws with
  | b :: bs', w :: ws' => replicate (Z.to_nat w) b ++ expand bs' ws'
  | _, _ => []
  end.

Definition total (ws : list Z) : Z := fold_right Z.add 0 ws.

Lemma length_expand bs ws :
  length bs = length ws -> Forall (fun w => 0 < w) ws -> Z.of_nat (length (expand bs ws)) = total ws.
Proof.
  revert ws. induction bs as [|b bs IH]; intros [|w ws] Hl Hw; try done. simpl in *.
  apply Forall_cons_iff in Hw as [Hw Hws]. rw length_app length_replicate Nat2Z.inj_add IH; [lia|lia|done].
Qed.

Lemma total_nonneg ws : Forall (fun w => 0 < w) ws -> 0 <= total ws.
Proof. induction 1; simpl; lia. Qed.

Lemma fold_total ws acc :
  Forall (fun w => 0 < w) ws -> 0 <= acc -> acc + total ws < 2 ^ 63 ->
  fold_left (fun t w => wrap_s 64 (t + w)) ws acc = acc + total ws.
Proof.
  intros Hw. revert acc. induction Hw as [|w ws Hp Hw IH]; intros acc Ha Hs; simpl in *; [lia|].
  pose proof (total_nonneg ws Hw). rw wrap_s64_id; [|lia]. rw IH; lia.
Qed.

(** The loop picks an entry of the expanded list. *)
Lemma weighted_loop_expand bs ws point :
  length bs = length ws -> Forall (fun w => 0 < w) ws -> total ws < 2 ^ 63 -> 0 <= point < 2 ^ 63 ->
  weighted_loop point bs ws = expand bs ws !! Z.to_nat point.
Proof.
  revert ws point. induction bs as [|b bs IH]; intros [|w ws] point Hl Hw Ht Hp; try done.
  apply Forall_cons_iff in Hw as [Hw Hws]. simpl in Hl, Ht. pose proof (total_nonneg ws Hws).
  cbn [weighted_loop expand]. rw wrap_s64_id; [|lia].
  destruct (Z.ltb_spec (point - w) 0).
  - rw lookup_app_l; [|rw length_replicate; lia]. by rw lookup_replicate_2; [|lia].
  - rw IH //; [|lia..]. rw lookup_app_r length_replicate; [|lia]. f_equal. lia.
Qed.

Lemma rem_point current ws :
  0 <= current -> 0 < total ws -> 0 <= Z.rem current (total ws) < total ws /\
  Z.rem current (total ws) = current mod total ws.
Proof.
  intros Hc Ht. rw Z.rem_mod_nonneg; [|lia|lia].
  pose proof (Z.mod_pos_bound current (total ws)). lia.
Qed.

(** The healthy backends and their weights. *)
Definition weights_of (h : heap) (weights : list Weight) (bs : list loc) : list Z :=
  map (fun b => resolveWeight weights (h b)) (healthy_of h bs).

Lemma total_pos h weights bs :
  healthy_of h bs <> [] -> Forall (fun w => 0 < w) (weights_of h weights bs) ->
  0 < total (weights_of h weights bs).
Proof.
  unfold weights_of. intros Hh Hw. destruct (healthy_of h bs) as [|b l]; [done|]. simpl in *.
  apply Forall_cons_iff in Hw as [? Hws]. pose proof (total_nonneg _ Hws). lia.
Qed.

Lemma weighted_select intn h bs svc ip states weights c :
  let hb := healthy_of h bs in
  let ws := weights_of h weights bs in
  hb <> [] -> Forall (fun w => 0 < w) ws -> total ws < 2 ^ 63 ->
  count_of states svc = c -> 0 <= c -> c + 1 < 2 ^ 32 ->
  exists states',
    Select intn h bs svc ip (weightedRoundRobinAlgorithm states weights) =
    (Ok (expand hb ws !! Z.to_nat ((c + 1) mod Z.of_nat (length (expand hb ws)))),
     weightedRoundRobinAlgorithm states' weights) /\ count_of states' svc = c + 1.
Proof.
  cbv zeta. intros Hh Hw Ht Hc H0 H1.
  assert (Hl : length (healthy_of h bs) = length (weights_of h weights bs))
    by (unfold weights_of; by rw length_map).
  pose proof (total_pos h weights bs Hh Hw) as Hpos.
  cbn [Select]. destruct (Nat.eqb_spec (length bs) 0) as [E|E]; [by destruct bs|].
  fold (weights_of h weights bs). rw fold_total // Z.add_0_l.
  destruct (Z.eqb_spec (total (weights_of h weights bs)) 0); [lia|].
  rw (tick_eq _ svc c) //; [|by unfold touch, count_of in *; destruct (states !! svc) eqn:Es;
    rw ?Es ?lookup_insert_eq].
  destruct (rem_point (c + 1) (weights_of h weights bs)) as [Hr1 Hr2]; [lia|done|].
  unfold rem_s. destruct (Z.eqb_spec (total (weights_of h weights bs)) 0); [lia|].
  rw weighted_loop_expand //; [|lia]. rw length_expand // -Hr2.
  destruct (lookup_lt_is_Some_2 (expand (healthy_of h bs) (weights_of h weights bs))
    (Z.to_nat (Z.rem (c + 1) (total (weights_of h weights bs))))) as [x Hx].
  { pose proof (length_expand (healthy_of h bs) (weights_of h weights bs) Hl Hw). lia. }
  rw Hx. eexists. split; [done|]. apply count_of_insert.
Qed.

Lemma weighted_turns intn h bs svc ip n states weights c :
  let hb := healthy_of h bs in
  let ws := weights_of h weights bs in
  hb <> [] -> Forall (fun w => 0 < w) ws -> total ws < 2 ^ 63 ->
  count_of states svc = c -> 0 <= c -> c + Z.of_nat n < 2 ^ 32 ->
  fst (select_times intn h bs svc ip n (weightedRoundRobinAlgorithm states weights))
  = Ok <$> turns (expand hb ws) c n.
Proof.
  cbv zeta. intros Hh Hw Ht. revert states c. induction n as [|n IH]; intros states c Hc H0 Hn; [done|].
  rw turns_S. cbn [select_times].
  destruct (weighted_select intn h bs svc ip states weights c) as (st' & -> & Hc'); [done..|lia|].
  specialize (IH st' (c + 1) Hc' ltac:(lia) ltac:(lia)).
  destruct (select_times _ _ _ _ _ n _) as [rs a']. simpl in IH |- *. by rw IH.
Qed.

(** ** What a selection returns *)

(** The backends an algorithm may pick. *)
Definition candidate (a : Algorithm) (b : Backend) : Prop :=
  match a with
  | roundRobinAlgorithm _ => True
  | leastConnectionAlgorithm => IsHealthy b = true /\ be_Connections b < 2 ^ 31 - 1
  | _ => IsHealthy b = true
  end.

(** Weights of a weighted algorithm that are positive and add up. *)
Definition weights_ok (h : heap) (bs : list loc) (a : Algorithm) : Prop :=
  match a with
  | weightedRoundRobinAlgorithm _ weights =>
      Forall (fun w => 0 < w) (weights_of h weights bs) /\ total (weights_of h weights bs) < 2 ^ 63
  | _ => True
  end.

(** A selection that did not panic: a backend the algorithm may pick, or nil
    when there is none (or the weights do not add up to a positive number). *)
Definition selection_ok (h : heap) (bs : list loc) (a : Algorithm) (r : result go_panic (option loc)) : Prop :=
  match r with
  | Err _ => False
  | Ok (Some b) => b ∈ bs /\ candidate a (h b) /\
      (a = leastConnectionAlgorithm ->
       forall b', b' ∈ bs -> IsHealthy (h b') = true -> be_Connections (h b) <= be_Connections (h b'))
  | Ok None => weights_ok h bs a -> forall b, b ∈ bs -> ~ candidate a (h b)
  end.

Lemma elem_of_healthy h bs b : b ∈ healthy_of h bs <-> IsHealthy (h b) = true /\ b ∈ bs.
Proof. unfold healthy_of. by rw list_elem_of_filter. Qed.

Lemma least_loop_spec h m best bs :
  (least_loop h m best bs = best /\
   forall b, b ∈ bs -> IsHealthy (h b) = true -> m <= be_Connections (h b)) \/
  (exists b, least_loop h m best bs = Some b /\ b ∈ bs /\ IsHealthy (h b) = true /\
   be_Connections (h b) < m /\
   forall b', b' ∈ bs -> IsHealthy (h b') = true -> be_Connections (h b) <= be_Connections (h b')).
Proof.
  revert m best. induction bs as [|x bs IH]; intros m best; cbn [least_loop].
  { left. split; [done|]. by intros b ?%elem_of_nil. }
  setoid_rewrite elem_of_cons.
  destruct (IsHealthy (h x)) eqn:Ex; cbn [negb].
  2:{ destruct (IH m best) as [[E Hb]|(b & E & Hin & Hh & Hm & Hb)]; [left|right].
      - split; [done|]. intros b [->|?] ?; [congruence|auto].
      - exists b. split_and!; auto. intros b' [->|?] ?; [congruence|auto]. }
  destruct (Z.ltb_spec (be_Connections (h x)) m).
  - right. destruct (IH (be_Connections (h x)) (Some x)) as [[E Hb]|(b & E & Hin & Hh & Hm & Hb)].
    + exists x. split_and!; auto. intros b' [->|?] ?; [lia|auto].
    + exists b. split_and!; auto; [lia|]. intros b' [->|?] ?; [lia|auto].
  - destruct (IH m best) as [[E Hb]|(b & E & Hin & Hh & Hm & Hb)]; [left|right].
    + split; [done|]. intros b [->|?] ?; [lia|auto].
    + exists b. split_and!; auto. intros b' [->|?] ?; [lia|auto].
Qed.

Lemma elem_of_expand bs ws b : b ∈ expand bs ws -> b ∈ bs.
Proof.
  revert ws. induction bs as [|x bs IH]; intros [|w ws]; simpl; try by intros ?%elem_of_nil.
  rw elem_of_app elem_of_cons. intros [Hr|?%IH]; [left|by right].
  apply elem_of_replicate in Hr as [-> _]. done.
Qed.

(** Indexing a non-empty list by a number below its length. *)
Lemma index_in bs i : 0 <= i < Z.of_nat (length bs) -> exists b, index bs i = Ok (Some b) /\ b ∈ bs.
Proof.
  intros Hi. unfold index. destruct (Z.ltb_spec i 0); [lia|].
  destruct (lookup_lt_is_Some_2 bs (Z.to_nat i)) as [b Hb]; [lia|].
  exists b. rw Hb. split; [done|]. by eapply list_elem_of_lookup_2.
Qed.

Lemma wrap_u_range w z : 0 <= w -> 0 <= wrap_u w z < 2 ^ w.
Proof. intros. apply Z.mod_pos_bound. by apply Z.pow_pos_nonneg. Qed.

(** A pick among the healthy backends. *)
Lemma healthy_pick h bs a i :
  candidate a = (fun b => IsHealthy b = true) -> a <> leastConnectionAlgorithm ->
  0 <= i < Z.of_nat (length (healthy_of h bs)) ->
  selection_ok h bs a (index (healthy_of h bs) i).
Proof.
  intros Hc Ha Hi. destruct (index_in (healthy_of h bs) i Hi) as (b & -> & [Hh Hin]%elem_of_healthy).
  unfold selection_ok. rw Hc. done.
Qed.

Lemma none_healthy h bs a :
  candidate a = (fun b => IsHealthy b = true) -> length (healthy_of h bs) = 0%nat ->
  selection_ok h bs a (Ok None).
Proof.
  intros Hc Hl _ b Hin. rw Hc. intros Hh. apply nil_length_inv in Hl.
  assert (b ∈ healthy_of h bs) as Hb by by apply elem_of_healthy. rw Hl in Hb. by apply elem_of_nil in Hb.
Qed.

Lemma length_healthy h bs : (length (healthy_of h bs) <= length bs)%nat.
Proof. apply length_filter. Qed.

(** What [rand.Intn] promises. *)
Definition intn_ok (intn : Z -> Z) : Prop := forall n, 0 < n -> 0 <= intn n < n.

Lemma weighted_loop_in point bs ws b : weighted_loop point bs ws = Some b -> b ∈ bs.
Proof.
  revert point ws. induction bs as [|x bs IH]; intros point [|w ws]; cbn [weighted_loop]; try done.
  destruct (_ <? 0); [intros [= ->]; set_solver|]. intros Hb%IH. set_solver.
Qed.

(** No hypothesis on the weights is needed to pick a healthy backend. *)
Lemma weighted_Select_ok intn h bs svc ip states weights :
  bs <> [] ->
  selection_ok h bs (weightedRoundRobinAlgorithm states weights)
    (fst (Select intn h bs svc ip (weightedRoundRobinAlgorithm states weights))).
Proof.
  intros Hne. cbn [Select]. destruct (Nat.eqb_spec (length bs) 0) as [E|E]; [by destruct bs|].
  fold (weights_of h weights bs). set (tw := fold_left _ (weights_of h weights bs) 0).
  destruct (Z.eqb_spec tw 0) as [E0|E0].
  - intros [Hw Ht] b Hin Hh. subst tw. rw fold_total // in E0.
    assert (b ∈ healthy_of h bs) as Hb by by apply elem_of_healthy.
    assert (healthy_of h bs <> []) as Hhb by (intros Eh; rw Eh in Hb; by apply elem_of_nil in Hb).
    pose proof (total_pos h weights bs Hhb Hw). lia.
  - destruct (tick _ svc) as [current st]. cbn [fst]. unfold rem_s. destruct (Z.eqb_spec tw 0); [done|].
    destruct (weighted_loop _ _ _) as [b|] eqn:Eb.
    + apply weighted_loop_in, elem_of_healthy in Eb as [? ?]. by split_and!.
    + apply healthy_pick; [done|done|]. destruct (healthy_of h bs) eqn:Eh; [|simpl; lia].
      exfalso. apply E0. subst tw. unfold weights_of. by rw Eh.
Qed.

Lemma Select_ok intn h bs svc ip a :
  intn_ok intn -> Z.of_nat (length bs) < 2 ^ 32 ->
  selection_ok h bs a (fst (Select intn h bs svc ip a)).
Proof.
  intros Hi Hlen. pose proof (length_healthy h bs) as Hle.
  destruct (decide (bs = [])) as [->|Hne].
  { destruct a; simpl; intros _ b Hb; by apply elem_of_nil in Hb. }
  assert (0 < length bs)%nat by (destruct bs; simpl; [done|lia]).
  assert (Hz : (length bs =? 0)%nat = false) by (by destruct bs).
  destruct a as [states| |states weights| |]; [| |by apply weighted_Select_ok|..];
    cbn [Select]; rw ?Hz.
  - destruct (tick states svc) as [current st]. cbn [fst]. rw wrap_u_id; [|lia].
    unfold rem_u. destruct (Z.eqb_spec (Z.of_nat (length bs)) 0); [lia|].
    destruct (index_in bs (current mod Z.of_nat (length bs))) as (b & -> & Hin);
      [by apply Z.mod_pos_bound; lia|]. done.
  - change (Z.shiftr (Z.lxor (2 ^ 32 - 1) 0) 1) with (2 ^ 31 - 1). cbn [fst].
    destruct (least_loop_spec h (2 ^ 31 - 1) None bs) as [[-> Hb]|(b & -> & Hin & Hh & Hm & Hb)].
    + intros _ b Hin [Hh Hc]. specialize (Hb b Hin Hh). lia.
    + split_and!; auto. by split.
  - destruct (Nat.eqb_spec (length (healthy_of h bs)) 0) as [E|E]; cbn [fst]; [by apply none_healthy|].
    rw wrap_u_id; [|lia]. unfold rem_u. destruct (Z.eqb_spec (Z.of_nat (length (healthy_of h bs))) 0); [lia|].
    apply healthy_pick; [done|done|]. apply Z.mod_pos_bound. lia.
  - destruct (Nat.eqb_spec (length (healthy_of h bs)) 0) as [E|E]; cbn [fst]; [by apply none_healthy|].
    unfold Intn. destruct (Z.leb_spec (Z.of_nat (length (healthy_of h bs))) 0); [lia|].
    apply healthy_pick; [done|done|]. apply Hi. lia.
Qed.

(** ** Reachable balancers *)

Inductive lb_step : LoadBalancer -> LoadBalancer -> Prop :=
| step_add h b lb : lb_step lb (AddBackend h b lb)
| step_remove h address svc lb : lb_step lb (RemoveBackend h address svc lb)
| step_next intn h svc ip lb : lb_step lb (snd (NextBackend intn h svc ip lb)).

(** Every service with backends has statistics, and they are zero. *)
Definition stats_idle (lb : LoadBalancer) : Prop :=
  (forall svc s, stats lb !! svc = Some s -> s = zeroStats) /\
  (forall svc, is_Some (backends lb !! svc) <-> is_Some (stats lb !! svc)).

Lemma AddBackend_idle h b lb : stats_idle lb -> stats_idle (AddBackend h b lb).
Proof.
  intros [Hz Hd]. unfold AddBackend.
  destruct (backends lb !! be_ServiceName (h b)) as [bs|] eqn:Eb; split; simpl.
  - done.
  - intros svc. rw lookup_insert_is_Some' -Hd. split; [|by right]. intros [<-|?]; [|done]. by rw Eb.
  - intros svc s. rw lookup_insert. case_decide; [by intros [= <-]|apply Hz].
  - intros svc. rw !lookup_insert_is_Some' -Hd. tauto.
Qed.

Lemma lb_step_idle lb lb' : lb_step lb lb' -> stats_idle lb -> stats_idle lb'.
Proof.
  intros [h b l|h address svc l|intn h svc ip l] Hi; [by apply AddBackend_idle|..]; destruct Hi as [Hz Hd].
  - unfold RemoveBackend. destruct (backends l !! svc) as [bs|] eqn:Eb; [|done].
    split; [done|]. intros s. simpl. rw lookup_insert_is_Some' -Hd. split; [|by right].
    intros [<-|?]; [|done]. by rw Eb.
  - unfold NextBackend. destruct (backends l !! svc) as [bs|]; [|done].
    destruct (length bs =? 0)%nat; [done|]. by destruct (Select _ _ _ _ _ _).
Qed.

Lemma reachable_idle c lb : rtc lb_step (NewLoadBalancer c) lb -> stats_idle lb.
Proof.
  intros Hr. remember (NewLoadBalancer c) as l0 eqn:E.
  assert (stats_idle l0) as Hi.
  { subst l0. split; [done|]. intros svc. simpl. by rw !lookup_empty. }
  clear E. induction Hr as [|x y z Hs Hr IH]; [done|]. by apply IH, (lb_step_idle x).
Qed.

(** ** Metrics of the backends *)

(** The backends in the order the loops visit them, with their service. *)
Definition visits (order : list (string * list loc)) : list (string * loc) :=
  mjoin ((fun e => (fun b => (fst e, b)) <$> snd e) <$> order).

Definition report (h : heap) (r : registry) (v : string * loc) : registry :=
  RecordBackendConnections (be_Address (h (snd v))) (fst v) (be_Connections (h (snd v)))
    (RecordBackendHealth (be_Address (h (snd v))) (fst v) (IsHealthy (h (snd v))) r).

Lemma UpdateMetrics_visits h order r : UpdateMetrics h order r = fold_left (report h) (visits order) r.
Proof.
  unfold UpdateMetrics, visits. revert r. induction order as [|[n bs] order IH]; intros r; [done|].
  cbn [fmap list_fmap mjoin list_join fst snd fold_left]. rw fold_left_app -IH. f_equal.
  clear. revert r. induction bs as [|b bs IH]; intros r; [done|]. apply IH.
Qed.

(** The labels under which a backend is reported. *)
Definition labels_of (h : heap) (v : string * loc) : list string := [be_Address (h (snd v)); fst v].

Lemma gauge_report h r v x :
  gauges (report h r v) !! x =
  if decide (x = (backendConnections, labels_of h v)) then Some (be_Connections (h (snd v)))
  else if decide (x = (backendHealth, labels_of h v)) then Some (bool_value (IsHealthy (h (snd v))))
  else gauges r !! x.
Proof.
  unfold report, RecordBackendConnections, RecordBackendHealth, labels_of. rw !gauge_set.
  repeat case_decide; try done; exfalso; congruence.
Qed.

Lemma gauge_reports h l r x :
  (forall v, v ∈ l -> x <> (backendConnections, labels_of h v) /\ x <> (backendHealth, labels_of h v)) ->
  gauges (fold_left (report h) l r) !! x = gauges r !! x.
Proof.
  revert r. induction l as [|v l IH]; intros r Hx; [done|]. cbn [fold_left]. rw IH.
  - rw gauge_report. destruct (Hx v) as [Hc Hh]; [set_solver|]. by rw decide_False // decide_False.
  - intros u Hu. apply Hx. set_solver.
Qed.

Lemma gauge_visited h l r v :
  NoDup (labels_of h <$> l) -> v ∈ l ->
  gauges (fold_left (report h) l r) !! (backendConnections, labels_of h v) = Some (be_Connections (h (snd v))) /\
  gauges (fold_left (report h) l r) !! (backendHealth, labels_of h v) = Some (bool_value (IsHealthy (h (snd v)))).
Proof.
  revert r. induction l as [|u l IH]; intros r Hnd Hv; [by apply elem_of_nil in Hv|].
  rw fmap_cons list.NoDup_cons in Hnd. destruct Hnd as [Hnew Hnd]. cbn [fold_left].
  apply elem_of_cons in Hv as [->|Hv]; [|by apply IH].
  assert (forall y, y ∈ l -> labels_of h u <> labels_of h y) as Hne.
  { intros y Hy E. apply Hnew. rw E. by apply list_elem_of_fmap_2. }
  split; (rw gauge_reports; [rw gauge_report|intros y Hy%Hne; split; congruence]).
  - by rw decide_True.
  - repeat case_decide; try done.
Qed.

(** ** Properties *)

(** [UpdateMetrics] shows the backends as they are: when the backends of a
    service have different addresses, then in whatever order the map is
    visited the gauges of each backend have its connections and its health,
    and no series of another metric or of unknown labels changes. *)
Theorem UpdateMetrics_exact (h : heap) (lb : LoadBalancer) (order : list (string * list loc)) (r : registry) :
  order ≡ₚ map_to_list (backends lb) ->
  NoDup (labels_of h <$> visits order) ->
  (forall svc bs b, backends lb !! svc = Some bs -> b ∈ bs ->
     gauges (UpdateMetrics h order r) !! (backendConnections, [be_Address (h b); svc])
       = Some (be_Connections (h b)) /\
     gauges (UpdateMetrics h order r) !! (backendHealth, [be_Address (h b); svc])
       = Some (bool_value (IsHealthy (h b)))) /\
  (forall x, fst x <> backendConnections -> fst x <> backendHealth ->
     gauges (UpdateMetrics h order r) !! x = gauges r !! x).
Proof.
  intros Hp Hnd. rw UpdateMetrics_visits. split.
  - intros svc bs b Hl Hb. apply (gauge_visited h _ r (svc, b) Hnd). unfold visits.
    apply list_elem_of_join. exists ((fun b => (svc, b)) <$> bs). split; [by apply list_elem_of_fmap_2|].
    apply list_elem_of_fmap. exists (svc, bs). split; [done|]. rw Hp. by apply elem_of_map_to_list.
  - intros x Hc Hh. apply gauge_reports. intros v _. split; intros ->; done.
Qed.

(** The labels leave out the port: of two backends of a service at one address
    only the last one is shown. *)
Theorem UpdateMetrics_hides_ports :
  let h : heap := fun p => mkBackend "10.0.0.1" (if decide (p = 1%positive) then 80 else 81)
                             (if decide (p = 1%positive) then 0 else 1) 0 "web" 1 in
  IsHealthy (h 1%positive) = false /\
  gauges (UpdateMetrics h [("web", [1%positive; 2%positive])]%string emptyRegistry)
    !! (backendHealth, ["10.0.0.1"; "web"]%string) = Some 1.
Proof. vm_compute. done. Qed.

(** C24. Round robin is fair: as many selections in a row as there are
    backends return each backend exactly once, in the order of the list from
    the position after the counter, as long as the 32-bit counter does not
    wrap in between. *)
Theorem round_robin_fair (intn : Z -> Z) (h : heap) (bs : list loc) (svc ip : string)
    (states : gmap string Z) :
  bs <> [] -> 0 <= count_of states svc -> count_of states svc + Z.of_nat (length bs) < 2 ^ 32 ->
  fst (select_times intn h bs svc ip (length bs) (roundRobinAlgorithm states))
  = (fun b => Ok (Some b)) <$> rotate (Z.to_nat (count_of states svc + 1)) bs.
Proof.
  intros Hb Hc Hn. rw (round_robin_turns _ _ _ _ _ _ _ (count_of states svc)) //; [|lia].
  rw turns_rotate //. by rw -list_fmap_compose.
Qed.

Definition demo_heap : heap := fun p =>
  mkBackend "10.0.0.1" 80 (if decide (p = 2%positive) then 0 else 1) (Zpos p) "web" (Zpos p).

Lemma round_robin_fair_witness :
  fst (select_times (fun _ => 0) demo_heap [1; 2; 3]%positive "web" "" 3 (roundRobinAlgorithm ∅))
  = [Ok (Some 2); Ok (Some 3); Ok (Some 1)]%positive.
Proof.
  etransitivity; [apply (round_robin_fair (fun _ => 0) demo_heap [1; 2; 3]%positive "web" "" ∅); done|].
  vm_compute. reflexivity.
Defined.

(** C7. Weighted round robin is fair: in as many selections in a row as the
    healthy backends' weights add up to, each healthy backend is returned
    exactly as often as its weight, and no other backend is: the results are
    a rotation of the list in which every healthy backend is repeated as its
    weight says. *)
Theorem weighted_round_robin_fair (intn : Z -> Z) (h : heap) (bs : list loc) (svc ip : string)
    (states : gmap string Z) (weights : list Weight) :
  let hb := healthy_of h bs in
  let ws := weights_of h weights bs in
  hb <> [] -> Forall (fun w => 0 < w) ws ->
  0 <= count_of states svc -> count_of states svc + total ws < 2 ^ 32 ->
  fst (select_times intn h bs svc ip (Z.to_nat (total ws)) (weightedRoundRobinAlgorithm states weights))
  = (fun b => Ok (Some b)) <$> rotate (Z.to_nat (count_of states svc + 1)) (expand hb ws).
Proof.
  cbv zeta. intros Hh Hw Hc Hn. pose proof (total_pos h weights bs Hh Hw) as Hpos.
  assert (Hlen : Z.of_nat (length (expand (healthy_of h bs) (weights_of h weights bs))) =
    total (weights_of h weights bs)).
  { apply length_expand; [|done]. unfold weights_of. by rw length_map. }
  rw (weighted_turns _ _ _ _ _ _ _ _ (count_of states svc)) //; [|lia..].
  replace (Z.to_nat (total _)) with (length (expand (healthy_of h bs) (weights_of h weights bs))) by lia.
  rw turns_rotate //; [by rw -list_fmap_compose|].
  intros E. rw E in Hlen. simpl in Hlen. lia.
Qed.

Lemma weighted_round_robin_fair_witness :
  fst (select_times (fun _ => 0) demo_heap [1; 2; 3]%positive "web" "" 4
    (weightedRoundRobinAlgorithm ∅ [])) = [Ok (Some 3); Ok (Some 3); Ok (Some 3); Ok (Some 1)]%positive.
Proof.
  etransitivity; [apply (weighted_round_robin_fair (fun _ => 0) demo_heap [1; 2; 3]%positive "web" "" ∅ []);
    [done|by repeat constructor|done|done]|].
  vm_compute. reflexivity.
Defined.

(** C17. [NextBackend] never panics and picks well: whatever the algorithm,
    the weights and the health of the backends, a selection for a service with
    fewer than 2^32 backends indexes within its slice, divides by no zero and
    asks for no random number below zero; what it picks is a backend of the
    service that its algorithm may pick (a healthy one, except for round robin;
    for least connection one with the fewest connections, below the largest
    int32); and it returns nil only when there is no such backend, provided
    that the weights of weighted round robin are positive and their sum fits an
    int (healthy backends whose weights add up to zero are passed over). *)
Theorem NextBackend_picks (intn : Z -> Z) (h : heap) (svc ip : string) (lb : LoadBalancer)
    (bs : list loc) :
  intn_ok intn -> backends lb !! svc = Some bs -> Z.of_nat (length bs) < 2 ^ 32 ->
  selection_ok h bs (algorithm lb) (fst (NextBackend intn h svc ip lb)).
Proof.
  intros Hi Hb Hl. unfold NextBackend. rw Hb.
  destruct (Nat.eqb_spec (length bs) 0) as [E|E].
  - destruct bs; [|done]. intros _ b Hin. by apply elem_of_nil in Hin.
  - pose proof (Select_ok intn h bs svc ip (algorithm lb) Hi Hl) as Hs.
    by destruct (Select intn h bs svc ip (algorithm lb)).
Qed.

Definition demo_balancer : LoadBalancer :=
  mkLoadBalancer {["web"%string := [1; 2; 3]%positive]} ∅
    (mkBalancerConfig LeastConnection false 0 false [] DefaultHealthCheckOptions)
    leastConnectionAlgorithm.

Lemma NextBackend_picks_witness :
  fst (NextBackend (fun _ => 0) demo_heap "web" "198.51.100.7" demo_balancer) = Ok (Some 1%positive) /\
  selection_ok demo_heap [1; 2; 3]%positive (algorithm demo_balancer)
    (fst (NextBackend (fun _ => 0) demo_heap "web" "198.51.100.7" demo_balancer)).
Proof.
  split; [vm_compute; reflexivity|].
  apply (NextBackend_picks (fun _ => 0) demo_heap "web" "198.51.100.7" demo_balancer);
    [intros n Hn; lia|reflexivity|reflexivity].
Defined.

(** The statistics of a balancer are never counted: in every balancer
    reachable from [NewLoadBalancer] by its operations, [GetStats] is all
    zeros for every service, whatever its backends and connections. *)
Theorem GetStats_never_counts (c : BalancerConfig) (lb : LoadBalancer) (svc : string) :
  rtc lb_step (NewLoadBalancer c) lb ->
  GetStats svc lb = zeroStats /\ (is_Some (backends lb !! svc) <-> is_Some (stats lb !! svc)).
Proof.
  intros [Hz Hd]%reachable_idle. split; [|done]. unfold GetStats.
  destruct (stats lb !! svc) eqn:E; [|done]. by eapply Hz.
Qed.

Lemma GetStats_never_counts_witness :
  let c := mkBalancerConfig RoundRobin false 0 false [] DefaultHealthCheckOptions in
  GetStats "web" (AddBackend demo_heap 1%positive (NewLoadBalancer c)) = zeroStats.
Proof.
  cbv zeta. apply (GetStats_never_counts
    (mkBalancerConfig RoundRobin false 0 false [] DefaultHealthCheckOptions)).
  apply rtc_once. constructor.
Defined.
