(* ===== verification/Lifecycle.v ===== *)
(** * The running balancer: goroutines, ticker and shutdown

    [NewLoadBalancer] starts the goroutine of [healthCheckLoop], which starts
    one goroutine per tick to run [doHealthCheck]; [Stop] (balancer.go) closes
    [stopCh] and waits on the two wait groups.  The callers of the balancer,
    the callers of [Stop], the loop, the checks and the clock interleave here
    as the steps of one transition system over the balancer, the store of its
    backends and the synchronisation state.  A step is one atomic action:
    a critical section, an atomic instruction or an operation on a channel or
    a wait group.  A panic is a separate judgment, [crash]. *)
From Stdlib Require Import Ascii.
From S2P Require Import Prelude GoStrings Metrics LoadBalancer.

Local Open Scope Z_scope.

(** ** Data *)

(** Where the goroutine of [healthCheckLoop] stands. *)
Inductive loop_pc : Type :=
| LoopOff           (* not started: health checks are disabled *)
| LoopTicker        (* before time.NewTicker *)
| LoopAdd           (* before lb.checkWg.Add(1) *)
| LoopGo            (* before the go statement *)
| LoopSelect        (* at the select *)
| LoopWait          (* stopCh received, at lb.checkWg.Wait() *)
| LoopStopTicker    (* returning, before the deferred ticker.Stop() *)
| LoopDone          (* returning, before the deferred lb.wg.Done() *)
| LoopExited.

(** Where the goroutine of one round of checks stands. *)
Inductive check_pc : Type :=
| CheckStart                                                (* before the snapshot *)
| CheckRun (opts : HealthCheckOptions) (todo : list loc).   (* backends still to probe *)

(** Where a caller of [Stop] stands. *)
Inductive stop_pc : Type :=
| StopSelect        (* at the select *)
| StopClose         (* in the default case, before close(lb.stopCh) *)
| StopWaitLoop      (* at lb.wg.Wait() *)
| StopWaitChecks    (* at lb.checkWg.Wait() *)
| StopReturned      (* returned after both waits *)
| StopEarly.        (* returned because stopCh was closed already *)

#[export] Instance loop_pc_eq_dec : EqDecision loop_pc.
Proof. solve_decision. Defined.
#[export] Instance stop_pc_eq_dec : EqDecision stop_pc.
Proof. solve_decision. Defined.

(** A call of [NextBackend] between its copy of the slice and the selection. *)
Record call : Type := mkCall {
  call_service : string;
  call_client : string;
  call_backends : list loc;
}.

Record world : Type := World {
  lb : LoadBalancer;
  hp : heap;
  calls : list call;
  stopCh : bool;            (* closed *)
  tick_pending : bool;      (* the ticker's channel, of capacity one *)
  wg : Z;
  checkWg : Z;
  loop : loop_pc;
  checks : list check_pc;
  stops : list stop_pc;
}.

(** [NewLoadBalancer] in full: the balancer, and the goroutine it starts when
    health checks are enabled. *)
Definition start (c : BalancerConfig) (h : heap) : world :=
  let b := NewLoadBalancer c in
  World b h [] false false (if bc_HealthCheck (config b) then 1 else 0) 0
    (if bc_HealthCheck (config b) then LoopTicker else LoopOff) [] [].

(** ** Steps *)

(** The atomic actions of the balancer's callers. *)
Inductive client : Type :=
| OpAdd (b : loc)
| OpRemove (address svc : string)
| OpNext (svc ip : string)                  (* the copy under the read lock *)
| OpSelect (i : nat) (intn : Z -> Z)        (* the selection of the i-th such call *)
| OpInc (p : loc)
| OpDec (p : loc).

Definition with_lb (f : LoadBalancer -> LoadBalancer) (w : world) : world :=
  World (f (lb w)) (hp w) (calls w) (stopCh w) (tick_pending w) (wg w) (checkWg w) (loop w) (checks w)
    (stops w).
Definition with_hp (f : heap -> heap) (w : world) : world :=
  World (lb w) (f (hp w)) (calls w) (stopCh w) (tick_pending w) (wg w) (checkWg w) (loop w) (checks w)
    (stops w).
Definition with_calls (c : list call) (w : world) : world :=
  World (lb w) (hp w) c (stopCh w) (tick_pending w) (wg w) (checkWg w) (loop w) (checks w) (stops w).

Definition act (o : client) (w : world) : world :=
  match o with
  | OpAdd b => with_lb (AddBackend (hp w) b) w
  | OpRemove address svc => with_lb (RemoveBackend (hp w) address svc) w
  | OpNext svc ip =>
      match backends (lb w) !! svc with
      | Some (b :: bs) => with_calls (calls w ++ [mkCall svc ip (b :: bs)]) w
      | _ => w
      end
  | OpSelect i intn =>
      match calls w !! i with
      | None => w
      | Some c =>
          let a := snd (Select intn (hp w) (call_backends c) (call_service c) (call_client c)
                          (algorithm (lb w))) in
          with_calls (delete i (calls w)) (with_lb (with_algorithm a) w)
      end
  | OpInc p => with_hp (IncrementConnections p) w
  | OpDec p => with_hp (DecrementConnections p) w
  end.

(** The ticker exists between its creation and [ticker.Stop()]. *)
Definition ticking (l : loop_pc) : bool :=
  match l with LoopAdd | LoopGo | LoopSelect | LoopWait | LoopStopTicker => true | _ => false end.

Definition interval (b : LoadBalancer) : Z := bc_CheckInterval (config b).

(** The goroutine of [healthCheckLoop]. *)
Inductive loop_step : world -> world -> Prop :=
| loop_ticker b h k st tk g cg cs ss :
    0 < interval b ->
    loop_step (World b h k st tk g cg LoopTicker cs ss) (World b h k st tk g cg LoopAdd cs ss)
| loop_add b h k st tk g cg cs ss :
    loop_step (World b h k st tk g cg LoopAdd cs ss) (World b h k st tk g (cg + 1) LoopGo cs ss)
| loop_go b h k st tk g cg cs ss :
    loop_step (World b h k st tk g cg LoopGo cs ss)
      (World b h k st tk g cg LoopSelect (cs ++ [CheckStart]) ss)
| loop_stop b h k tk g cg cs ss :
    loop_step (World b h k true tk g cg LoopSelect cs ss) (World b h k true tk g cg LoopWait cs ss)
| loop_tick b h k st g cg cs ss :
    loop_step (World b h k st true g cg LoopSelect cs ss) (World b h k st false g cg LoopAdd cs ss)
| loop_wait b h k st tk g cs ss :
    loop_step (World b h k st tk g 0 LoopWait cs ss) (World b h k st tk g 0 LoopStopTicker cs ss)
| loop_stop_ticker b h k st tk g cg cs ss :
    loop_step (World b h k st tk g cg LoopStopTicker cs ss) (World b h k st tk g cg LoopDone cs ss)
| loop_done b h k st tk g cg cs ss :
    0 < g ->
    loop_step (World b h k st tk g cg LoopDone cs ss) (World b h k st tk (g - 1) cg LoopExited cs ss).

(** The goroutine of one round of checks: [doHealthCheck], one probe at a
    time, and [lb.checkWg.Done()]. *)
Inductive check_step : world -> world -> Prop :=
| check_snapshot b h k st tk g cg l cs1 cs2 ss order :
    Permutation order (map_to_list (backends b)) ->
    check_step (World b h k st tk g cg l (cs1 ++ CheckStart :: cs2) ss)
      (World b h k st tk g cg l
        (cs1 ++ CheckRun (bc_HealthCheckOpts (config b)) (mjoin (snd <$> order)) :: cs2) ss)
| check_probe b h k st tk g cg l cs1 cs2 ss net opts p todo :
    check_step (World b h k st tk g cg l (cs1 ++ CheckRun opts (p :: todo) :: cs2) ss)
      (World b (check_one net opts h p) k st tk g cg l (cs1 ++ CheckRun opts todo :: cs2) ss)
| check_done b h k st tk g cg l cs1 cs2 ss opts :
    0 < cg ->
    check_step (World b h k st tk g cg l (cs1 ++ CheckRun opts [] :: cs2) ss)
      (World b h k st tk g (cg - 1) l (cs1 ++ cs2) ss).

(** A caller of [Stop]. *)
Inductive stop_step : world -> world -> Prop :=
| stop_early b h k tk g cg l cs ss1 ss2 :
    stop_step (World b h k true tk g cg l cs (ss1 ++ StopSelect :: ss2))
      (World b h k true tk g cg l cs (ss1 ++ StopEarly :: ss2))
| stop_default b h k tk g cg l cs ss1 ss2 :
    stop_step (World b h k false tk g cg l cs (ss1 ++ StopSelect :: ss2))
      (World b h k false tk g cg l cs (ss1 ++ StopClose :: ss2))
| stop_close b h k tk g cg l cs ss1 ss2 :
    stop_step (World b h k false tk g cg l cs (ss1 ++ StopClose :: ss2))
      (World b h k true tk g cg l cs (ss1 ++ StopWaitLoop :: ss2))
| stop_wait_loop b h k st tk cg l cs ss1 ss2 :
    stop_step (World b h k st tk 0 cg l cs (ss1 ++ StopWaitLoop :: ss2))
      (World b h k st tk 0 cg l cs (ss1 ++ StopWaitChecks :: ss2))
| stop_wait_checks b h k st tk g l cs ss1 ss2 :
    stop_step (World b h k st tk g 0 l cs (ss1 ++ StopWaitChecks :: ss2))
      (World b h k st tk g 0 l cs (ss1 ++ StopReturned :: ss2)).

(** What a step is: a caller's action, a new call of [Stop], a tick of the
    clock, or an action of a goroutine or of a running [Stop]. *)
Inductive label : Type :=
| Act (o : client)
| CallStop
| Tick
| Run.

Definition with_stop (w : world) : world :=
  World (lb w) (hp w) (calls w) (stopCh w) (tick_pending w) (wg w) (checkWg w) (loop w) (checks w)
    (stops w ++ [StopSelect]).
Definition with_tick (w : world) : world :=
  World (lb w) (hp w) (calls w) (stopCh w) true (wg w) (checkWg w) (loop w) (checks w) (stops w).

Inductive step : label -> world -> world -> Prop :=
| step_act o w : step (Act o) w (act o w)
| step_call_stop w : step CallStop w (with_stop w)
| step_tick w : ticking (loop w) = true -> step Tick w (with_tick w)
| step_loop w w' : loop_step w w' -> step Run w w'
| step_check w w' : check_step w w' -> step Run w w'
| step_stop w w' : stop_step w w' -> step Run w w'.

(** The steps that panic: a non-positive interval for [time.NewTicker], a
    wait group below zero, a second close of the channel. *)
Inductive crash : world -> Prop :=
| crash_ticker w : loop w = LoopTicker -> interval (lb w) <= 0 -> crash w
| crash_wg w : loop w = LoopDone -> wg w <= 0 -> crash w
| crash_checkWg w opts : CheckRun opts [] ∈ checks w -> checkWg w <= 0 -> crash w
| crash_close w : StopClose ∈ stops w -> stopCh w = true -> crash w.

(** Runs and their labels. *)
Inductive run : list label -> world -> world -> Prop :=
| run_nil w : run [] w w
| run_cons l w w' ls w'' : step l w w' -> run ls w' w'' -> run (l :: ls) w w''.

Definition reachable (c : BalancerConfig) (h : heap) (w : world) : Prop :=
  exists ls, run ls (start c h) w.

(** ** The synchronisation invariant *)

Definition halted (l : loop_pc) : Prop := l = LoopOff \/ l = LoopExited.

(** What the loop holds of [wg], and of [checkWg] before its go statement. *)
Definition running (l : loop_pc) : Z := match l with LoopOff | LoopExited => 0 | _ => 1 end.
Definition spawning (l : loop_pc) : Z := match l with LoopGo => 1 | _ => 0 end.

(** The loop waits for [checkWg] before it returns, and returns only after
    [stopCh] is closed. *)
Definition loop_ok (closed : bool) (cs : list check_pc) (b : LoadBalancer) (l : loop_pc) : Prop :=
  match l with
  | LoopOff => cs = []
  | LoopTicker => cs = [] /\ 0 < interval b
  | LoopWait => closed = true
  | LoopStopTicker | LoopDone | LoopExited => closed = true /\ cs = []
  | _ => True
  end.

(** A caller of [Stop] past its close found or left the channel closed; past
    its first wait, the loop is gone. *)
Definition stop_ok (closed : bool) (l : loop_pc) (s : stop_pc) : Prop :=
  match s with
  | StopSelect | StopClose => True
  | StopEarly | StopWaitLoop => closed = true
  | StopWaitChecks | StopReturned => closed = true /\ halted l
  end.

Record sync_ok (w : world) : Prop := mkSyncOk {
  ok_wg : wg w = running (loop w);
  ok_checkWg : checkWg w = Z.of_nat (length (checks w)) + spawning (loop w);
  ok_loop : loop_ok (stopCh w) (checks w) (lb w) (loop w);
  ok_stops : Forall (stop_ok (stopCh w) (loop w)) (stops w);
}.

Lemma stops_close l ss : Forall (stop_ok false l) ss -> Forall (stop_ok true l) ss.
Proof. apply Forall_impl. intros []; simpl; tauto. Qed.

(** No [Stop] is past its first wait while the loop runs. *)
Lemma stops_running closed l l' ss :
  ~ halted l -> Forall (stop_ok closed l) ss -> Forall (stop_ok closed l') ss.
Proof. intros Hl. apply Forall_impl. intros []; simpl; tauto. Qed.

Lemma stop_move closed l ss1 s s' ss2 :
  (stop_ok closed l s -> stop_ok closed l s') ->
  Forall (stop_ok closed l) (ss1 ++ s :: ss2) -> Forall (stop_ok closed l) (ss1 ++ s' :: ss2).
Proof. rw !Forall_app !Forall_cons_iff. tauto. Qed.

Lemma act_config o w : config (lb (act o w)) = config (lb w).
Proof.
  destruct o as [b|address svc|svc ip|i intn|p|p]; simpl; try done.
  - unfold AddBackend. by destruct (backends (lb w) !! _).
  - unfold RemoveBackend. by destruct (backends (lb w) !! _).
  - destruct (backends (lb w) !! svc) as [[|? ?]|]; done.
  - by destruct (calls w !! i).
Qed.

(** A caller's action leaves the synchronisation state alone. *)
Lemma act_sync o w :
  stopCh (act o w) = stopCh w /\ tick_pending (act o w) = tick_pending w /\ wg (act o w) = wg w /\
  checkWg (act o w) = checkWg w /\ loop (act o w) = loop w /\ checks (act o w) = checks w /\
  stops (act o w) = stops w.
Proof.
  destruct o as [b|address svc|svc ip|i intn|p|p]; simpl; try done.
  - by destruct (backends (lb w) !! svc) as [[|? ?]|].
  - by destruct (calls w !! i).
Qed.

Lemma loop_ok_same closed cs b b' l :
  config b' = config b -> loop_ok closed cs b l -> loop_ok closed cs b' l.
Proof. unfold loop_ok, interval. by intros ->. Qed.

(** The number of checks does not change, or one check ends. *)
Lemma loop_ok_checks closed cs cs' b l :
  (cs = [] -> cs' = []) -> loop_ok closed cs b l -> loop_ok closed cs' b l.
Proof. unfold loop_ok. destruct l; intuition. Qed.

Lemma loop_step_ok w w' : loop_step w w' -> sync_ok w -> sync_ok w'.
Proof.
  intros Hs [Hw Hc Hl Hss].
  destruct Hs; cbn [wg checkWg loop checks stops stopCh lb running spawning loop_ok] in *;
    (split; cbn [wg checkWg loop checks stops stopCh lb running spawning loop_ok];
     [lia|rw ?length_app /=; lia| |
      first [by eapply stops_running; [|exact Hss]; intros [?|?]|done]]); try done; try by destruct Hl.
  split; [done|]. destruct cs as [|? ?]; [done|]. simpl in Hc. lia.
Qed.

Lemma check_step_ok w w' : check_step w w' -> sync_ok w -> sync_ok w'.
Proof.
  intros Hs [Hw Hc Hl Hss].
  destruct Hs; cbn [wg checkWg loop checks stops stopCh lb] in *;
    (split; cbn [wg checkWg loop checks stops stopCh lb];
     [lia|rw length_app /= in Hc; rw length_app /=; lia| |done]);
    (eapply loop_ok_checks; [|exact Hl]); by destruct cs1.
Qed.

Lemma stop_step_ok w w' : stop_step w w' -> sync_ok w -> sync_ok w'.
Proof.
  intros Hs [Hw Hc Hl Hss].
  destruct Hs; cbn [wg checkWg loop checks stops stopCh lb] in *;
    (split; cbn [wg checkWg loop checks stops stopCh lb]; [lia|lia| |]); try done;
    try (eapply stop_move; [|exact Hss]; done).
  - destruct l; simpl in *; intuition congruence.
  - apply stops_close in Hss. by eapply stop_move; [|exact Hss].
  - eapply stop_move; [|exact Hss]. intros Hx. split; [done|]. destruct l; simpl in Hw; try lia; by [left|right].
Qed.

Lemma step_ok l w w' : step l w w' -> sync_ok w -> sync_ok w'.
Proof.
  intros [o x|x|x Ht|x x' Hs|x x' Hs|x x' Hs] Hok;
    [| | |by apply (loop_step_ok x)|by apply (check_step_ok x)|by apply (stop_step_ok x)];
    destruct Hok as [Hw Hc Hl Hss].
  - destruct (act_sync o x) as (E1 & E2 & E3 & E4 & E5 & E6 & E7).
    split; rw ?E1 ?E3 ?E4 ?E5 ?E6 ?E7 //. eapply loop_ok_same; [|exact Hl]. apply act_config.
  - split; try done. cbn. by rw Forall_app Forall_cons_iff.
  - by split.
Qed.

Lemma start_ok c h : sync_ok (start c h).
Proof.
  unfold start. cbv zeta. split; cbn [wg checkWg loop checks stops stopCh lb].
  - by destruct (bc_HealthCheck _).
  - by destruct (bc_HealthCheck _).
  - destruct (bc_HealthCheck (config (NewLoadBalancer c))) eqn:E; [|done]. split; [done|].
    unfold interval. cbn in E |- *. rw E /=. destruct (Z.leb_spec (bc_CheckInterval c) 0); unfold second; lia.
  - done.
Qed.

Lemma run_ok ls w w' : run ls w w' -> sync_ok w -> sync_ok w'.
Proof. induction 1; [done|]. intros ?. by eauto using step_ok. Qed.

Lemma reachable_ok c h w : reachable c h w -> sync_ok w.
Proof. intros [ls Hr]. eapply run_ok; [exact Hr|apply start_ok]. Qed.

(** ** After a stop *)

(** No goroutine of the balancer is left. *)
Definition quiet (w : world) : Prop := halted (loop w) /\ checks w = [].

Lemma returned_quiet w : sync_ok w -> StopReturned ∈ stops w -> quiet w.
Proof.
  intros [Hw Hc Hl Hss] Hin. pose proof (proj1 (list.Forall_forall _ _) Hss _ Hin) as [_ Hh]. split; [done|].
  destruct Hh as [E|E]; rw E in Hl; simpl in Hl; [done|by destruct Hl].
Qed.

(** The fields of a backend that the balancer's code never writes. *)
Definition same_backend (b b' : Backend) : Prop :=
  be_Address b' = be_Address b /\ be_Port b' = be_Port b /\ be_ServiceName b' = be_ServiceName b /\
  be_Weight b' = be_Weight b.

#[export] Instance same_backend_preorder : PreOrder same_backend.
Proof. split; [done|]. intros b1 b2 b3 (? & ? & ? & ?) (? & ? & ? & ?). split_and!; congruence. Qed.

Lemma store_eq p b h : store p b h p = b.
Proof. unfold store. by rw decide_True. Qed.
Lemma store_ne p q b h : q <> p -> store p b h q = h q.
Proof. intros. unfold store. by rw decide_False. Qed.

(** What one action adds to the connections of a backend. *)
Definition delta (p : loc) (l : label) : Z :=
  match l with
  | Act (OpInc q) => if decide (p = q) then 1 else 0
  | Act (OpDec q) => if decide (p = q) then -1 else 0
  | _ => 0
  end.

Lemma act_hp o w p :
  hp (act o w) p = if decide (delta p (Act o) = 0) then hp w p else add_connections (delta p (Act o)) (hp w p).
Proof.
  destruct o as [b|address svc|svc ip|i intn|q|q]; try done.
  - simpl. by destruct (backends (lb w) !! svc) as [[|? ?]|].
  - simpl. by destruct (calls w !! i).
  - cbn [act with_hp hp delta]. unfold IncrementConnections.
    destruct (decide (p = q)) as [->|?]; [by rw store_eq|by rw store_ne].
  - cbn [act with_hp hp delta]. unfold DecrementConnections.
    destruct (decide (p = q)) as [->|?]; [by rw store_eq|by rw store_ne].
Qed.

Lemma loop_step_hp w w' : loop_step w w' -> hp w' = hp w /\ lb w' = lb w /\ calls w' = calls w.
Proof. by destruct 1. Qed.
Lemma stop_step_hp w w' : stop_step w w' -> hp w' = hp w /\ lb w' = lb w /\ calls w' = calls w.
Proof. by destruct 1. Qed.

(** A check writes the health of a backend and nothing else. *)
Lemma check_step_hp w w' p :
  check_step w w' -> hp w' p = hp w p \/ exists v, hp w' p = SetHealthy v (hp w p).
Proof.
  destruct 1 as [| b h k st tk g cg l cs1 cs2 ss net opts q todo|]; [by left| |by left].
  cbn [hp]. unfold check_one. destruct (decide (p = q)) as [->|?].
  - right. rw store_eq. eauto.
  - left. by rw store_ne.
Qed.

Lemma step_hp l w w' p :
  step l w w' -> hp w' p = (if decide (delta p l = 0) then hp w p else add_connections (delta p l) (hp w p)) \/
    l = Run /\ exists v, hp w' p = SetHealthy v (hp w p).
Proof.
  intros [o x|x|x Ht|x x' Hs|x x' Hs|x x' Hs]; try by left.
  - left. apply act_hp.
  - left. apply loop_step_hp in Hs as (-> & _). done.
  - destruct (check_step_hp x x' p Hs) as [->|?]; [by left|by right].
  - left. apply stop_step_hp in Hs as (-> & _). done.
Qed.

Lemma quiet_step l w w' :
  step l w w' -> quiet w -> quiet w' /\ forall p, be_healthy (hp w' p) = be_healthy (hp w p).
Proof.
  intros Hs [Hh Hc]. destruct Hs as [o x|x|x Ht|x x' Hs|x x' Hs|x x' Hs].
  - destruct (act_sync o x) as (E1 & E2 & E3 & E4 & E5 & E6 & E7). split; [by split; rw ?E5 ?E6|].
    intros p. rw act_hp. by destruct (decide (delta p (Act o) = 0)).
  - done.
  - done.
  - destruct Hs; destruct Hh; done.
  - destruct Hs; cbn [checks] in Hc; by destruct cs1.
  - destruct (stop_step_hp _ _ Hs) as (-> & _). destruct Hs; done.
Qed.

Lemma quiet_run ls w w' :
  run ls w w' -> quiet w -> quiet w' /\ forall p, be_healthy (hp w' p) = be_healthy (hp w p).
Proof.
  induction 1 as [|l x y ls z Hs Hr IH]; [done|]. intros Hq.
  destruct (quiet_step l x y Hs Hq) as [Hq' E]. destruct (IH Hq') as [? E']. split; [done|].
  intros p. by rw E' E.
Qed.

(** ** The connections of a backend *)

Definition int32 (z : Z) : Prop := - 2 ^ 31 <= z < 2 ^ 31.

Lemma wrap_s32_id z : int32 z -> wrap_s 32 z = z.
Proof. unfold int32, wrap_s. intros. change (32 - 1) with 31. rw Z.mod_small; lia. Qed.

Lemma wrap_s32_range z : int32 (wrap_s 32 z).
Proof. unfold int32, wrap_s. change (32 - 1) with 31. pose proof (Z.mod_pos_bound (z + 2 ^ 31) (2 ^ 32)). lia. Qed.

Lemma wrap_s32_add a b : wrap_s 32 (wrap_s 32 a + b) = wrap_s 32 (a + b).
Proof.
  unfold wrap_s. change (32 - 1) with 31. f_equal.
  replace ((a + 2 ^ 31) mod 2 ^ 32 - 2 ^ 31 + b + 2 ^ 31) with ((a + 2 ^ 31) mod 2 ^ 32 + b) by lia.
  rw Zplus_mod_idemp_l. f_equal. lia.
Qed.

Definition opened (p : loc) (ls : list label) : Z := fold_right (fun l n => delta p l + n) 0 ls.

Lemma step_connections l w w' p :
  step l w w' -> int32 (be_Connections (hp w p)) ->
  be_Connections (hp w' p) = wrap_s 32 (be_Connections (hp w p) + delta p l) /\
  same_backend (hp w p) (hp w' p).
Proof.
  intros Hs Hr. destruct (step_hp l w w' p Hs) as [->|(-> & v & ->)].
  - destruct (decide (delta p l = 0)) as [->|?]; [|done]. rw Z.add_0_r. by rw wrap_s32_id.
  - simpl. rw Z.add_0_r. by rw wrap_s32_id.
Qed.

Lemma run_connections ls w w' p :
  run ls w w' -> int32 (be_Connections (hp w p)) ->
  be_Connections (hp w' p) = wrap_s 32 (be_Connections (hp w p) + opened p ls) /\
  same_backend (hp w p) (hp w' p).
Proof.
  induction 1 as [w|l x y ls z Hs Hr IH]; intros Hi; [by simpl; rw Z.add_0_r wrap_s32_id|].
  destruct (step_connections l x y p Hs Hi) as [E Hsb].
  destruct IH as [E' Hsb']; [rw E; apply wrap_s32_range|]. split; [|by etrans].
  rw E' E wrap_s32_add. simpl. f_equal. lia.
Qed.

(** ** The work left *)

(** The backends a snapshot takes. *)
Definition snapshot_size (w : world) : nat := length (mjoin (snd <$> map_to_list (backends (lb w)))).

(** Steps a check may still take: the snapshot, the probes and [Done]. *)
Definition check_work (n : nat) (c : check_pc) : nat :=
  match c with CheckStart => n + 2 | CheckRun _ todo => length todo + 1 end%nat.

(** Steps the loop may still take, the checks it is about to start included. *)
Definition loop_work (n : nat) (l : loop_pc) : nat :=
  match l with
  | LoopOff | LoopExited => 0
  | LoopTicker => n + 10
  | LoopAdd => n + 9
  | LoopGo => n + 8
  | LoopSelect => 5
  | LoopWait => 4
  | LoopStopTicker => 3
  | LoopDone => 2
  end%nat.

Definition stop_work (s : stop_pc) : nat :=
  match s with
  | StopSelect => 4 | StopClose => 3 | StopWaitLoop => 2 | StopWaitChecks => 1
  | StopReturned | StopEarly => 0
  end%nat.

(** The loop has not yet received from [stopCh]. *)
Definition looping (l : loop_pc) : bool :=
  match l with LoopTicker | LoopAdd | LoopGo | LoopSelect => true | _ => false end.

Definition tick_work (w : world) : nat := if looping (loop w) then (snapshot_size w + 5)%nat else 0%nat.

Definition work (w : world) : nat :=
  (loop_work (snapshot_size w) (loop w) + sum_list_with (check_work (snapshot_size w)) (checks w) +
   (if tick_pending w then tick_work w else 0) + sum_list_with stop_work (stops w))%nat.

Lemma length_join_perm {A} (l1 l2 : list (string * list A)) :
  Permutation l1 l2 -> length (mjoin (snd <$> l1)) = length (mjoin (snd <$> l2)).
Proof.
  induction 1 as [|x k1 k2 _ IH|x y k|k1 k2 k3 _ IH1 _ IH2]; cbn [fmap list_fmap mjoin list_join]; rw ?length_app; [done| | |congruence].
  - by rw IH.
  - lia.
Qed.

Lemma loop_step_work w w' :
  loop_step w w' -> (work w' < work w)%nat /\ (tick_work w' <= tick_work w)%nat.
Proof.
  destruct 1; unfold work, tick_work, snapshot_size; cbn [loop_work looping loop checks stops tick_pending lb];
    rw ?sum_list_with_app; cbn [sum_list_with check_work]; destruct_or?;
    repeat match goal with |- context [if ?b then _ else _] => destruct b end; lia.
Qed.

Lemma check_step_work w w' :
  check_step w w' -> (work w' < work w)%nat /\ tick_work w' = tick_work w.
Proof.
  destruct 1 as [b h k st tk g cg l cs1 cs2 ss order Ho|b h k st tk g cg l cs1 cs2 ss net opts p todo|];
    unfold work, tick_work, snapshot_size; cbn [loop checks stops tick_pending lb]; (split; [|done]);
    rw ?sum_list_with_app; cbn [sum_list_with check_work length]; rw -?(length_join_perm _ _ Ho); lia.
Qed.

Lemma stop_step_work w w' :
  stop_step w w' -> (work w' < work w)%nat /\ tick_work w' = tick_work w.
Proof.
  destruct 1; unfold work, tick_work, snapshot_size; cbn [loop checks stops tick_pending lb]; (split; [|done]);
    rw !sum_list_with_app; cbn [sum_list_with stop_work]; lia.
Qed.

Lemma run_step_work w w' :
  step Run w w' -> (work w' < work w)%nat /\ (tick_work w' <= tick_work w)%nat.
Proof.
  inversion 1 as [| | |x x' Hl|x x' Hl|x x' Hl]; subst.
  - by apply loop_step_work.
  - apply check_step_work in Hl. lia.
  - apply stop_step_work in Hl. lia.
Qed.

Lemma tick_step_work w w' :
  step Tick w w' -> (work w' <= work w + tick_work w)%nat /\ tick_work w' = tick_work w.
Proof.
  inversion 1; subst. split; [|done]. unfold work, tick_work, snapshot_size. cbn. 
  destruct (tick_pending w), (looping (loop w)); lia.
Qed.

(** The ticks and the steps of goroutines in a run. *)
Definition ticks (ls : list label) : nat :=
  sum_list_with (fun l => match l with Tick => 1 | _ => 0 end)%nat ls.
Definition runs (ls : list label) : nat :=
  sum_list_with (fun l => match l with Run => 1 | _ => 0 end)%nat ls.

(** A run in which no caller does anything. *)
Definition internal (ls : list label) : Prop := Forall (fun l => l = Tick \/ l = Run) ls.

Lemma run_work ls w w' :
  run ls w w' -> internal ls ->
  (runs ls + work w' <= work w + ticks ls * tick_work w)%nat /\ (tick_work w' <= tick_work w)%nat.
Proof.
  induction 1 as [|l x y ls z Hs Hr IH]; intros Hi; [simpl; lia|].
  apply Forall_cons_iff in Hi as [[->| ->] Hi]; specialize (IH Hi) as [IH IH'];
    cbn [runs ticks sum_list_with] in *; fold (runs ls) (ticks ls).
  - destruct (tick_step_work x y Hs) as [? E]. rw E in IH IH'. lia.
  - destruct (run_step_work x y Hs) as [? ?]. split; [|lia].
    assert (ticks ls * tick_work y <= ticks ls * tick_work x)%nat by (apply Nat.mul_le_mono_l; lia). lia.
Qed.

(** The channel stays closed. *)
Lemma closed_step l w w' : step l w w' -> stopCh w = true -> stopCh w' = true.
Proof.
  intros [o x|x|x Ht|x x' Hs|x x' Hs|x x' Hs] Hc; try done; [|by destruct Hs..].
  by destruct (act_sync o x) as [-> _].
Qed.

Lemma closed_run ls w w' : run ls w w' -> stopCh w = true -> stopCh w' = true.
Proof. induction 1; eauto using closed_step. Qed.

(** ** Nothing waits for ever *)

Definition stuck (w : world) : Prop := forall w', ~ step Run w w'.

Definition finished (s : stop_pc) : Prop := s = StopReturned \/ s = StopEarly.

Lemma stuck_checks w : sync_ok w -> stuck w -> checks w = [].
Proof.
  intros [Hw Hc Hl Hss] Hn. destruct w as [b h k st tk g cg l [|c cs] ss]; [done|]. exfalso.
  cbn [checkWg checks loop] in Hc.
  assert (0 < cg) by (destruct l; simpl in Hc; lia).
  destruct c as [|opts [|p todo]].
  - eapply Hn, step_check, (check_snapshot _ _ _ _ _ _ _ _ []). done.
  - eapply Hn, step_check, (check_done _ _ _ _ _ _ _ _ []). done.
  - eapply Hn, step_check, (check_probe _ _ _ _ _ _ _ _ [] _ _ (mkNetwork (fun _ _ => None) (fun _ _ => None))).
Qed.

Lemma stuck_loop w : sync_ok w -> stopCh w = true -> stuck w -> halted (loop w).
Proof.
  intros Hok Hst Hn. pose proof (stuck_checks w Hok Hn) as Hcs. destruct Hok as [Hw Hc Hl Hss].
  destruct w as [b h k st tk g cg l cs ss]. cbn in Hst, Hcs, Hc, Hl, Hw. subst st cs.
  destruct l; try (by left); try (by right); exfalso; eapply Hn, step_loop; cbn in Hc, Hl, Hw.
  - destruct Hl as [_ Hl]. by apply loop_ticker.
  - apply loop_add.
  - apply loop_go.
  - apply loop_stop.
  - assert (cg = 0) as -> by lia. apply loop_wait.
  - apply loop_stop_ticker.
  - apply loop_done. lia.
Qed.

(** When nothing can move, every [Stop] has returned and no goroutine is
    left, or a close is about to panic. *)
Lemma stuck_finished w :
  sync_ok w -> stopCh w = true -> stuck w -> crash w \/ quiet w /\ Forall finished (stops w).
Proof.
  intros Hok Hst Hn. pose proof (stuck_checks w Hok Hn) as Hcs.
  pose proof (stuck_loop w Hok Hst Hn) as Hh.
  destruct (decide (StopClose ∈ stops w)) as [He|He]; [left; by apply crash_close|].
  right. split; [done|]. apply list.Forall_forall. intros s Hin.
  destruct Hok as [Hw Hc Hl Hss]. apply list_elem_of_split in Hin as (ss1 & ss2 & Es).
  destruct w as [b h k st tk g cg l cs ss]. cbn in Hst, Hcs, Hc, Hw, Hh, Es, He. subst st cs ss.
  assert (g = 0 /\ cg = 0) as [-> ->] by (destruct Hh as [->| ->]; simpl in Hw, Hc; lia).
  destruct s; try (by left); try (by right); exfalso.
  - eapply Hn, step_stop, stop_early.
  - apply He, elem_of_app. right. apply elem_of_cons. by left.
  - eapply Hn, step_stop, stop_wait_loop.
  - eapply Hn, step_stop, stop_wait_checks.
Qed.

Lemma finished_stuck w : quiet w -> Forall finished (stops w) -> stuck w.
Proof.
  intros [Hh Hc] Hf w' Hs. inversion Hs as [| | |x x' Hl|x x' Hl|x x' Hl]; subst.
  - destruct Hl; destruct Hh; done.
  - destruct Hl; cbn [checks] in Hc; by destruct cs1.
  - destruct Hl; cbn [stops] in Hf; apply Forall_app in Hf as [_ [Hf _]%Forall_cons_iff];
      destruct Hf; done.
Qed.

(** ** Calls of [Stop] one after the other *)

Definition entering (s : stop_pc) : bool :=
  match s with StopSelect | StopClose => true | _ => false end.

(** Every call of [Stop] starts when no other is before its close. *)
Inductive serial_run : list label -> world -> world -> Prop :=
| serial_nil w : serial_run [] w w
| serial_cons l w w' ls w'' :
    (l = CallStop -> Forall (fun s => entering s = false) (stops w)) ->
    step l w w' -> serial_run ls w' w'' -> serial_run (l :: ls) w w''.

Definition entrants (w : world) : nat := sum_list_with (fun s => if entering s then 1%nat else 0%nat) (stops w).

Record serial_ok (w : world) : Prop := mkSerialOk {
  one_entrant : (entrants w <= 1)%nat;
  close_open : stopCh w = true -> StopClose ∉ stops w;
}.

Lemma no_entrants ss :
  Forall (fun s => entering s = false) ss <->
  sum_list_with (fun s => if entering s then 1%nat else 0%nat) ss = 0%nat.
Proof.
  induction ss as [|s ss IH]; [done|]. rw Forall_cons_iff IH /=. destruct (entering s); simpl; [|tauto].
  split; [by intros [? _]|lia].
Qed.

Lemma no_entrant_close ss : Forall (fun s => entering s = false) ss -> StopClose ∉ ss.
Proof. intros Hf Hin. by apply (proj1 (list.Forall_forall _ _) Hf) in Hin. Qed.

Lemma serial_step l w w' :
  (l = CallStop -> Forall (fun s => entering s = false) (stops w)) ->
  step l w w' -> serial_ok w -> serial_ok w'.
Proof.
  intros Hc Hs [He Ho]. destruct Hs as [o x|x|x Ht|x x' Hs|x x' Hs|x x' Hs].
  - destruct (act_sync o x) as (E1 & _ & _ & _ & _ & _ & E7). split; unfold entrants in *; by rw ?E1 ?E7.
  - specialize (Hc eq_refl). split; unfold entrants; cbn [with_stop stops stopCh].
    + rw sum_list_with_app. apply no_entrants in Hc. rw Hc. simpl. lia.
    + intros _ [Hin|Hin]%elem_of_app; [by apply (no_entrant_close (stops x))|]. set_solver.
  - done.
  - destruct Hs; done.
  - destruct Hs; done.
  - destruct Hs; unfold entrants in *; cbn [stops stopCh] in *;
      rw !sum_list_with_app /= in He; split; unfold entrants; cbn [stops stopCh];
      try (rw !sum_list_with_app /=; lia); try done; try (intros Hx; specialize (Ho Hx); set_solver).
    intros _ [Hin|[?|Hin]%elem_of_cons]%elem_of_app; [|done|];
      (eapply no_entrant_close; [|exact Hin]); apply no_entrants; lia.
Qed.

Lemma serial_run_ok ls w w' : serial_run ls w w' -> sync_ok w -> serial_ok w -> sync_ok w' /\ serial_ok w'.
Proof.
  induction 1 as [|l x y ls z Hc Hs Hr IH]; [done|]. intros Hok Hse.
  apply IH; [by eapply step_ok|by eapply serial_step].
Qed.

(** With the counters right, only a second close can panic. *)
Lemma crash_only_close w : sync_ok w -> crash w -> StopClose ∈ stops w /\ stopCh w = true.
Proof.
  intros [Hw Hc Hl Hss] Hcr. destruct Hcr as [w E Hi|w E Hg|w opts Hin Hg|w Hin Hst]; [..|done]; exfalso.
  - rw E in Hl. simpl in Hl. lia.
  - rw E in Hw. simpl in Hw. lia.
  - apply list_elem_of_split in Hin as (cs1 & cs2 & E). rw E length_app /= in Hc.
    destruct (loop w); simpl in Hc; lia.
Qed.

(** ** Machine integers in range, backends under their service *)

Definition backend_typed (b : Backend) : Prop :=
  (be_healthy b = 0 \/ be_healthy b = 1) /\ int32 (be_Connections b).

Definition uint32 (z : Z) : Prop := 0 <= z < 2 ^ 32.

Definition counters_typed (a : Algorithm) : Prop :=
  match a with
  | roundRobinAlgorithm states | weightedRoundRobinAlgorithm states _ =>
      map_Forall (fun _ c => uint32 c) states
  | _ => True
  end.

(** Every backend is filed under its own service, and a call of [NextBackend]
    holds a non-empty copy of backends of its service. *)
Definition filed (h : heap) (svc : string) (bs : list loc) : Prop :=
  Forall (fun p => be_ServiceName (h p) = svc) bs.

Record typed (w : world) : Prop := mkTyped {
  typed_backends : forall p, backend_typed (hp w p);
  typed_counters : counters_typed (algorithm (lb w));
  typed_filed : map_Forall (filed (hp w)) (backends (lb w));
  typed_calls : Forall (fun c => call_backends c <> [] /\ filed (hp w) (call_service c) (call_backends c)) (calls w);
}.

Lemma tick_typed states svc :
  map_Forall (fun _ c => uint32 c) states -> map_Forall (fun _ c => uint32 c) (snd (tick states svc)).
Proof. intros Hs. apply map_Forall_insert_2; [|done]. by apply wrap_u_range. Qed.

Lemma touch_typed states svc :
  map_Forall (fun _ c => uint32 c) states -> map_Forall (fun _ c => uint32 c) (touch states svc).
Proof.
  intros Hs. unfold touch. destruct (states !! svc); [done|]. apply map_Forall_insert_2; [|done].
  unfold uint32. lia.
Qed.

Lemma Select_typed intn h bs svc ip a : counters_typed a -> counters_typed (snd (Select intn h bs svc ip a)).
Proof.
  intros Ha. destruct a as [states| |states weights| |]; cbn [Select]; try done.
  - destruct (length bs =? 0)%nat; [done|]. pose proof (tick_typed states svc Ha). by destruct (tick states svc).
  - destruct (length bs =? 0)%nat; [done|]. pose proof (touch_typed states svc Ha) as Ht.
    destruct (fold_left _ _ _ =? 0); [done|].
    pose proof (tick_typed (touch states svc) svc Ht). by destruct (tick _ svc).
  - destruct (length bs =? 0)%nat; [done|]. by destruct (length _ =? 0)%nat.
  - destruct (length bs =? 0)%nat; [done|]. by destruct (length _ =? 0)%nat.
Qed.

Lemma remove_first_Forall (P : loc -> Prop) h address bs :
  Forall P bs -> Forall P (remove_first h address bs).
Proof.
  induction 1 as [|b bs Hb Hbs IH]; simpl; [done|]. destruct (bool_decide _); [done|]. by constructor.
Qed.

Lemma AddBackend_filed h b x : map_Forall (filed h) (backends x) -> map_Forall (filed h) (backends (AddBackend h b x)).
Proof.
  intros Hf. unfold AddBackend. set (name := be_ServiceName (h b)).
  assert (filed h name (default [] (backends x !! name) ++ [b])) as Hn.
  { apply Forall_app. split; [|by constructor].
    destruct (backends x !! name) as [bs|] eqn:E; [|constructor]. exact (Hf _ _ E). }
  destruct (backends x !! name) as [bs|] eqn:E; cbn [backends].
  - rw E. by apply map_Forall_insert_2.
  - rw lookup_insert_eq. apply map_Forall_insert_2; [done|]. apply map_Forall_insert_2; [constructor|done].
Qed.

Lemma RemoveBackend_filed h address svc x :
  map_Forall (filed h) (backends x) -> map_Forall (filed h) (backends (RemoveBackend h address svc x)).
Proof.
  intros Hf. unfold RemoveBackend. destruct (backends x !! svc) as [bs|] eqn:E; [|done].
  apply map_Forall_insert_2; [|done]. apply remove_first_Forall. exact (Hf _ _ E).
Qed.

(** Actions on the store change no service name. *)
Lemma step_filed l w w' svc bs : step l w w' -> filed (hp w) svc bs -> filed (hp w') svc bs.
Proof.
  intros Hs. apply Forall_impl. intros p <-.
  destruct (step_hp l w w' p Hs) as [->|(-> & v & ->)]; [|done]. by destruct (decide _).
Qed.

Lemma step_typed_backend l w w' p : step l w w' -> backend_typed (hp w p) -> backend_typed (hp w' p).
Proof.
  intros Hs [Hh Hc]. destruct (step_hp l w w' p Hs) as [->|(-> & v & ->)].
  - destruct (decide _); [done|]. split; [done|]. apply wrap_s32_range.
  - split; [|done]. by destruct v; [right|left].
Qed.

Lemma act_typed_lb o w :
  typed w -> counters_typed (algorithm (lb (act o w))) /\ map_Forall (filed (hp w)) (backends (lb (act o w))) /\
  Forall (fun c => call_backends c <> [] /\ filed (hp w) (call_service c) (call_backends c)) (calls (act o w)).
Proof.
  intros [Hb Ha Hf Hc]. destruct o as [b|address svc|svc ip|i intn|p|p]; cbn [act]; try done.
  - split_and!; [|by apply AddBackend_filed|done]. cbn. unfold AddBackend. by destruct (backends (lb w) !! _).
  - split_and!; [|by apply RemoveBackend_filed|done]. cbn. unfold RemoveBackend. by destruct (backends (lb w) !! _).
  - destruct (backends (lb w) !! svc) as [[|b bs]|] eqn:E; [done| |done]. split_and!; [done|done|].
    cbn. apply Forall_app. split; [done|]. constructor; [|done]. split; [done|]. exact (Hf _ _ E).
  - destruct (calls w !! i) as [c|]; [|done]. split_and!; [by apply Select_typed|done|].
    cbn. by apply Forall_delete.
Qed.

Lemma step_typed l w w' : step l w w' -> typed w -> typed w'.
Proof.
  intros Hs Ht.
  assert (counters_typed (algorithm (lb w')) /\ map_Forall (filed (hp w)) (backends (lb w')) /\
    Forall (fun c => call_backends c <> [] /\ filed (hp w) (call_service c) (call_backends c)) (calls w'))
    as (Ha & Hf & Hc).
  { pose proof Ht as [Hb Ha Hf Hc]. destruct Hs as [o x|x|x Hx|x x' Hs|x x' Hs|x x' Hs]; try done.
    - by apply act_typed_lb.
    - by apply loop_step_hp in Hs as (_ & -> & ->).
    - by destruct Hs.
    - by apply stop_step_hp in Hs as (_ & -> & ->). }
  split.
  - intros p. by eapply step_typed_backend, Ht.
  - done.
  - intros svc bs E. by eapply step_filed, Hf.
  - revert Hc. apply Forall_impl. intros c [? ?]. split; [done|]. by eapply step_filed.
Qed.

Lemma start_typed c h : (forall p, backend_typed (h p)) -> typed (start c h).
Proof.
  intros Hh. split; cbn; [done| |apply map_Forall_empty|constructor].
  unfold NewAlgorithm. repeat destruct (bool_decide _); cbn; try done; apply map_Forall_empty.
Qed.

Lemma run_typed ls w w' : run ls w w' -> typed w -> typed w'.
Proof. induction 1 as [|l x y ls z Hs Hr IH]; [done|]. intros ?. by eapply IH, step_typed. Qed.

(** ** One round of checks *)

Lemma check_same net opts b b' : same_backend b b' -> checkBackendHealth net b' opts = checkBackendHealth net b opts.
Proof. intros (Ea & Ep & _ & _). unfold checkBackendHealth. by rw Ea Ep. Qed.

Definition checked (net : network) (opts : HealthCheckOptions) (ps : list loc) (h : heap) : heap :=
  fold_left (check_one net opts) ps h.

Lemma doHealthCheck_checked net order x h :
  doHealthCheck net order x h = checked net (bc_HealthCheckOpts (config x)) (mjoin (snd <$> order)) h.
Proof.
  unfold doHealthCheck, checked. revert h. induction order as [|[svc bs] order IH]; intros h; [done|].
  cbn [fmap list_fmap mjoin list_join fold_left]. rw IH fold_left_app. done.
Qed.

Lemma checked_eq net opts ps h p :
  checked net opts ps h p =
  if decide (p ∈ ps) then SetHealthy (checkBackendHealth net (h p) opts) (h p) else h p.
Proof.
  revert h. induction ps as [|q ps IH]; intros h.
  { destruct (decide (p ∈ [])) as [Hp|?]; [by apply elem_of_nil in Hp|done]. }
  cbn [checked fold_left]. fold (checked net opts ps (check_one net opts h q)). rw IH. unfold check_one.
  destruct (decide (p = q)) as [->|Hne].
  - rw store_eq. destruct (decide (q ∈ q :: ps)) as [_|Hn]; [|by destruct Hn; apply elem_of_cons; left].
    destruct (decide (q ∈ ps)); [|done]. by rw (check_same _ _ (h q)).
  - rw store_ne //. destruct (decide (p ∈ ps)), (decide (p ∈ q :: ps)); try done; set_solver.
Qed.

(** The backends of a balancer. *)
Definition registered (x : LoadBalancer) (p : loc) : Prop :=
  exists svc bs, backends x !! svc = Some bs /\ p ∈ bs.

Lemma elem_of_snapshot order x p :
  Permutation order (map_to_list (backends x)) -> p ∈ mjoin (snd <$> order) <-> registered x p.
Proof.
  intros Hp. unfold registered. rw list_elem_of_join. split.
  - intros (bs & Hin & Hel). apply list_elem_of_fmap in Hel as ([svc bs'] & -> & Hel). rw Hp in Hel.
    apply elem_of_map_to_list in Hel. eauto.
  - intros (svc & bs & Hl & Hin). exists bs. split; [done|]. apply list_elem_of_fmap. exists (svc, bs).
    split; [done|]. rw Hp. by apply elem_of_map_to_list.
Qed.

(** A check that runs alone. *)
Lemma check_alone net b h k st tk g cg l cs1 cs2 ss opts ps :
  run (replicate (length ps) Run) (World b h k st tk g cg l (cs1 ++ CheckRun opts ps :: cs2) ss)
    (World b (checked net opts ps h) k st tk g cg l (cs1 ++ CheckRun opts [] :: cs2) ss).
Proof.
  revert h. induction ps as [|p ps IH]; intros h; [constructor|]. cbn [length replicate].
  econstructor; [apply step_check, (check_probe _ _ _ _ _ _ _ _ cs1 cs2 _ net)|apply IH].
Qed.

Lemma run_then ls1 ls2 w1 w2 w3 : run ls1 w1 w2 -> run ls2 w2 w3 -> run (ls1 ++ ls2) w1 w3.
Proof. induction 1; [done|]. intros. simpl. econstructor; eauto. Qed.

Lemma internal_serial ls w w' : internal ls -> run ls w w' -> serial_run ls w w'.
Proof.
  intros Hi Hr. revert Hi. induction Hr as [|l x y ls z Hs Hr IH]; [constructor|].
  intros [Hl Hi]%Forall_cons_iff. econstructor; [|exact Hs|by apply IH]. intros ->. by destruct Hl.
Qed.

Lemma serial_no_crash w : sync_ok w -> serial_ok w -> ~ crash w.
Proof. intros Hok [_ Ho] Hc. apply crash_only_close in Hc as [Hin Hst]; [|done]. by apply Ho. Qed.

Lemma start_serial c h : serial_ok (start c h).
Proof. split; [cbn; lia|done]. Qed.

(** ** Properties *)

(** C10. [Stop] stops: when a caller of [Stop] has returned from both waits,
    the loop has returned and no round of checks is running, so both wait
    groups are at zero; and from then on, whatever the callers do, no
    goroutine of the balancer runs again and no backend changes its health.
    While any caller waits for the rounds of checks, the loop that could add
    to their wait group is gone. *)
Theorem Stop_quiesces (c : BalancerConfig) (h : heap) (w w' : world) (ls : list label) :
  reachable c h w -> run ls w w' ->
  (StopWaitChecks ∈ stops w -> halted (loop w)) /\
  (StopReturned ∈ stops w ->
   quiet w /\ wg w = 0 /\ checkWg w = 0 /\ quiet w' /\
   forall p, be_healthy (hp w' p) = be_healthy (hp w p)).
Proof.
  intros Hok%reachable_ok Hr. split.
  - intros Hin. by apply (proj1 (list.Forall_forall _ _) (ok_stops w Hok)) in Hin as [_ ?].
  - intros Hin. pose proof (returned_quiet w Hok Hin) as [Hh Hc].
    pose proof (ok_wg w Hok) as Hw. pose proof (ok_checkWg w Hok) as Hcw. rw Hc in Hcw.
    destruct (quiet_run ls w w' Hr) as [? ?]; [done|]. split_and!; try done.
    + by destruct Hh as [E|E]; rw E in Hw.
    + by destruct Hh as [E|E]; rw E in Hcw.
Qed.

Definition health_config : BalancerConfig :=
  mkBalancerConfig RoundRobin true 0 true [] (mkHealthCheckOptions 0 "" "").

(** The balancer of [health_config] after a start and a [Stop]. *)
Definition stopped_world : world :=
  World (NewLoadBalancer health_config) demo_heap [] true false 0 0 LoopExited [] [StopReturned].

Ltac goes t := eapply run_cons; [t|cbn [app]].

Lemma stopped_run :
  run (CallStop :: replicate 13 Run) (start health_config demo_heap) stopped_world.
Proof.
  goes ltac:(apply step_call_stop).
  goes ltac:(apply step_loop, loop_ticker; reflexivity).
  goes ltac:(apply step_loop, loop_add).
  goes ltac:(apply step_stop, (stop_default _ _ _ _ _ _ _ _ [] [])).
  goes ltac:(apply step_stop, (stop_close _ _ _ _ _ _ _ _ [] [])).
  goes ltac:(apply step_loop, loop_go).
  goes ltac:(apply step_check, (check_snapshot _ _ _ _ _ _ _ _ [] [] _ []); vm_compute; done).
  goes ltac:(apply step_loop, loop_stop).
  goes ltac:(apply step_check, (check_done _ _ _ _ _ _ _ _ [] []); done).
  goes ltac:(apply step_loop, loop_wait).
  goes ltac:(apply step_loop, loop_stop_ticker).
  goes ltac:(apply step_loop, loop_done; done).
  goes ltac:(apply step_stop, (stop_wait_loop _ _ _ _ _ _ _ _ [] [])).
  goes ltac:(apply step_stop, (stop_wait_checks _ _ _ _ _ _ _ _ [] [])).
  apply run_nil.
Qed.

Lemma Stop_quiesces_witness :
  StopReturned ∈ stops stopped_world /\ quiet stopped_world /\
  quiet (act (OpInc 2%positive) stopped_world).
Proof.
  assert (StopReturned ∈ stops stopped_world) as Hin by (apply elem_of_cons; by left).
  destruct (Stop_quiesces health_config demo_heap stopped_world (act (OpInc 2%positive) stopped_world)
    [Act (OpInc 2%positive)]) as [_ Hq].
  - eexists. apply stopped_run.
  - eapply run_cons; [apply step_act|apply run_nil].
  - destruct (Hq Hin) as (? & _ & _ & ? & _). by split_and!.
Defined.

(** C11. [Stop] terminates: once the channel is closed, a run of the
    goroutines and of the running calls of [Stop] takes no more steps than
    [work], plus a bounded number for each tick that comes before the loop has
    received from [stopCh] and none for later ticks; and no step is left exactly
    when every [Stop] has returned and the loop and the checks are gone:
    nothing deadlocks on the wait groups. *)
Theorem Stop_terminates (c : BalancerConfig) (h : heap) (w w' : world) (before ls : list label) :
  serial_run before (start c h) w -> stopCh w = true -> internal ls -> run ls w w' ->
  (runs ls <= work w + (if looping (loop w) then ticks ls * (snapshot_size w + 5) else 0))%nat /\
  (stuck w' <-> quiet w' /\ Forall finished (stops w')).
Proof.
  intros Hb Hst Hi Hr.
  destruct (serial_run_ok _ _ _ Hb (start_ok c h) (start_serial c h)) as [Hok Hse].
  destruct (serial_run_ok ls w w' (internal_serial _ _ _ Hi Hr) Hok Hse) as [Hok' Hse']. split.
  - destruct (run_work ls w w' Hr Hi) as [Hw _]. unfold tick_work in Hw. destruct (looping (loop w)); lia.
  - split; [intros Hs|by intros [? ?]; apply finished_stuck]. destruct (stuck_finished w') as [Hc|?]; [done|by eapply closed_run|done| |done].
    by destruct (serial_no_crash w').
Qed.

(** The balancer of [health_config] right after the close. *)
Definition closed_world : world :=
  World (NewLoadBalancer health_config) demo_heap [] true false 1 0 LoopTicker [] [StopWaitLoop].

Lemma Stop_terminates_witness :
  work closed_world = 12%nat /\ (runs (replicate 11 Run) <= 12)%nat /\
  quiet stopped_world /\ Forall finished (stops stopped_world).
Proof.
  destruct (Stop_terminates health_config demo_heap closed_world stopped_world [CallStop; Run; Run]
    (replicate 11 Run)) as [Hb Hf].
  - eapply serial_cons; [constructor|apply step_call_stop|cbn].
    eapply serial_cons; [done|apply step_stop, (stop_default _ _ _ _ _ _ _ _ [] [])|cbn [app]].
    eapply serial_cons; [done|apply step_stop, (stop_close _ _ _ _ _ _ _ _ [] [])|cbn [app]].
    apply serial_nil.
  - reflexivity.
  - repeat constructor; by right.
  - goes ltac:(apply step_loop, loop_ticker; reflexivity).
    goes ltac:(apply step_loop, loop_add).
    goes ltac:(apply step_loop, loop_go).
    goes ltac:(apply step_loop, loop_stop).
    goes ltac:(apply step_check, (check_snapshot _ _ _ _ _ _ _ _ [] [] _ []); vm_compute; done).
    goes ltac:(apply step_check, (check_done _ _ _ _ _ _ _ _ [] []); done).
    goes ltac:(apply step_loop, loop_wait).
    goes ltac:(apply step_loop, loop_stop_ticker).
    goes ltac:(apply step_loop, loop_done; done).
    goes ltac:(apply step_stop, (stop_wait_loop _ _ _ _ _ _ _ _ [] [])).
    goes ltac:(apply step_stop, (stop_wait_checks _ _ _ _ _ _ _ _ [] [])).
    apply run_nil.
  - split_and!; [reflexivity|exact Hb|apply Hf..];
      (apply finished_stuck; [split; [by right|done]|by repeat constructor]).
Defined.

(** C16. Calls of [Stop] that start one after the other, each when no other is
    before its close, never panic, at any time: the ticker's interval is
    positive, the wait groups never go below zero and the channel is closed
    once. *)
Theorem serial_stops_never_panic (c : BalancerConfig) (h : heap) (w : world) (ls : list label) :
  serial_run ls (start c h) w -> ~ crash w.
Proof.
  intros Hr. destruct (serial_run_ok _ _ _ Hr (start_ok c h) (start_serial c h)). by apply serial_no_crash.
Qed.

Lemma serial_stops_never_panic_witness : ~ crash (act (OpAdd 1%positive) (start health_config demo_heap)).
Proof.
  apply (serial_stops_never_panic health_config demo_heap _ [Act (OpAdd 1%positive)]).
  eapply serial_cons; [done|apply step_act|apply serial_nil].
Defined.

(** C38. Two callers of [Stop] at once: both can pass the select before
    either closes the channel, and the second close panics; and a caller that
    finds the channel closed returns while the loop and a round of checks are
    still running. *)
Theorem concurrent_stops (c : BalancerConfig) (h : heap) :
  bc_HealthCheck c = true ->
  (exists w, reachable c h w /\ crash w) /\
  (exists w, reachable c h w /\ StopEarly ∈ stops w /\ loop w = LoopSelect /\ checks w = [CheckStart]).
Proof.
  intros Hh. assert (0 < interval (NewLoadBalancer c)) as Hi.
  { pose proof (ok_loop _ (start_ok c h)) as Hl. unfold start in Hl. cbn in Hl. rw Hh in Hl. apply Hl. }
  assert (start c h = World (NewLoadBalancer c) h [] false false 1 0 LoopTicker [] []) as E
    by (unfold start; cbn; by rw Hh).
  unfold reachable. rw E. split; eexists; (split; [eexists|]).
  - goes ltac:(apply step_call_stop). goes ltac:(apply step_call_stop). cbn.
    goes ltac:(apply step_stop, (stop_default _ _ _ _ _ _ _ _ [] [StopSelect])).
    goes ltac:(apply step_stop, (stop_default _ _ _ _ _ _ _ _ [StopClose] [])).
    goes ltac:(apply step_stop, (stop_close _ _ _ _ _ _ _ _ [] [StopClose])).
    apply run_nil.
  - apply crash_close; [|done]. apply elem_of_cons. right. apply elem_of_cons. by left.
  - goes ltac:(by apply step_loop, loop_ticker). goes ltac:(apply step_loop, loop_add).
    goes ltac:(apply step_loop, loop_go). goes ltac:(apply step_call_stop). cbn.
    goes ltac:(apply step_stop, (stop_default _ _ _ _ _ _ _ _ [] [])).
    goes ltac:(apply step_stop, (stop_close _ _ _ _ _ _ _ _ [] [])).
    goes ltac:(apply step_call_stop). cbn.
    goes ltac:(apply step_stop, (stop_early _ _ _ _ _ _ _ _ [StopWaitLoop] [])).
    apply run_nil.
  - split_and!; try done. apply elem_of_cons. right. apply elem_of_cons. by left.
Qed.

Lemma concurrent_stops_witness : exists w, reachable health_config demo_heap w /\ crash w.
Proof. apply (concurrent_stops health_config demo_heap). reflexivity. Defined.

(** C18. The machine integers of a running balancer stay in their types and
    its tables stay consistent: in every reachable state, whatever the callers
    and the goroutines interleave, every backend's health is 0 or 1 and its
    connections an int32, every counter of the algorithm a uint32, every
    backend is filed under its own service name, and a selection in progress
    holds a non-empty slice of backends of its service. *)
Theorem balancer_typed (c : BalancerConfig) (h : heap) (w : world) :
  (forall p, backend_typed (h p)) -> reachable c h w -> typed w.
Proof. intros Hh [ls Hr]. eapply run_typed; [exact Hr|]. by apply start_typed. Qed.

Definition small_heap : heap := fun p => mkBackend "10.0.0.1" 80 1 (if decide (p = 1%positive) then 2 ^ 31 - 1 else 0) "web" 1.

Lemma balancer_typed_witness :
  let w := act (OpInc 1%positive) (act (OpAdd 1%positive) (start health_config small_heap)) in
  typed w /\ be_Connections (hp w 1%positive) = - 2 ^ 31.
Proof.
  cbv zeta. split; [|vm_compute; reflexivity].
  apply (balancer_typed health_config small_heap).
  - intros p. split; [by right|]. unfold int32. simpl. destruct (decide (p = 1%positive)); lia.
  - eexists. eapply run_cons; [apply step_act|]. eapply run_cons; [apply step_act|apply run_nil].
Defined.

(** C25. No connection is lost: after any run the connections of a backend
    are those it had plus the increments and minus the decrements of the run,
    modulo the wrap-around of an int32, whatever the goroutines of the health
    checks write in between; and its address, port, service and weight are
    unchanged. *)
Theorem connections_exact (w w' : world) (ls : list label) (p : loc) :
  int32 (be_Connections (hp w p)) -> run ls w w' ->
  be_Connections (hp w' p) = wrap_s 32 (be_Connections (hp w p) + opened p ls) /\
  same_backend (hp w p) (hp w' p).
Proof. intros Hi Hr. by apply run_connections. Qed.

Lemma connections_exact_witness :
  let w := start health_config small_heap in
  be_Connections (hp (act (OpDec 2%positive) (act (OpInc 1%positive) w)) 1%positive) = - 2 ^ 31.
Proof.
  cbv zeta. etransitivity.
  - apply (connections_exact (start health_config small_heap) _
      [Act (OpInc 1%positive); Act (OpDec 2%positive)] 1%positive).
    + split; vm_compute; [discriminate|reflexivity].
    + eapply run_cons; [apply step_act|]. eapply run_cons; [apply step_act|apply run_nil].
  - vm_compute. reflexivity.
Defined.

(** C31. A round of checks does what [doHealthCheck] computes: with any
    network and any order of the map, the goroutine of a check that runs alone
    writes the heap of [doHealthCheck] and ends, and in that heap every
    backend of the balancer is healthy exactly if its own probe succeeds,
    while every other backend and every other field is untouched. *)
Theorem check_round_exact (net : network) (order : list (string * list loc)) (w : world)
    (cs1 cs2 : list check_pc) :
  let opts := bc_HealthCheckOpts (config (lb w)) in
  let h' := doHealthCheck net order (lb w) (hp w) in
  checks w = cs1 ++ CheckStart :: cs2 -> 0 < checkWg w ->
  Permutation order (map_to_list (backends (lb w))) ->
  (exists ls w', internal ls /\ run ls w w' /\ hp w' = h' /\ checks w' = cs1 ++ cs2) /\
  (forall p, registered (lb w) p -> h' p = SetHealthy (checkBackendHealth net (hp w p) opts) (hp w p)) /\
  (forall p, ~ registered (lb w) p -> h' p = hp w p).
Proof.
  cbv zeta. intros Hc Hg Hp. rw doHealthCheck_checked. split.
  - destruct w as [b h k st tk g cg l cs ss]. cbn in Hc, Hg, Hp |- *. subst cs.
    eexists (Run :: replicate (length (mjoin (snd <$> order))) Run ++ [Run]), _. split_and!.
    + constructor; [by right|]. apply Forall_app. split; [|by repeat constructor; right].
      apply Forall_replicate. by right.
    + eapply run_cons; [by apply step_check, check_snapshot|]. eapply run_then; [apply (check_alone net)|].
      eapply run_cons; [by apply step_check, check_done|apply run_nil].
    + done.
    + done.
  - split; intros p Hin; rw checked_eq; destruct (decide (p ∈ mjoin (snd <$> order))) as [Hm|Hm]; try done;
      by rw (elem_of_snapshot order (lb w) p Hp) in Hm.
Qed.

Lemma check_round_exact_witness :
  let net := mkNetwork (fun address _ => Some (bool_decide (address = "10.0.0.1:80"%string))) (fun _ _ => None) in
  let w := World (AddBackend demo_heap 2%positive (NewLoadBalancer health_config)) demo_heap [] false false 1 1
             LoopSelect [CheckStart] [] in
  IsHealthy (demo_heap 2%positive) = false /\
  IsHealthy (doHealthCheck net [("web"%string, [2%positive])] (lb w) (hp w) 2%positive) = true.
Proof.
  cbv zeta. split; [reflexivity|].
  pose (net := mkNetwork (fun address _ => Some (bool_decide (address = "10.0.0.1:80"%string))) (fun _ _ => None)).
  destruct (check_round_exact net [("web"%string, [2%positive])]
    (World (AddBackend demo_heap 2%positive (NewLoadBalancer health_config)) demo_heap [] false false 1 1
      LoopSelect [CheckStart] []) [] []) as (_ & Hr & _); [reflexivity|reflexivity|vm_compute; reflexivity|].
  fold net. rw Hr; [vm_compute; reflexivity|]. exists "web"%string, [2%positive].
  split; [vm_compute; reflexivity|apply elem_of_cons; by left].
Defined.
