(* ===== verification/Scheme.v ===== *)
(** * The scheme: groupversion_info.go and the package initialisers

    The client of the manager converts between Go types and API kinds through
    a [runtime.Scheme], which the initialisers of packages v1 and main fill
    before [main] runs.  The scheme and its builder are library code: the class
    [SchemeLibrary] has their operations and what they document.  Package v1
    exports [AddToScheme], a method value bound to the pointer [SchemeBuilder]
    before its [init] registers the types; the globals are therefore a state
    and the builder is read when the method is called. *)
From S2P Require Import Prelude.

Local Open Scope go_scope.

Record GroupVersion : Type := mkGroupVersion { gv_Group : string; gv_Version : string }.
Record GroupVersionKind : Type := mkGVK { gvk_gv : GroupVersion; gvk_Kind : string }.

(** [schema.GroupVersion] of core objects. *)
Definition coreV1 : GroupVersion := mkGroupVersion "" "v1".

(** ** The library *)

Class SchemeLibrary := {
  Scheme : Type;
  Builder : Type;
  SchemeError : Type;
  NewScheme : Scheme;
  (** [&scheme.Builder{GroupVersion: gv}] *)
  NewBuilder : GroupVersion -> Builder;
  (** [Builder.Register], on the kinds of its arguments *)
  Register_kinds : list string -> Builder -> Builder;
  (** [Builder.AddToScheme] and [clientgoscheme.AddToScheme] change the scheme
      in place and return an error *)
  Builder_AddToScheme : Builder -> Scheme -> option SchemeError * Scheme;
  clientgo_AddToScheme : Scheme -> option SchemeError * Scheme;
  (** whether [utilruntime.Must] panics on an error *)
  Must_panics : option SchemeError -> bool;
  (** [Scheme.Recognizes] *)
  Recognizes : Scheme -> GroupVersionKind -> bool;
  (** what a builder will add *)
  registered : Builder -> list GroupVersionKind;
  builder_gv : Builder -> GroupVersion;
}.

Class SchemeLaws (L : SchemeLibrary) : Prop := {
  NewBuilder_gv gv : builder_gv (NewBuilder gv) = gv;
  NewBuilder_registered gv : registered (NewBuilder gv) = [];
  Register_gv ks b : builder_gv (Register_kinds ks b) = builder_gv b;
  Register_registered ks b :
    registered (Register_kinds ks b) = registered b ++ (mkGVK (builder_gv b) <$> ks);
  (** a kind once added stays, and a builder adds what was registered *)
  Builder_adds b s s' :
    Builder_AddToScheme b s = (None, s') ->
    (forall k, Recognizes s k = true -> Recognizes s' k = true) /\
    (forall k, k ∈ registered b -> Recognizes s' k = true);
  clientgo_adds s s' :
    clientgo_AddToScheme s = (None, s') ->
    (forall k, Recognizes s k = true -> Recognizes s' k = true) /\
    (forall kind, kind ∈ ["Service"; "ServiceList"; "Event"]%string ->
                  Recognizes s' (mkGVK coreV1 kind) = true);
  Must_nil : Must_panics None = false;
  Must_error e : Must_panics (Some e) = true;
}.

(** ** Initialisation *)

Section initialisation.
Context {L : SchemeLibrary} {HL : SchemeLaws L}.

(** The globals of package v1 and of package main. *)
Definition heliosGroupVersion : GroupVersion := mkGroupVersion "balancer.helios.dev" "v1".

Record globals : Type := mkGlobals {
  SchemeBuilder : Builder;
  scheme : Scheme;
}.

(** The variables before the initialisers run. *)
Definition package_vars : globals := mkGlobals (NewBuilder heliosGroupVersion) NewScheme.

(** [balancerv1.AddToScheme(scheme)]: the method of whatever the pointer
    holds. *)
Definition AddToScheme : M globals (option SchemeError) := fun g =>
  let '(err, s) := Builder_AddToScheme (SchemeBuilder g) (scheme g) in
  (err, mkGlobals (SchemeBuilder g) s).

(** [clientgoscheme.AddToScheme(scheme)] *)
Definition clientgoscheme_AddToScheme : M globals (option SchemeError) := fun g =>
  let '(err, s) := clientgo_AddToScheme (scheme g) in (err, mkGlobals (SchemeBuilder g) s).

(** [init] of package v1. *)
Definition v1_init : M globals unit := fun g =>
  (tt, mkGlobals (Register_kinds ["HeliosConfig"; "HeliosConfigList"]%string (SchemeBuilder g)) (scheme g)).

(** [init] of package main; it returns whether it panicked. *)
Definition main_init : M globals bool :=
  let! err := clientgoscheme_AddToScheme in
  if Must_panics err then ret true
  else
    let! err := AddToScheme in
    ret (Must_panics err).

(** Imported packages are initialised first. *)
Definition initialise : M globals bool := v1_init ;; main_init.

(** The kinds the controller and the webhook hand to the client, and the kind
    of the events that are recorded. *)
Definition used_kinds : list GroupVersionKind :=
  [mkGVK heliosGroupVersion "HeliosConfig"; mkGVK heliosGroupVersion "HeliosConfigList";
   mkGVK coreV1 "Service"; mkGVK coreV1 "ServiceList"; mkGVK coreV1 "Event"].

Lemma registered_v1_init :
  registered (SchemeBuilder (v1_init package_vars).2) =
  [mkGVK heliosGroupVersion "HeliosConfig"; mkGVK heliosGroupVersion "HeliosConfigList"].
Proof. cbn. by rw Register_registered NewBuilder_registered NewBuilder_gv. Qed.

(** The initialisers panic exactly if one of the two registrations returns an
    error. *)
Lemma initialise_panics :
  let b := SchemeBuilder (v1_init package_vars).2 in
  let '(err, s) := clientgo_AddToScheme NewScheme in
  (initialise package_vars).1 = true <->
  is_Some err \/ is_Some (Builder_AddToScheme b s).1.
Proof.
  unfold initialise, main_init, clientgoscheme_AddToScheme, AddToScheme, bind, ret. cbn.
  destruct (clientgo_AddToScheme NewScheme) as [[e|] s].
  - rw Must_error. split; [by left; exists e|done].
  - rw Must_nil. cbn. destruct (Builder_AddToScheme _ s) as [[e|] s'].
    + rw Must_error. split; [by right; exists e|done].
    + rw Must_nil. split; [done|]. by intros [[]|[]].
Qed.

(** Once the program reaches [main], the scheme knows every kind the client
    is used with: [SchemeBuilder.Register] ran before the builder was read,
    although [AddToScheme] was bound before. *)
Theorem main_scheme_complete g k :
  initialise package_vars = (false, g) -> k ∈ used_kinds -> Recognizes (scheme g) k = true.
Proof.
  unfold initialise, main_init, clientgoscheme_AddToScheme, AddToScheme, bind, ret. cbn.
  destruct (clientgo_AddToScheme NewScheme) as [[e|] s1] eqn:Hc; [by rw Must_error|].
  rw Must_nil. cbn. destruct (Builder_AddToScheme _ s1) as [[e|] s2] eqn:Hb; [by rw Must_error|].
  intros [= _ <-] Hk. cbn. destruct (clientgo_adds _ _ Hc) as [_ Hcore].
  destruct (Builder_adds _ _ _ Hb) as [Hkeep Hadd]. rw registered_v1_init in Hadd.
  change (k ∈ [mkGVK heliosGroupVersion "HeliosConfig"; mkGVK heliosGroupVersion "HeliosConfigList"] ++
              (mkGVK coreV1 <$> ["Service"; "ServiceList"; "Event"]%string)) in Hk.
  apply elem_of_app in Hk as [Hk|Hk]; [by apply Hadd|].
  apply list_elem_of_fmap in Hk as (kind & -> & Hkind). by apply Hkeep, Hcore.
Qed.

End initialisation.

(** ** A scheme as a list of kinds *)

#[global] Instance GroupVersion_eq_dec : EqDecision GroupVersion.
Proof. solve_decision. Defined.
#[global] Instance GroupVersionKind_eq_dec : EqDecision GroupVersionKind.
Proof. solve_decision. Defined.

Definition list_scheme : SchemeLibrary := {|
  Scheme := list GroupVersionKind;
  Builder := GroupVersion * list GroupVersionKind;
  SchemeError := string;
  NewScheme := [];
  NewBuilder := fun gv => (gv, []);
  Register_kinds := fun ks b => (b.1, b.2 ++ (mkGVK b.1 <$> ks));
  Builder_AddToScheme := fun b s =>
    if bool_decide (Exists (fun k => k ∈ s) b.2) then (Some "double registration"%string, s)
    else (None, s ++ b.2);
  clientgo_AddToScheme := fun s =>
    (None, s ++ (mkGVK coreV1 <$> ["Service"; "ServiceList"; "Event"]%string));
  Must_panics := fun err => bool_decide (is_Some err);
  Recognizes := fun s k => bool_decide (k ∈ s);
  registered := snd;
  builder_gv := fst;
|}.

#[global] Instance list_scheme_laws : SchemeLaws list_scheme.
Proof.
  split; cbn; try done.
  - intros b s s'. case_bool_decide; [done|]. intros [= <-].
    split; intros k; rw !bool_decide_eq_true ?elem_of_app; tauto.
  - intros s s' [= <-]. split; [intros k|intros kind Hk]; rw !bool_decide_eq_true elem_of_app; [tauto|].
    right. by apply (list_elem_of_fmap_2 (mkGVK coreV1)) in Hk.
Qed.

(** The initialisers on the list: they succeed, and the scheme is exactly the
    kinds in use. *)
Example initialise_list :
  initialise (L := list_scheme) package_vars =
  (false, mkGlobals (L := list_scheme)
            (heliosGroupVersion, [mkGVK heliosGroupVersion "HeliosConfig"; mkGVK heliosGroupVersion "HeliosConfigList"])
            ((mkGVK coreV1 <$> ["Service"; "ServiceList"; "Event"]%string) ++
             [mkGVK heliosGroupVersion "HeliosConfig"; mkGVK heliosGroupVersion "HeliosConfigList"])).
Proof. vm_compute. reflexivity. Qed.
