(* ===== verification/Main.v ===== *)
(** * The entry point: cmd/main.go

    The command line (the part of package [flag] it uses), the options of the
    manager, and the sequence of the setup with its exits.  The calls into
    controller-runtime are actions of a trace; whether a call fails is decided
    by an argument.  The flags that [zap.Options.BindFlags] and the imported
    packages add to the command line are an argument too. *)
From Stdlib Require Import Ascii.
From S2P Require Import Prelude GoStrings Types Metrics LoadBalancer.

Local Open Scope char_scope.
Local Open Scope Z_scope.

(** ** Command line *)

Record Options : Type := mkOptions {
  metricsAddr : string;
  probeAddr : string;
  enableLeaderElection : bool;
  secureMetrics : bool;
  enableHTTP2 : bool;
  enableWebhook : bool;
}.

(** The default values of the flags. *)
Definition defaultOptions : Options := mkOptions "0" ":9082" false true false false.

(** [strconv.ParseBool] *)
Definition ParseBool (s : string) : option bool :=
  if bool_decide (s ∈ ["1"; "t"; "T"; "true"; "TRUE"; "True"]%string) then Some true
  else if bool_decide (s ∈ ["0"; "f"; "F"; "false"; "FALSE"; "False"]%string) then Some false
  else None.

(** A flag defined elsewhere: whether it is a boolean flag, and which values
    its [Set] accepts. *)
Record foreign : Type := mkForeign {
  foreign_bool : bool;
  foreign_accepts : string -> bool;
}.

Section flags.
Variable extra : string -> option foreign.

(** [formal[name]] and [IsBoolFlag]: [None] for a flag that is not defined. *)
Definition is_bool_flag (name : string) : option bool :=
  if bool_decide (name ∈ ["metrics-bind-address"; "health-probe-bind-address"]%string) then Some false
  else if bool_decide (name ∈ ["leader-elect"; "metrics-secure"; "enable-http2"; "enable-webhook"]%string)
  then Some true
  else foreign_bool <$> extra name.

(** [flag.Value.Set]: [None] for an error. *)
Definition Set_flag (name value : string) (o : Options) : option Options :=
  let '(mkOptions ma pa le sm h2 wh) := o in
  if bool_decide (name = "metrics-bind-address"%string) then Some (mkOptions value pa le sm h2 wh)
  else if bool_decide (name = "health-probe-bind-address"%string) then Some (mkOptions ma value le sm h2 wh)
  else if bool_decide (name = "leader-elect"%string)
  then (fun b => mkOptions ma pa b sm h2 wh) <$> ParseBool value
  else if bool_decide (name = "metrics-secure"%string)
  then (fun b => mkOptions ma pa le b h2 wh) <$> ParseBool value
  else if bool_decide (name = "enable-http2"%string)
  then (fun b => mkOptions ma pa le sm b wh) <$> ParseBool value
  else if bool_decide (name = "enable-webhook"%string)
  then (fun b => mkOptions ma pa le sm h2 b) <$> ParseBool value
  else match extra name with
       | Some f => if foreign_accepts f value then Some o else None
       | None => None
       end.

Inductive parsed : Type :=
| Parsed (o : Options)
| ErrHelp
| ErrParse.

(** The name of an argument that is a flag, with its value if it has one;
    [Some None] for bad syntax, [None] when the argument ends the flags. *)
Definition flag_of (s : string) : option (option (string * option string)) :=
  match go_bytes s with
  | d :: c :: t =>
      if negb (Ascii.eqb d "-") then None
      else
        match (if Ascii.eqb c "-" then t else c :: t) with
        | [] => None
        | n :: name =>
            if Ascii.eqb n "-" || Ascii.eqb n "=" then Some None
            else match cut "=" name with
                 | Some (name, value) => Some (Some (of_bytes (n :: name), Some (of_bytes value)))
                 | None => Some (Some (of_bytes (n :: name), None))
                 end
        end
  | _ => None
  end.

(** [FlagSet.Parse]: [parseOne] until it stops. *)
Fixpoint Parse (args : list string) (o : Options) : parsed :=
  match args with
  | [] => Parsed o
  | s :: args =>
      match flag_of s with
      | None => Parsed o
      | Some None => ErrParse
      | Some (Some (name, value)) =>
          match is_bool_flag name with
          | None => if bool_decide (name ∈ ["help"; "h"]%string) then ErrHelp else ErrParse
          | Some true =>
              match Set_flag name (default "true"%string value) o with
              | Some o => Parse args o
              | None => ErrParse
              end
          | Some false =>
              match value, args with
              | Some value, _ =>
                  match Set_flag name value o with Some o => Parse args o | None => ErrParse end
              | None, value :: args =>
                  match Set_flag name value o with Some o => Parse args o | None => ErrParse end
              | None, [] => ErrParse
              end
          end
      end
  end.

End flags.

(** ** Options of the manager *)

(** The part of [tls.Config] the options change. *)
Record tlsConfig : Type := mkTlsConfig { NextProtos : list string }.

Definition disableHTTP2 (c : tlsConfig) : tlsConfig := mkTlsConfig ["http/1.1"%string].

Definition tlsOpts (o : Options) : list (tlsConfig -> tlsConfig) :=
  if negb (enableHTTP2 o) then [] ++ [disableHTTP2] else [].

(** [metricsserver.Options]; [FilterProvider] is whether
    [filters.WithAuthenticationAndAuthorization] is set. *)
Record MetricsServerOptions : Type := mkMetricsServerOptions {
  BindAddress : string;
  SecureServing : bool;
  ms_TLSOpts : list (tlsConfig -> tlsConfig);
  FilterProvider : bool;
}.

Definition metricsServerOptions (o : Options) : MetricsServerOptions :=
  let opts := mkMetricsServerOptions (metricsAddr o) (secureMetrics o) (tlsOpts o) false in
  if secureMetrics o
  then mkMetricsServerOptions (BindAddress opts) (SecureServing opts) (ms_TLSOpts opts) true
  else opts.

(** [ctrl.Options]; the webhook server is the options it was made with. *)
Record ManagerOptions : Type := mkManagerOptions {
  mo_Metrics : MetricsServerOptions;
  mo_WebhookTLSOpts : list (tlsConfig -> tlsConfig);
  HealthProbeBindAddress : string;
  LeaderElection : bool;
  LeaderElectionID : string;
  LeaderElectionReleaseOnCancel : bool;
}.

Definition managerOptions (o : Options) : ManagerOptions :=
  mkManagerOptions (metricsServerOptions o) (tlsOpts o) (probeAddr o) (enableLeaderElection o)
    "7b619bed.helios.dev" true.

(** ** Setup *)

(** Pointers to the objects [main] makes. *)
Abbreviation ptr := positive.

(** [controller.IPManager] and [controller.HeliosConfigReconciler] as they are
    wired; the client, the scheme and the recorder are the manager's. *)
Record IPManagerFields : Type := mkIPManagerFields {
  ip_NetworkMgr : ptr;
  ip_Metrics : ptr;
}.
Record ReconcilerFields : Type := mkReconcilerFields {
  r_NetworkMgr : ptr;
  r_Balancer : ptr;
  r_Metrics : ptr;
  r_IPMgr : IPManagerFields;
  r_Recorder : string;
}.

(** What [main] calls. *)
Inductive action : Type :=
| ASetLogger
| AGetConfigOrDie
| ANewManager (opts : ManagerOptions)
| ANewMetricsRecorder (p : ptr)
| ANewNetworkManager (p : ptr)
| ANewLoadBalancer (p : ptr) (c : BalancerConfig)
| ASetupController (r : ReconcilerFields)
| ASetupWebhook
| AAddHealthzCheck (name : string)
| AAddReadyzCheck (name : string)
| AStart.

(** A run of the program: the actions so far and, unless it has exited, a
    value. *)
Definition prog (A : Type) : Type := list action -> (A + Z) * list action.

Definition pret {A} (a : A) : prog A := fun t => (inl a, t).
Definition pbind {A B} (c : prog A) (k : A -> prog B) : prog B := fun t =>
  match c t with (inl a, t) => k a t | (inr n, t) => (inr n, t) end.
Definition os_Exit {A} (n : Z) : prog A := fun t => (inr n, t).

Notation "c '>>' k" := (pbind c (fun _ => k)) (at level 55, right associativity) : go_scope.
Local Open Scope go_scope.

(** The balancer of the program. *)
Definition mainBalancer : BalancerConfig :=
  mkBalancerConfig RoundRobin true (second * 5) true [] (mkHealthCheckOptions 0 "" "").

Section main.
Variable extra : string -> option foreign.
Variable fails : action -> bool.

(** A call without an error result. *)
Definition do_ (a : action) : prog unit := fun t => (inl tt, t ++ [a]).

(** [if err := a; err != nil { os.Exit(1) }] *)
Definition try_ (a : action) : prog unit :=
  pbind (do_ a) (fun _ => if fails a then os_Exit 1 else pret tt).

(** [main] after [flag.Parse]. *)
Definition setup (o : Options) : prog unit :=
  do_ ASetLogger >>
  try_ AGetConfigOrDie >>
  try_ (ANewManager (managerOptions o)) >>
  let metricsRecorder := 1%positive in
  do_ (ANewMetricsRecorder metricsRecorder) >>
  let networkMgr := 2%positive in
  do_ (ANewNetworkManager networkMgr) >>
  let lb := 3%positive in
  do_ (ANewLoadBalancer lb mainBalancer) >>
  let ipMgr := mkIPManagerFields networkMgr metricsRecorder in
  try_ (ASetupController
    (mkReconcilerFields networkMgr lb metricsRecorder ipMgr "helios-lb-controller")) >>
  (if enableWebhook o then try_ ASetupWebhook else pret tt) >>
  try_ (AAddHealthzCheck "healthz") >>
  try_ (AAddReadyzCheck "readyz") >>
  try_ AStart.

(** The actions of the program and its exit code. *)
Definition main (args : list string) : list action * Z :=
  match Parse extra args defaultOptions with
  | ErrHelp => ([], 0)
  | ErrParse => ([], 2)
  | Parsed o => match setup o [] with
                | (inl _, t) => (t, 0)
                | (inr n, t) => (t, n)
                end
  end.

End main.

(** ** The plan of a run *)

(** The calls that return an error. *)
Definition fallible (a : action) : bool :=
  match a with
  | ASetLogger | ANewMetricsRecorder _ | ANewNetworkManager _ | ANewLoadBalancer _ _ => false
  | _ => true
  end.

(** Everything a run does when nothing fails. *)
Definition plan (o : Options) : list action :=
  [ASetLogger; AGetConfigOrDie; ANewManager (managerOptions o); ANewMetricsRecorder 1;
   ANewNetworkManager 2; ANewLoadBalancer 3 mainBalancer;
   ASetupController (mkReconcilerFields 2 3 1 (mkIPManagerFields 2 1) "helios-lb-controller")]
  ++ (if enableWebhook o then [ASetupWebhook] else [])
  ++ [AAddHealthzCheck "healthz"; AAddReadyzCheck "readyz"; AStart].

(** A list up to and including its first failing call. *)
Fixpoint until_failure (fails : action -> bool) (l : list action) : list action :=
  match l with
  | [] => []
  | a :: r => a :: (if fallible a && fails a then [] else until_failure fails r)
  end.

(** A program that performs a list of actions and exits with 1 at the first
    that fails. *)
Definition performs (fails : action -> bool) (c : prog unit) (l : list action) : Prop :=
  forall t, c t = (if existsb (fun a => fallible a && fails a) l then inr 1 else inl tt,
                   t ++ until_failure fails l).

Lemma performs_do fails a : fallible a = false -> performs fails (do_ a) [a].
Proof. intros Ha t. cbn. by rw Ha. Qed.

Lemma performs_try fails a : fallible a = true -> performs fails (try_ fails a) [a].
Proof. intros Ha t. cbn. rw Ha. unfold try_, pbind, do_. by destruct (fails a). Qed.

Lemma performs_ret fails : performs fails (pret tt) [].
Proof. intros t. cbn. by rw app_nil_r. Qed.

Lemma until_failure_app fails l1 l2 :
  until_failure fails (l1 ++ l2) =
  until_failure fails l1 ++
  (if existsb (fun a => fallible a && fails a) l1 then [] else until_failure fails l2).
Proof.
  induction l1 as [|a l1 IH]; [done|]. cbn. destruct (fallible a && fails a); [by rw app_nil_r|].
  by rw IH.
Qed.

Lemma performs_bind fails c k l1 l2 :
  performs fails c l1 -> performs fails k l2 -> performs fails (c >> k) (l1 ++ l2).
Proof.
  intros Hc Hk t. unfold pbind. rw Hc existsb_app until_failure_app.
  destruct (existsb _ l1); cbn [orb]; [by rw app_nil_r|]. by rw Hk app_assoc.
Qed.

Lemma setup_performs fails o : performs fails (setup fails o) (plan o).
Proof.
  unfold setup, plan.
  repeat (apply (performs_bind _ _ _ [_]); [first [by apply performs_do|by apply performs_try]|]).
  apply performs_bind; [destruct (enableWebhook o); [by apply performs_try|apply performs_ret]|].
  do 2 (apply (performs_bind _ _ _ [_]); [by apply performs_try|]). by apply performs_try.
Qed.

(** ** Spelling the options out *)

(** One flag: with one dash or two, its value after an equals sign or as the
    next argument. *)
Definition spell (two sep : bool) (name value : string) : list string :=
  let dash := (if two then "--" else "-")%string in
  if sep then [(dash +:+ name)%string; value] else [(dash +:+ name +:+ "=" +:+ value)%string].

(** [strconv.FormatBool] *)
Definition FormatBool (b : bool) : string := (if b then "true" else "false")%string.

Definition spell_bool (two : bool) (name : string) (b : bool) : list string :=
  spell two false name (FormatBool b).

(** Every option spelled out. *)
Definition render (two sep : bool) (o : Options) : list string :=
  spell two sep "metrics-bind-address" (metricsAddr o) ++
  spell two sep "health-probe-bind-address" (probeAddr o) ++
  spell_bool two "leader-elect" (enableLeaderElection o) ++
  spell_bool two "metrics-secure" (secureMetrics o) ++
  spell_bool two "enable-http2" (enableHTTP2 o) ++
  spell_bool two "enable-webhook" (enableWebhook o).

(** The name of a flag starts with neither a dash nor an equals sign and has
    no equals sign. *)
Definition flag_name (name : string) : Prop :=
  match go_bytes name with
  | [] => False
  | n :: r => n <> "-" /\ n <> "=" /\ ("=" ∉ r)
  end.

Lemma go_bytes_app a b : go_bytes (a +:+ b)%string = go_bytes a ++ go_bytes b.
Proof. induction a as [|c a IH]; [done|]. exact (f_equal (cons c) IH). Qed.

Lemma append_nil (a : string) : (a +:+ of_bytes [])%string = a.
Proof. by rw -(of_bytes_go_bytes a) of_bytes_app app_nil_r. Qed.

Lemma cut_found sep l r : (sep ∉ l) -> cut sep (l ++ sep :: r) = Some (l, r).
Proof.
  induction l as [|c l IH]; cbn; [by rw Ascii.eqb_refl|].
  intros [Hc Hl]%not_elem_of_cons. destruct (Ascii.eqb_spec sep c); [done|]. by rw IH.
Qed.

Lemma cut_none sep l : (sep ∉ l) -> cut sep l = None.
Proof.
  induction l as [|c l IH]; cbn; [done|].
  intros [Hc Hl]%not_elem_of_cons. destruct (Ascii.eqb_spec sep c); [done|]. by rw IH.
Qed.

(** What [parseOne] reads of a flag spelled out. *)
Lemma flag_of_spelled (two : bool) (name : string) (t : chars) :
  flag_name name -> (t = [] \/ exists v, t = "=" :: v) ->
  flag_of ((if two then "--" else "-") +:+ name +:+ of_bytes t)%string =
  Some (Some (name, match t with [] => None | _ :: v => Some (of_bytes v) end)).
Proof.
  unfold flag_name. intros Hn Ht. destruct (go_bytes name) as [|n r] eqn:En; [done|].
  destruct Hn as (H1 & H2 & H3).
  assert (name = of_bytes (n :: r)) as -> by (by rw -En of_bytes_go_bytes).
  assert (flag_of ((if two then "--" else "-") +:+ of_bytes (n :: r) +:+ of_bytes t)%string =
    match cut "=" (r ++ t) with
    | Some (a, v) => Some (Some (of_bytes (n :: a), Some (of_bytes v)))
    | None => Some (Some (of_bytes (n :: r ++ t), None))
    end) as ->.
  { unfold flag_of. rw !go_bytes_app !go_bytes_of_bytes.
    destruct (Ascii.eqb_spec n "-") as [?|Hd]; [done|]. destruct (Ascii.eqb_spec n "=") as [?|He]; [done|].
    destruct two; cbn [go_bytes String.list_ascii_of_string app];
      rw ?(proj2 (Ascii.eqb_neq n "-") Hd) ?(proj2 (Ascii.eqb_neq n "=") He) /=;
      rw ?(proj2 (Ascii.eqb_neq n "-") Hd) ?(proj2 (Ascii.eqb_neq n "=") He) /=; done. }
  destruct Ht as [->|[v ->]]; [by rw app_nil_r cut_none|by rw cut_found].
Qed.

Lemma flag_of_eq (two : bool) (name value : string) :
  flag_name name ->
  flag_of ((if two then "--" else "-") +:+ name +:+ "=" +:+ value)%string = Some (Some (name, Some value)).
Proof.
  intros Hn.
  pose proof (flag_of_spelled two name ("=" :: go_bytes value) Hn (or_intror (ex_intro _ _ eq_refl))) as Hf.
  change (of_bytes ("=" :: go_bytes value)) with ("=" +:+ of_bytes (go_bytes value))%string in Hf.
  by rw of_bytes_go_bytes in Hf.
Qed.

Section spelling.
Variable extra : string -> option foreign.

(** Parsing a spelled flag sets it, whatever follows. *)
Lemma Parse_spell two sep name value rest o o' :
  flag_name name -> is_bool_flag extra name = Some false -> Set_flag extra name value o = Some o' ->
  Parse extra (spell two sep name value ++ rest) o = Parse extra rest o'.
Proof.
  intros Hn Hb Hs. destruct sep; cbn [spell app Parse].
  - pose proof (flag_of_spelled two name [] Hn (or_introl eq_refl)) as Hf. rw append_nil in Hf.
    rw Hf Hb. by rw Hs.
  - rw flag_of_eq // Hb. by rw Hs.
Qed.

Lemma Parse_spell_bool two name b rest o o' :
  flag_name name -> is_bool_flag extra name = Some true ->
  Set_flag extra name (FormatBool b) o = Some o' ->
  Parse extra (spell_bool two name b ++ rest) o = Parse extra rest o'.
Proof.
  intros Hn Hb Hs. cbn [spell_bool spell app Parse].
  rw flag_of_eq // Hb. cbn [default]. by rw Hs.
Qed.

End spelling.

Lemma ParseBool_FormatBool b : ParseBool (FormatBool b) = Some b.
Proof. by destruct b. Qed.

(** The names of the program's own flags. *)
Ltac own_flag := first [by vm_compute; split_and!; set_solver | by vm_compute].

(** The plan up to the start of the manager. *)
Definition before_start (o : Options) : list action := removelast (plan o).

Lemma plan_start o : plan o = before_start o ++ [AStart].
Proof. unfold before_start, plan. by destruct (enableWebhook o). Qed.

Lemma start_last o : AStart ∉ before_start o.
Proof.
  unfold before_start, plan. intros Hin. destruct (enableWebhook o); cbn in Hin;
    repeat (apply elem_of_cons in Hin as [?|Hin]; [done|]); by apply elem_of_nil in Hin.
Qed.

Lemma until_failure_subset fails l a : a ∈ until_failure fails l -> a ∈ l.
Proof.
  induction l as [|b l IH]; [done|]. cbn. rw !elem_of_cons. intros [?|Hin]; [by left|right].
  destruct (fallible b && fails b); [by apply elem_of_nil in Hin|by apply IH].
Qed.

Lemma no_failure fails l :
  existsb (fun a => fallible a && fails a) l = false <->
  forall a, a ∈ l -> fallible a = true -> fails a = false.
Proof.
  induction l as [|b l IH]; cbn.
  - split; [|done]. by intros _ a ?%elem_of_nil.
  - rw orb_false_iff IH andb_false_iff. split.
    + intros [Hb Hl] a [->|Ha]%elem_of_cons Hf; [|by apply Hl]. by destruct Hb as [Hb|Hb]; [rw Hf in Hb|].
    + intros Ha. split; [|by intros a Hin; apply Ha, elem_of_cons; right].
      destruct (fallible b) eqn:Ef; [right|by left]. apply Ha; [|done]. apply elem_of_cons. by left.
Qed.

(** The manager starts exactly if nothing failed before. *)
Lemma starts_iff fails o :
  AStart ∈ until_failure fails (plan o) <->
  forall a, a ∈ plan o -> a <> AStart -> fallible a = true -> fails a = false.
Proof.
  rw plan_start until_failure_app. rw elem_of_app. pose proof (start_last o) as Hl.
  trans (existsb (fun a => fallible a && fails a) (before_start o) = false).
  - destruct (existsb _ (before_start o)); split; try done.
    + intros [Hin%until_failure_subset|Hin]; [done|by apply elem_of_nil in Hin].
    + intros _. right. apply elem_of_cons. by left.
  - rw no_failure. split.
    + intros Hn a [Ha|Ha]%elem_of_app Hs; [by apply Hn|]. by apply list_elem_of_singleton in Ha.
    + intros Hn a Ha. apply Hn; [apply elem_of_app; by left|]. by intros ->.
Qed.

Lemma main_parsed extra fails args o :
  Parse extra args defaultOptions = Parsed o ->
  main extra fails args =
    (until_failure fails (plan o), if existsb (fun a => fallible a && fails a) (plan o) then 1 else 0).
Proof.
  intros Hp. unfold main. rw Hp (setup_performs fails o []) app_nil_l. by destruct (existsb _ _).
Qed.

Ltac in_plan Hin :=
  unfold plan in Hin; repeat first
    [ apply elem_of_app in Hin as [Hin|Hin]
    | apply elem_of_cons in Hin as [Hin|Hin]; [by inversion Hin|]
    | by apply elem_of_nil in Hin
    | match type of Hin with _ ∈ (if ?b then _ else _) => destruct b end ].

Lemma plan_manager o opts : ANewManager opts ∈ plan o -> opts = managerOptions o.
Proof. intros Hin. in_plan Hin. Qed.
Lemma plan_controller o r :
  ASetupController r ∈ plan o ->
  r = mkReconcilerFields 2 3 1 (mkIPManagerFields 2 1) "helios-lb-controller".
Proof. intros Hin. in_plan Hin. Qed.
Lemma plan_balancer o p c : ANewLoadBalancer p c ∈ plan o -> c = mainBalancer.
Proof. intros Hin. in_plan Hin. Qed.

(** A TLS configuration after its options. *)
Definition configure (opts : list (tlsConfig -> tlsConfig)) (c : tlsConfig) : tlsConfig :=
  fold_left (fun c f => f c) opts c.

(** ** Properties *)

(** C29. The command line round trips: parsing the options spelled out, with
    one dash or two and with the values of the string flags after an equals
    sign or as the next argument, gives the options back, whatever they are,
    whatever the defaults and whatever flags other packages define. *)
Theorem flags_roundtrip (extra : string -> option foreign) (two sep : bool) (o o0 : Options) :
  Parse extra (render two sep o) o0 = Parsed o.
Proof.
  destruct o as [ma pa le sm h2 wh], o0 as [ma0 pa0 le0 sm0 h20 wh0]. unfold render.
  cbn [metricsAddr probeAddr enableLeaderElection secureMetrics enableHTTP2 enableWebhook].
  rw -(app_nil_r (spell_bool two "enable-webhook" wh)).
  rw (Parse_spell extra two sep "metrics-bind-address" ma _ _ (mkOptions ma pa0 le0 sm0 h20 wh0));
    [|own_flag..].
  rw (Parse_spell extra two sep "health-probe-bind-address" pa _ _ (mkOptions ma pa le0 sm0 h20 wh0));
    [|own_flag..].
  rw (Parse_spell_bool extra two "leader-elect" le _ _ (mkOptions ma pa le sm0 h20 wh0));
    [|own_flag|own_flag|cbn [Set_flag]; by rw ParseBool_FormatBool].
  rw (Parse_spell_bool extra two "metrics-secure" sm _ _ (mkOptions ma pa le sm h20 wh0));
    [|own_flag|own_flag|cbn [Set_flag]; by rw ParseBool_FormatBool].
  rw (Parse_spell_bool extra two "enable-http2" h2 _ _ (mkOptions ma pa le sm h2 wh0));
    [|own_flag|own_flag|cbn [Set_flag]; by rw ParseBool_FormatBool].
  rw (Parse_spell_bool extra two "enable-webhook" wh _ _ (mkOptions ma pa le sm h2 wh));
    [|own_flag|own_flag|cbn [Set_flag]; by rw ParseBool_FormatBool].
  done.
Qed.

(** C28. The program fails stop: with a command line that parses, [main] does
    exactly the calls of the plan in order up to and including the first that
    fails, and exits with 1 if one fails and with 0 otherwise; so the manager
    is started exactly if every call before it succeeds.  A command line that
    does not parse exits with 2, and a request for help with 0, before any
    call. *)
Theorem main_fails_stop (extra : string -> option foreign) (fails : action -> bool) (args : list string) :
  match Parse extra args defaultOptions with
  | Parsed o =>
      main extra fails args =
        (until_failure fails (plan o),
         if existsb (fun a => fallible a && fails a) (plan o) then 1 else 0) /\
      (AStart ∈ fst (main extra fails args) <->
       forall a, a ∈ plan o -> a <> AStart -> fallible a = true -> fails a = false)
  | ErrHelp => main extra fails args = ([], 0)
  | ErrParse => main extra fails args = ([], 2)
  end.
Proof.
  destruct (Parse extra args defaultOptions) as [o| |] eqn:Ep; [|by unfold main; rw Ep..].
  rw (main_parsed _ _ _ _ Ep). split; [done|apply starts_iff].
Qed.

(** C37. What the flags do to the servers: in every run, each manager that is
    made serves no protocol but HTTP/1.1 on its metrics and webhook endpoints
    unless HTTP/2 was enabled, and leaves the protocols alone if it was; its
    metrics endpoint is served over TLS behind authentication and
    authorization exactly if the secure flag is set; the webhook is set up
    only if its flag is set; and the reconciler shares its network manager and
    its metrics with its IP manager. *)
Theorem main_wiring (extra : string -> option foreign) (fails : action -> bool) (args : list string)
    (o : Options) :
  Parse extra args defaultOptions = Parsed o ->
  let t := fst (main extra fails args) in
  (forall opts, ANewManager opts ∈ t ->
    (forall c, configure (ms_TLSOpts (mo_Metrics opts)) c =
               (if enableHTTP2 o then c else mkTlsConfig ["http/1.1"%string]) /\
               configure (mo_WebhookTLSOpts opts) c = configure (ms_TLSOpts (mo_Metrics opts)) c) /\
    BindAddress (mo_Metrics opts) = metricsAddr o /\ HealthProbeBindAddress opts = probeAddr o /\
    SecureServing (mo_Metrics opts) = secureMetrics o /\ FilterProvider (mo_Metrics opts) = secureMetrics o /\
    LeaderElection opts = enableLeaderElection o) /\
  (ASetupWebhook ∈ t -> enableWebhook o = true) /\
  (forall r, ASetupController r ∈ t ->
    ANewNetworkManager (r_NetworkMgr r) ∈ t /\ ip_NetworkMgr (r_IPMgr r) = r_NetworkMgr r /\
    ip_Metrics (r_IPMgr r) = r_Metrics r).
Proof.
  intros Hp. cbv zeta. rw (main_parsed _ _ _ _ Hp). cbn [fst]. split_and!.
  - intros opts Hin%until_failure_subset%plan_manager. subst opts. unfold managerOptions, metricsServerOptions, tlsOpts.
    split; [intros c|]; by destruct (enableHTTP2 o), (secureMetrics o).
  - intros Hin%until_failure_subset. unfold plan in Hin. destruct (enableWebhook o); [done|].
    repeat (apply elem_of_cons in Hin as [?|Hin]; [done|]). by apply elem_of_nil in Hin.
  - intros r Hin. pose proof (plan_controller _ _ (until_failure_subset _ _ _ Hin)) as ->.
    split; [|done]. revert Hin. unfold plan. cbn [until_failure fallible andb app].
    destruct (fails AGetConfigOrDie); [intros Hin|].
    { repeat (apply elem_of_cons in Hin as [?|Hin]; [done|]). by apply elem_of_nil in Hin. }
    destruct (fails (ANewManager _)); [intros Hin|].
    { repeat (apply elem_of_cons in Hin as [?|Hin]; [done|]). by apply elem_of_nil in Hin. }
    intros _. do 4 (apply elem_of_cons; right). apply elem_of_cons. by left.
Qed.

Lemma main_wiring_witness :
  let t := fst (main (fun _ => None) (fun _ => false) ["--metrics-bind-address=:8443"%string]) in
  ANewManager (managerOptions (mkOptions ":8443" ":9082" false true false false)) ∈ t /\
  ANewNetworkManager 2 ∈ t.
Proof.
  cbv zeta.
  destruct (main_wiring (fun _ => None) (fun _ => false) ["--metrics-bind-address=:8443"%string]
    (mkOptions ":8443" ":9082" false true false false)) as (_ & _ & Hc); [vm_compute; reflexivity|].
  split; [cbn; set_solver|].
  destruct (Hc (mkReconcilerFields 2 3 1 (mkIPManagerFields 2 1) "helios-lb-controller")) as [? _]; [|done].
  cbn. set_solver.
Defined.

(** The methods of a configuration never reach a balancer: whatever the
    command line, the one balancer of the program is made with round robin;
    and every name [spec.method] admits would select round robin as well,
    because the API and the balancer spell the methods differently. *)
Theorem method_is_round_robin (extra : string -> option foreign) (fails : action -> bool)
    (args : list string) (p : ptr) (c : BalancerConfig) (m : string) (weights : list Weight) :
  ANewLoadBalancer p c ∈ fst (main extra fails args) ->
  m ∈ [MethodRoundRobin; MethodLeastConnection; MethodWeightedRoundRobin; MethodIPHash; MethodRandom] ->
  algorithm (NewLoadBalancer c) = roundRobinAlgorithm ∅ /\ NewAlgorithm m weights = roundRobinAlgorithm ∅.
Proof.
  intros Hin Hm. split.
  - assert (exists o, Parse extra args defaultOptions = Parsed o) as [o Hp].
    { unfold main in Hin. destruct (Parse extra args defaultOptions); [eauto|by apply elem_of_nil in Hin..]. }
    rw (main_parsed _ _ _ _ Hp) in Hin. apply until_failure_subset in Hin.
    by apply plan_balancer in Hin as ->.
  - repeat (apply elem_of_cons in Hm as [->|Hm]; [by vm_compute|]). by apply elem_of_nil in Hm.
Qed.

Lemma method_is_round_robin_witness :
  NewAlgorithm MethodLeastConnection [] = roundRobinAlgorithm ∅.
Proof.
  apply (method_is_round_robin (fun _ => None) (fun _ => false) [] 3 mainBalancer MethodLeastConnection []).
  - cbn. set_solver.
  - set_solver.
Defined.
