(* ===== verification/DeepCopy.v ===== *)
(** * Generated deep copies: api/v1/zz_generated.deepcopy.go

    An API object is a struct whose slices, maps and pointers refer to cells
    of a store; [DeepCopyInto] starts from the shallow copy, which shares them
    all, and replaces each reference by one to a new cell.  A [Copier] packs a
    way to copy with what it means: the value of an object in a store, the
    cells it reaches, and the laws that the copy has the same value in cells
    of its own.  The types of apimachinery embedded in the objects (object and
    list metadata, times, conditions) are parameters with copiers of their
    own. *)
From S2P Require Import Prelude Errors Types.

Local Open Scope go_scope.

Abbreviation loc := positive.

(** ** Copiers *)

Section copier.
Context {cell : Type}.

Abbreviation store := (gmap loc cell).

Definition alloc (c : cell) : M store loc := fun s =>
  let l := fresh (dom s) in (l, <[l := c]> s).

(** [s] and [t] have the same cells at [ls]. *)
Definition agree (ls : gset loc) (s t : store) : Prop := forall l, l ∈ ls -> t !! l = s !! l.

Record Copier (A : Type) : Type := mkCopier {
  Value : Type;
  copy : A -> M store A;
  value : store -> A -> Value;
  reach : store -> A -> gset loc;
  valid : store -> A -> Prop;               (* every reference has a cell of its type *)
  valid_reach s a : valid s a -> reach s a ⊆ dom s;
  copy_frame s t a : valid s a -> agree (reach s a) s t ->
    valid t a /\ value t a = value s a /\ reach t a = reach s a;
  copy_ok s a b t : valid s a -> copy a s = (b, t) ->
    s ⊆ t /\ valid t b /\ value t b = value s a /\ reach t b ## dom s;
}.
#[global] Arguments mkCopier {A}.
#[global] Arguments Value {A} c.
#[global] Arguments copy {A} c a : rename.
#[global] Arguments value {A} c s a : rename.
#[global] Arguments reach {A} c s a : rename.
#[global] Arguments valid {A} c s a : rename.
#[global] Arguments valid_reach {A} c s a : rename.
#[global] Arguments copy_frame {A} c s t a : rename.
#[global] Arguments copy_ok {A} c s a b t : rename.

Lemma agree_subseteq (ls : gset loc) (s t : store) : s ⊆ t -> ls ⊆ dom s -> agree ls s t.
Proof.
  intros Hs Hd l Hl. apply Hd in Hl. apply elem_of_dom in Hl as [c Hc]. rw Hc.
  by apply (lookup_weaken s t).
Qed.

(** A larger store changes nothing for an object of the smaller one. *)
Lemma copy_grow {A} (c : Copier A) s t a :
  s ⊆ t -> valid c s a -> valid c t a /\ value c t a = value c s a /\ reach c t a = reach c s a.
Proof. intros Hs Hv. apply copy_frame; [done|]. apply agree_subseteq; [done|by apply valid_reach]. Qed.

(** A value without references, copied by a function that rebuilds it. *)
Program Definition flatC {A} (f : A -> A) (Hf : forall a, f a = a) : Copier A :=
  mkCopier A (fun a => ret (f a)) (fun _ a => a) (fun _ _ => ∅) (fun _ _ => True) _ _ _.
Next Obligation. intros. set_solver. Qed.
Next Obligation. done. Qed.
Next Obligation. intros A f Hf s a b t _ [= <- <-]. split_and!; [done|done|done|set_solver]. Qed.

(** Two fields, one after the other. *)
Program Definition pairC {A B} (ca : Copier A) (cb : Copier B) : Copier (A * B) :=
  mkCopier (Value ca * Value cb)
    (fun '(a, b) => let! a' := copy ca a in let! b' := copy cb b in ret (a', b'))
    (fun s '(a, b) => (value ca s a, value cb s b))
    (fun s '(a, b) => reach ca s a ∪ reach cb s b)
    (fun s '(a, b) => valid ca s a /\ valid cb s b) _ _ _.
Next Obligation.
  intros A B ca cb s [a b] [Ha Hb]. pose proof (valid_reach ca s a Ha). pose proof (valid_reach cb s b Hb).
  set_solver.
Qed.
Next Obligation.
  intros A B ca cb s t [a b] [Ha Hb] Hag.
  destruct (copy_frame ca s t a Ha) as (? & Ea & Ra); [intros l Hl; apply Hag; set_solver|].
  destruct (copy_frame cb s t b Hb) as (? & Eb & Rb); [intros l Hl; apply Hag; set_solver|].
  split_and!; [done..| |]; congruence.
Qed.
Next Obligation.
  intros A B ca cb s [a b] [a' b'] t [Ha Hb] Hc. unfold bind in Hc.
  destruct (copy ca a s) as [a1 s1] eqn:Ea. destruct (copy cb b s1) as [b1 s2] eqn:Eb.
  injection Hc as <- <- <-. destruct (copy_ok ca s a a1 s1 Ha Ea) as (S1 & V1 & E1 & R1).
  destruct (copy_grow cb s s1 b S1 Hb) as (Hb1 & Eb1 & Rb1).
  destruct (copy_ok cb s1 b b1 s2 Hb1 Eb) as (S2 & V2 & E2 & R2).
  destruct (copy_grow ca s1 s2 a1 S2 V1) as (V1' & E1' & R1').
  pose proof (subseteq_dom _ _ S1). split_and!; [by transitivity s1|by split|by cbn; rw E1' E1 E2 Eb1|].
  cbn. rw R1'. set_solver.
Qed.

(** A struct seen as its fields. *)
Program Definition structC {A B} (c : Copier B) (to : A -> B) (mk : B -> A)
    (H : forall b, to (mk b) = b) : Copier A :=
  mkCopier (Value c) (fun a => let! b := copy c (to a) in ret (mk b))
    (fun s a => value c s (to a)) (fun s a => reach c s (to a)) (fun s a => valid c s (to a)) _ _ _.
Next Obligation. intros A B c to mk H s a. apply valid_reach. Qed.
Next Obligation. intros A B c to mk H s t a. apply copy_frame. Qed.
Next Obligation.
  intros A B c to mk H s a a' t Hv Hc. unfold bind in Hc. destruct (copy c (to a) s) as [b s1] eqn:E.
  injection Hc as <- <-. rw H. by apply (copy_ok c s (to a)).
Qed.

(** The elements of a slice, in order. *)
Fixpoint copy_list {A} (c : Copier A) (l : list A) : M store (list A) :=
  match l with
  | [] => ret []
  | x :: r => let! x' := copy c x in let! r' := copy_list c r in ret (x' :: r')
  end.

Definition reach_list {A} (c : Copier A) (s : store) (l : list A) : gset loc := ⋃ (reach c s <$> l).

Lemma copy_list_frame {A} (c : Copier A) s t l :
  Forall (valid c s) l -> agree (reach_list c s l) s t ->
  Forall (valid c t) l /\ value c t <$> l = value c s <$> l /\ reach_list c t l = reach_list c s l.
Proof.
  unfold reach_list. induction 1 as [|x l Hx Hl IH]; [done|]. cbn. intros Hag.
  destruct (copy_frame c s t x Hx) as (Vx & Ex & Rx); [intros i Hi; apply Hag; set_solver|].
  destruct IH as (Vl & El & Rl); [intros i Hi; apply Hag; set_solver|].
  split_and!; [by constructor|by rw Ex El|by rw Rx Rl].
Qed.

Lemma valid_reach_list {A} (c : Copier A) s l : Forall (valid c s) l -> reach_list c s l ⊆ dom s.
Proof.
  unfold reach_list. induction 1 as [|x l Hx Hl IH]; cbn; [set_solver|].
  pose proof (valid_reach c s x Hx). set_solver.
Qed.

Lemma copy_list_ok {A} (c : Copier A) s l l' t :
  Forall (valid c s) l -> copy_list c l s = (l', t) ->
  s ⊆ t /\ Forall (valid c t) l' /\ value c t <$> l' = value c s <$> l /\ reach_list c t l' ## dom s.
Proof.
  revert s l'. induction l as [|x l IH]; intros s l' Hv Hc.
  { injection Hc as <- <-. unfold reach_list. split_and!; [done|done|done|set_solver]. }
  apply Forall_cons_iff in Hv as [Hx Hl]. cbn in Hc. unfold bind in Hc.
  destruct (copy c x s) as [x1 s1] eqn:Ex. destruct (copy_list c l s1) as [l1 s2] eqn:El.
  injection Hc as <- <-. destruct (copy_ok c s x x1 s1 Hx Ex) as (S1 & V1 & E1 & R1).
  destruct (copy_list_frame c s s1 l Hl) as (Hl1 & El1 & Rl1).
  { apply agree_subseteq; [done|by apply valid_reach_list]. }
  destruct (IH s1 l1 Hl1 El) as (S2 & V2 & E2 & R2).
  destruct (copy_grow c s1 s2 x1 S2 V1) as (V1' & E1' & R1').
  pose proof (subseteq_dom _ _ S1). split_and!; [by transitivity s1|by constructor|cbn; congruence|].
  unfold reach_list in *. cbn. rw R1'. set_solver.
Qed.

Program Definition listC {A} (c : Copier A) : Copier (list A) :=
  mkCopier (list (Value c)) (copy_list c) (fun s l => value c s <$> l) (reach_list c)
    (fun s l => Forall (valid c s) l) _ _ _.
Next Obligation. intros A c s l. apply valid_reach_list. Qed.
Next Obligation. intros A c s t l. apply copy_list_frame. Qed.
Next Obligation. intros A c s l l' t. apply copy_list_ok. Qed.

(** A slice, map or pointer, nil or a reference to a cell of its type:
    [if in != nil { *out = make(...); ... }]. *)
Section ref.
Context {X : Type} (inj : X -> cell) (proj : cell -> option X) (Hproj : forall x, proj (inj x) = Some x).
Variable c : Copier X.

(** The contents of a cell of this type. *)
Definition contents (s : store) (l : loc) : option X := s !! l ≫= proj.

Definition copy_ref (r : option loc) : M store (option loc) := fun s =>
  match r with
  | None => (None, s)
  | Some l =>
      match contents s l with
      | None => (None, s)               (* no cell of this type: excluded by [valid_ref] *)
      | Some x => (let! x' := copy c x in let! l' := alloc (inj x') in ret (Some l')) s
      end
  end.

Definition value_ref (s : store) (r : option loc) : option (option (Value c)) :=
  (fun l => value c s <$> contents s l) <$> r.
Definition reach_ref (s : store) (r : option loc) : gset loc :=
  match r with
  | None => ∅
  | Some l => {[l]} ∪ match contents s l with Some x => reach c s x | None => ∅ end
  end.
Definition valid_ref (s : store) (r : option loc) : Prop :=
  match r with
  | None => True
  | Some l => exists x, contents s l = Some x /\ valid c s x
  end.

Lemma contents_dom s l x : contents s l = Some x -> l ∈ dom s.
Proof. unfold contents. intros Hc. apply elem_of_dom. destruct (s !! l); [eauto|done]. Qed.

Lemma ref_valid_reach s r : valid_ref s r -> reach_ref s r ⊆ dom s.
Proof.
  destruct r as [l|]; cbn; [|set_solver]. intros (x & Hc & Hv). rw Hc.
  pose proof (contents_dom _ _ _ Hc). pose proof (valid_reach c s x Hv). set_solver.
Qed.

Lemma ref_frame s t r :
  valid_ref s r -> agree (reach_ref s r) s t ->
  valid_ref t r /\ value_ref t r = value_ref s r /\ reach_ref t r = reach_ref s r.
Proof.
  destruct r as [l|]; [|done]. cbn. intros (x & Hc & Hv). rw Hc. intros Hag.
  assert (contents t l = Some x) as Ht by (unfold contents in *; rw Hag //; set_solver).
  destruct (copy_frame c s t x Hv) as (Vx & Ex & Rx); [intros i Hi; apply Hag; set_solver|].
  rw Ht. cbn. rw Ex Rx. eauto.
Qed.

Lemma ref_ok s r r' t :
  valid_ref s r -> copy_ref r s = (r', t) ->
  s ⊆ t /\ valid_ref t r' /\ value_ref t r' = value_ref s r /\ reach_ref t r' ## dom s.
Proof.
  destruct r as [l|]; cbn; [|by intros _ [= <- <-]; split_and!; [done|done|done|set_solver]].
  intros (x & Hc & Hv). rw Hc. unfold bind, alloc, ret. destruct (copy c x s) as [x1 s1] eqn:Ex.
  intros [= <- <-]. destruct (copy_ok c s x x1 s1 Hv Ex) as (S1 & V1 & E1 & R1).
  pose proof (is_fresh (dom s1)) as Hf. set (l1 := fresh (dom s1)) in *.
  assert (s1 ⊆ <[l1 := inj x1]> s1) as S2 by (apply insert_subseteq; by apply not_elem_of_dom).
  destruct (copy_grow c s1 _ x1 S2 V1) as (V2 & E2 & R2). pose proof (subseteq_dom _ _ S1) as Hd.
  assert (contents (<[l1 := inj x1]> s1) l1 = Some x1) as Hl1
    by (unfold contents; rw lookup_insert_eq /=; apply Hproj).
  cbn. rw Hl1. cbn. split_and!; [by transitivity s1|eauto|by rw E2 E1|rw R2; set_solver].
Qed.

Definition refC : Copier (option loc) :=
  mkCopier _ copy_ref value_ref reach_ref valid_ref ref_valid_reach ref_frame ref_ok.

End ref.

(** The same, for code that computes the copy. *)
Program Definition codeC {A} (c : Copier A) (into : A -> M store A)
    (H : forall a s, into a s = copy c a s) : Copier A :=
  mkCopier (Value c) into (value c) (reach c) (valid c) (valid_reach c) (copy_frame c) _.
Next Obligation. intros A c into H s a b t. rw H. apply copy_ok. Qed.

(** Writes to cells. *)
Definition writes (ws : list (loc * cell)) (s : store) : store :=
  fold_left (fun s '(l, x) => <[l := x]> s) ws s.

Lemma writes_agree ws (s : store) (ls : gset loc) :
  Forall (fun w => fst w ∉ ls) ws -> agree ls s (writes ws s).
Proof.
  intros Hw. revert s. induction Hw as [|[k x] ws Hk Hw IH]; intros s l Hl; [done|].
  cbn in Hk |- *. rw (IH _ l Hl). rw lookup_insert_ne //. set_solver.
Qed.

(** What a deep copy promises: the copy has the value of the original, shares
    no cell with anything that existed, and neither sees the writes to the
    other. *)
Definition independent {A} (c : Copier A) (s : store) (a : A) (t : store) (b : A) : Prop :=
  s ⊆ t /\ valid c t b /\ value c t b = value c s a /\ reach c t b ## dom s /\
  (forall ws, Forall (fun w => fst w ∈ dom s) ws -> value c (writes ws t) b = value c s a) /\
  (forall ws, Forall (fun w => fst w ∈ reach c t b) ws -> value c (writes ws t) a = value c s a).

Lemma copy_independent {A} (c : Copier A) s a b t :
  valid c s a -> copy c a s = (b, t) -> independent c s a t b.
Proof.
  intros Hv Hc. destruct (copy_ok c s a b t Hv Hc) as (Hs & Vb & Eb & Rb).
  destruct (copy_grow c s t a Hs Hv) as (Va & Ea & Ra).
  assert (forall (p q : gset loc) ws, p ## q -> Forall (fun w => fst w ∈ p) ws ->
    Forall (fun w : loc * cell => fst w ∉ q) ws) as Hd.
  { intros p q ws Hpq. apply Forall_impl. intros w Hw Hq. by apply (Hpq (fst w)). }
  split_and!; [done|done|done|done| |]; intros ws Hw.
  - destruct (copy_frame c t (writes ws t) b Vb) as (_ & -> & _); [|done].
    apply writes_agree. by apply (Hd (dom s)).
  - destruct (copy_frame c t (writes ws t) a Va) as (_ & -> & _); [|done].
    apply writes_agree, (Hd (reach c t b)); [|done]. rw Ra. pose proof (valid_reach c s a Hv). set_solver.
Qed.

End copier.

(** ** The objects of the API *)

(** The types of apimachinery: object metadata, list metadata, times,
    conditions, and what else their copies keep in cells. *)
Section api.
Context {ObjectMeta ListMeta Time Condition_ Foreign : Type}.

(** [HeliosConfigSpec] in memory. *)
Record Spec : Type := mkSpec {
  o_IPRange : string;
  o_IPv6Range : string;
  o_Service : string;
  o_Protocol : string;
  o_Ports : option loc;
  o_Method : string;
  o_Weights : option loc;
  o_HealthCheck : option loc;
  o_NamespaceSelector : option loc;
  o_MaxAllocations : Z;
}.

(** [HeliosConfigStatus] in memory. *)
Record Status : Type := mkStatus {
  o_AllocatedIPs : option loc;
  o_AllocatedIPv6s : option loc;
  o_State : string;
  o_Message : string;
  o_LastUpdated : Time;
  o_Conditions : option loc;
  o_Phase : string;
}.

(** [metav1.TypeMeta]: kind and API version. *)
Definition TypeMeta : Type := string * string.

Record Config : Type := mkConfig {
  o_TypeMeta : TypeMeta;
  o_ObjectMeta : ObjectMeta;
  o_Spec : Spec;
  o_Status : Status;
}.

Record ConfigList : Type := mkConfigList {
  o_ListTypeMeta : TypeMeta;
  o_ListMeta : ListMeta;
  o_Items : option loc;
}.

(** What a reference points to. *)
Inductive cell : Type :=
| CPorts (l : list PortConfig)
| CWeights (l : list WeightConfig)
| CHealthCheck (h : HealthCheckConfig)
| CStrings (l : list string)
| CMap (m : gmap string string)
| CConditions (l : list Condition_)
| CItems (l : list Config)
| CForeign (x : Foreign).

Abbreviation store := (gmap loc cell).

Context (objectMetaC : Copier (cell := cell) ObjectMeta) (listMetaC : Copier (cell := cell) ListMeta).
Context (timeC : Copier (cell := cell) Time) (conditionC : Copier (cell := cell) Condition_).

(** ** Copies of references *)

(** [make] and [copy] of a slice of plain structs or strings, and [**out = **in]. *)
Definition plainC {A} : Copier (cell := cell) A := flatC (fun a => a) (fun a => eq_refl).

(** [for key, val := range *in { ( *out)[key] = val }] *)
Definition rebuild_map (m : gmap string string) : gmap string string :=
  fold_right (fun '(key, val) out => <[key := val]> out) ∅ (map_to_list m).

Lemma rebuild_map_id m : rebuild_map m = m.
Proof.
  unfold rebuild_map. etransitivity; [|apply (list_to_map_to_list m)].
  induction (map_to_list m) as [|[k v] l IH]; [done|]. cbn. by rw IH.
Qed.

Definition portsC : Copier (option loc) :=
  refC CPorts (fun c => match c with CPorts l => Some l | _ => None end) (fun _ => eq_refl) plainC.
Definition weightsC : Copier (option loc) :=
  refC CWeights (fun c => match c with CWeights l => Some l | _ => None end) (fun _ => eq_refl) plainC.
Definition healthCheckC : Copier (option loc) :=
  refC CHealthCheck (fun c => match c with CHealthCheck h => Some h | _ => None end) (fun _ => eq_refl) plainC.
Definition stringsC : Copier (option loc) :=
  refC CStrings (fun c => match c with CStrings l => Some l | _ => None end) (fun _ => eq_refl) plainC.
Definition mapC : Copier (option loc) :=
  refC CMap (fun c => match c with CMap m => Some m | _ => None end) (fun _ => eq_refl)
    (flatC rebuild_map rebuild_map_id).
Definition conditionsC : Copier (option loc) :=
  refC CConditions (fun c => match c with CConditions l => Some l | _ => None end) (fun _ => eq_refl)
    (listC conditionC).

(** ** DeepCopyInto and DeepCopy *)

Definition HealthCheckConfig_DeepCopyInto (inp : HealthCheckConfig) : M store HealthCheckConfig := ret inp.
Definition PortConfig_DeepCopyInto (inp : PortConfig) : M store PortConfig := ret inp.
Definition WeightConfig_DeepCopyInto (inp : WeightConfig) : M store WeightConfig := ret inp.

Definition HeliosConfigSpec_DeepCopyInto (inp : Spec) : M store Spec :=
  let out := inp in
  let! ports := copy portsC (o_Ports inp) in
  let out := mkSpec (o_IPRange out) (o_IPv6Range out) (o_Service out) (o_Protocol out) ports (o_Method out)
               (o_Weights out) (o_HealthCheck out) (o_NamespaceSelector out) (o_MaxAllocations out) in
  let! weights := copy weightsC (o_Weights inp) in
  let out := mkSpec (o_IPRange out) (o_IPv6Range out) (o_Service out) (o_Protocol out) (o_Ports out)
               (o_Method out) weights (o_HealthCheck out) (o_NamespaceSelector out) (o_MaxAllocations out) in
  let! healthCheck := copy healthCheckC (o_HealthCheck inp) in
  let out := mkSpec (o_IPRange out) (o_IPv6Range out) (o_Service out) (o_Protocol out) (o_Ports out)
               (o_Method out) (o_Weights out) healthCheck (o_NamespaceSelector out) (o_MaxAllocations out) in
  let! namespaces := copy stringsC (o_NamespaceSelector inp) in
  ret (mkSpec (o_IPRange out) (o_IPv6Range out) (o_Service out) (o_Protocol out) (o_Ports out)
         (o_Method out) (o_Weights out) (o_HealthCheck out) namespaces (o_MaxAllocations out)).

Definition HeliosConfigStatus_DeepCopyInto (inp : Status) : M store Status :=
  let out := inp in
  let! ips := copy mapC (o_AllocatedIPs inp) in
  let out := mkStatus ips (o_AllocatedIPv6s out) (o_State out) (o_Message out) (o_LastUpdated out)
               (o_Conditions out) (o_Phase out) in
  let! ipv6s := copy mapC (o_AllocatedIPv6s inp) in
  let out := mkStatus (o_AllocatedIPs out) ipv6s (o_State out) (o_Message out) (o_LastUpdated out)
               (o_Conditions out) (o_Phase out) in
  let! updated := copy timeC (o_LastUpdated inp) in
  let out := mkStatus (o_AllocatedIPs out) (o_AllocatedIPv6s out) (o_State out) (o_Message out) updated
               (o_Conditions out) (o_Phase out) in
  let! conditions := copy conditionsC (o_Conditions inp) in
  ret (mkStatus (o_AllocatedIPs out) (o_AllocatedIPv6s out) (o_State out) (o_Message out)
         (o_LastUpdated out) conditions (o_Phase out)).

Definition HeliosConfig_DeepCopyInto (inp : Config) : M store Config :=
  let! meta := copy objectMetaC (o_ObjectMeta inp) in
  let! spec := HeliosConfigSpec_DeepCopyInto (o_Spec inp) in
  let! status := HeliosConfigStatus_DeepCopyInto (o_Status inp) in
  ret (mkConfig (o_TypeMeta inp) meta spec status).

(** [if in == nil { return nil }; out := new(T); in.DeepCopyInto(out); return out] *)
Definition deep_copy {A} (into : A -> M store A) (inp : option A) : M store (option A) :=
  match inp with
  | None => ret None
  | Some a => let! out := into a in ret (Some out)
  end.

Definition HealthCheckConfig_DeepCopy := deep_copy HealthCheckConfig_DeepCopyInto.
Definition PortConfig_DeepCopy := deep_copy PortConfig_DeepCopyInto.
Definition WeightConfig_DeepCopy := deep_copy WeightConfig_DeepCopyInto.
Definition HeliosConfigSpec_DeepCopy := deep_copy HeliosConfigSpec_DeepCopyInto.
Definition HeliosConfigStatus_DeepCopy := deep_copy HeliosConfigStatus_DeepCopyInto.
Definition HeliosConfig_DeepCopy := deep_copy HeliosConfig_DeepCopyInto.

(** ** What the copies mean *)

Definition spec_fields (a : Spec) :=
  ((o_IPRange a, o_IPv6Range a, o_Service a, o_Protocol a, o_Method a, o_MaxAllocations a),
   (o_Ports a, (o_Weights a, (o_HealthCheck a, o_NamespaceSelector a)))).
Definition spec_of '((r, r6, sv, pr, me, mx), (po, (we, (hc, ns)))) : Spec :=
  mkSpec r r6 sv pr po me we hc ns mx.

Lemma spec_code a s :
  HeliosConfigSpec_DeepCopyInto a s =
  copy (structC (pairC plainC (pairC portsC (pairC weightsC (pairC healthCheckC stringsC))))
    spec_fields spec_of (fun '((_, _, _, _, _, _), (_, (_, (_, _)))) => eq_refl)) a s.
Proof.
  unfold HeliosConfigSpec_DeepCopyInto. cbn -[portsC weightsC healthCheckC stringsC]. unfold bind, ret.
  destruct (copy portsC _ s) as [r1 s1]. destruct (copy weightsC _ s1) as [r2 s2].
  destruct (copy healthCheckC _ s2) as [r3 s3]. by destruct (copy stringsC _ s3) as [r4 s4].
Qed.

Definition specC : Copier Spec := codeC _ HeliosConfigSpec_DeepCopyInto spec_code.

Definition status_fields (a : Status) :=
  ((o_State a, o_Message a, o_Phase a),
   (o_AllocatedIPs a, (o_AllocatedIPv6s a, (o_LastUpdated a, o_Conditions a)))).
Definition status_of '((st, ms, ph), (v4, (v6, (up, cs)))) : Status := mkStatus v4 v6 st ms up cs ph.

Lemma status_code a s :
  HeliosConfigStatus_DeepCopyInto a s =
  copy (structC (pairC plainC (pairC mapC (pairC mapC (pairC timeC conditionsC))))
    status_fields status_of (fun '((_, _, _), (_, (_, (_, _)))) => eq_refl)) a s.
Proof.
  unfold HeliosConfigStatus_DeepCopyInto. cbn -[mapC conditionsC]. unfold bind, ret.
  destruct (copy mapC _ s) as [r1 s1]. destruct (copy mapC _ s1) as [r2 s2].
  destruct (copy timeC _ s2) as [r3 s3]. by destruct (copy conditionsC _ s3) as [r4 s4].
Qed.

Definition statusC : Copier Status := codeC _ HeliosConfigStatus_DeepCopyInto status_code.

Definition config_fields (a : Config) := (o_TypeMeta a, (o_ObjectMeta a, (o_Spec a, o_Status a))).
Definition config_of '(tm, (om, (sp, st))) : Config := mkConfig tm om sp st.

Lemma config_code a s :
  HeliosConfig_DeepCopyInto a s =
  copy (structC (pairC plainC (pairC objectMetaC (pairC specC statusC)))
    config_fields config_of (fun '(_, (_, (_, _))) => eq_refl)) a s.
Proof.
  unfold HeliosConfig_DeepCopyInto. cbn -[HeliosConfigSpec_DeepCopyInto HeliosConfigStatus_DeepCopyInto].
  unfold bind, ret. destruct (copy objectMetaC _ s) as [r1 s1].
  destruct (HeliosConfigSpec_DeepCopyInto _ s1) as [r2 s2].
  by destruct (HeliosConfigStatus_DeepCopyInto _ s2) as [r3 s3].
Qed.

Definition configC : Copier Config := codeC _ HeliosConfig_DeepCopyInto config_code.

(** [for i := range *in { ( *in)[i].DeepCopyInto(&( *out)[i]) }] in a new slice. *)
Definition itemsC : Copier (option loc) :=
  refC CItems (fun c => match c with CItems l => Some l | _ => None end) (fun _ => eq_refl) (listC configC).

Definition HeliosConfigList_DeepCopyInto (inp : ConfigList) : M store ConfigList :=
  let! meta := copy listMetaC (o_ListMeta inp) in
  let! items := copy itemsC (o_Items inp) in
  ret (mkConfigList (o_ListTypeMeta inp) meta items).

Definition HeliosConfigList_DeepCopy := deep_copy HeliosConfigList_DeepCopyInto.

(** [runtime.Object] *)
Inductive Object : Type := ObjConfig (c : Config) | ObjConfigList (l : ConfigList).

(** [if c := in.DeepCopy(); c != nil { return c }; return nil] *)
Definition HeliosConfig_DeepCopyObject (inp : option Config) : M store (option Object) :=
  let! c := HeliosConfig_DeepCopy inp in
  ret (match c with Some c => Some (ObjConfig c) | None => None end).
Definition HeliosConfigList_DeepCopyObject (inp : option ConfigList) : M store (option Object) :=
  let! c := HeliosConfigList_DeepCopy inp in
  ret (match c with Some c => Some (ObjConfigList c) | None => None end).

Definition list_fields (a : ConfigList) := (o_ListTypeMeta a, (o_ListMeta a, o_Items a)).
Definition list_of '(tm, (lm, it)) : ConfigList := mkConfigList tm lm it.

Lemma list_code a s :
  HeliosConfigList_DeepCopyInto a s =
  copy (structC (pairC plainC (pairC listMetaC itemsC)) list_fields list_of (fun '(_, (_, _)) => eq_refl)) a s.
Proof.
  unfold HeliosConfigList_DeepCopyInto. cbn -[itemsC]. unfold bind, ret.
  destruct (copy listMetaC _ s) as [r1 s1]. by destruct (copy itemsC _ s1) as [r2 s2].
Qed.

Definition configListC : Copier ConfigList := codeC _ HeliosConfigList_DeepCopyInto list_code.

(** ** Properties *)

(** C27. [DeepCopyObject] of a configuration and of a list returns nil for
    nil, and otherwise an object that has the value of the original (nil and
    empty slices and maps kept apart), lives in new cells only, is unaffected
    by any writes to the cells that existed before, and whose own cells can be
    written without changing the original.  The copies of the embedded types
    of apimachinery are assumed to behave so. *)
Theorem DeepCopyObject_independent (s : store) :
  HeliosConfig_DeepCopyObject None s = (None, s) /\
  HeliosConfigList_DeepCopyObject None s = (None, s) /\
  (forall a, valid configC s a -> exists b t,
    HeliosConfig_DeepCopyObject (Some a) s = (Some (ObjConfig b), t) /\ independent configC s a t b) /\
  (forall a, valid configListC s a -> exists b t,
    HeliosConfigList_DeepCopyObject (Some a) s = (Some (ObjConfigList b), t) /\
    independent configListC s a t b).
Proof.
  split_and!; [done|done| |]; intros a Hv.
  - destruct (HeliosConfig_DeepCopyInto a s) as [b t] eqn:E. exists b, t.
    split; [|by apply copy_independent].
    unfold HeliosConfig_DeepCopyObject, HeliosConfig_DeepCopy, deep_copy, bind, ret. by rw E.
  - destruct (HeliosConfigList_DeepCopyInto a s) as [b t] eqn:E. exists b, t.
    split; [|by apply copy_independent].
    unfold HeliosConfigList_DeepCopyObject, HeliosConfigList_DeepCopy, deep_copy, bind, ret. by rw E.
Qed.

End api.

(** An instance: metadata with a name and a map of labels, plain times and
    conditions. *)
Abbreviation demo_cell := (cell (ObjectMeta := string * option loc) (Time := Z) (Condition_ := Condition) (Foreign := unit)).

Definition demo_metaC : Copier (cell := demo_cell) (string * option loc) := pairC plainC mapC.

Definition demo_object : Config (ObjectMeta := string * option loc) (Time := Z) :=
  mkConfig ("HeliosConfig", "v1")%string ("lb"%string, Some 1%positive)
    (mkSpec "192.0.2.10-192.0.2.20" "" "" "TCP" (Some 2%positive) "RoundRobin" None None None 0)
    (mkStatus (Some 3%positive) None "Active" "" 0%Z None "Active").

Definition demo_store : gmap loc demo_cell :=
  {[1%positive := CMap {["app"%string := "web"%string]}; 2%positive := CPorts [mkPortConfig 80 "TCP"];
    3%positive := CMap {["a"%string := "192.0.2.10"%string]}]}.

Lemma DeepCopyObject_independent_witness :
  exists b t, HeliosConfig_DeepCopyObject (ListMeta := unit) demo_metaC plainC plainC (Some demo_object) demo_store
                = (Some (ObjConfig b), t) /\
    value (configC demo_metaC plainC plainC) (<[3%positive := CMap ∅]> t) b
    = value (configC demo_metaC plainC plainC) demo_store demo_object.
Proof.
  destruct (DeepCopyObject_independent demo_metaC (plainC (A := unit)) plainC plainC demo_store)
    as (_ & _ & Hc & _).
  destruct (Hc demo_object) as (b & t & E & _ & _ & _ & _ & Hw & _).
  - cbn. repeat split; eexists; (split; [reflexivity|done]).
  - exists b, t. split; [exact E|]. apply (Hw [(3%positive, CMap ∅)]). constructor; [|constructor].
    apply elem_of_dom. eexists. reflexivity.
Defined.
